(** * Secure aggregation (Bonawitz et al.) : the client / server round
    functions of [src/client.js], [src/server.js] and [src/helper.js],
    embedded as functions on an explicit object store, with the properties
    of the specification proved about them.

    Conventions of the embedding.
    - Party identifiers are the UUID strings produced by [randomUUID()]:
      they are compared with JavaScript's [<] on strings (lexicographic),
      they contain no ['|'] (so the key [`${i}|${j}`] of a ciphertext is the
      pair [(i, j)] and [split("|")[0]] is [i]) and they are not array
      indices (so [for ... in] enumerates a plain object in insertion
      order: objects are association lists).
    - An [undefined] property is [None].
    - Objects that are shared by reference (the [clientList] maps) live in
      a heap; a reference is a position in it.
    - The primitives of [crypto.webcrypto], [random-seed] and [shamir] are
      parameters ([Primitives]); their random choices are read from a tape
      that each client carries. *)

From Stdlib Require Import ZArith QArith Qround Qabs String List Lia Lqa.
From stdpp Require Import base tactics option list strings pretty.

Open Scope Z_scope.

(** ** Numbers *)

(** [DataView.prototype.setInt32] stores [ToInt32] of its argument. *)
Definition toInt32 (z : Z) : Z := (z + 2 ^ 31) mod 2 ^ 32 - 2 ^ 31.

(** A value handed to [setInt32]: an integer, or [NaN] (an operand was
    [undefined]), which [ToInt32] maps to [0]. *)
Definition setInt32 (v : option Z) : Z :=
  match v with Some z => toInt32 z | None => 0 end.

(** [a + b] where [b] may be [undefined]. *)
Definition jsAdd (a : Z) (b : option Z) : option Z :=
  match b with Some z => Some (a + z) | None => None end.

(** [a - b] where [a] may be [undefined]. *)
Definition jsSubFrom (a : option Z) (b : Z) : option Z :=
  match a with Some z => Some (z - b) | None => None end.

(** IEEE-754 binary64 values are rationals; [fl] rounds a rational to the
    nearest binary64 (ties to even), for results in the normal range. *)
Definition pow2 (e : Z) : Q :=
  if 0 <=? e then inject_Z (2 ^ e) else 1 # Z.to_pos (2 ^ (- e)).

Definition floorLog2 (q : Q) : Z :=
  let e0 := Z.log2 (Qnum q) - Z.log2 (Zpos (Qden q)) in
  if Qle_bool (pow2 e0) q then e0 else e0 - 1.

Definition roundHalfEven (q : Q) : Z :=
  let f := Qfloor q in
  match Qcompare (q - inject_Z f) (1 # 2) with
  | Lt => f
  | Gt => f + 1
  | Eq => if Z.even f then f else f + 1
  end.

Definition fl (q : Q) : Q :=
  match Qcompare q 0 with
  | Eq => 0%Q
  | c =>
      let a := Qabs q in
      let e := floorLog2 a - 52 in
      let v := (inject_Z (roundHalfEven (a / pow2 e)) * pow2 e)%Q in
      Qred (match c with Lt => - v | _ => v end)
  end.

(** A JavaScript Number that may fail to be finite ([x / 0]). *)
Inductive Number := Finite (q : Q) | NotFinite.

Definition numDiv (a : Number) (b : Q) : Number :=
  match a with
  | Finite x => if Qeq_bool b 0 then NotFinite else Finite (fl (x / b))
  | NotFinite => NotFinite
  end.

Definition numAdd (a : Number) (b : Q) : Number :=
  match a with Finite x => Finite (fl (x + b)) | NotFinite => NotFinite end.

(** The digits [n] of [x.toFixed(4)], as the integer [n] with
    [n / 10^4] closest to [x] (of two such, the larger in magnitude); for
    [|x| < 10^21]. *)
Definition toFixed4 (x : Q) : Z :=
  let n := Qfloor (Qabs x * 10000 + (1 # 2)) in
  match Qcompare x 0 with Lt => - n | _ => n end.

Definition Qtrunc (z : Q) : Z := Z.quot (Qnum z) (Zpos (Qden z)).

(** [Number.parseInt(x.toFixed(4) * (10**4))]. The string of [toFixed] is
    converted back to a Number, multiplied by [10000] in binary64, printed
    and parsed up to the decimal point: the product is truncated. [None]
    where the embedding does not follow the conversions: [toFixed] or
    [ToString] switch to exponent notation ([|x| >= 10^21],
    [0 < |product| < 10^-6]), or the product is [2^52] or more in
    magnitude, from where the accumulator's additions are no longer exact
    in binary64. *)
Definition secretValueRounded (x : Q) : option Z :=
  if Qle_bool (inject_Z (10 ^ 21)) (Qabs x) then None
  else
    let y := fl (inject_Z (toFixed4 x) / 10000) in
    let z := fl (y * 10000) in
    if Qle_bool (inject_Z (2 ^ 52)) (Qabs z) then None
    else if Qeq_bool z 0 then Some 0
    else if Qle_bool (1 # 1000000) (Qabs z) then Some (Qtrunc z)
    else None.

(** [new DataView(buffer, 0).getInt16(off)]: two bytes, big endian, signed;
    [None] is the [RangeError] of a short buffer. *)
Definition getInt16 (buffer : list Z) (off : nat) : option Z :=
  match buffer !! off, buffer !! S off with
  | Some hi, Some lo =>
      let u := (hi mod 256) * 256 + lo mod 256 in
      Some (if u <? 2 ^ 15 then u else u - 2 ^ 16)
  | _, _ => None
  end.

(** ** Errors *)

Inductive Err :=
| TooFewClients            (* 'Not enough client for user ...' *)
| KeyCollision             (* 'Collision between two public key pairs for client' *)
| TooFewCiphertexts        (* 'Not enough ciphertexts for user ...' *)
| TooFewSurvivors          (* 'Only ... clients up for threshold of ... for user ...' *)
| MembershipViolation      (* 'For user ID ..., there are IDs received for U3 that are not part of U2 ...' *)
| MisdirectedSender        (* '... metadata for ciphertext sender is ...' *)
| MisdirectedRecipient     (* '... the ciphertext should have been sent to ...' *)
| DecryptionFailed         (* subtle.decrypt rejects *)
| BelowThresholdU2         (* 'Only ... clients up ... at the end of round 1 for U2' *)
| BelowThresholdU3         (* 'Too many clients are down in Round 2 server Aggregation ...' *)
| BelowThresholdU5         (* 'Too many clients dropped in Round 4 server Aggregation ...' *)
| ReconstructionFailed     (* JSON.parse / subtle.importKey reject the recovered bytes *)
| SplitRefused             (* shamir's split throws: 'K must be > 1', 'N must be >= K', ... *)
| JSTypeError              (* a property of undefined is read, undefined is called, ... *)
| JSRangeError             (* DataView offset out of bounds *)
| Unmodelled.              (* outside the range this embedding follows *)

Inductive result (A : Type) : Type :=
| Ok (a : A)
| Throw (e : Err).
Arguments Ok {A} a.
Arguments Throw {A} e.

#[global] Instance result_ret : MRet result := fun A a => Ok a.
#[global] Instance result_bind : MBind result := fun A B f m =>
  match m with Ok a => f a | Throw e => Throw e end.

Definition orThrow {A} (e : Err) (o : option A) : result A :=
  match o with Some a => Ok a | None => Throw e end.

Fixpoint foldM {A S : Type} (f : A -> S -> result S) (l : list A) (s : S)
  : result S :=
  match l with
  | [] => Ok s
  | a :: l' => s' ← f a s; foldM f l' s'
  end.

(** ** Plain objects used as maps *)

Section AList.
Context {K V : Type} `{EqDecision K}.

Definition alist := list (K * V).

Fixpoint aget (k : K) (o : list (K * V)) : option V :=
  match o with
  | [] => None
  | (k', v) :: o' => if decide (k' = k) then Some v else aget k o'
  end.

(** [o[k] = v]: in place when the property exists, appended otherwise. *)
Fixpoint aset (k : K) (v : V) (o : list (K * V)) : list (K * V) :=
  match o with
  | [] => [(k, v)]
  | (k', v') :: o' =>
      if decide (k' = k) then (k, v) :: o' else (k', v') :: aset k v o'
  end.

(** [delete o[k]] *)
Fixpoint adelete (k : K) (o : list (K * V)) : list (K * V) :=
  match o with
  | [] => []
  | (k', v') :: o' =>
      if decide (k' = k) then o' else (k', v') :: adelete k o'
  end.

(** [Object.keys(o)], also the order of [for (k in o)]. *)
Definition akeys (o : list (K * V)) : list K := fst <$> o.
End AList.

(** [arr.includes(x)] *)
Definition includes {A} `{EqDecision A} (l : list A) (x : A) : bool :=
  bool_decide (x ∈ l).

(** ** Keys, shares, ciphertexts *)

Abbreviation PID := string (only parsing).
Abbreviation Bytes := (list Z) (only parsing).
Abbreviation Share := (list Z) (only parsing).
Abbreviation loc := nat (only parsing).

Inductive PrivKey := PrivK (n : Z).
Inductive PubKey := PubK (n : Z).
Inductive AESKey := AESK (n : Z).

#[global] Instance PrivKey_eq_dec : EqDecision PrivKey.
Proof. solve_decision. Defined.
#[global] Instance PubKey_eq_dec : EqDecision PubKey.
Proof. solve_decision. Defined.
#[global] Instance AESKey_eq_dec : EqDecision AESKey.
Proof. solve_decision. Defined.

(** The text [`${u}|${v}|${keySplit}|${seedSplit}|${index}`]; a share that
    is [undefined] prints as such and is [None]. *)
Record Plaintext := mkPlaintext {
  pt_u : PID;
  pt_v : PID;
  pt_keySplit : option Share;
  pt_seedSplit : option Share;
  pt_index : nat
}.

(** AES-GCM, symbolically: a ciphertext opens under the key and the IV it
    was made with, and under no other. *)
Record Sealed := mkSealed {
  sealed_key : AESKey;
  sealed_iv : Z;
  sealed_msg : Plaintext
}.

(** [{ 'ciphertext': ..., 'iv': ... }] *)
Record CipherMsg := mkCipherMsg { ciphertext : Sealed; iv : Z }.

Definition AESGCMEncrypt (key : AESKey) (fresh_iv : Z) (message : Plaintext)
  : CipherMsg :=
  {| ciphertext := mkSealed key fresh_iv message; iv := fresh_iv |}.

Definition AESGCMDecrypt (key : AESKey) (c : Sealed) (iv0 : Z)
  : option Plaintext :=
  if decide (sealed_key c = key /\ sealed_iv c = iv0)
  then Some (sealed_msg c) else None.

(** An entry of [splits]: [{ 'seedSplit': ..., 'index': ... }] or
    [{ 'keySplit': ..., 'index': ... }]. *)
Inductive Split :=
| SeedSplit (seedSplit : option Share) (index : nat)
| KeySplit (keySplit : option Share) (index : nat).

Definition splitIndex (s : Split) : nat :=
  match s with SeedSplit _ i => i | KeySplit _ i => i end.

(** The state of a generator made by [gen.create(seed)]: its seed ([None]
    is [NaN]) and the number of values drawn so far. *)
Record PRNGState := mkPRNG { prng_seed : option Z; prng_drawn : nat }.

(** The library functions the protocol is built on. *)
Record Primitives := {
  (** [subtle.deriveBits({name: "ECDH", public}, private, 128)] *)
  deriveBits : PrivKey -> PubKey -> list Z;
  (** [subtle.deriveKey] to an AES-GCM key *)
  deriveKey : PrivKey -> PubKey -> AESKey;
  (** the UTF-8 bytes of [JSON.stringify(await subtle.exportKey("jwk", k))] *)
  exportKey : PrivKey -> Bytes;
  (** [subtle.importKey("jwk", JSON.parse(decode(bytes)), ...)] *)
  importKey : Bytes -> option PrivKey;
  (** [random-seed]: the value of the [k]-th call [g(2 ** 32)] of
      [g = gen.create(seed)] *)
  gen : option Z -> nat -> Z;
  (** [shamir]: the shares number 1, 2, ... of
      [split(randomBytes, n, t, secret)], the random bytes being [coins];
      [None] when [split] throws: it refuses a threshold of one or less
      ('K must be > 1'), fewer shares than the threshold
      ('N must be >= K') and more shares than the library makes *)
  split : Z -> nat -> Z -> Bytes -> option (list Share);
  (** [shamir]: [join(parts)] *)
  join : list (nat * option Share) -> Bytes;
  (** [new TextEncoder().encode(n)] of a number *)
  encodeNumber : Z -> Bytes;
  (** [parseInt(new TextDecoder().decode(bytes))]; [None] is [NaN] *)
  parseIntBytes : Bytes -> option Z
}.

(** The shares that [split] returns, where it returns. *)
Definition sharesOf (P : Primitives) (coins : Z) (n : nat) (t : Z)
    (secret : Bytes) : list Share :=
  default [] (split P coins n t secret).

(** [shares[index]] for the object that [split] returns: its keys are
    [1], [2], ... *)
Definition shareAt (shares : list Share) (index : nat) : option Share :=
  match index with
  | O => None
  | S k => shares !! k
  end.

(** [g(2 ** 32)] is an integer of [[0, 2^32)]. *)
Definition draw (P : Primitives) (g : PRNGState) : Z * PRNGState :=
  (gen P (prng_seed g) (prng_drawn g) mod 2 ^ 32,
   mkPRNG (prng_seed g) (S (prng_drawn g))).

(** The random choices of one client during a run. *)
Record Tape := mkTape {
  t_seedKey : PrivKey * PubKey;       (* first subtle.generateKey *)
  t_encryptionKey : PrivKey * PubKey; (* second subtle.generateKey *)
  t_selfMaskSeed : Z;                 (* gen.create()(2 ** 32) *)
  t_keyCoins : Z;                     (* randomBytes of the first split *)
  t_seedCoins : Z;                    (* randomBytes of the second split *)
  t_iv : PID -> Z;                    (* getRandomValues, per recipient *)
  t_autoSeed : Z                      (* the seed gen.create(undefined) picks *)
}.

(** ** Entries of the [clientList] maps

    [ClientForServer] and [ClientForClient] objects are records of
    optional properties: the first class sets [client], [id],
    [seedPublicKey], [encryptionPublicKey] and [isUp], the second [id],
    [seedPublicKey], [seed], [AESKey] and [PRNG]; [ciphertext] is added by
    [receiveCiphertexts] ([Some None]: present and [undefined]). *)
Module Peer.
Record t := mk {
  client : option nat;   (* reference to a Client object *)
  id : PID;
  seedPublicKey : option PubKey;
  encryptionPublicKey : option PubKey;
  isUp : option bool;
  seed : option Z;
  AESKey_ : option AESKey;
  PRNG : option PRNGState;
  ciphertext_ : option (option CipherMsg)
}.

Definition set_PRNG (g : PRNGState) (p : t) : t :=
  mk (client p) (id p) (seedPublicKey p) (encryptionPublicKey p) (isUp p)
     (seed p) (AESKey_ p) (Some g) (ciphertext_ p).

Definition set_ciphertext (c : option CipherMsg) (p : t) : t :=
  mk (client p) (id p) (seedPublicKey p) (encryptionPublicKey p) (isUp p)
     (seed p) (AESKey_ p) (PRNG p) (Some c).
End Peer.

Definition ClientForServer (client : nat) (id : PID)
    (seedPublicKey encryptionPublicKey : option PubKey) : Peer.t :=
  Peer.mk (Some client) id seedPublicKey encryptionPublicKey (Some true)
          None None None None.

Definition ClientForClient (id : PID) (seedPublicKey : option PubKey)
    (seed : Z) (AESKey : AESKey) (PRNG : PRNGState) : Peer.t :=
  Peer.mk None id seedPublicKey None None (Some seed) (Some AESKey)
          (Some PRNG) None.

(** A map object [{ id: entry, ... }] and the heap of such objects. *)
Abbreviation Obj := (list (PID * Peer.t)) (only parsing).
Abbreviation Heap := (list (list (PID * Peer.t))) (only parsing).

(** The value of a property read off a map object. *)
Inductive JSVal := VUndefined | VNumber (z : Z) | VObject (p : Peer.t).

(** [o.length] on a plain object: an ordinary property lookup. *)
Definition propLength (o : Obj) : JSVal :=
  match aget "length"%string o with
  | Some p => VObject p
  | None => VUndefined
  end.

(** [v < n] for a number [n]: [undefined] and plain objects convert to
    [NaN], and every comparison with [NaN] is false. *)
Definition jsLt (v : JSVal) (n : Z) : bool :=
  match v with VNumber z => z <? n | _ => false end.

(** [n < v] *)
Definition jsGt (v : JSVal) (n : Z) : bool :=
  match v with VNumber z => n <? z | _ => false end.

(** ** The client ([src/client.js]) *)

Module Client.

Record state := mk {
  id : PID;
  secretValue : Q;
  nbClients : nat;
  threshold : Z;
  isUp : bool;
  tape : Tape;   (* the random choices this client will make *)
  seedPrivateKey : option PrivKey;
  seedPublicKey : option PubKey;
  encryptionPrivateKey : option PrivKey;
  encryptionPublicKey : option PubKey;
  clientList : option loc;
  selfMaskSeed : option Z;
  secretKeyShamir : option (list Share);
  selfMaskSeedShamir : option (list Share);
  ownPrivateKeyShare : option Share;
  ownSelfMaskSeedShare : option Share;
  ownIndex : option nat;
  ciphertexts : option (list (PID * PID * CipherMsg));
  clientListU2 : option loc;
  maskedGradient : option Z;
  clientIDsU2 : option (list PID);
  clientIDsU3 : option (list PID);
  IDsinU2NotInU3 : option (list PID);
  splits : option (list (PID * Split))
}.

Definition set_isUp (v : bool) (c : state) : state :=
  mk (id c) (secretValue c) (nbClients c) (threshold c) v (tape c)
     (seedPrivateKey c) (seedPublicKey c) (encryptionPrivateKey c)
     (encryptionPublicKey c) (clientList c) (selfMaskSeed c)
     (secretKeyShamir c) (selfMaskSeedShamir c) (ownPrivateKeyShare c)
     (ownSelfMaskSeedShare c) (ownIndex c) (ciphertexts c) (clientListU2 c)
     (maskedGradient c) (clientIDsU2 c) (clientIDsU3 c) (IDsinU2NotInU3 c)
     (splits c).

Definition set_seedPrivateKey (v : option PrivKey) (c : state) : state :=
  mk (id c) (secretValue c) (nbClients c) (threshold c) (isUp c) (tape c) v
     (seedPublicKey c) (encryptionPrivateKey c) (encryptionPublicKey c)
     (clientList c) (selfMaskSeed c) (secretKeyShamir c)
     (selfMaskSeedShamir c) (ownPrivateKeyShare c) (ownSelfMaskSeedShare c)
     (ownIndex c) (ciphertexts c) (clientListU2 c) (maskedGradient c)
     (clientIDsU2 c) (clientIDsU3 c) (IDsinU2NotInU3 c) (splits c).

Definition set_seedPublicKey (v : option PubKey) (c : state) : state :=
  mk (id c) (secretValue c) (nbClients c) (threshold c) (isUp c) (tape c)
     (seedPrivateKey c) v (encryptionPrivateKey c) (encryptionPublicKey c)
     (clientList c) (selfMaskSeed c) (secretKeyShamir c)
     (selfMaskSeedShamir c) (ownPrivateKeyShare c) (ownSelfMaskSeedShare c)
     (ownIndex c) (ciphertexts c) (clientListU2 c) (maskedGradient c)
     (clientIDsU2 c) (clientIDsU3 c) (IDsinU2NotInU3 c) (splits c).

Definition set_encryptionPrivateKey (v : option PrivKey) (c : state) : state :=
  mk (id c) (secretValue c) (nbClients c) (threshold c) (isUp c) (tape c)
     (seedPrivateKey c) (seedPublicKey c) v (encryptionPublicKey c)
     (clientList c) (selfMaskSeed c) (secretKeyShamir c)
     (selfMaskSeedShamir c) (ownPrivateKeyShare c) (ownSelfMaskSeedShare c)
     (ownIndex c) (ciphertexts c) (clientListU2 c) (maskedGradient c)
     (clientIDsU2 c) (clientIDsU3 c) (IDsinU2NotInU3 c) (splits c).

Definition set_encryptionPublicKey (v : option PubKey) (c : state) : state :=
  mk (id c) (secretValue c) (nbClients c) (threshold c) (isUp c) (tape c)
     (seedPrivateKey c) (seedPublicKey c) (encryptionPrivateKey c) v
     (clientList c) (selfMaskSeed c) (secretKeyShamir c)
     (selfMaskSeedShamir c) (ownPrivateKeyShare c) (ownSelfMaskSeedShare c)
     (ownIndex c) (ciphertexts c) (clientListU2 c) (maskedGradient c)
     (clientIDsU2 c) (clientIDsU3 c) (IDsinU2NotInU3 c) (splits c).

Definition set_clientList (v : option loc) (c : state) : state :=
  mk (id c) (secretValue c) (nbClients c) (threshold c) (isUp c) (tape c)
     (seedPrivateKey c) (seedPublicKey c) (encryptionPrivateKey c)
     (encryptionPublicKey c) v (selfMaskSeed c) (secretKeyShamir c)
     (selfMaskSeedShamir c) (ownPrivateKeyShare c) (ownSelfMaskSeedShare c)
     (ownIndex c) (ciphertexts c) (clientListU2 c) (maskedGradient c)
     (clientIDsU2 c) (clientIDsU3 c) (IDsinU2NotInU3 c) (splits c).

Definition set_selfMaskSeed (v : option Z) (c : state) : state :=
  mk (id c) (secretValue c) (nbClients c) (threshold c) (isUp c) (tape c)
     (seedPrivateKey c) (seedPublicKey c) (encryptionPrivateKey c)
     (encryptionPublicKey c) (clientList c) v (secretKeyShamir c)
     (selfMaskSeedShamir c) (ownPrivateKeyShare c) (ownSelfMaskSeedShare c)
     (ownIndex c) (ciphertexts c) (clientListU2 c) (maskedGradient c)
     (clientIDsU2 c) (clientIDsU3 c) (IDsinU2NotInU3 c) (splits c).

Definition set_secretKeyShamir (v : option (list Share)) (c : state) : state :=
  mk (id c) (secretValue c) (nbClients c) (threshold c) (isUp c) (tape c)
     (seedPrivateKey c) (seedPublicKey c) (encryptionPrivateKey c)
     (encryptionPublicKey c) (clientList c) (selfMaskSeed c) v
     (selfMaskSeedShamir c) (ownPrivateKeyShare c) (ownSelfMaskSeedShare c)
     (ownIndex c) (ciphertexts c) (clientListU2 c) (maskedGradient c)
     (clientIDsU2 c) (clientIDsU3 c) (IDsinU2NotInU3 c) (splits c).

Definition set_selfMaskSeedShamir (v : option (list Share)) (c : state) : state :=
  mk (id c) (secretValue c) (nbClients c) (threshold c) (isUp c) (tape c)
     (seedPrivateKey c) (seedPublicKey c) (encryptionPrivateKey c)
     (encryptionPublicKey c) (clientList c) (selfMaskSeed c)
     (secretKeyShamir c) v (ownPrivateKeyShare c) (ownSelfMaskSeedShare c)
     (ownIndex c) (ciphertexts c) (clientListU2 c) (maskedGradient c)
     (clientIDsU2 c) (clientIDsU3 c) (IDsinU2NotInU3 c) (splits c).

Definition set_ownPrivateKeyShare (v : option Share) (c : state) : state :=
  mk (id c) (secretValue c) (nbClients c) (threshold c) (isUp c) (tape c)
     (seedPrivateKey c) (seedPublicKey c) (encryptionPrivateKey c)
     (encryptionPublicKey c) (clientList c) (selfMaskSeed c)
     (secretKeyShamir c) (selfMaskSeedShamir c) v (ownSelfMaskSeedShare c)
     (ownIndex c) (ciphertexts c) (clientListU2 c) (maskedGradient c)
     (clientIDsU2 c) (clientIDsU3 c) (IDsinU2NotInU3 c) (splits c).

Definition set_ownSelfMaskSeedShare (v : option Share) (c : state) : state :=
  mk (id c) (secretValue c) (nbClients c) (threshold c) (isUp c) (tape c)
     (seedPrivateKey c) (seedPublicKey c) (encryptionPrivateKey c)
     (encryptionPublicKey c) (clientList c) (selfMaskSeed c)
     (secretKeyShamir c) (selfMaskSeedShamir c) (ownPrivateKeyShare c) v
     (ownIndex c) (ciphertexts c) (clientListU2 c) (maskedGradient c)
     (clientIDsU2 c) (clientIDsU3 c) (IDsinU2NotInU3 c) (splits c).

Definition set_ownIndex (v : option nat) (c : state) : state :=
  mk (id c) (secretValue c) (nbClients c) (threshold c) (isUp c) (tape c)
     (seedPrivateKey c) (seedPublicKey c) (encryptionPrivateKey c)
     (encryptionPublicKey c) (clientList c) (selfMaskSeed c)
     (secretKeyShamir c) (selfMaskSeedShamir c) (ownPrivateKeyShare c)
     (ownSelfMaskSeedShare c) v (ciphertexts c) (clientListU2 c)
     (maskedGradient c) (clientIDsU2 c) (clientIDsU3 c) (IDsinU2NotInU3 c)
     (splits c).

Definition set_ciphertexts (v : option (list (PID * PID * CipherMsg))) (c : state) : state :=
  mk (id c) (secretValue c) (nbClients c) (threshold c) (isUp c) (tape c)
     (seedPrivateKey c) (seedPublicKey c) (encryptionPrivateKey c)
     (encryptionPublicKey c) (clientList c) (selfMaskSeed c)
     (secretKeyShamir c) (selfMaskSeedShamir c) (ownPrivateKeyShare c)
     (ownSelfMaskSeedShare c) (ownIndex c) v (clientListU2 c)
     (maskedGradient c) (clientIDsU2 c) (clientIDsU3 c) (IDsinU2NotInU3 c)
     (splits c).

Definition set_clientListU2 (v : option loc) (c : state) : state :=
  mk (id c) (secretValue c) (nbClients c) (threshold c) (isUp c) (tape c)
     (seedPrivateKey c) (seedPublicKey c) (encryptionPrivateKey c)
     (encryptionPublicKey c) (clientList c) (selfMaskSeed c)
     (secretKeyShamir c) (selfMaskSeedShamir c) (ownPrivateKeyShare c)
     (ownSelfMaskSeedShare c) (ownIndex c) (ciphertexts c) v
     (maskedGradient c) (clientIDsU2 c) (clientIDsU3 c) (IDsinU2NotInU3 c)
     (splits c).

Definition set_maskedGradient (v : option Z) (c : state) : state :=
  mk (id c) (secretValue c) (nbClients c) (threshold c) (isUp c) (tape c)
     (seedPrivateKey c) (seedPublicKey c) (encryptionPrivateKey c)
     (encryptionPublicKey c) (clientList c) (selfMaskSeed c)
     (secretKeyShamir c) (selfMaskSeedShamir c) (ownPrivateKeyShare c)
     (ownSelfMaskSeedShare c) (ownIndex c) (ciphertexts c) (clientListU2 c)
     v (clientIDsU2 c) (clientIDsU3 c) (IDsinU2NotInU3 c) (splits c).

Definition set_clientIDsU2 (v : option (list PID)) (c : state) : state :=
  mk (id c) (secretValue c) (nbClients c) (threshold c) (isUp c) (tape c)
     (seedPrivateKey c) (seedPublicKey c) (encryptionPrivateKey c)
     (encryptionPublicKey c) (clientList c) (selfMaskSeed c)
     (secretKeyShamir c) (selfMaskSeedShamir c) (ownPrivateKeyShare c)
     (ownSelfMaskSeedShare c) (ownIndex c) (ciphertexts c) (clientListU2 c)
     (maskedGradient c) v (clientIDsU3 c) (IDsinU2NotInU3 c) (splits c).

Definition set_clientIDsU3 (v : option (list PID)) (c : state) : state :=
  mk (id c) (secretValue c) (nbClients c) (threshold c) (isUp c) (tape c)
     (seedPrivateKey c) (seedPublicKey c) (encryptionPrivateKey c)
     (encryptionPublicKey c) (clientList c) (selfMaskSeed c)
     (secretKeyShamir c) (selfMaskSeedShamir c) (ownPrivateKeyShare c)
     (ownSelfMaskSeedShare c) (ownIndex c) (ciphertexts c) (clientListU2 c)
     (maskedGradient c) (clientIDsU2 c) v (IDsinU2NotInU3 c) (splits c).

Definition set_IDsinU2NotInU3 (v : option (list PID)) (c : state) : state :=
  mk (id c) (secretValue c) (nbClients c) (threshold c) (isUp c) (tape c)
     (seedPrivateKey c) (seedPublicKey c) (encryptionPrivateKey c)
     (encryptionPublicKey c) (clientList c) (selfMaskSeed c)
     (secretKeyShamir c) (selfMaskSeedShamir c) (ownPrivateKeyShare c)
     (ownSelfMaskSeedShare c) (ownIndex c) (ciphertexts c) (clientListU2 c)
     (maskedGradient c) (clientIDsU2 c) (clientIDsU3 c) v (splits c).

Definition set_splits (v : option (list (PID * Split))) (c : state) : state :=
  mk (id c) (secretValue c) (nbClients c) (threshold c) (isUp c) (tape c)
     (seedPrivateKey c) (seedPublicKey c) (encryptionPrivateKey c)
     (encryptionPublicKey c) (clientList c) (selfMaskSeed c)
     (secretKeyShamir c) (selfMaskSeedShamir c) (ownPrivateKeyShare c)
     (ownSelfMaskSeedShare c) (ownIndex c) (ciphertexts c) (clientListU2 c)
     (maskedGradient c) (clientIDsU2 c) (clientIDsU3 c) (IDsinU2NotInU3 c) v.

(** [new Client(id, secretValue, nbClients, threshold)] *)
Definition new (tp : Tape) (id0 : PID) (secretValue0 : Q) (nbClients0 : nat)
    (threshold0 : Z) : state :=
  mk id0 secretValue0 nbClients0 threshold0 true tp None None None None None
     None None None None None None None None None None None None None.

(** The object a reference points to; [for (k in undefined)] runs no
    iteration. *)
Definition objAt (h : Heap) (l : option loc) : Obj :=
  match l with
  | Some l => default [] (h !! l)
  | None => []
  end.

Section WithPrimitives.
Variable P : Primitives.

(* ======== Round 0 ======== *)

Definition generateKeyPairs (c : state) : state :=
  let c := set_seedPrivateKey (Some (fst (t_seedKey (tape c)))) c in
  let c := set_seedPublicKey (Some (snd (t_seedKey (tape c)))) c in
  let c := set_encryptionPrivateKey (Some (fst (t_encryptionKey (tape c)))) c in
  set_encryptionPublicKey (Some (snd (t_encryptionKey (tape c)))) c.

Definition round0 (c : state) : state := generateKeyPairs c.

(* ======== Round 1 ======== *)

(** [clientList[i].publicKey]: neither class of entries has a [publicKey]
    property, so the value is [undefined] when the entry exists. *)
Definition publicKeyAt (o : Obj) (i : nat) : result (option PubKey) :=
  match aget (pretty i) o with
  | Some _ => Ok None
  | None => Throw JSTypeError
  end.

(** The number of iterations of [for (let i = 0; i < len; ++i)]. *)
Definition loopBound (len : JSVal) : nat :=
  match len with VNumber z => Z.to_nat z | _ => 0%nat end.

Definition checkCollisions (o : Obj) (len : nat) : result unit :=
  foldM (fun i _ =>
    foldM (fun j _ =>
      a ← publicKeyAt o i;
      b ← publicKeyAt o j;
      if decide (a = b) then Throw KeyCollision else Ok tt)
      (seq (S i) (len - S i)) tt)
    (seq 0 len) tt.

Definition receiveClients (clientList0 : loc) (c : state) (h : Heap)
  : result state :=
  o ← orThrow JSTypeError (h !! clientList0);
  if jsLt (propLength o) (threshold c) then
    (* the message reads [this.clientList.length] *)
    match clientList c with
    | Some _ => Throw TooFewClients
    | None => Throw JSTypeError
    end
  else
    _ ← checkCollisions o (loopBound (propLength o));
    Ok (set_clientList (Some clientList0) c).

Definition generateSelfMaskSeed (c : state) : state :=
  set_selfMaskSeed (Some (t_selfMaskSeed (tape c) mod 2 ^ 32)) c.

Definition generateSecretKeyShares (c : state) : result state :=
  priv ← orThrow JSTypeError (seedPrivateKey c);
  secretKeyShamir ←
    orThrow SplitRefused
      (split P (t_keyCoins (tape c)) (nbClients c) (threshold c)
         (exportKey P priv));
  Ok (set_secretKeyShamir (Some secretKeyShamir) c).

Definition generateSelfMaskSeedShares (c : state) : result state :=
  let secretKeyByte :=
    match selfMaskSeed c with Some z => encodeNumber P z | None => [] end in
  selfMaskSeedShamir ←
    orThrow SplitRefused
      (split P (t_seedCoins (tape c)) (nbClients c) (threshold c)
         secretKeyByte);
  Ok (set_selfMaskSeedShamir (Some selfMaskSeedShamir) c).

Definition pairwiseEntry (c : state) (o : Obj) (clientIteratedID : PID)
  : result Peer.t :=
  e ← orThrow JSTypeError (aget clientIteratedID o);
  let seedPublicKey := Peer.seedPublicKey e in
  priv ← orThrow JSTypeError (seedPrivateKey c);
  pub ← orThrow JSTypeError seedPublicKey;
  let seedBuffer := deriveBits P priv pub in
  seed ← orThrow JSRangeError (getInt16 seedBuffer 1);
  let PRNG := mkPRNG (Some seed) 0 in
  epriv ← orThrow JSTypeError (encryptionPrivateKey c);
  epub ← orThrow JSTypeError (Peer.encryptionPublicKey e);
  let AESKey := deriveKey P epriv epub in
  Ok (ClientForClient clientIteratedID seedPublicKey seed AESKey PRNG).

(** The body of the loop of [computePairwiseEncryption]. *)
Definition addPairwiseEntry (c : state) (o : Obj) (clientIteratedID : PID)
    (clientList_ : Obj) : result Obj :=
  if decide (clientIteratedID <> id c) then
    e ← pairwiseEntry c o clientIteratedID;
    Ok (aset clientIteratedID e clientList_)
  else Ok clientList_.

Definition computePairwiseEncryption (c : state) (h : Heap)
  : result (state * Heap) :=
  let o := objAt h (clientList c) in
  clientList_ ← foldM (addPairwiseEntry c o) (akeys o) [];
  Ok (set_clientList (Some (length h)) c, h ++ [clientList_]).

(** The body of the loop of [generateCiphertexts]; the state is the
    object [ciphertexts] and the counter [index]. *)
Definition addCiphertext (c : state) (o : Obj) (clientIteratedID : PID)
    (st : list (PID * PID * CipherMsg) * nat)
  : result (list (PID * PID * CipherMsg) * nat) :=
  let '(cts, index) := st in
  if decide (clientIteratedID <> id c) then
    sk ← orThrow JSTypeError (secretKeyShamir c);
    sm ← orThrow JSTypeError (selfMaskSeedShamir c);
    let secret :=
      mkPlaintext (id c) clientIteratedID (shareAt sk index)
        (shareAt sm index) index in
    e ← orThrow JSTypeError (aget clientIteratedID o);
    key ← orThrow JSTypeError (Peer.AESKey_ e);
    Ok (aset (id c, clientIteratedID)
          (AESGCMEncrypt key (t_iv (tape c) clientIteratedID) secret) cts,
        S index)
  else Ok (cts, S index).

Definition generateCiphertexts (c : state) (h : Heap) : result state :=
  let o := objAt h (clientList c) in
  '(ciphertexts0, index) ← foldM (addCiphertext c o) (akeys o) ([], 1%nat);
  sk ← orThrow JSTypeError (secretKeyShamir c);
  sm ← orThrow JSTypeError (selfMaskSeedShamir c);
  let c := set_ownPrivateKeyShare (shareAt sk index) c in
  let c := set_ownSelfMaskSeedShare (shareAt sm index) c in
  let c := set_ownIndex (Some index) c in
  Ok (set_ciphertexts (Some ciphertexts0) c).

Definition round1 (c : state) (h : Heap) : result (state * Heap) :=
  if isUp c then
    let c := generateSelfMaskSeed c in
    c ← generateSecretKeyShares c;
    c ← generateSelfMaskSeedShares c;
    '(c, h) ← computePairwiseEncryption c h;
    c ← generateCiphertexts c h;
    Ok (c, h)
  else Ok (c, h).

(* ======== Round 2 ======== *)

(** The body of the loop that stores the ciphertexts received. *)
Definition storeCiphertext (c : state)
    (entry : PID * PID * option CipherMsg) (hc : Heap * Z)
  : result (Heap * Z) :=
  let '(clientsID, ct) := entry in
  let '(h, count) := hc in
  let clientID := fst clientsID in
  l ← orThrow JSTypeError (clientList c);
  o ← orThrow JSTypeError (h !! l);
  e ← orThrow JSTypeError (aget clientID o);
  Ok (<[l := aset clientID (Peer.set_ciphertext ct e) o]> h, count + 1).

(** The body of the loop that deletes the clients in U1 but not in U2. *)
Definition deleteWithoutCiphertext (c : state) (clientIteratedID : PID)
    (h : Heap) : result Heap :=
  e ← orThrow JSTypeError (aget clientIteratedID (objAt h (clientList c)));
  match Peer.ciphertext_ e, clientListU2 c with
  | None, Some l2 =>
      Ok (<[l2 := adelete clientIteratedID (objAt h (Some l2))]> h)
  | _, _ => Ok h
  end.

Definition receiveCiphertexts
    (ciphertexts0 : list (PID * PID * option CipherMsg)) (c : state)
    (h : Heap) : result (state * Heap) :=
  '(h, count) ← foldM (storeCiphertext c) ciphertexts0 (h, 0);
  (* Delete clients in U1 but not in U2 *)
  let c := set_clientListU2 (clientList c) c in
  h ← foldM (deleteWithoutCiphertext c) (akeys (objAt h (clientList c))) h;
  if count <? threshold c - 1 then Throw TooFewCiphertexts else Ok (c, h).

(** The body of the loop of [computeMaskedInputVector]; the state is the
    Int32 of the view and the heap, in which the generator of the peer
    advances. *)
Definition addPairwiseMask (c : state) (clientIteratedID : PID)
    (st : Z * Heap) : result (Z * Heap) :=
  let '(view, h) := st in
  l ← orThrow JSTypeError (clientList c);
  o ← orThrow JSTypeError (h !! l);
  e ← orThrow JSTypeError (aget clientIteratedID o);
  g ← orThrow JSTypeError (Peer.PRNG e);
  let '(mask, g) := draw P g in
  let h := <[l := aset clientIteratedID (Peer.set_PRNG g e) o]> h in
  if String.ltb clientIteratedID (id c) then
    Ok (toInt32 (view + mask), h)
  else if String.ltb (id c) clientIteratedID then
    Ok (toInt32 (view - mask), h)
  else Ok (view, h).

Definition computeMaskedInputVector (c : state) (h : Heap)
  : result (state * Heap) :=
  '(view, h) ← foldM (addPairwiseMask c)
                 (akeys (objAt h (clientListU2 c))) (0, h);
  secretValueRounded ← orThrow Unmodelled (secretValueRounded (secretValue c));
  let view := toInt32 (view + secretValueRounded) in
  let seed := default (t_autoSeed (tape c)) (selfMaskSeed c) in
  let selfMask := fst (draw P (mkPRNG (Some seed) 0)) in
  let view := toInt32 (view + selfMask) in
  Ok (set_maskedGradient (Some view) c, h).

Definition round2 (c : state) (h : Heap) : result (state * Heap) :=
  if isUp c then computeMaskedInputVector c h else Ok (c, h).

(* ======== Round 3 ======== *)

Definition receiveclientIDsU3 (clientIDsU3_ : list PID) (c : state) (h : Heap)
  : result state :=
  if Z.of_nat (length clientIDsU3_) <? threshold c then Throw TooFewSurvivors
  else
    l ← orThrow JSTypeError (clientListU2 c);
    let U2 := akeys (objAt h (Some l)) in
    let c := set_clientIDsU2 (Some U2) c in
    let c := set_clientIDsU3 (Some clientIDsU3_) c in
    let IDsInU3NotinU2 := filter (fun key => key ∉ U2) clientIDsU3_ in
    if 1 <? Z.of_nat (length IDsInU3NotinU2) then Throw MembershipViolation
    else
      Ok (set_IDsinU2NotInU3
            (Some (filter (fun key => key ∉ clientIDsU3_) U2)) c).

(** The body of the loop of [decryptCiphertext]. *)
Definition addSplit (c : state) (h : Heap) (clientIteratedID : PID)
    (splits0 : list (PID * Split)) : result (list (PID * Split)) :=
  if decide (clientIteratedID <> id c) then
    e ← orThrow JSTypeError (aget clientIteratedID (objAt h (clientList c)));
    ct ← orThrow JSTypeError (mjoin (Peer.ciphertext_ e));
    key ← orThrow JSTypeError (Peer.AESKey_ e);
    decoded ← orThrow DecryptionFailed
                (AESGCMDecrypt key (ciphertext ct) (iv ct));
    if decide (pt_u decoded <> clientIteratedID) then
      Throw MisdirectedSender
    else if decide (pt_v decoded <> id c) then Throw MisdirectedRecipient
    else
      U3 ← orThrow JSTypeError (clientIDsU3 c);
      if includes U3 clientIteratedID then
        Ok (aset clientIteratedID
              (SeedSplit (pt_seedSplit decoded) (pt_index decoded)) splits0)
      else
        Ok (aset clientIteratedID
              (KeySplit (pt_keySplit decoded) (pt_index decoded)) splits0)
  else Ok splits0.

Definition decryptCiphertext (c : state) (h : Heap) : result state :=
  splits0 ← foldM (addSplit c h) (akeys (objAt h (clientListU2 c))) [];
  own ← orThrow JSTypeError (ownSelfMaskSeedShare c);
  (* [ownIndex] is assigned together with [ownSelfMaskSeedShare] *)
  index ← orThrow Unmodelled (ownIndex c);
  Ok (set_splits (Some (aset (id c) (SeedSplit (Some own) index) splits0)) c).

Definition round3 (c : state) (h : Heap) : result state :=
  if isUp c then decryptCiphertext c h else Ok c.

Definition putDown (c : state) : state := set_isUp false c.

(** The calls that can be made on a client, and their effect. *)
Inductive Call :=
| CallRound0
| CallReceiveClients (clientList0 : loc)
| CallRound1
| CallReceiveCiphertexts (ciphertexts0 : list (PID * PID * option CipherMsg))
| CallRound2
| CallReceiveclientIDsU3 (clientIDsU3_ : list PID)
| CallRound3
| CallPutDown.

Definition perform (k : Call) (ch : state * Heap) : result (state * Heap) :=
  let '(c, h) := ch in
  match k with
  | CallRound0 => Ok (round0 c, h)
  | CallReceiveClients l => c ← receiveClients l c h; Ok (c, h)
  | CallRound1 => round1 c h
  | CallReceiveCiphertexts b => receiveCiphertexts b c h
  | CallRound2 => round2 c h
  | CallReceiveclientIDsU3 ids => c ← receiveclientIDsU3 ids c h; Ok (c, h)
  | CallRound3 => c ← round3 c h; Ok (c, h)
  | CallPutDown => Ok (putDown c, h)
  end.

End WithPrimitives.
End Client.

(** ** The server ([src/server.js]) *)

(** The objects of a run: the [Client] objects, which the server's array
    [clients] and the [client] property of its entries refer to by
    position, and the heap of [clientList] maps. *)
Record World := mkWorld {
  clientObjs : list Client.state;
  heap : Heap
}.

Module Server.

Record state := mk {
  clients : list nat;   (* the array of Client objects, as references *)
  nbClients : nat;
  threshold : Z;
  clientList : option loc;
  clientListU2 : option loc;
  clientCiphertextBuffer : option (list (PID * list (PID * PID * option CipherMsg)));
  clientIDsU2 : option (list PID);
  clientIDsU3 : option (list PID);
  clientU2NotInU3 : option (list PID);
  agg : option Z;
  clientIDsU5 : option (list PID);
  keyStocker : option (list (PID * list (PID * option Split)));
  seedStocker : option (list (PID * list (PID * option Split)));
  keysRetrieved : option (list (PID * PrivKey));
  seedRecovered : option (list (PID * Bytes))
}.

Definition set_clientList (v : option loc) (c : state) : state :=
  mk (clients c) (nbClients c) (threshold c) v (clientListU2 c)
     (clientCiphertextBuffer c) (clientIDsU2 c) (clientIDsU3 c)
     (clientU2NotInU3 c) (agg c) (clientIDsU5 c) (keyStocker c)
     (seedStocker c) (keysRetrieved c) (seedRecovered c).

Definition set_clientListU2 (v : option loc) (c : state) : state :=
  mk (clients c) (nbClients c) (threshold c) (clientList c) v
     (clientCiphertextBuffer c) (clientIDsU2 c) (clientIDsU3 c)
     (clientU2NotInU3 c) (agg c) (clientIDsU5 c) (keyStocker c)
     (seedStocker c) (keysRetrieved c) (seedRecovered c).

Definition set_clientCiphertextBuffer (v : option (list (PID * list (PID * PID * option CipherMsg)))) (c : state) : state :=
  mk (clients c) (nbClients c) (threshold c) (clientList c) (clientListU2 c)
     v (clientIDsU2 c) (clientIDsU3 c) (clientU2NotInU3 c) (agg c)
     (clientIDsU5 c) (keyStocker c) (seedStocker c) (keysRetrieved c)
     (seedRecovered c).

Definition set_clientIDsU2 (v : option (list PID)) (c : state) : state :=
  mk (clients c) (nbClients c) (threshold c) (clientList c) (clientListU2 c)
     (clientCiphertextBuffer c) v (clientIDsU3 c) (clientU2NotInU3 c)
     (agg c) (clientIDsU5 c) (keyStocker c) (seedStocker c)
     (keysRetrieved c) (seedRecovered c).

Definition set_clientIDsU3 (v : option (list PID)) (c : state) : state :=
  mk (clients c) (nbClients c) (threshold c) (clientList c) (clientListU2 c)
     (clientCiphertextBuffer c) (clientIDsU2 c) v (clientU2NotInU3 c)
     (agg c) (clientIDsU5 c) (keyStocker c) (seedStocker c)
     (keysRetrieved c) (seedRecovered c).

Definition set_clientU2NotInU3 (v : option (list PID)) (c : state) : state :=
  mk (clients c) (nbClients c) (threshold c) (clientList c) (clientListU2 c)
     (clientCiphertextBuffer c) (clientIDsU2 c) (clientIDsU3 c) v (agg c)
     (clientIDsU5 c) (keyStocker c) (seedStocker c) (keysRetrieved c)
     (seedRecovered c).

Definition set_agg (v : option Z) (c : state) : state :=
  mk (clients c) (nbClients c) (threshold c) (clientList c) (clientListU2 c)
     (clientCiphertextBuffer c) (clientIDsU2 c) (clientIDsU3 c)
     (clientU2NotInU3 c) v (clientIDsU5 c) (keyStocker c) (seedStocker c)
     (keysRetrieved c) (seedRecovered c).

Definition set_clientIDsU5 (v : option (list PID)) (c : state) : state :=
  mk (clients c) (nbClients c) (threshold c) (clientList c) (clientListU2 c)
     (clientCiphertextBuffer c) (clientIDsU2 c) (clientIDsU3 c)
     (clientU2NotInU3 c) (agg c) v (keyStocker c) (seedStocker c)
     (keysRetrieved c) (seedRecovered c).

Definition set_keyStocker (v : option (list (PID * list (PID * option Split)))) (c : state) : state :=
  mk (clients c) (nbClients c) (threshold c) (clientList c) (clientListU2 c)
     (clientCiphertextBuffer c) (clientIDsU2 c) (clientIDsU3 c)
     (clientU2NotInU3 c) (agg c) (clientIDsU5 c) v (seedStocker c)
     (keysRetrieved c) (seedRecovered c).

Definition set_seedStocker (v : option (list (PID * list (PID * option Split)))) (c : state) : state :=
  mk (clients c) (nbClients c) (threshold c) (clientList c) (clientListU2 c)
     (clientCiphertextBuffer c) (clientIDsU2 c) (clientIDsU3 c)
     (clientU2NotInU3 c) (agg c) (clientIDsU5 c) (keyStocker c) v
     (keysRetrieved c) (seedRecovered c).

Definition set_keysRetrieved (v : option (list (PID * PrivKey))) (c : state) : state :=
  mk (clients c) (nbClients c) (threshold c) (clientList c) (clientListU2 c)
     (clientCiphertextBuffer c) (clientIDsU2 c) (clientIDsU3 c)
     (clientU2NotInU3 c) (agg c) (clientIDsU5 c) (keyStocker c)
     (seedStocker c) v (seedRecovered c).

Definition set_seedRecovered (v : option (list (PID * Bytes))) (c : state) : state :=
  mk (clients c) (nbClients c) (threshold c) (clientList c) (clientListU2 c)
     (clientCiphertextBuffer c) (clientIDsU2 c) (clientIDsU3 c)
     (clientU2NotInU3 c) (agg c) (clientIDsU5 c) (keyStocker c)
     (seedStocker c) (keysRetrieved c) v.

(** [new Server(clients, nbClients, threshold)] *)
Definition new (clients0 : list nat) (nbClients0 : nat) (threshold0 : Z)
  : state :=
  mk clients0 nbClients0 threshold0 None None None None None None None None
     None None None None.

(** [entry.client.m(...)] for a method [m] that updates the client and the
    heap. *)
Definition callClient (e : Peer.t)
    (m : Client.state -> Heap -> result (Client.state * Heap)) (w : World)
  : result World :=
  ref ← orThrow JSTypeError (Peer.client e);
  c ← orThrow JSTypeError (clientObjs w !! ref);
  '(c, h) ← m c (heap w);
  Ok (mkWorld (<[ref := c]> (clientObjs w)) h).

(** [entry.client], read. *)
Definition clientOf (e : Peer.t) (w : World) : result Client.state :=
  ref ← orThrow JSTypeError (Peer.client e);
  orThrow JSTypeError (clientObjs w !! ref).

Definition objAt := Client.objAt.

Section WithPrimitives.
Variable P : Primitives.

(* ======== Round 0 ======== *)

(** The body of the loop of [receivePublicKeys]. *)
Definition addClientForServer (w : World) (ref : nat) (clientList0 : Obj)
  : result Obj :=
  c ← orThrow JSTypeError (clientObjs w !! ref);
  let client := ClientForServer ref (Client.id c) (Client.seedPublicKey c)
                  (Client.encryptionPublicKey c) in
  Ok (aset (Client.id c) client clientList0).

Definition receivePublicKeys (s : state) (w : World) : result (state * World) :=
  clientList0 ← foldM (addClientForServer w) (clients s) [];
  Ok (set_clientList (Some (length (heap w))) s,
      mkWorld (clientObjs w) (heap w ++ [clientList0])).

(** The body of the loop of [broadcastClients]. *)
Definition broadcastTo (s : state) (clientIteratedID : PID) (w : World)
  : result World :=
  l ← orThrow JSTypeError (clientList s);
  e ← orThrow JSTypeError (aget clientIteratedID (objAt (heap w) (Some l)));
  callClient e (fun c h => c ← Client.receiveClients l c h; Ok (c, h)) w.

Definition broadcastClients (s : state) (w : World) : result World :=
  foldM (broadcastTo s) (akeys (objAt (heap w) (clientList s))) w.

Definition round0 (s : state) (w : World) : result (state * World) :=
  '(s, w) ← receivePublicKeys s w;
  w ← broadcastClients s w;
  Ok (s, w).

(* ======== Round 1 ======== *)

(** The body of the loop of [computeU2]. *)
Definition deleteIfDown (s : state) (clientIteratedID : PID) (w : World)
  : result World :=
  e ← orThrow JSTypeError
        (aget clientIteratedID (objAt (heap w) (clientList s)));
  c ← clientOf e w;
  if negb (Client.isUp c) then
    match clientListU2 s with
    | Some l2 =>
        Ok (mkWorld (clientObjs w)
              (<[l2 := adelete clientIteratedID (objAt (heap w) (Some l2))]>
                 (heap w)))
    | None => Ok w
    end
  else Ok w.

Definition computeU2 (s : state) (w : World) : result (state * World) :=
  let s := set_clientListU2 (clientList s) s in
  w ← foldM (deleteIfDown s) (akeys (objAt (heap w) (clientList s))) w;
  l2 ← orThrow JSTypeError (clientListU2 s);
  if jsLt (propLength (objAt (heap w) (Some l2))) (threshold s)
  then Throw BelowThresholdU2
  else Ok (s, w).

(** The bodies of the three loops of [collectCiphertexts]. *)
Definition fetchCiphertexts (s : state) (w : World) (clientIteratedID : PID)
    (ciphertextStorer : list (PID * option (list (PID * PID * CipherMsg))))
  : result (list (PID * option (list (PID * PID * CipherMsg)))) :=
  e ← orThrow JSTypeError
        (aget clientIteratedID (objAt (heap w) (clientListU2 s)));
  c ← clientOf e w;
  Ok (aset clientIteratedID (Client.ciphertexts c) ciphertextStorer).

Definition sortInner
    (ciphertextStorer : list (PID * option (list (PID * PID * CipherMsg))))
    (clientIDOuter clientIDInner : PID)
    (clientOuterBuffer : list (PID * PID * option CipherMsg))
  : result (list (PID * PID * option CipherMsg)) :=
  if decide (clientIDOuter <> clientIDInner) then
    ciphertextsFromInner ← orThrow JSTypeError
      (mjoin (aget clientIDInner ciphertextStorer));
    let desiredProperty := (clientIDInner, clientIDOuter) in
    Ok (aset desiredProperty (aget desiredProperty ciphertextsFromInner)
          clientOuterBuffer)
  else Ok clientOuterBuffer.

Definition sortOuter
    (ciphertextStorer : list (PID * option (list (PID * PID * CipherMsg))))
    (U2 : list PID) (clientIDOuter : PID)
    (clientCiphertextBuffer0 : list (PID * list (PID * PID * option CipherMsg)))
  : result (list (PID * list (PID * PID * option CipherMsg))) :=
  clientOuterBuffer ← foldM (sortInner ciphertextStorer clientIDOuter) U2 [];
  Ok (aset clientIDOuter clientOuterBuffer clientCiphertextBuffer0).

Definition collectCiphertexts (s : state) (w : World) : result state :=
  let U2 := akeys (objAt (heap w) (clientListU2 s)) in
  ciphertextStorer ← foldM (fetchCiphertexts s w) U2 [];
  clientCiphertextBuffer0 ← foldM (sortOuter ciphertextStorer U2) U2 [];
  Ok (set_clientCiphertextBuffer (Some clientCiphertextBuffer0) s).

(** The body of the loop of [sendCiphertexts]. *)
Definition sendCiphertextsTo (s : state)
    (buffer : list (PID * list (PID * PID * option CipherMsg)))
    (clientIteratedID : PID) (w : World) : result World :=
  l2 ← orThrow JSTypeError (clientListU2 s);
  e ← orThrow JSTypeError (aget clientIteratedID (objAt (heap w) (Some l2)));
  callClient e
    (Client.receiveCiphertexts (default [] (aget clientIteratedID buffer))) w.

Definition sendCiphertexts (s : state) (w : World) : result World :=
  let buffer := default [] (clientCiphertextBuffer s) in
  foldM (sendCiphertextsTo s buffer) (akeys buffer) w.

Definition round1 (s : state) (w : World) : result (state * World) :=
  '(s, w) ← computeU2 s w;
  s ← collectCiphertexts s w;
  w ← sendCiphertexts s w;
  Ok (s, w).

(* ======== Round 2 ======== *)

(** The body of the loop shared by [computeU3] and [computeU5]. *)
Definition pushIfUp (s : state) (w : World) (clientIteratedID : PID)
    (ids : list PID) : result (list PID) :=
  e ← orThrow JSTypeError
        (aget clientIteratedID (objAt (heap w) (clientListU2 s)));
  c ← clientOf e w;
  if Client.isUp c then Ok (ids ++ [Peer.id e]) else Ok ids.

Definition upIDs (s : state) (w : World) : result (list PID) :=
  foldM (pushIfUp s w) (akeys (objAt (heap w) (clientListU2 s))) [].

Definition computeU3 (s : state) (w : World) : result state :=
  l2 ← orThrow JSTypeError (clientListU2 s);
  let U2 := akeys (objAt (heap w) (Some l2)) in
  let s := set_clientIDsU2 (Some U2) s in
  U3 ← upIDs s w;
  let s := set_clientIDsU3 (Some U3) s in
  let s := set_clientU2NotInU3 (Some (filter (fun key => key ∉ U3) U2)) s in
  if Z.of_nat (length U3) <? threshold s then Throw BelowThresholdU3
  else Ok s.

(** The body of the loop of [collectMaskedGradient]. *)
Definition addMaskedGradient (s : state) (w : World) (clientIteratedID : PID)
    (view : Z) : result Z :=
  U3 ← orThrow JSTypeError (clientIDsU3 s);
  if includes U3 clientIteratedID then
    e ← orThrow JSTypeError
          (aget clientIteratedID (objAt (heap w) (clientList s)));
    c ← clientOf e w;
    let clientIteratedMaskedGradient := Client.maskedGradient c in
    Ok (setInt32 (jsAdd view clientIteratedMaskedGradient))
  else Ok view.

Definition collectMaskedGradient (s : state) (w : World) : result state :=
  view ← foldM (addMaskedGradient s w)
           (akeys (objAt (heap w) (clientListU2 s))) 0;
  Ok (set_agg (Some view) s).

(** The body of the loop of [sendClientIDsU3]. *)
Definition sendClientIDsU3To (s : state) (clientIteratedID : PID) (w : World)
  : result World :=
  U3 ← orThrow JSTypeError (clientIDsU3 s);
  if includes U3 clientIteratedID then
    e ← orThrow JSTypeError
          (aget clientIteratedID (objAt (heap w) (clientList s)));
    callClient e
      (fun c h => c ← Client.receiveclientIDsU3 U3 c h; Ok (c, h)) w
  else Ok w.

Definition sendClientIDsU3 (s : state) (w : World) : result World :=
  foldM (sendClientIDsU3To s) (akeys (objAt (heap w) (clientListU2 s))) w.

Definition round2 (s : state) (w : World) : result (state * World) :=
  s ← computeU3 s w;
  s ← collectMaskedGradient s w;
  w ← sendClientIDsU3 s w;
  Ok (s, w).

(* ======== Round 3 ======== *)

Definition computeU5 (s : state) (w : World) : result state :=
  U5 ← upIDs s w;
  let s := set_clientIDsU5 (Some U5) s in
  if Z.of_nat (length U5) <? threshold s then Throw BelowThresholdU5
  else Ok s.

(** The two stockers, [{ holder: { owner: split } }]. *)
Definition Stockers : Type :=
  list (PID * list (PID * option Split)) *
  list (PID * list (PID * option Split)).

(** The bodies of the two loops of [collectResponses]. *)
Definition stockSplit (s : state) (w : World)
    (clientAliveID clientIteratedID : PID) (st : Stockers)
  : result Stockers :=
  let '(ks, ss) := st in
  dropped ← orThrow JSTypeError (clientU2NotInU3 s);
  e ← orThrow JSTypeError
        (aget clientAliveID (objAt (heap w) (clientListU2 s)));
  c ← clientOf e w;
  splits0 ← orThrow JSTypeError (Client.splits c);
  let v := aget clientIteratedID splits0 in
  if includes dropped clientIteratedID then
    row ← orThrow JSTypeError (aget clientAliveID ks);
    Ok (aset clientAliveID (aset clientIteratedID v row) ks, ss)
  else
    row ← orThrow JSTypeError (aget clientAliveID ss);
    Ok (ks, aset clientAliveID (aset clientIteratedID v row) ss).

Definition stockResponses (s : state) (w : World) (clientAliveID : PID)
    (st : Stockers) : result Stockers :=
  let '(ks, ss) := st in
  let ks := aset clientAliveID [] ks in
  let ss := aset clientAliveID [] ss in
  foldM (stockSplit s w clientAliveID)
    (akeys (objAt (heap w) (clientListU2 s))) (ks, ss).

Definition collectResponses (s : state) (w : World) : result state :=
  U5 ← orThrow JSTypeError (clientIDsU5 s);
  '(keyStocker0, seedStocker0) ← foldM (stockResponses s w) U5 ([], []);
  Ok (set_seedStocker (Some seedStocker0)
        (set_keyStocker (Some keyStocker0) s)).

(** [stocker[holder][owner]['index']] and the share under ['keySplit'] or
    ['seedSplit']; reading a property of [undefined] is a TypeError. *)
Definition stockedShare (wantKey : bool)
    (stocker : list (PID * list (PID * option Split))) (holder owner : PID)
  : result (nat * option Share) :=
  row ← orThrow JSTypeError (aget holder stocker);
  r ← orThrow JSTypeError (mjoin (aget owner row));
  match r, wantKey with
  | KeySplit sh i, true => Ok (i, sh)
  | SeedSplit sh i, false => Ok (i, sh)
  | _, _ => Throw JSTypeError
  end.

(** The body of the loops that fill [keyShamirRecover] and
    [seedShamirRecover]. *)
Definition gatherShare (wantKey : bool)
    (stocker : list (PID * list (PID * option Split))) (owner holder : PID)
    (recover : list (nat * option Share))
  : result (list (nat * option Share)) :=
  '(i, sh) ← stockedShare wantKey stocker holder owner;
  Ok (aset i sh recover).

(** The body of the outer loop of [reconstructDroppedClientsKeys]. *)
Definition recoverKey (s : state) (clientDroppedID : PID)
    (keysRetrieved0 : list (PID * PrivKey)) : result (list (PID * PrivKey)) :=
  let ks := default [] (keyStocker s) in
  keyShamirRecover ← foldM (gatherShare true ks clientDroppedID) (akeys ks) [];
  let recovered := join P keyShamirRecover in
  importedKey ← orThrow ReconstructionFailed (importKey P recovered);
  Ok (aset clientDroppedID importedKey keysRetrieved0).

Definition reconstructDroppedClientsKeys (s : state) : result state :=
  dropped ← orThrow JSTypeError (clientU2NotInU3 s);
  keysRetrieved0 ← foldM (recoverKey s) dropped [];
  Ok (set_keysRetrieved (Some keysRetrieved0) s).

(** The bodies of the two loops of [reconstructDroppedClientsMask]. *)
Definition addDroppedMask (s : state) (w : World)
    (privateKeyOfDroppedUser : PrivKey) (clientDroppedID clientIteratedID : PID)
    (view : Z) : result Z :=
  U3 ← orThrow JSTypeError (clientIDsU3 s);
  if includes U3 clientIteratedID then
    clientAlive ← orThrow JSTypeError
      (aget clientIteratedID (objAt (heap w) (clientListU2 s)));
    pub ← orThrow JSTypeError (Peer.seedPublicKey clientAlive);
    let seedBuffer := deriveBits P privateKeyOfDroppedUser pub in
    seed ← orThrow JSRangeError (getInt16 seedBuffer 1);
    let mask := fst (draw P (mkPRNG (Some seed) 0)) in
    if String.ltb (Peer.id clientAlive) clientDroppedID then
      Ok (toInt32 (view + mask))
    else Ok (toInt32 (view - mask))
  else Ok view.

Definition addDroppedMasks (s : state) (w : World)
    (keys : list (PID * PrivKey)) (clientDroppedID : PID) (view : Z)
  : result Z :=
  privateKeyOfDroppedUser ← orThrow JSTypeError (aget clientDroppedID keys);
  foldM (addDroppedMask s w privateKeyOfDroppedUser clientDroppedID)
    (akeys (objAt (heap w) (clientListU2 s))) view.

Definition reconstructDroppedClientsMask (s : state) (w : World)
  : result state :=
  let keys := default [] (keysRetrieved s) in
  view ← foldM (addDroppedMasks s w keys) (akeys keys) 0;
  let view := setInt32 (jsAdd view (agg s)) in
  Ok (set_agg (Some view) s).

(** The body of the outer loop of [reconstructAliveClientsSeed]. *)
Definition recoverSeed (s : state) (clientAliveReconstructedID : PID)
    (seedRecovered0 : list (PID * Bytes)) : result (list (PID * Bytes)) :=
  let ss := default [] (seedStocker s) in
  seedShamirRecover ←
    foldM (gatherShare false ss clientAliveReconstructedID) (akeys ss) [];
  let recovered := join P seedShamirRecover in
  Ok (aset clientAliveReconstructedID recovered seedRecovered0).

Definition reconstructAliveClientsSeed (s : state) : result state :=
  U3 ← orThrow JSTypeError (clientIDsU3 s);
  seedRecovered0 ← foldM (recoverSeed s) U3 [];
  Ok (set_seedRecovered (Some seedRecovered0) s).

(** The body of the loop of [reconstructAliveClientsMask]. *)
Definition addSelfMask (view : Z) (entry : PID * Bytes) : Z :=
  let seed := parseIntBytes P (snd entry) in
  let valueMask := fst (draw P (mkPRNG seed 0)) in
  toInt32 (valueMask + view).

Definition reconstructAliveClientsMask (s : state) : state :=
  let view := fold_left addSelfMask (default [] (seedRecovered s)) 0 in
  let view := setInt32 (jsSubFrom (agg s) view) in
  set_agg (Some view) s.

Definition round3 (s : state) (w : World) : result (Number * state) :=
  s ← computeU5 s w;
  s ← collectResponses s w;
  s ← reconstructDroppedClientsKeys s;
  s ← reconstructDroppedClientsMask s w;
  s ← reconstructAliveClientsSeed s;
  let s := reconstructAliveClientsMask s in
  agg0 ← orThrow JSTypeError (agg s);
  U3 ← orThrow JSTypeError (clientIDsU3 s);
  Ok (numDiv (numDiv (Finite (inject_Z agg0)) 10000)
        (inject_Z (Z.of_nat (length U3))), s).

(** The body of the loop of [aggregateWithoutSecrecy]. *)
Definition addSecret (s : state) (w : World) (clientIteratedID : PID)
    (st : Number * Z) : result (Number * Z) :=
  let '(sum, count) := st in
  U3 ← orThrow JSTypeError (clientIDsU3 s);
  if includes U3 clientIteratedID then
    e ← orThrow JSTypeError
          (aget clientIteratedID (objAt (heap w) (clientList s)));
    c ← clientOf e w;
    Ok (numAdd sum (Client.secretValue c), count + 1)
  else Ok (sum, count).

Definition aggregateWithoutSecrecy (s : state) (w : World) : result Number :=
  '(sum, count) ← foldM (addSecret s w)
                    (akeys (objAt (heap w) (clientList s))) (Finite 0, 0);
  Ok (numDiv sum (inject_Z count)).

End WithPrimitives.
End Server.

(** ** The driver ([src/run.js]) *)

Module Run.

(** The random id, secret and tape with which one client is created. *)
Abbreviation Input := (Tape * PID * Q)%type (only parsing).
Definition inTape (x : Input) : Tape := fst (fst x).
Definition inId (x : Input) : PID := snd (fst x).
Definition inSecret (x : Input) : Q := snd x.

(** [for (i ...) clientsArray[i].m()] *)
Definition forEachClient
    (m : Client.state -> Heap -> result (Client.state * Heap))
    (nbClient : nat) (w : World) : result World :=
  foldM (fun i w =>
      c ← orThrow JSTypeError (clientObjs w !! i);
      '(c, h) ← m c (heap w);
      Ok (mkWorld (<[i := c]> (clientObjs w)) h))
    (seq 0 nbClient) w.

(** [for (i ...) clientsArray[dropoutArrayIndex[k][i]].putDown()] *)
Definition putDownAll (indexes : list nat) (w : World) : result World :=
  foldM (fun i w =>
      c ← orThrow JSTypeError (clientObjs w !! i);
      Ok (mkWorld (<[i := Client.putDown c]> (clientObjs w)) (heap w)))
    indexes w.

(** What a run prints, with the final state of the server and of the
    objects. *)
Record Outcome := mkOutcome {
  masked : Number;
  plain : Number;
  finalServer : Server.state;
  finalWorld : World
}.

Section WithPrimitives.
Variable P : Primitives.

(** Clients and Server generation *)
Definition generation (inputs : list Input) (threshold : Z)
  : Server.state * World :=
  let nbClient := length inputs in
  let clientsArray :=
    (fun x => Client.new (inTape x) (inId x) (inSecret x) nbClient threshold)
      <$> inputs in
  (Server.new (seq 0 nbClient) nbClient threshold, mkWorld clientsArray []).

Definition round0 (nbClient : nat) (sw : Server.state * World)
  : result (Server.state * World) :=
  w ← forEachClient (fun c h => Ok (Client.round0 c, h)) nbClient (snd sw);
  Server.round0 (fst sw) w.

(** The clients' part of a round: the dropouts before it, the calls, the
    dropouts after it. *)
Definition clientsRound
    (m : Client.state -> Heap -> result (Client.state * Heap))
    (nbClient : nat) (before after : list nat) (w : World) : result World :=
  w ← putDownAll before w;
  w ← forEachClient m nbClient w;
  putDownAll after w.

Definition round1 (nbClient : nat) (dropout11 dropout12 : list nat)
    (sw : Server.state * World) : result (Server.state * World) :=
  w ← clientsRound (Client.round1 P) nbClient dropout11 dropout12 (snd sw);
  Server.round1 (fst sw) w.

Definition round2 (nbClient : nat) (dropout21 dropout22 : list nat)
    (sw : Server.state * World) : result (Server.state * World) :=
  w ← clientsRound (Client.round2 P) nbClient dropout21 dropout22 (snd sw);
  Server.round2 (fst sw) w.

Definition round3 (nbClient : nat) (dropout31 dropout32 : list nat)
    (sw : Server.state * World) : result Outcome :=
  w ← clientsRound (fun c h => c ← Client.round3 c h; Ok (c, h)) nbClient
         dropout31 dropout32 (snd sw);
  '(masked0, server) ← Server.round3 P (fst sw) w;
  plain0 ← Server.aggregateWithoutSecrecy server w;
  Ok (mkOutcome masked0 plain0 server w).

(** [runPersonalized(nbClient, threshold, dropout11, ..., dropout32)], the
    random ids, secrets and tapes of the clients being [inputs] and the
    random dropout indexes of the six spots being [dropoutArrayIndex]. *)
Definition runPersonalized (inputs : list Input) (threshold : Z)
    (dropoutArrayIndex : list (list nat)) : result Outcome :=
  let nbClient := length inputs in
  let dropouts k := default [] (dropoutArrayIndex !! k) in
  sw ← round0 nbClient (generation inputs threshold);
  sw ← round1 nbClient (dropouts 0%nat) (dropouts 1%nat) sw;
  sw ← round2 nbClient (dropouts 2%nat) (dropouts 3%nat) sw;
  round3 nbClient (dropouts 4%nat) (dropouts 5%nat) sw.

End WithPrimitives.
End Run.

(** ** A concrete instance of the primitives, and concrete runs

    A toy Diffie-Hellman (the shared number of [a] and [b] is [a * b]), a
    two-out-of-n sharing by lines ([share k = secret + coins * k]) and a
    linear generator, to run the functions on concrete inputs. The
    sharing refuses what [shamir] refuses: a threshold below two, fewer
    shares than the threshold, more than 255 shares. *)

Module Example.

Definition toyBits (a b : Z) : list Z :=
  [0; (a * b / 256) mod 256; (a * b) mod 256] ++ repeat 0 13.

Definition toyShares (coins : Z) (n : nat) (secret : Bytes) : list Share :=
  map (fun k => map (fun b => b + coins * Z.of_nat k) secret) (seq 1 n).

Definition toySplit (coins : Z) (n : nat) (t : Z) (secret : Bytes)
  : option (list Share) :=
  if (t <=? 1) || (Z.of_nat n <? t) || (255 <? Z.of_nat n) then None
  else Some (toyShares coins n secret).

Definition toyJoin (m : list (nat * option Share)) : Bytes :=
  match m with
  | (k1, Some y1) :: (k2, Some y2) :: _ =>
      zip_with (fun a b =>
          a - Z.of_nat k1 * ((b - a) / (Z.of_nat k2 - Z.of_nat k1))) y1 y2
  | _ => []
  end.

Definition toy : Primitives := {|
  deriveBits := fun '(PrivK a) '(PubK b) => toyBits a b;
  deriveKey := fun '(PrivK a) '(PubK b) => AESK (a * b);
  exportKey := fun '(PrivK a) => [a];
  importKey := fun b => match b with [a] => Some (PrivK a) | _ => None end;
  gen := fun s k =>
    match s with
    | Some z => z * 7919 + Z.of_nat k * 104729 + 12345678901
    | None => 17
    end;
  split := toySplit;
  join := toyJoin;
  encodeNumber := fun z => [z];
  parseIntBytes := fun b => match b with [z] => Some z | _ => None end
|}.

(** The Number that a decimal literal denotes. *)
Definition lit (q : Q) : Q := fl q.

Definition toyTape (a b selfMaskSeed0 c1 c2 : Z) : Tape :=
  mkTape (PrivK a, PubK a) (PrivK b, PubK b) selfMaskSeed0 c1 c2
         (fun id => Z.of_nat (String.length id) + a) 99.

(** The four clients of [runSimple], with ids in a fixed order. *)
Definition inputs4 : list (Tape * PID * Q) :=
  [ (toyTape 101 201 4000000001 7 9, "c-aaa"%string, lit 131070.213213);
    (toyTape 103 203 77 11 13, "a-bbb"%string, lit 3.14159265);
    (toyTape 107 207 123456 5 3, "d-ccc"%string, lit (-42));
    (toyTape 109 209 4294967295 2 8, "b-ddd"%string, lit 6) ].

(** One client alone, for a threshold of two. *)
Definition lonely : list (Tape * PID * Q) :=
  [ (toyTape 101 201 5 7 9, "c-aaa"%string, lit 1) ].

(** Two clients that generated the same key pairs. *)
Definition twins : list (Tape * PID * Q) :=
  [ (toyTape 101 201 5 7 9, "c-aaa"%string, lit 1);
    (toyTape 101 201 6 3 4, "a-bbb"%string, lit 2) ].

(** Two and three clients with keys of their own. *)
Definition inputs2 : list (Tape * PID * Q) := take 2 inputs4.
Definition inputs3 : list (Tape * PID * Q) := take 3 inputs4.

(** Two clients whose secrets are just below [2^31 / 10^4 / 2], and three
    clients of which two have large secrets. *)
Definition boundary2 : list (Tape * PID * Q) :=
  [ (toyTape 101 201 5 7 9, "c-aaa"%string, lit 107374.18239);
    (toyTape 103 203 6 3 4, "a-bbb"%string, lit 107374.18239) ].
Definition large3 : list (Tape * PID * Q) :=
  [ (toyTape 101 201 5 7 9, "c-aaa"%string, lit 150000);
    (toyTape 103 203 6 3 4, "a-bbb"%string, lit 150000);
    (toyTape 107 207 8 5 3, "d-ccc"%string, lit 0) ].

(** The four clients with secrets inside the bound of the specification
    for four clients, and two clients of which the first has a secret
    whose product by [10^4] falls just short of an integer in binary64. *)
Definition modest4 : list (Tape * PID * Q) :=
  [ (toyTape 101 201 4000000001 7 9, "c-aaa"%string, lit 1070.213213);
    (toyTape 103 203 77 11 13, "a-bbb"%string, lit 3.14159265);
    (toyTape 107 207 123456 5 3, "d-ccc"%string, lit (-42));
    (toyTape 109 209 4294967295 2 8, "b-ddd"%string, lit 6) ].
Definition slip2 : list (Tape * PID * Q) :=
  [ (toyTape 101 201 5 7 9, "c-aaa"%string, lit 1.005);
    (toyTape 103 203 6 3 4, "a-bbb"%string, lit 0) ].

(** The value of a computation that is known to return, for naming the
    states reached in the runs below. *)
Definition noServer : Server.state := Server.new [] 0 0.
Definition noWorld : World := mkWorld [] [].
Definition noClient : Client.state :=
  Client.new (toyTape 0 0 0 0 0) ""%string 0%Q 0 0.

Definition returned {A} (d : A) (r : result A) : A :=
  match r with Ok a => a | Throw _ => d end.

Definition afterRound0 (inputs : list (Tape * PID * Q)) (threshold : Z)
  : Server.state * World :=
  returned (noServer, noWorld)
    (Run.round0 (length inputs) (Run.generation inputs threshold)).

Definition afterRound1 (inputs : list (Tape * PID * Q)) (threshold : Z)
    (dropout11 dropout12 : list nat) : Server.state * World :=
  returned (noServer, noWorld)
    (Run.round1 toy (length inputs) dropout11 dropout12
       (afterRound0 inputs threshold)).

Definition clientAt (sw : Server.state * World) (i : nat) : Client.state :=
  default noClient (clientObjs (snd sw) !! i).

(** Three clients, threshold two, the third put down between its round 1
    and the server's: the states around [computeU2] and around the first
    client's [receiveCiphertexts]. *)
Definition pruneBefore : Server.state * World :=
  (fst (afterRound0 inputs3 2),
   returned noWorld
     (Run.clientsRound (Client.round1 toy) 3 [] [2%nat]
        (snd (afterRound0 inputs3 2)))).

Definition pruneAfterU2 : Server.state * World :=
  returned (noServer, noWorld)
    (Server.computeU2 (fst pruneBefore) (snd pruneBefore)).

Definition pruneBundle : list (PID * PID * option CipherMsg) :=
  default []
    (aget "c-aaa"%string
       (default []
          (Server.clientCiphertextBuffer
             (returned noServer
                (Server.collectCiphertexts (fst pruneAfterU2)
                   (snd pruneAfterU2)))))).

(** The run of [runSimple]: four clients, threshold two, the first put
    down between round 1 and round 2. *)
Definition noOutcome : Run.Outcome :=
  Run.mkOutcome NotFinite NotFinite noServer noWorld.


Definition pruneReceived : Client.state * Heap :=
  returned (noClient, [])
    (Client.receiveCiphertexts pruneBundle (clientAt pruneAfterU2 0)
       (heap (snd pruneAfterU2))).


(** Round 2 of the first of three clients. *)
Definition round2Sample : Client.state * Heap :=
  returned (noClient, [])
    (Client.round2 toy (clientAt (afterRound1 inputs3 2 [] []) 0)
       (heap (snd (afterRound1 inputs3 2 [] [])))).

(** The entry that the first of two clients makes for the second. *)
Definition noPeer : Peer.t :=
  Peer.mk None ""%string None None None None None None None.

Definition samplePairwiseEntry : Peer.t :=
  returned noPeer
    (Client.pairwiseEntry toy (clientAt (afterRound0 inputs2 2) 0)
       (Client.objAt (heap (snd (afterRound0 inputs2 2))) (Some 0%nat))
       "a-bbb"%string).

End Example.

(** ** The states a run goes through

    What the objects of a run are after each round, when every client
    takes part in rounds 0 and 1 and the clients at the positions
    [dropped] are put down between round 1 and round 2: the values that
    the statements below compare the code with. *)

Definition sumZ (l : list Z) : Z := foldr Z.add 0 l.

(** The position of the first [k] in [l] ([length l] when there is
    none). *)
Fixpoint indexOf (k : PID) (l : list PID) : nat :=
  match l with
  | [] => O
  | k' :: l' => if decide (k' = k) then O else S (indexOf k l')
  end.

Module Expected.
Section Expected.
Variable P : Primitives.
Variable inputs : list (Tape * PID * Q).
Variable threshold : Z.
Variable dropped : list nat.

Definition nbClient : nat := length inputs.
Definition ids : list PID := Run.inId <$> inputs.
Definition seedPriv (x : Tape * PID * Q) : PrivKey :=
  fst (t_seedKey (Run.inTape x)).
Definition seedPub (x : Tape * PID * Q) : PubKey :=
  snd (t_seedKey (Run.inTape x)).
Definition encPriv (x : Tape * PID * Q) : PrivKey :=
  fst (t_encryptionKey (Run.inTape x)).
Definition encPub (x : Tape * PID * Q) : PubKey :=
  snd (t_encryptionKey (Run.inTape x)).

(** The clients put down, and the others. *)
Definition droppedIDs : list PID :=
  omap (fun d => Run.inId <$> inputs !! d) dropped.
Definition dead (x : Tape * PID * Q) : Prop := Run.inId x ∈ droppedIDs.
Definition survivors : list (Tape * PID * Q) :=
  filter (fun x => ~ dead x) inputs.
Definition casualties : list (Tape * PID * Q) := filter dead inputs.
Definition survivorIDs : list PID := Run.inId <$> survivors.

(** The peers of [x], in the order of its [clientList]. *)
Definition peers (x : Tape * PID * Q) : list (Tape * PID * Q) :=
  filter (fun y => Run.inId y <> Run.inId x) inputs.
Definition peerIDs (x : Tape * PID * Q) : list PID := Run.inId <$> peers x.

(** What [x] derives for its peer [y]. *)
Definition seed16 (x y : Tape * PID * Q) : Z :=
  default 0 (getInt16 (deriveBits P (seedPriv x) (seedPub y)) 1).
Definition pairKey (x y : Tape * PID * Q) : AESKey :=
  deriveKey P (encPriv x) (encPub y).
Definition mask (x y : Tape * PID * Q) : Z :=
  gen P (Some (seed16 x y)) 0 mod 2 ^ 32.

(** The self mask and the shares of [x]. *)
Definition selfSeed (x : Tape * PID * Q) : Z :=
  t_selfMaskSeed (Run.inTape x) mod 2 ^ 32.
Definition selfMask (x : Tape * PID * Q) : Z :=
  gen P (Some (selfSeed x)) 0 mod 2 ^ 32.
Definition keyShares (x : Tape * PID * Q) : list Share :=
  sharesOf P (t_keyCoins (Run.inTape x)) nbClient threshold
    (exportKey P (seedPriv x)).
Definition seedShares (x : Tape * PID * Q) : list Share :=
  sharesOf P (t_seedCoins (Run.inTape x)) nbClient threshold
    (encodeNumber P (selfSeed x)).
Definition ownIdx (x : Tape * PID * Q) : nat := S (length (peers x)).

(** The integer that [x] masks: its secret in fixed point. *)
Definition fixedPoint (x : Tape * PID * Q) : Z :=
  default 0 (secretValueRounded (Run.inSecret x)).

(** The server's [clientList]. *)
Definition serverEntry (i : nat) (x : Tape * PID * Q) : PID * Peer.t :=
  (Run.inId x,
   ClientForServer i (Run.inId x) (Some (seedPub x)) (Some (encPub x))).
Definition serverMap : Obj := imap serverEntry inputs.

(** The [clientList] of [x] after its round 1, after it received the
    ciphertexts, and after its round 2. *)
Definition peerEntry (x y : Tape * PID * Q) : PID * Peer.t :=
  (Run.inId y,
   ClientForClient (Run.inId y) (Some (seedPub y)) (seed16 x y) (pairKey x y)
     (mkPRNG (Some (seed16 x y)) 0)).
Definition peerMap (x : Tape * PID * Q) : Obj := peerEntry x <$> peers x.

(** The ciphertexts that [x] makes in round 1: its [k]-th peer gets the
    shares number [k + 1]. *)
Definition message (x : Tape * PID * Q) (k : nat) (y : Tape * PID * Q)
  : CipherMsg :=
  AESGCMEncrypt (pairKey x y) (t_iv (Run.inTape x) (Run.inId y))
    (mkPlaintext (Run.inId x) (Run.inId y) (shareAt (keyShares x) (S k))
       (shareAt (seedShares x) (S k)) (S k)).
Definition sent (x : Tape * PID * Q) : list (PID * PID * CipherMsg) :=
  imap (fun k y => (Run.inId x, Run.inId y, message x k y)) (peers x).

(** What [x] receives from [y]. *)
Definition received (x y : Tape * PID * Q) : option CipherMsg :=
  aget (Run.inId y, Run.inId x) (sent y).
Definition bundle (x : Tape * PID * Q)
  : list (PID * PID * option CipherMsg) :=
  (fun y => (Run.inId y, Run.inId x, received x y)) <$> peers x.

Definition peerEntry1 (x y : Tape * PID * Q) : PID * Peer.t :=
  (Run.inId y, Peer.set_ciphertext (received x y) (snd (peerEntry x y))).
Definition peerMap1 (x : Tape * PID * Q) : Obj := peerEntry1 x <$> peers x.
Definition peerEntry2 (x y : Tape * PID * Q) : PID * Peer.t :=
  (Run.inId y,
   Peer.set_PRNG (mkPRNG (Some (seed16 x y)) 1) (snd (peerEntry1 x y))).
Definition peerMap2 (x : Tape * PID * Q) : Obj := peerEntry2 x <$> peers x.

(** The signed mask that [x] adds for its peer [y], and its masked
    value. *)
Definition pairTerm (x y : Tape * PID * Q) : Z :=
  if String.ltb (Run.inId y) (Run.inId x) then mask x y
  else if String.ltb (Run.inId x) (Run.inId y) then - mask x y
  else 0.
Definition maskedValue (x : Tape * PID * Q) : Z :=
  toInt32 (sumZ (pairTerm x <$> peers x) + fixedPoint x + selfMask x).

(** The share of [y] that [x] holds and discloses in round 3. *)
Definition rank (x y : Tape * PID * Q) : nat :=
  indexOf (Run.inId x) (peerIDs y).
Definition splitOf (x y : Tape * PID * Q) : PID * Split :=
  (Run.inId y,
   if decide (dead y)
   then KeySplit (shareAt (keyShares y) (S (rank x y))) (S (rank x y))
   else SeedSplit (shareAt (seedShares y) (S (rank x y))) (S (rank x y))).
Definition ownSplit (x : Tape * PID * Q) : PID * Split :=
  (Run.inId x, SeedSplit (shareAt (seedShares x) (ownIdx x)) (ownIdx x)).
Definition splitsOf (x : Tape * PID * Q) : list (PID * Split) :=
  (splitOf x <$> peers x) ++ [ownSplit x].

(** The client at position [i], made from [x], after each step. *)
Definition client0 (x : Tape * PID * Q) : Client.state :=
  Client.round0
    (Client.new (Run.inTape x) (Run.inId x) (Run.inSecret x) nbClient
       threshold).
Definition clientA (x : Tape * PID * Q) : Client.state :=
  Client.set_clientList (Some 0%nat) (client0 x).
Definition client1 (i : nat) (x : Tape * PID * Q) : Client.state :=
  let c := Client.generateSelfMaskSeed (clientA x) in
  let c := Client.set_secretKeyShamir (Some (keyShares x)) c in
  let c := Client.set_selfMaskSeedShamir (Some (seedShares x)) c in
  let c := Client.set_clientList (Some (S i)) c in
  let c := Client.set_ownPrivateKeyShare
             (shareAt (keyShares x) (ownIdx x)) c in
  let c := Client.set_ownSelfMaskSeedShare
             (shareAt (seedShares x) (ownIdx x)) c in
  let c := Client.set_ownIndex (Some (ownIdx x)) c in
  Client.set_ciphertexts (Some (sent x)) c.
Definition client1b (i : nat) (x : Tape * PID * Q) : Client.state :=
  Client.set_clientListU2 (Some (S i)) (client1 i x).
Definition client1c (i : nat) (x : Tape * PID * Q) : Client.state :=
  if decide (dead x) then Client.putDown (client1b i x) else client1b i x.
Definition client2 (i : nat) (x : Tape * PID * Q) : Client.state :=
  if decide (dead x) then client1c i x
  else Client.set_maskedGradient (Some (maskedValue x)) (client1c i x).
Definition client2b (i : nat) (x : Tape * PID * Q) : Client.state :=
  if decide (dead x) then client2 i x
  else
    Client.set_IDsinU2NotInU3
      (Some (filter (fun key => key ∉ survivorIDs) (peerIDs x)))
      (Client.set_clientIDsU3 (Some survivorIDs)
         (Client.set_clientIDsU2 (Some (peerIDs x)) (client2 i x))).
Definition client3 (i : nat) (x : Tape * PID * Q) : Client.state :=
  if decide (dead x) then client2b i x
  else Client.set_splits (Some (splitsOf x)) (client2b i x).

(** The heap after round 1, after the ciphertexts are delivered, and
    after round 2. *)
Definition heap1 : Heap := serverMap :: (peerMap <$> inputs).
Definition heap1b : Heap := serverMap :: (peerMap1 <$> inputs).
Definition heap2 : Heap :=
  serverMap ::
  ((fun x => if decide (dead x) then peerMap1 x else peerMap2 x) <$> inputs).

(** The server after its rounds 0, 1 and 2. *)
Definition server0 : Server.state :=
  Server.new (seq 0 nbClient) nbClient threshold.
Definition serverA : Server.state :=
  Server.set_clientList (Some 0%nat) server0.
Definition buffer : list (PID * list (PID * PID * option CipherMsg)) :=
  (fun x => (Run.inId x, bundle x)) <$> inputs.
Definition server1 : Server.state :=
  Server.set_clientCiphertextBuffer (Some buffer)
    (Server.set_clientListU2 (Some 0%nat) serverA).
Definition partialSum : Z := toInt32 (sumZ (maskedValue <$> survivors)).
Definition server2 : Server.state :=
  Server.set_agg (Some partialSum)
    (Server.set_clientU2NotInU3
       (Some (filter (fun key => key ∉ survivorIDs) ids))
       (Server.set_clientIDsU3 (Some survivorIDs)
          (Server.set_clientIDsU2 (Some ids) server1))).

(** What the server collects in round 3: the split of [y] that the
    survivor [x] discloses, by holder and owner. *)
Definition held (x y : Tape * PID * Q) : option Split :=
  aget (Run.inId y) (splitsOf x).
Definition shareIdx (x y : Tape * PID * Q) : nat :=
  if decide (Run.inId x = Run.inId y) then ownIdx y else S (rank x y).
Definition keyRow (x : Tape * PID * Q) : list (PID * option Split) :=
  (fun y => (Run.inId y, held x y)) <$> casualties.
Definition seedRow (x : Tape * PID * Q) : list (PID * option Split) :=
  (fun y => (Run.inId y, held x y)) <$> survivors.
Definition keyStocker : list (PID * list (PID * option Split)) :=
  (fun x => (Run.inId x, keyRow x)) <$> survivors.
Definition seedStocker : list (PID * list (PID * option Split)) :=
  (fun x => (Run.inId x, seedRow x)) <$> survivors.
Definition keysRetrieved : list (PID * PrivKey) :=
  (fun d => (Run.inId d, seedPriv d)) <$> casualties.
Definition seedRecovered : list (PID * Bytes) :=
  (fun y => (Run.inId y, encodeNumber P (selfSeed y))) <$> survivors.

(** The mask that the server recomputes for the dead [d] and the
    survivor [k], with its sign; their sum. *)
Definition droppedTerm (d k : Tape * PID * Q) : Z :=
  if String.ltb (Run.inId k) (Run.inId d) then mask d k else - mask d k.
Definition droppedView : Z :=
  toInt32 (sumZ ((fun d => sumZ (droppedTerm d <$> survivors))
                   <$> casualties)).
Definition selfMaskView : Z := toInt32 (sumZ (selfMask <$> survivors)).

(** The sum of the survivors' secrets in fixed point, and the mean that
    [round3] returns for it. *)
Definition fixedPointSum : Z := sumZ (fixedPoint <$> survivors).
Definition mean : Number :=
  numDiv (numDiv (Finite (inject_Z fixedPointSum)) 10000)
    (inject_Z (Z.of_nat (length survivors))).

(** The server after its round 3, and what it returns: the mean of the
    sum wrapped to an Int32. *)
Definition server3 : Server.state :=
  Server.set_agg
    (Some (toInt32 (toInt32 (droppedView + partialSum) - selfMaskView)))
    (Server.set_seedRecovered (Some seedRecovered)
       (Server.set_agg (Some (toInt32 (droppedView + partialSum)))
          (Server.set_keysRetrieved (Some keysRetrieved)
             (Server.set_seedStocker (Some seedStocker)
                (Server.set_keyStocker (Some keyStocker)
                   (Server.set_clientIDsU5 (Some survivorIDs) server2)))))).
Definition wrappedMean : Number :=
  numDiv (numDiv (Finite (inject_Z (toInt32 fixedPointSum))) 10000)
    (inject_Z (Z.of_nat (length survivors))).

(** What [aggregateWithoutSecrecy] returns. *)
Definition plainMean : Number :=
  numDiv (fold_left (fun sum x => numAdd sum (Run.inSecret x)) survivors
            (Finite 0))
    (inject_Z (Z.of_nat (length survivors))).

End Expected.
End Expected.

#[global] Hint Extern 0 (Decision (Expected.dead _ _ _)) =>
  unfold Expected.dead : typeclass_instances.

(** ** What the protocol assumes of its libraries

    [deriveBits] returns the 128 bits it is asked for; the two ends of a
    pair derive the same bits and the same AES key; [split] does not
    refuse [n] and [t] and returns the shares number [1] to [n], any [t]
    of which [join] turns back into the secret; a key that was exported is imported back, and a seed that was
    encoded is parsed back. *)
Definition bitsLongEnough (P : Primitives) : Prop :=
  forall a b, (3 <= length (deriveBits P a b))%nat.

Definition symmetricBits (P : Primitives) (inputs : list (Tape * PID * Q))
  : Prop :=
  Forall (fun x => Forall (fun y =>
      deriveBits P (Expected.seedPriv x) (Expected.seedPub y)
      = deriveBits P (Expected.seedPriv y) (Expected.seedPub x)) inputs)
    inputs.

Definition symmetricKeys (P : Primitives) (inputs : list (Tape * PID * Q))
  : Prop :=
  Forall (fun x => Forall (fun y =>
      Expected.pairKey P x y = Expected.pairKey P y x) inputs) inputs.

Definition sharesNumbered (P : Primitives) (n : nat) (t : Z) : Prop :=
  forall coins secret,
    exists shares,
      split P coins n t secret = Some shares /\ length shares = n.

Definition shamirRecovers (P : Primitives) (n : nat) (t : Z) : Prop :=
  forall coins secret shares (holders : list nat),
    split P coins n t secret = Some shares ->
    NoDup holders -> t <= Z.of_nat (length holders) ->
    (forall i, i ∈ holders -> (1 <= i <= n)%nat) ->
    join P ((fun i => (i, shareAt shares i)) <$> holders) = secret.

Definition keysRecoverable (P : Primitives) (inputs : list (Tape * PID * Q))
    (dropped : list nat) : Prop :=
  Forall (fun d =>
      importKey P (exportKey P (Expected.seedPriv d))
      = Some (Expected.seedPriv d))
    (Expected.casualties inputs dropped).

Definition seedsRecoverable (P : Primitives) (inputs : list (Tape * PID * Q))
    (dropped : list nat) : Prop :=
  Forall (fun y =>
      parseIntBytes P (encodeNumber P (Expected.selfSeed y))
      = Some (Expected.selfSeed y))
    (Expected.survivors inputs dropped).

(** The secrets of the clients that stay up are in the range in which
    [secretValueRounded] follows [parseInt]. *)
Definition secretsInRange (inputs : list (Tape * PID * Q))
    (dropped : list nat) : Prop :=
  Forall (fun x => is_Some (secretValueRounded (Run.inSecret x)))
    (Expected.survivors inputs dropped).

(** The runs that the statements about round 3 are about: the ids are
    distinct, the clients at the positions [dropped] are put down between
    round 1 and round 2, at least [threshold] clients stay up, and the
    libraries behave. *)
Definition assumptions (P : Primitives) (inputs : list (Tape * PID * Q))
    (threshold : Z) (dropped : list nat) : Prop :=
  NoDup (Expected.ids inputs) /\
  Forall (fun d => (d < length inputs)%nat) dropped /\
  threshold <= Z.of_nat (length (Expected.survivors inputs dropped)) /\
  bitsLongEnough P /\ symmetricBits P inputs /\ symmetricKeys P inputs /\
  sharesNumbered P (length inputs) threshold /\
  shamirRecovers P (length inputs) threshold /\
  keysRecoverable P inputs dropped /\ seedsRecoverable P inputs dropped /\
  secretsInRange inputs dropped.

(** A value is an Int32. *)
Definition int32 (z : Z) : Prop := - 2 ^ 31 <= z < 2 ^ 31.

#[global] Instance int32_dec z : Decision (int32 z).
Proof. unfold int32. apply _. Defined.

(** ** Notions that the statements use *)

(** An entry that holds a ciphertext. *)
Definition hasCiphertext (kv : PID * Peer.t) : Prop :=
  is_Some (Peer.ciphertext_ (snd kv)).

#[global] Instance hasCiphertext_dec kv : Decision (hasCiphertext kv).
Proof. unfold hasCiphertext. apply _. Defined.

(** Whether the client object that an entry of the server refers to is
    up. *)
Definition entryUp (cs : list Client.state) (kv : PID * Peer.t) : bool :=
  match Peer.client (snd kv) with
  | Some ref =>
      match cs !! ref with
      | Some c => Client.isUp c
      | None => false
      end
  | None => false
  end.







(** The sum of rationals, exact. *)
Definition sumQ (l : list Q) : Q := foldr Qplus 0%Q l.

(** The bound of the specification on the secrets:
    [|s_i| < 2^31 / 10^4 / N]. *)
Definition secretsBounded (inputs : list (Tape * PID * Q)) : Prop :=
  Forall (fun x =>
      (Qabs (Run.inSecret x)
       < (2147483648 # 10000) / inject_Z (Z.of_nat (length inputs)))%Q)
    inputs.

(** The mean of the secrets of the clients [l], exact. *)
Definition exactMean (l : list (Tape * PID * Q)) : Q :=
  (sumQ (Run.inSecret <$> l) / inject_Z (Z.of_nat (length l)))%Q.

(** The list whose first [k] items are made by [g] and the others by
    [f]. *)
Definition upto {A B} (k : nat) (g f : nat -> A -> B) (l : list A) : list B :=
  imap (fun i x => if decide (i < k)%nat then g i x else f i x) l.

(** * Properties *)

Set Warnings "-clear-no-such-hyp".

(** ** Generic facts about the loops *)

Ltac unfold_result :=
  unfold mbind, result_bind, mret, result_ret, orThrow.

Tactic Notation "unfold_result" "in" hyp(H) :=
  unfold mbind, result_bind, mret, result_ret, orThrow in H.

Lemma foldM_cons {A S} (f : A -> S -> result S) a l s :
  foldM f (a :: l) s = (s' ← f a s; foldM f l s').
Proof. reflexivity. Qed.

Lemma bind_Ok {A B} (f : A -> result B) (a : A) : (x ← Ok a; f x) = f a.
Proof. reflexivity. Qed.

Lemma bind_Throw {A B} (f : A -> result B) (e : Err) :
  (x ← Throw e; f x) = Throw e.
Proof. reflexivity. Qed.

Lemma foldM_app {A S} (f : A -> S -> result S) l1 l2 s :
  foldM f (l1 ++ l2) s = (s' ← foldM f l1 s; foldM f l2 s').
Proof.
  revert s. induction l1 as [|a l1 IH]; intros s; simpl; [done|].
  destruct (f a s); simpl; [apply IH|done].
Qed.

(** A loop none of whose iterations throws [e] does not throw [e]. *)
Lemma foldM_not_throw {A S} (e : Err) (f : A -> S -> result S) l s :
  (forall a s, f a s <> Throw e) -> foldM f l s <> Throw e.
Proof.
  intros Hf. revert s. induction l as [|a l IH]; intros s; simpl; [done|].
  destruct (f a s) eqn:E; simpl; [apply IH|].
  intros [= ->]. by apply (Hf a s).
Qed.

(** ** receiveClients *)

Lemma propLength_not_number (o : Obj) z : propLength o <> VNumber z.
Proof. unfold propLength. by case_match. Qed.

Lemma jsLt_propLength (o : Obj) n : jsLt (propLength o) n = false.
Proof. unfold propLength. by case_match. Qed.

Lemma loopBound_propLength (o : Obj) : Client.loopBound (propLength o) = 0%nat.
Proof. unfold propLength. by case_match. Qed.

(** Whatever map object it is given, [receiveClients] records it: neither
    of its two checks can fire, since [clientList.length] is not a
    number. *)
Lemma receiveClients_records (l : loc) (c : Client.state) (h : Heap) (o : Obj) :
  h !! l = Some o ->
  Client.receiveClients l c h = Ok (Client.set_clientList (Some l) c).
Proof.
  intros Hl. unfold Client.receiveClients. rewrite Hl. simpl.
  by rewrite jsLt_propLength, loopBound_propLength.
Qed.

Ltac by_evaluation := vm_compute; reflexivity.

(** C6 (the code departs from the claim). [receiveClients] is handed the
    server's [clientList], a plain object: a list of one peer is accepted
    by a client whose threshold is two (no TooFewClients), and so is a list
    in which two peers have the same public keys (no KeyCollision); both
    are recorded. *)
Theorem receiveClients_accepts_short_and_colliding_lists :
  (exists s w c,
     Run.round0 1 (Run.generation Example.lonely 2) = Ok (s, w) /\
     clientObjs w !! 0%nat = Some c /\
     length (Client.objAt (heap w) (Server.clientList s)) = 1%nat /\
     Client.threshold c = 2 /\
     Client.clientList c = Server.clientList s) /\
  (exists s w c e1 e2,
     Run.round0 2 (Run.generation Example.twins 2) = Ok (s, w) /\
     clientObjs w !! 0%nat = Some c /\
     Client.objAt (heap w) (Server.clientList s)
       = [("c-aaa"%string, e1); ("a-bbb"%string, e2)] /\
     Peer.seedPublicKey e1 = Peer.seedPublicKey e2 /\
     Peer.encryptionPublicKey e1 = Peer.encryptionPublicKey e2 /\
     Client.clientList c = Server.clientList s).
Proof.
  split.
  - pose (sw := Example.afterRound0 Example.lonely 2).
    exists (fst sw), (snd sw), (Example.clientAt sw 0).
    repeat apply conj; by_evaluation.
  - pose (sw := Example.afterRound0 Example.twins 2).
    pose (o := Client.objAt (heap (snd sw)) (Server.clientList (fst sw))).
    exists (fst sw), (snd sw), (Example.clientAt sw 0),
      (default (ClientForServer 0 "" None None) (snd <$> o !! 0%nat)),
      (default (ClientForServer 0 "" None None) (snd <$> o !! 1%nat)).
    repeat apply conj; by_evaluation.
Qed.

(** ** computeU2 *)

(** The threshold test of [computeU2] reads [length] off a plain object and
    never fires. *)
Lemma computeU2_never_below_threshold (s : Server.state) (w : World) :
  Server.computeU2 s w <> Throw BelowThresholdU2.
Proof.
  unfold Server.computeU2. simpl.
  match goal with |- context [foldM ?f ?l ?x] =>
    pose proof (foldM_not_throw BelowThresholdU2 f l x) as Hf;
    destruct (foldM f l x) as [w'|e] eqn:E end; simpl.
  - destruct (Server.clientList s); simpl; [|done].
    by rewrite jsLt_propLength.
  - intros [= ->]. apply Hf; [|done].
    intros a w0. unfold Server.deleteIfDown, Server.clientOf. unfold_result.
    repeat case_match; by simplify_eq.
Qed.

(** C5 (the code departs from the claim). Two clients, threshold two. When
    both are put down before the server's round 1, U2 is empty and
    [round1] returns normally; when one is, U2 has one member and [round1]
    fails in the surviving client's [receiveCiphertexts], not with
    BelowThreshold. *)
Theorem round1_does_not_refuse_below_threshold :
  (exists sw s w,
     Run.round0 2 (Run.generation Example.inputs2 2) = Ok sw /\
     Run.round1 Example.toy 2 [] [0%nat; 1%nat] sw = Ok (s, w) /\
     Client.objAt (heap w) (Server.clientListU2 s) = [] /\
     Server.threshold s = 2) /\
  (exists sw,
     Run.round0 2 (Run.generation Example.inputs2 2) = Ok sw /\
     Run.round1 Example.toy 2 [] [1%nat] sw = Throw TooFewCiphertexts).
Proof.
  split.
  - pose (sw := Example.afterRound1 Example.inputs2 2 [] [0%nat; 1%nat]).
    exists (Example.afterRound0 Example.inputs2 2), (fst sw), (snd sw).
    repeat apply conj; by_evaluation.
  - exists (Example.afterRound0 Example.inputs2 2).
    repeat apply conj; by_evaluation.
Qed.

(** ** receiveclientIDsU3 *)

Lemma receiveclientIDsU3_too_few (ids : list PID) (c : Client.state) (h : Heap) :
  Z.of_nat (length ids) < Client.threshold c ->
  Client.receiveclientIDsU3 ids c h = Throw TooFewSurvivors.
Proof.
  intros H. unfold Client.receiveclientIDsU3.
  by destruct (Z.ltb_spec (Z.of_nat (length ids)) (Client.threshold c)); [|lia].
Qed.

(** C4 (the code departs from the claim). Three clients, threshold two;
    after round 1 the first client, ["c-aaa"], has U2 = {["a-bbb"],
    ["d-ccc"]}. The list [["a-bbb"; "x-zzz"]] holds an id that is neither in
    its U2 nor its own, and is accepted. *)
Theorem receiveclientIDsU3_accepts_a_stranger :
  exists sw0 s w c c',
    Run.round0 3 (Run.generation Example.inputs3 2) = Ok sw0 /\
    Run.round1 Example.toy 3 [] [] sw0 = Ok (s, w) /\
    clientObjs w !! 0%nat = Some c /\
    Client.id c = "c-aaa"%string /\
    akeys (Client.objAt (heap w) (Client.clientListU2 c))
      = ["a-bbb"%string; "d-ccc"%string] /\
    Client.receiveclientIDsU3 ["a-bbb"%string; "x-zzz"%string] c (heap w)
      = Ok c'.
Proof.
  pose (sw := Example.afterRound1 Example.inputs3 2 [] []).
  exists (Example.afterRound0 Example.inputs3 2), (fst sw), (snd sw),
    (Example.clientAt sw 0),
    (Example.returned Example.noClient
       (Client.receiveclientIDsU3 ["a-bbb"%string; "x-zzz"%string]
          (Example.clientAt sw 0) (heap (snd sw)))).
  repeat apply conj; by_evaluation.
Qed.

(** ** putDown *)

Ltac crunch_result :=
  unfold_result; repeat case_match; intros; simplify_eq; try done.

Lemma rounds_skip_when_down (P : Primitives) (c : Client.state) (h : Heap) :
  Client.isUp c = false ->
  Client.round1 P c h = Ok (c, h) /\
  Client.round2 P c h = Ok (c, h) /\
  Client.round3 c h = Ok c.
Proof.
  intros H. unfold Client.round1, Client.round2, Client.round3.
  by rewrite H.
Qed.

(** No call on a client sets [isUp] back to true. *)
Lemma perform_keeps_down (P : Primitives) (k : Client.Call)
    (c c' : Client.state) (h h' : Heap) :
  Client.perform P k (c, h) = Ok (c', h') ->
  Client.isUp c = false -> Client.isUp c' = false.
Proof.
  intros Hk Hdown.
  destruct (rounds_skip_when_down P c h Hdown) as (H1 & H2 & H3).
  destruct k; simpl in Hk.
  - by simplify_eq.
  - unfold Client.receiveClients in Hk. revert Hk. crunch_result.
  - rewrite H1 in Hk. by simplify_eq.
  - unfold Client.receiveCiphertexts in Hk. revert Hk. crunch_result.
  - rewrite H2 in Hk. by simplify_eq.
  - unfold Client.receiveclientIDsU3 in Hk. revert Hk. crunch_result.
  - rewrite H3 in Hk. simpl in Hk. by simplify_eq.
  - by simplify_eq.
Qed.

(** C9. After [putDown], whatever calls are made on the client, [isUp] is
    false, and [round1], [round2] and [round3] return leaving the client
    and the heap as they are. *)
Theorem putDown_is_permanent (P : Primitives) (calls : list Client.Call)
    (c c' : Client.state) (h h' : Heap) :
  foldM (Client.perform P) calls (Client.putDown c, h) = Ok (c', h') ->
  Client.isUp c' = false /\
  Client.round1 P c' h' = Ok (c', h') /\
  Client.round2 P c' h' = Ok (c', h') /\
  Client.round3 c' h' = Ok c'.
Proof.
  intros Hrun.
  assert (Client.isUp c' = false) as Hdown.
  { assert (Client.isUp (Client.putDown c) = false) as H0 by reflexivity.
    revert Hrun H0. generalize (Client.putDown c). revert h.
    induction calls as [|k calls IH]; intros h c0 Hrun H0.
    - simpl in Hrun. by simplify_eq.
    - rewrite foldM_cons in Hrun.
      destruct (Client.perform P k (c0, h)) as [[c1 h1]|] eqn:E;
        [rewrite bind_Ok in Hrun|by rewrite bind_Throw in Hrun].
      eapply IH; [exact Hrun|]. by eapply perform_keeps_down. }
  split; [done|]. by apply rounds_skip_when_down.
Qed.

Lemma putDown_is_permanent_witness :
  Client.isUp
    (fst (Example.returned (Example.noClient, [])
       (foldM (Client.perform Example.toy)
          [Client.CallRound1; Client.CallRound0; Client.CallRound2;
           Client.CallRound3]
          (Client.putDown
             (Example.clientAt (Example.afterRound0 Example.inputs2 2) 0),
           heap (snd (Example.afterRound0 Example.inputs2 2)))))) = false.
Proof.
  refine (proj1 (putDown_is_permanent Example.toy
    [Client.CallRound1; Client.CallRound0; Client.CallRound2;
     Client.CallRound3]
    (Example.clientAt (Example.afterRound0 Example.inputs2 2) 0) _
    (heap (snd (Example.afterRound0 Example.inputs2 2))) _ _)).
  vm_compute. reflexivity.
Defined.

(** ** Plain objects: lookups, updates and deletions *)

Section AListFacts.
Context {K V : Type} `{EqDecision K}.
Implicit Types (o pre : list (K * V)) (k : K) (v : V).

Lemma akeys_cons k v o : akeys ((k, v) :: o) = k :: akeys o.
Proof. reflexivity. Qed.

Lemma akeys_app o1 o2 : akeys (o1 ++ o2) = akeys o1 ++ akeys o2.
Proof. unfold akeys. by rewrite fmap_app. Qed.

Lemma aget_None o k : aget k o = None <-> k ∉ akeys o.
Proof.
  induction o as [|[k' v'] o IH].
  - split; [intros _; apply not_elem_of_nil|done].
  - simpl aget. rewrite akeys_cons, not_elem_of_cons.
    destruct (decide (k' = k)) as [->|Hne].
    + split; [done|]. by intros [? _].
    + rewrite IH. naive_solver.
Qed.

Lemma aget_Some_elem o k v : aget k o = Some v -> (k, v) ∈ o.
Proof.
  induction o as [|[k' v'] o IH]; simpl; [done|].
  destruct (decide (k' = k)) as [->|Hne].
  - intros [= ->]. apply elem_of_cons. by left.
  - intros Hget. apply elem_of_cons. right. exact (IH Hget).
Qed.

(** With distinct keys, every entry is the one a lookup finds. *)
Lemma aget_elem o k v : NoDup (akeys o) -> (k, v) ∈ o -> aget k o = Some v.
Proof.
  induction o as [|[k' v'] o IH]; [by intros _ ?%elem_of_nil|].
  rewrite akeys_cons, NoDup_cons. intros [Hn Hnd] Hin. simpl.
  apply elem_of_cons in Hin as [Heq|Hin].
  - simplify_eq. by destruct (decide (k' = k')).
  - destruct (decide (k' = k)) as [->|Hne]; [|by apply IH].
    exfalso. apply Hn. unfold akeys. apply list_elem_of_fmap.
    by exists (k, v).
Qed.

Lemma aget_is_Some o k : is_Some (aget k o) <-> k ∈ akeys o.
Proof.
  destruct (aget k o) eqn:E.
  - split; [intros _|by eauto].
    destruct (decide (k ∈ akeys o)) as [|Hn]; [done|].
    apply aget_None in Hn. congruence.
  - split; [by intros [? ?]|]. intros Hin. by apply aget_None in E.
Qed.

Lemma aget_app_notin pre o k :
  k ∉ akeys pre -> aget k (pre ++ o) = aget k o.
Proof.
  induction pre as [|[k' v'] pre IH]; [done|].
  rewrite akeys_cons, not_elem_of_cons. intros [Hne Hn]. simpl.
  destruct (decide (k' = k)); [congruence|]. by apply IH.
Qed.

Lemma aget_head k v o : aget k ((k, v) :: o) = Some v.
Proof. simpl. by destruct (decide (k = k)). Qed.

Lemma adelete_app_notin pre o k :
  k ∉ akeys pre -> adelete k (pre ++ o) = pre ++ adelete k o.
Proof.
  induction pre as [|[k' v'] pre IH]; [done|].
  rewrite akeys_cons, not_elem_of_cons. intros [Hne Hn]. simpl.
  destruct (decide (k' = k)); [congruence|]. by rewrite IH.
Qed.

Lemma adelete_head k v o : adelete k ((k, v) :: o) = o.
Proof. simpl. by destruct (decide (k = k)). Qed.

Lemma aset_app_notin pre o k v :
  k ∉ akeys pre -> aset k v (pre ++ o) = pre ++ aset k v o.
Proof.
  induction pre as [|[k' v'] pre IH]; [done|].
  rewrite akeys_cons, not_elem_of_cons. intros [Hne Hn]. simpl.
  destruct (decide (k' = k)); [congruence|]. by rewrite IH.
Qed.

(** Writing a property that is not there appends it. *)
Lemma aset_fresh o k v : k ∉ akeys o -> aset k v o = o ++ [(k, v)].
Proof.
  intros Hn. rewrite <- (app_nil_r o) at 1.
  by rewrite aset_app_notin.
Qed.

(** Writing a property that is there keeps the keys and their order. *)
Lemma akeys_aset_in o k v : k ∈ akeys o -> akeys (aset k v o) = akeys o.
Proof.
  induction o as [|[k' v'] o IH]; [by intros ?%elem_of_nil|].
  simpl aset. destruct (decide (k' = k)) as [->|Hne]; [done|].
  rewrite !akeys_cons. intros [?|Hin]%elem_of_cons; [congruence|].
  by rewrite IH.
Qed.

Lemma aget_aset_eq o k v : aget k (aset k v o) = Some v.
Proof.
  induction o as [|[k' v'] o IH]; simpl.
  - by destruct (decide (k = k)).
  - destruct (decide (k' = k)) as [->|Hne]; simpl.
    + by destruct (decide (k = k)).
    + by destruct (decide (k' = k)).
Qed.

Lemma aget_aset_ne o k k' v : k <> k' -> aget k' (aset k v o) = aget k' o.
Proof.
  intros Hne. induction o as [|[k0 v0] o IH]; simpl.
  - by destruct (decide (k = k')).
  - destruct (decide (k0 = k)) as [->|Hne0]; simpl.
    + by destruct (decide (k = k')).
    + destruct (decide (k0 = k')); [done|apply IH].
Qed.

(** Reading back what was written, in one statement. *)
Lemma aget_aset o k k' v :
  aget k' (aset k v o) = if decide (k = k') then Some v else aget k' o.
Proof.
  destruct (decide (k = k')) as [->|Hne];
    [apply aget_aset_eq|by apply aget_aset_ne].
Qed.

Lemma akeys_aset o k v :
  akeys (aset k v o) = if decide (k ∈ akeys o) then akeys o else akeys o ++ [k].
Proof.
  destruct (decide (k ∈ akeys o)) as [Hin|Hn].
  - by apply akeys_aset_in.
  - by rewrite aset_fresh, akeys_app.
Qed.

(** Keys stay distinct under writes and deletions. *)
Lemma NoDup_akeys_aset o k v : NoDup (akeys o) -> NoDup (akeys (aset k v o)).
Proof.
  intros Hnd. rewrite akeys_aset. destruct (decide (k ∈ akeys o)); [done|].
  apply NoDup_app. split_and!; [done| |apply NoDup_singleton].
  intros x Hx ->%list_elem_of_singleton. done.
Qed.

Lemma elem_of_akeys_adelete o k k' :
  NoDup (akeys o) -> k' ∈ akeys (adelete k o) <-> k' ∈ akeys o /\ k' <> k.
Proof.
  induction o as [|[k0 v0] o IH].
  - intros _. split; [by intros ?%elem_of_nil|by intros [?%elem_of_nil _]].
  - simpl adelete. rewrite akeys_cons, NoDup_cons. intros [Hn Hnd].
    destruct (decide (k0 = k)) as [->|Hne].
    + rewrite elem_of_cons. split; [|naive_solver].
      intros Hin. split; [by right|]. by intros ->.
    + rewrite akeys_cons, !elem_of_cons, IH by done. naive_solver.
Qed.

Lemma NoDup_akeys_adelete o k : NoDup (akeys o) -> NoDup (akeys (adelete k o)).
Proof.
  induction o as [|[k0 v0] o IH]; [done|].
  simpl adelete. rewrite akeys_cons, NoDup_cons. intros [Hn Hnd].
  destruct (decide (k0 = k)) as [->|Hne]; [done|].
  rewrite akeys_cons. apply NoDup_cons. split; [|by apply IH].
  intros Hin. apply Hn.
  by apply (elem_of_akeys_adelete o k k0 Hnd) in Hin as [? _].
Qed.

Lemma aget_adelete_eq o k : NoDup (akeys o) -> aget k (adelete k o) = None.
Proof.
  intros Hnd. apply aget_None. rewrite elem_of_akeys_adelete by done.
  naive_solver.
Qed.

Lemma aget_adelete_ne o k k' : k <> k' -> aget k' (adelete k o) = aget k' o.
Proof.
  intros Hne. induction o as [|[k0 v0] o IH]; simpl; [done|].
  destruct (decide (k0 = k)) as [->|Hne0]; simpl.
  - by destruct (decide (k = k')).
  - by rewrite IH.
Qed.

End AListFacts.

(** ** U2 is U1, pruned in place *)

Lemma objAt_Some (h : Heap) (l : loc) (o : Obj) :
  h !! l = Some o -> Client.objAt h (Some l) = o.
Proof. intros H. unfold Client.objAt. by rewrite H. Qed.

Lemma objAt_insert (h : Heap) (l : loc) (o o' : Obj) :
  h !! l = Some o -> Client.objAt (<[l := o']> h) (Some l) = o'.
Proof.
  intros H. apply objAt_Some, list_lookup_insert_eq.
  by eapply lookup_lt_Some.
Qed.

Lemma deleteWithoutCiphertext_step (c : Client.state) (l : loc) (k : PID)
    (e : Peer.t) (pre suf : Obj) (h : Heap) :
  Client.clientList c = Some l -> Client.clientListU2 c = Some l ->
  h !! l = Some (pre ++ (k, e) :: suf) -> k ∉ akeys pre ->
  Client.deleteWithoutCiphertext c k h
  = Ok (match Peer.ciphertext_ e with
        | Some _ => h
        | None => <[l := pre ++ suf]> h
        end).
Proof.
  intros Hl Hl2 Hh Hk. unfold Client.deleteWithoutCiphertext.
  rewrite Hl, Hl2, (objAt_Some _ _ _ Hh), aget_app_notin, aget_head by done.
  simpl. destruct (Peer.ciphertext_ e); [done|].
  by rewrite adelete_app_notin, adelete_head.
Qed.

(** The deleting loop of [receiveCiphertexts], started on the entries
    [suf] that follow entries [pre] already kept: it leaves, in the one
    object, the entries that have a ciphertext. *)
Lemma deleteWithoutCiphertext_loop (c : Client.state) (l : loc) :
  Client.clientList c = Some l -> Client.clientListU2 c = Some l ->
  forall (suf pre : Obj) (h : Heap),
    h !! l = Some (pre ++ suf) -> NoDup (akeys (pre ++ suf)) ->
    foldM (Client.deleteWithoutCiphertext c) (akeys suf) h
    = Ok (<[l := pre ++ filter hasCiphertext suf]> h).
Proof.
  intros Hl Hl2. induction suf as [|[k e] suf IH]; intros pre h Hh Hnd.
  - rewrite app_nil_r in Hh. rewrite filter_nil, app_nil_r.
    by rewrite (list_insert_id _ _ _ Hh).
  - rewrite akeys_cons, foldM_cons.
    assert (k ∉ akeys pre) as Hk.
    { rewrite akeys_app, akeys_cons in Hnd.
      apply NoDup_app in Hnd as (_ & Hd & _). intros Hin.
      apply (Hd k Hin). apply elem_of_cons. by left. }
    rewrite (deleteWithoutCiphertext_step c l k e pre suf h) by done.
    destruct (Peer.ciphertext_ e) as [ct|] eqn:Ect.
    + rewrite bind_Ok.
      rewrite (IH (pre ++ [(k, e)]) h); rewrite <- ?app_assoc; try done.
      rewrite filter_cons_True; [done|]. unfold hasCiphertext. simpl.
      rewrite Ect. by eexists.
    + rewrite bind_Ok.
      rewrite (IH pre (<[l := pre ++ suf]> h)).
      * rewrite list_insert_insert_eq, filter_cons_False; [done|].
        unfold hasCiphertext. simpl. rewrite Ect. by intros [? ?].
      * apply list_lookup_insert_eq. by eapply lookup_lt_Some.
      * rewrite akeys_app, akeys_cons in Hnd. rewrite akeys_app.
        apply NoDup_app in Hnd as (H1 & H2 & H3).
        apply NoDup_cons in H3 as [_ H3]. apply NoDup_app.
        split_and!; [done| |done].
        intros x Hx Hx'. apply (H2 x Hx). apply elem_of_cons. by right.
Qed.

Lemma storeCiphertext_step (c : Client.state) (l : loc) (sender r : PID)
    (ct : option CipherMsg) (h : Heap) (count : Z) (o : Obj) :
  Client.clientList c = Some l -> h !! l = Some o ->
  Client.storeCiphertext c (sender, r, ct) (h, count)
  = match aget sender o with
    | Some e =>
        Ok (<[l := aset sender (Peer.set_ciphertext ct e) o]> h, count + 1)
    | None => Throw JSTypeError
    end.
Proof.
  intros Hl Hh. unfold Client.storeCiphertext. rewrite Hl. simpl.
  rewrite Hh. simpl. by destruct (aget sender o).
Qed.

(** The storing loop keeps the keys of the object and adds a ciphertext to
    the entries of the senders. *)
Lemma storeCiphertext_loop (c : Client.state) (l : loc) :
  Client.clientList c = Some l ->
  forall (b : list (PID * PID * option CipherMsg)) (h h1 : Heap)
         (count count1 : Z) (o : Obj),
    h !! l = Some o ->
    foldM (Client.storeCiphertext c) b (h, count) = Ok (h1, count1) ->
    exists o1,
      h1 = <[l := o1]> h /\ akeys o1 = akeys o /\
      count1 = count + Z.of_nat (length b) /\
      forall k, (exists e, aget k o1 = Some e /\ is_Some (Peer.ciphertext_ e))
        <-> (exists e, aget k o = Some e /\ is_Some (Peer.ciphertext_ e)) \/
            (k ∈ akeys o /\ k ∈ (fun x => fst (fst x)) <$> b).
Proof.
  intros Hl. induction b as [|[[sender r] ct] b IH];
    intros h h1 count count1 o Hh Hrun.
  - simpl in Hrun. simplify_eq. exists o.
    rewrite list_insert_id by done. split_and!; [done|done|simpl; lia|].
    intros k. split; [by left|]. intros [?|[_ ?%elem_of_nil]]; done.
  - rewrite foldM_cons, (storeCiphertext_step c l _ _ _ _ _ o) in Hrun by done.
    destruct (aget sender o) as [e|] eqn:Ee;
      [rewrite bind_Ok in Hrun|by rewrite bind_Throw in Hrun].
    pose (o' := aset sender (Peer.set_ciphertext ct e) o).
    assert (sender ∈ akeys o) as Hin by (apply aget_is_Some; by eexists).
    destruct (IH (<[l := o']> h) h1 (count + 1) count1 o') as
      (o1 & -> & Hk & -> & Hct).
    { apply list_lookup_insert_eq. by eapply lookup_lt_Some. }
    { exact Hrun. }
    exists o1. rewrite list_insert_insert_eq.
    split_and!; [done| |simpl length; lia|].
    { rewrite Hk. unfold o'. by apply akeys_aset_in. }
    intros k. rewrite Hct. unfold o'. rewrite fmap_cons, elem_of_cons.
    rewrite akeys_aset_in by done. simpl.
    rewrite aget_aset. destruct (decide (sender = k)) as [->|Hne].
    + split; [intros _; right; split; [done|by left]|].
      intros _. left. eexists. split; [done|]. by eexists.
    + naive_solver.
Qed.

(** The client's side. When [receiveCiphertexts] returns, [clientListU2] and
    [clientList] are one reference, and the object behind it has lost the
    peers from which no ciphertext came (and that carried none): what is
    read through [clientList] is U2, not U1. *)
Lemma receiveCiphertexts_prunes_clientList (c c' : Client.state)
    (h h' : Heap) (l : loc) (o : Obj)
    (b : list (PID * PID * option CipherMsg)) :
  Client.clientList c = Some l -> h !! l = Some o -> NoDup (akeys o) ->
  Client.receiveCiphertexts b c h = Ok (c', h') ->
  Client.clientList c' = Some l /\
  Client.clientListU2 c' = Client.clientList c' /\
  exists o',
    h' !! l = Some o' /\
    forall k, k ∈ akeys o' <->
      k ∈ akeys o /\
      (k ∈ (fun x => fst (fst x)) <$> b \/
       exists e, aget k o = Some e /\ is_Some (Peer.ciphertext_ e)).
Proof.
  intros Hl Hh Hnd Hrun. unfold Client.receiveCiphertexts in Hrun.
  destruct (foldM (Client.storeCiphertext c) b (h, 0)) as [[h1 count]|] eqn:E1;
    [rewrite bind_Ok in Hrun|by rewrite bind_Throw in Hrun].
  destruct (storeCiphertext_loop c l Hl b h h1 0 count o Hh E1)
    as (o1 & -> & Hk & _ & Hct).
  assert (<[l := o1]> h !! l = Some o1) as Hh1.
  { apply list_lookup_insert_eq. by eapply lookup_lt_Some. }
  cbn beta iota zeta in Hrun.
  change (Client.clientList (Client.set_clientListU2 (Client.clientList c) c))
    with (Client.clientList c) in Hrun.
  rewrite Hl, (objAt_Some _ _ _ Hh1) in Hrun.
  rewrite (deleteWithoutCiphertext_loop _ l) with (pre := []) in Hrun;
    [| by simpl | by simpl; rewrite ?Hl | done | by simpl; rewrite Hk].
  rewrite bind_Ok in Hrun. simpl in Hrun.
  destruct (count <? Client.threshold c - 1); [done|]. simplify_eq.
  split; [by simpl|]. split; [by simpl; rewrite Hl|].
  exists (filter hasCiphertext o1). split.
  { rewrite list_insert_insert_eq. apply list_lookup_insert_eq.
    by eapply lookup_lt_Some. }
  intros k. split.
  - intros Hin0. unfold akeys in Hin0.
    apply list_elem_of_fmap in Hin0
      as ([k0 e] & -> & [Hc Hin]%list_elem_of_filter). simpl.
    assert (k0 ∈ akeys o1) as Hk0.
    { unfold akeys. apply list_elem_of_fmap. by exists (k0, e). }
    split; [by rewrite <- Hk|].
    assert (aget k0 o1 = Some e) as Hget.
    { apply aget_elem; [by rewrite Hk|done]. }
    destruct (proj1 (Hct k0)) as [?|[_ ?]]; [by eexists|by right|by left].
  - intros [Hin Hsrc].
    destruct (proj2 (Hct k)) as (e & Hget & Hc); [naive_solver|].
    unfold akeys. apply list_elem_of_fmap.
    exists (k, e). split; [done|]. apply list_elem_of_filter.
    split; [done|]. by apply aget_Some_elem.
Qed.

Lemma deleteIfDown_step (s : Server.state) (l : loc) (k : PID) (e : Peer.t)
    (pre suf : Obj) (w w' : World) :
  Server.clientList s = Some l -> Server.clientListU2 s = Some l ->
  heap w !! l = Some (pre ++ (k, e) :: suf) -> k ∉ akeys pre ->
  Server.deleteIfDown s k w = Ok w' ->
  w' = (if entryUp (clientObjs w) (k, e) then w
        else mkWorld (clientObjs w) (<[l := pre ++ suf]> (heap w))).
Proof.
  intros Hl Hl2 Hh Hk. unfold Server.deleteIfDown, Server.objAt.
  rewrite Hl, Hl2, (objAt_Some _ _ _ Hh), aget_app_notin, aget_head by done.
  rewrite adelete_app_notin, adelete_head by done.
  unfold Server.clientOf, entryUp. simpl.
  destruct (Peer.client e) as [ref|]; simpl; [|done].
  destruct (clientObjs w !! ref) as [c|]; simpl; [|done].
  destruct (Client.isUp c); simpl; by intros [= <-].
Qed.

Lemma deleteIfDown_loop (s : Server.state) (l : loc)
    (cs : list Client.state) :
  Server.clientList s = Some l -> Server.clientListU2 s = Some l ->
  forall (suf pre : Obj) (h : Heap) (w' : World),
    h !! l = Some (pre ++ suf) -> NoDup (akeys (pre ++ suf)) ->
    foldM (Server.deleteIfDown s) (akeys suf) (mkWorld cs h) = Ok w' ->
    w' = mkWorld cs (<[l := pre ++ filter (entryUp cs) suf]> h).
Proof.
  intros Hl Hl2. induction suf as [|[k e] suf IH]; intros pre h w' Hh Hnd Hrun.
  - rewrite app_nil_r in Hh. rewrite filter_nil, app_nil_r.
    rewrite (list_insert_id _ _ _ Hh). simpl in Hrun. by simplify_eq.
  - rewrite akeys_cons, foldM_cons in Hrun.
    assert (k ∉ akeys pre) as Hk.
    { rewrite akeys_app, akeys_cons in Hnd.
      apply NoDup_app in Hnd as (_ & Hd & _). intros Hin.
      apply (Hd k Hin). apply elem_of_cons. by left. }
    destruct (Server.deleteIfDown s k (mkWorld cs h)) as [w1|] eqn:E;
      [rewrite bind_Ok in Hrun|by rewrite bind_Throw in Hrun].
    apply (deleteIfDown_step s l k e pre suf) in E; [|done..].
    simpl in E. destruct (entryUp cs (k, e)) eqn:Eup; subst w1.
    + rewrite (IH (pre ++ [(k, e)]) h w'); rewrite <- ?app_assoc; try done.
      by rewrite filter_cons_True by (by rewrite Eup).
    + rewrite (IH pre (<[l := pre ++ suf]> h) w'); try done.
      * rewrite list_insert_insert_eq, filter_cons_False; [done|].
        rewrite Eup. exact (fun x => x).
      * apply list_lookup_insert_eq. by eapply lookup_lt_Some.
      * rewrite akeys_app, akeys_cons in Hnd. rewrite akeys_app.
        apply NoDup_app in Hnd as (H1 & H2 & H3).
        apply NoDup_cons in H3 as [_ H3]. apply NoDup_app.
        split_and!; [done| |done].
        intros x Hx Hx'. apply (H2 x Hx). apply elem_of_cons. by right.
Qed.

(** The server's side: after [computeU2] the two names denote one
    object, from which the entries of the clients that are down are gone. *)
Lemma computeU2_prunes_clientList (s s' : Server.state) (w w' : World)
    (l : loc) (o : Obj) :
  Server.clientList s = Some l -> heap w !! l = Some o -> NoDup (akeys o) ->
  Server.computeU2 s w = Ok (s', w') ->
  Server.clientList s' = Some l /\
  Server.clientListU2 s' = Server.clientList s' /\
  clientObjs w' = clientObjs w /\
  heap w' !! l = Some (filter (entryUp (clientObjs w)) o).
Proof.
  intros Hl Hh Hnd Hrun. unfold Server.computeU2 in Hrun.
  cbn beta iota zeta in Hrun.
  change (Server.clientList (Server.set_clientListU2 (Server.clientList s) s))
    with (Server.clientList s) in Hrun.
  unfold Server.objAt in Hrun.
  rewrite Hl in Hrun.
  pose proof (objAt_Some _ _ _ Hh) as Ho. rewrite Ho in Hrun. clear Ho.

  match type of Hrun with context [foldM ?f ?ks ?x] =>
    destruct (foldM f ks x) as [w1|] eqn:E1 end;
    [rewrite bind_Ok in Hrun|by rewrite bind_Throw in Hrun].
  destruct w as [cs h]. simpl in *.
  apply (deleteIfDown_loop _ l cs) with (pre := []) in E1; try done.
  subst w1. simpl in Hrun. rewrite jsLt_propLength in Hrun. simplify_eq.
  split_and!; try done.
  apply list_lookup_insert_eq. by eapply lookup_lt_Some.
Qed.

(** C10. In the client's [receiveCiphertexts] and in the server's
    [computeU2], [clientListU2] is the object [clientList], not a copy: a
    peer deleted from the U2 view (no ciphertext came from it,
    respectively its client is down) is deleted from what [clientList]
    reads, which after round 1 holds no member of U1 \ U2. *)
Theorem clientListU2_aliases_clientList
    (c c' : Client.state) (h h' : Heap) (lc : loc) (oc : Obj)
    (b : list (PID * PID * option CipherMsg))
    (s s' : Server.state) (w w' : World) (ls : loc) (os : Obj) :
  Client.clientList c = Some lc -> h !! lc = Some oc -> NoDup (akeys oc) ->
  Client.receiveCiphertexts b c h = Ok (c', h') ->
  Server.clientList s = Some ls -> heap w !! ls = Some os ->
  NoDup (akeys os) ->
  Server.computeU2 s w = Ok (s', w') ->
  (Client.clientListU2 c' = Client.clientList c' /\
   forall k,
     k ∈ akeys (Client.objAt h' (Client.clientList c')) <->
     k ∈ akeys oc /\
     (k ∈ (fun x => fst (fst x)) <$> b \/
      exists e, aget k oc = Some e /\ is_Some (Peer.ciphertext_ e))) /\
  (Server.clientListU2 s' = Server.clientList s' /\
   Client.objAt (heap w') (Server.clientList s')
   = filter (entryUp (clientObjs w)) os).
Proof.
  intros Hlc Hhc Hndc Hc Hls Hhs Hnds Hs. split.
  - destruct (receiveCiphertexts_prunes_clientList c c' h h' lc oc b)
      as (H1 & H2 & o' & Ho' & Hk); [done..|].
    split; [done|]. rewrite H1, (objAt_Some _ _ _ Ho'). exact Hk.
  - destruct (computeU2_prunes_clientList s s' w w' ls os)
      as (H1 & H2 & _ & H4); [done..|].
    split; [done|]. by rewrite H1, (objAt_Some _ _ _ H4).
Qed.

Ltac NoDup_by_evaluation :=
  match goal with |- ?G => refine (@bool_decide_unpack G _ _) end;
  vm_compute; exact I.

Lemma clientListU2_aliases_clientList_witness :
  (Client.clientListU2 (fst Example.pruneReceived)
   = Client.clientList (fst Example.pruneReceived) /\
   forall k,
     k ∈ akeys (Client.objAt (snd Example.pruneReceived)
                  (Client.clientList (fst Example.pruneReceived))) <->
     k ∈ akeys (Client.objAt (heap (snd Example.pruneAfterU2)) (Some 1%nat)) /\
     (k ∈ (fun x => fst (fst x)) <$> Example.pruneBundle \/
      exists e,
        aget k (Client.objAt (heap (snd Example.pruneAfterU2)) (Some 1%nat))
        = Some e /\ is_Some (Peer.ciphertext_ e))) /\
  (Server.clientListU2 (fst Example.pruneAfterU2)
   = Server.clientList (fst Example.pruneAfterU2) /\
   Client.objAt (heap (snd Example.pruneAfterU2))
     (Server.clientList (fst Example.pruneAfterU2))
   = filter (entryUp (clientObjs (snd Example.pruneBefore)))
       (Client.objAt (heap (snd Example.pruneBefore)) (Some 0%nat))).
Proof.
  apply (clientListU2_aliases_clientList
           (Example.clientAt Example.pruneAfterU2 0)
           (fst Example.pruneReceived)
           (heap (snd Example.pruneAfterU2)) (snd Example.pruneReceived)
           1%nat _ Example.pruneBundle
           (fst Example.pruneBefore) (fst Example.pruneAfterU2)
           (snd Example.pruneBefore) (snd Example.pruneAfterU2) 0%nat _).
  - vm_compute. reflexivity.
  - vm_compute. reflexivity.
  - NoDup_by_evaluation.
  - vm_compute. reflexivity.
  - vm_compute. reflexivity.
  - vm_compute. reflexivity.
  - NoDup_by_evaluation.
  - vm_compute. reflexivity.
Defined.

(** ** The accumulators are Int32 *)


Lemma int32_0 : int32 0.
Proof. split; by vm_compute. Qed.

Lemma toInt32_range (z : Z) : int32 (toInt32 z).
Proof.
  unfold int32, toInt32.
  pose proof (Z.mod_pos_bound (z + 2 ^ 31) (2 ^ 32) ltac:(lia)). lia.
Qed.


Lemma toInt32_id (z : Z) : int32 z -> toInt32 z = z.
Proof.
  unfold int32, toInt32. intros H. rewrite Z.mod_small by lia. lia.
Qed.

(** Wrapping once at the end is wrapping at every step. *)
Lemma toInt32_add_l (a b : Z) : toInt32 (toInt32 a + b) = toInt32 (a + b).
Proof.
  unfold toInt32. f_equal.
  replace ((a + 2 ^ 31) mod 2 ^ 32 - 2 ^ 31 + b + 2 ^ 31)
    with ((a + 2 ^ 31) mod 2 ^ 32 + b) by lia.
  rewrite Zplus_mod_idemp_l. f_equal. lia.
Qed.

Lemma toInt32_add_r (a b : Z) : toInt32 (a + toInt32 b) = toInt32 (a + b).
Proof. by rewrite Z.add_comm, toInt32_add_l, Z.add_comm. Qed.

Lemma toInt32_sub_l (a b : Z) : toInt32 (toInt32 a - b) = toInt32 (a - b).
Proof. unfold Z.sub. apply toInt32_add_l. Qed.

Lemma toInt32_sub_r (a b : Z) : toInt32 (a - toInt32 b) = toInt32 (a - b).
Proof.
  unfold toInt32. f_equal.
  replace (a - ((b + 2 ^ 31) mod 2 ^ 32 - 2 ^ 31) + 2 ^ 31)
    with (a + 2 ^ 32 - (b + 2 ^ 31) mod 2 ^ 32) by lia.
  rewrite Zminus_mod_idemp_r. f_equal. lia.
Qed.


(** A property that every iteration keeps holds when the loop returns. *)
Lemma foldM_invariant {A S} (I : S -> Prop) (f : A -> S -> result S) l s s' :
  (forall a s s', I s -> f a s = Ok s' -> I s') ->
  I s -> foldM f l s = Ok s' -> I s'.
Proof.
  intros Hf. revert s. induction l as [|a l IH]; intros s Hs Hrun.
  - simpl in Hrun. by simplify_eq.
  - rewrite foldM_cons in Hrun. destruct (f a s) as [s1|] eqn:E;
      [rewrite bind_Ok in Hrun|by rewrite bind_Throw in Hrun].
    eapply IH; [|exact Hrun]. by eapply Hf.
Qed.





Lemma addSelfMask_int32 (P : Primitives) (view : Z) (entry : PID * Bytes) :
  int32 (Server.addSelfMask P view entry).
Proof. apply toInt32_range. Qed.

(** ** More about the loops *)

Lemma foldM_fmap {A B S} (g : A -> B) (f : B -> S -> result S) l s :
  foldM f (g <$> l) s = foldM (fun a => f (g a)) l s.
Proof.
  revert s. induction l as [|a l IH]; intros s; [done|].
  rewrite fmap_cons, !foldM_cons. destruct (f (g a) s); [|done].
  rewrite !bind_Ok. apply IH.
Qed.

Lemma foldM_ext {A S} (f g : A -> S -> result S) l s :
  (forall a s, a ∈ l -> f a s = g a s) -> foldM f l s = foldM g l s.
Proof.
  revert s. induction l as [|a l IH]; intros s Hfg; [done|].
  rewrite !foldM_cons, Hfg by (apply elem_of_cons; by left).
  destruct (g a s); [|done]. rewrite !bind_Ok. apply IH.
  intros b s' Hb. apply Hfg. apply elem_of_cons. by right.
Qed.

(** A loop whose [k]-th iteration takes the state [W k] to [W (S k)]. *)
Lemma foldM_chain {A St} (f : A -> St -> result St) (l : list A)
    (W : nat -> St) :
  (forall k a, l !! k = Some a -> f a (W k) = Ok (W (S k))) ->
  foldM f l (W 0%nat) = Ok (W (length l)).
Proof.
  revert W. induction l as [|a l IH]; intros W HW; [done|].
  rewrite foldM_cons, (HW 0%nat a), bind_Ok by done.
  apply (IH (fun k => W (S k))). intros k b Hk. by apply (HW (S k)).
Qed.

(** A loop that writes, for the selected items, an entry under a key
    of its own builds the list of these entries. *)
Lemma foldM_build {A K V} `{EqDecision K}
    (f : A -> list (K * V) -> result (list (K * V))) (sel : A -> Prop)
    `{forall a, Decision (sel a)} (kv : A -> K * V) (l : list A)
    (acc : list (K * V)) :
  NoDup (akeys acc ++ akeys (kv <$> filter sel l)) ->
  (forall a acc, a ∈ l ->
     f a acc = Ok (if decide (sel a) then aset (fst (kv a)) (snd (kv a)) acc
                   else acc)) ->
  foldM f l acc = Ok (acc ++ (kv <$> filter sel l)).
Proof.
  revert acc. induction l as [|a l IH]; intros acc Hnd Hf.
  - simpl. by rewrite app_nil_r.
  - rewrite foldM_cons, Hf, bind_Ok by (apply elem_of_cons; by left).
    assert (forall b acc0, b ∈ l ->
      f b acc0 = Ok (if decide (sel b) then aset (fst (kv b)) (snd (kv b)) acc0
                     else acc0)) as Hf'.
    { intros b acc0 Hb. apply Hf. apply elem_of_cons. by right. }
    destruct (decide (sel a)) as [Ha|Ha].
    + rewrite filter_cons_True in * by done. rewrite fmap_cons in *.
      destruct (kv a) as [ka va]. simpl. rewrite akeys_cons in Hnd.
      rewrite aset_fresh.
      * rewrite IH; [|by rewrite akeys_app, <- app_assoc|done].
        by rewrite <- app_assoc.
      * apply NoDup_app in Hnd as (_ & Hd & _). intros Hin.
        apply (Hd _ Hin). apply elem_of_cons. by left.
    + rewrite filter_cons_False in * by done. by apply IH.
Qed.

Lemma upto_lookup {A B} (k : nat) (g f : nat -> A -> B) l i :
  upto k g f l !! i =
  (fun x => if decide (i < k)%nat then g i x else f i x) <$> l !! i.
Proof. unfold upto. by rewrite list_lookup_imap. Qed.

Lemma upto_0 {A B} (g f : nat -> A -> B) l : upto 0 g f l = imap f l.
Proof.
  unfold upto. apply imap_ext. intros i x _.
  destruct (decide (i < 0)%nat); [lia|done].
Qed.

Lemma upto_all {A B} (g f : nat -> A -> B) l k :
  (length l <= k)%nat -> upto k g f l = imap g l.
Proof.
  intros Hk. unfold upto. apply imap_ext. intros i x Hi.
  apply lookup_lt_Some in Hi. destruct (decide (i < k)%nat); [done|lia].
Qed.

Lemma upto_step {A B} (g f : nat -> A -> B) l k x :
  l !! k = Some x -> <[k := g k x]> (upto k g f l) = upto (S k) g f l.
Proof.
  intros Hk. apply list_eq. intros i.
  destruct (decide (i = k)) as [->|Hne].
  - rewrite list_lookup_insert_eq.
    + rewrite upto_lookup, Hk. simpl.
      destruct (decide (k < S k)%nat); [done|lia].
    + unfold upto. rewrite length_imap. by eapply lookup_lt_Some.
  - rewrite list_lookup_insert_ne by done. rewrite !upto_lookup.
    destruct (l !! i); [simpl|done].
    destruct (decide (i < k)%nat), (decide (i < S k)%nat); try done; lia.
Qed.

(** Lookups by key in lists of entries made from items with distinct
    keys. *)
Lemma aget_fmap_NoDup {A K V} `{EqDecision K} (key : A -> K) (v : A -> V)
    (l : list A) (x : A) :
  NoDup (key <$> l) -> x ∈ l ->
  aget (key x) ((fun y => (key y, v y)) <$> l) = Some (v x).
Proof.
  intros Hnd Hx. apply aget_elem.
  - unfold akeys. rewrite <- list_fmap_compose. exact Hnd.
  - apply list_elem_of_fmap. by exists x.
Qed.

Lemma akeys_fmap_entries {A K V} (key : A -> K) (v : A -> V) (l : list A) :
  akeys ((fun y => (key y, v y)) <$> l) = key <$> l.
Proof. unfold akeys. by rewrite <- list_fmap_compose. Qed.

Lemma akeys_imap_entries {A K V} (key : A -> K) (v : nat -> A -> V)
    (l : list A) :
  akeys (imap (fun j y => (key y, v j y)) l) = key <$> l.
Proof.
  revert v. induction l as [|a l IH]; intros v; [done|].
  rewrite fmap_cons. change (imap (fun j y => (key y, v j y)) (a :: l))
    with ((key a, v 0%nat a) :: imap (fun j y => (key y, v (S j) y)) l).
  rewrite akeys_cons. f_equal. apply (IH (fun j => v (S j))).
Qed.

Lemma aget_imap_NoDup {A K V} `{EqDecision K} (key : A -> K)
    (v : nat -> A -> V) (l : list A) (i : nat) (x : A) :
  NoDup (key <$> l) -> l !! i = Some x ->
  aget (key x) (imap (fun j y => (key y, v j y)) l) = Some (v i x).
Proof.
  intros Hnd Hx. apply aget_elem.
  - by rewrite akeys_imap_entries.
  - apply list_elem_of_lookup. exists i. by rewrite list_lookup_imap, Hx.
Qed.

Lemma filter_all {A} (Q : A -> Prop) `{forall a, Decision (Q a)} (l : list A) :
  (forall a, a ∈ l -> Q a) -> filter Q l = l.
Proof.
  induction l as [|a l IH]; intros HQ; [done|].
  rewrite filter_cons_True by (apply HQ, elem_of_cons; by left).
  f_equal. apply IH. intros b Hb. apply HQ, elem_of_cons. by right.
Qed.

(** ** A run, step by step *)

Lemma imap_const_fmap {A B} (f : A -> B) (l : list A) :
  imap (fun _ => f) l = f <$> l.
Proof.
  induction l as [|a l IH]; [done|]. simpl. f_equal. exact IH.
Qed.

Lemma imap_id {A} (l : list A) : imap (fun _ x => x) l = l.
Proof. rewrite imap_const_fmap. apply list_fmap_id. Qed.

(** [forEachClient] whose [k]-th call takes the world [W k] to
    [W (S k)]. *)
Lemma forEachClient_chain
    (m : Client.state -> Heap -> result (Client.state * Heap)) (n : nat)
    (W : nat -> World) :
  (forall k, (k < n)%nat ->
     exists c c' h',
       clientObjs (W k) !! k = Some c /\
       m c (heap (W k)) = Ok (c', h') /\
       W (S k) = mkWorld (<[k := c']> (clientObjs (W k))) h') ->
  Run.forEachClient m n (W 0%nat) = Ok (W n).
Proof.
  intros HW. unfold Run.forEachClient.
  match goal with |- foldM ?f _ _ = _ =>
    pose proof (foldM_chain f (seq 0 n) W) as Hchain end.
  rewrite length_seq in Hchain. apply Hchain.
  intros k a Hk. apply lookup_seq in Hk as [-> Hlt]. simpl.
  destruct (HW k Hlt) as (c & c' & h' & Hc & Hm & ->).
  rewrite Hc. simpl. by rewrite Hm.
Qed.

Lemma putDownAll_nil (w : World) : Run.putDownAll [] w = Ok w.
Proof. reflexivity. Qed.

Lemma clientsRound_no_dropout
    (m : Client.state -> Heap -> result (Client.state * Heap)) (n : nat)
    (w : World) :
  Run.clientsRound m n [] [] w = (w ← Run.forEachClient m n w; Ok w).
Proof.
  unfold Run.clientsRound. rewrite putDownAll_nil, bind_Ok.
  by destruct (Run.forEachClient m n w).
Qed.

Lemma NoDup_fmap_filter {A B} (f : A -> B) (Q : A -> Prop)
    `{forall a, Decision (Q a)} (l : list A) :
  NoDup (f <$> l) -> NoDup (f <$> filter Q l).
Proof.
  induction l as [|a l IH]; [done|]. rewrite fmap_cons, NoDup_cons.
  intros [Hn Hd]. rewrite filter_cons. destruct (decide (Q a)); [|auto].
  rewrite fmap_cons. apply NoDup_cons. split; [|auto].
  intros [b [Hb Hin%list_elem_of_filter]]%list_elem_of_fmap. apply Hn.
  apply list_elem_of_fmap. exists b. tauto.
Qed.

Lemma orThrow_Some {A} (e : Err) (a : A) : orThrow e (Some a) = Ok a.
Proof. done. Qed.

Lemma foldM_const {A St} (f : A -> St -> result St) (l : list A) (s : St) :
  (forall a, a ∈ l -> f a s = Ok s) -> foldM f l s = Ok s.
Proof.
  induction l as [|a l IH]; [done|]. intros Hf. simpl.
  rewrite Hf by left. rewrite bind_Ok. apply IH. intros b Hb. apply Hf.
  by right.
Qed.

Lemma callClient_at (e : Peer.t)
    (m : Client.state -> Heap -> result (Client.state * Heap)) (w : World)
    (i : nat) (c c' : Client.state) (h' : Heap) :
  Peer.client e = Some i -> clientObjs w !! i = Some c ->
  m c (heap w) = Ok (c', h') ->
  Server.callClient e m w = Ok (mkWorld (<[i := c']> (clientObjs w)) h').
Proof.
  intros He Hc Hm. unfold Server.callClient. rewrite He. simpl.
  rewrite Hc. simpl. by rewrite Hm.
Qed.

Lemma clientOf_at (e : Peer.t) (w : World) (i : nat) (c : Client.state) :
  Peer.client e = Some i -> clientObjs w !! i = Some c ->
  Server.clientOf e w = Ok c.
Proof.
  intros He Hc. unfold Server.clientOf. rewrite He. simpl. by rewrite Hc.
Qed.

Lemma aset_middle {K V} `{EqDecision K} (pre suf : list (K * V)) (k : K)
    (v v' : V) :
  k ∉ akeys pre ->
  aset k v' (pre ++ (k, v) :: suf) = pre ++ (k, v') :: suf.
Proof.
  intros Hk. rewrite aset_app_notin by done. simpl.
  by destruct (decide (k = k)).
Qed.

Lemma aget_middle {K V} `{EqDecision K} (pre suf : list (K * V)) (k : K)
    (v : V) :
  k ∉ akeys pre -> aget k (pre ++ (k, v) :: suf) = Some v.
Proof. intros Hk. rewrite aget_app_notin by done. apply aget_head. Qed.

Lemma NoDup_fmap_pair_r {A B} (b : B) (l : list A) :
  NoDup l -> NoDup ((fun a => (a, b)) <$> l).
Proof. apply NoDup_fmap_2. by intros ?? [= ->]. Qed.


Lemma length_filter_others {A B} (f : A -> B) `{EqDecision B} (l : list A)
    (x : A) :
  NoDup (f <$> l) -> x ∈ l ->
  S (length (filter (fun y => f y <> f x) l)) = length l.
Proof.
  induction l as [|a l IH]; [by intros _ ?%elem_of_nil|].
  rewrite fmap_cons, NoDup_cons. intros [Hn Hd] Hx. rewrite filter_cons.
  destruct (decide (f a <> f x)) as [Hne|Heq].
  - simpl. f_equal. apply IH; [done|].
    apply elem_of_cons in Hx as [->|Hx]; done.
  - apply dec_stable in Heq. simpl. f_equal. f_equal. apply filter_all.
    intros y Hy Hyx. apply Hn. rewrite Heq, <- Hyx.
    by apply list_elem_of_fmap_2.
Qed.

Lemma notin_fmap_take {A B} (f : A -> B) (l : list A) (k : nat) (y : A) :
  NoDup (f <$> l) -> l !! k = Some y -> f y ∉ f <$> take k l.
Proof.
  intros Hd Hk Hin. rewrite fmap_take in Hin.
  apply list_elem_of_lookup in Hin as [j Hj].
  apply lookup_take_Some in Hj as [Hj Hjk].
  assert (j = k); [|lia].
  eapply NoDup_lookup; [exact Hd|exact Hj|].
  by rewrite list_lookup_fmap, Hk.
Qed.


Lemma foldM_push {A B} (f : A -> list B -> result (list B)) (sel : A -> Prop)
    `{forall a, Decision (sel a)} (g : A -> B) (l : list A) (acc : list B) :
  (forall a acc, a ∈ l ->
     f a acc = Ok (if decide (sel a) then acc ++ [g a] else acc)) ->
  foldM f l acc = Ok (acc ++ (g <$> filter sel l)).
Proof.
  revert acc. induction l as [|a l IH]; intros acc Hf.
  - simpl. by rewrite app_nil_r.
  - simpl. rewrite Hf by left. rewrite bind_Ok, filter_cons.
    rewrite IH by (intros; apply Hf; by right).
    destruct (decide (sel a)); [|done]. by rewrite fmap_cons, <- app_assoc.
Qed.

Lemma sumZ_app (l1 l2 : list Z) : sumZ (l1 ++ l2) = sumZ l1 + sumZ l2.
Proof. unfold sumZ. induction l1; simpl in *; lia. Qed.

Lemma sumZ_cons (a : Z) (l : list Z) : sumZ (a :: l) = a + sumZ l.
Proof. done. Qed.

Lemma toInt32_0 : toInt32 0 = 0.
Proof. done. Qed.

Lemma toInt32_idemp (z : Z) : toInt32 (toInt32 z) = toInt32 z.
Proof. apply toInt32_id, toInt32_range. Qed.


Lemma foldM_sum {A} (f : A -> Z -> result Z) (sel : A -> Prop)
    `{forall a, Decision (sel a)} (g : A -> Z) (l : list A) (v0 : Z) :
  (forall a v, a ∈ l ->
     f a v = Ok (if decide (sel a) then toInt32 (v + g a) else v)) ->
  foldM f l (toInt32 v0) = Ok (toInt32 (v0 + sumZ (g <$> filter sel l))).
Proof.
  revert v0. induction l as [|a l IH]; intros v0 Hf.
  - simpl. by rewrite Z.add_0_r.
  - simpl. rewrite Hf by left. rewrite bind_Ok, filter_cons.
    destruct (decide (sel a)).
    + rewrite toInt32_add_l, IH by (intros; apply Hf; by right).
      rewrite fmap_cons, sumZ_cons. do 2 f_equal. lia.
    + apply IH. intros; apply Hf; by right.
Qed.

Lemma NoDup_all_eq_length {A} (l : list A) (a : A) :
  NoDup l -> (forall b, b ∈ l -> b = a) -> (length l <= 1)%nat.
Proof.
  intros Hd Hall. destruct l as [|b [|c l]]; simpl; try lia.
  exfalso. apply NoDup_cons in Hd as [Hb _]. apply Hb.
  rewrite (Hall b) by left. rewrite <- (Hall c) by (right; left). left.
Qed.


Lemma NoDup_fmap_pair_l {A B} (a : A) (l : list B) :
  NoDup l -> NoDup ((fun b => (a, b)) <$> l).
Proof. apply NoDup_fmap_2. by intros ?? [= ->]. Qed.

Lemma indexOf_lookup (k : PID) (l : list PID) :
  k ∈ l -> l !! indexOf k l = Some k.
Proof.
  induction l as [|k' l IH]; [by intros ?%elem_of_nil|].
  intros Hk. simpl. destruct (decide (k' = k)) as [->|Hne]; [done|].
  apply elem_of_cons in Hk as [->|Hk]; [done|]. by apply IH.
Qed.

Lemma indexOf_lt (k : PID) (l : list PID) :
  k ∈ l -> (indexOf k l < length l)%nat.
Proof.
  intros Hk. eapply lookup_lt_Some. by apply indexOf_lookup.
Qed.


Lemma foldM_sum_int32 {A} (f : A -> Z -> result Z) (sel : A -> Prop)
    `{forall a, Decision (sel a)} (g : A -> Z) (l : list A) (v0 : Z) :
  (forall a v, a ∈ l -> int32 v ->
     f a v = Ok (if decide (sel a) then toInt32 (v + g a) else v)) ->
  int32 v0 ->
  foldM f l v0 = Ok (toInt32 (v0 + sumZ (g <$> filter sel l))).
Proof.
  revert v0. induction l as [|a l IH]; intros v0 Hf Hv0.
  - simpl. by rewrite Z.add_0_r, toInt32_id.
  - simpl. rewrite Hf by (done || left). rewrite bind_Ok, filter_cons.
    destruct (decide (sel a)).
    + rewrite IH; [|intros; apply Hf; [by right|done]|apply toInt32_range].
      rewrite toInt32_add_l, fmap_cons, sumZ_cons. do 2 f_equal. lia.
    + apply IH; [|done]. intros; apply Hf; [by right|done].
Qed.

Lemma filter_fmap_iff {A B} (f : A -> B) (Q : B -> Prop) (R : A -> Prop)
    `{forall b, Decision (Q b)} `{forall a, Decision (R a)} (l : list A) :
  (forall a, a ∈ l -> Q (f a) <-> R a) ->
  filter Q (f <$> l) = f <$> filter R l.
Proof.
  induction l as [|a l IH]; [done|]. intros Hiff.
  rewrite fmap_cons, !filter_cons.
  rewrite IH by (intros; apply Hiff; by right).
  pose proof (Hiff a (list_elem_of_here a l)) as Ha.
  destruct (decide (Q (f a))), (decide (R a)); try done; tauto.
Qed.

Lemma filter_take_S {A} (Q : A -> Prop) `{forall a, Decision (Q a)}
    (l : list A) (k : nat) (y : A) :
  l !! k = Some y ->
  filter Q (take (S k) l)
  = filter Q (take k l) ++ (if decide (Q y) then [y] else []).
Proof.
  intros Hk. by rewrite (take_S_r _ _ _ Hk), filter_app.
Qed.

Lemma notin_fmap_filter_take {A B} (f : A -> B) (Q : A -> Prop)
    `{forall a, Decision (Q a)} (l : list A) (k : nat) (y : A) :
  NoDup (f <$> l) -> l !! k = Some y -> f y ∉ f <$> filter Q (take k l).
Proof.
  intros Hd Hk [z [Heq [_ Hz]%list_elem_of_filter]]%list_elem_of_fmap.
  apply (notin_fmap_take f l k y Hd Hk). rewrite Heq.
  by apply list_elem_of_fmap_2.
Qed.


Lemma aget_app_in {K V} `{EqDecision K} (pre o : list (K * V)) (k : K) :
  k ∈ akeys pre -> aget k (pre ++ o) = aget k pre.
Proof.
  induction pre as [|[k' v] pre IH]; [by intros ?%elem_of_nil|].
  intros Hk. simpl. destruct (decide (k' = k)); [done|]. apply IH.
  rewrite akeys_cons in Hk. apply elem_of_cons in Hk as [->|Hk]; done.
Qed.


(** Sums over the clients. *)
Lemma sumZ_fmap_add {A} (g h : A -> Z) (l : list A) :
  sumZ ((fun x => g x + h x) <$> l) = sumZ (g <$> l) + sumZ (h <$> l).
Proof.
  induction l as [|a l IH]; [done|]. rewrite !fmap_cons, !sumZ_cons, IH. lia.
Qed.

Lemma sumZ_fmap_ext {A} (g h : A -> Z) (l : list A) :
  (forall x, x ∈ l -> g x = h x) -> sumZ (g <$> l) = sumZ (h <$> l).
Proof.
  induction l as [|a l IH]; [done|]. intros Hgh.
  rewrite !fmap_cons, !sumZ_cons, IH, Hgh; [done|by left|].
  intros; apply Hgh; by right.
Qed.

Lemma sumZ_fmap_zero {A} (g : A -> Z) (l : list A) :
  (forall x, x ∈ l -> g x = 0) -> sumZ (g <$> l) = 0.
Proof.
  induction l as [|a l IH]; [done|]. intros Hg.
  rewrite fmap_cons, sumZ_cons, IH, Hg; [done|by left|].
  intros; apply Hg; by right.
Qed.

Lemma sumZ_filter_split {A} (Q : A -> Prop) `{forall a, Decision (Q a)}
    (g : A -> Z) (l : list A) :
  sumZ (g <$> l)
  = sumZ (g <$> filter Q l) + sumZ (g <$> filter (fun a => ~ Q a) l).
Proof.
  induction l as [|a l IH]; [done|].
  rewrite fmap_cons, sumZ_cons, !filter_cons, IH.
  destruct (decide (Q a)) as [HQ|HQ].
  - rewrite (decide_False (P := ~ Q a)) by tauto.
    rewrite fmap_cons, sumZ_cons. lia.
  - rewrite (decide_True (P := ~ Q a)) by done.
    rewrite fmap_cons, sumZ_cons. lia.
Qed.

Lemma sumZ_filter_zero {A} (Q : A -> Prop) `{forall a, Decision (Q a)}
    (g : A -> Z) (l : list A) :
  (forall x, x ∈ l -> ~ Q x -> g x = 0) ->
  sumZ (g <$> filter Q l) = sumZ (g <$> l).
Proof.
  intros Hg. rewrite (sumZ_filter_split Q g l).
  rewrite (sumZ_fmap_zero g (filter (fun a => ~ Q a) l)); [lia|].
  intros x [Hn Hx]%list_elem_of_filter. by apply Hg.
Qed.

Lemma sumZ_swap {A B} (f : A -> B -> Z) (l1 : list A) (l2 : list B) :
  sumZ ((fun x => sumZ (f x <$> l2)) <$> l1)
  = sumZ ((fun y => sumZ ((fun x => f x y) <$> l1)) <$> l2).
Proof.
  induction l1 as [|a l1 IH].
  - simpl. symmetry. by apply sumZ_fmap_zero.
  - rewrite fmap_cons, sumZ_cons, IH, <- sumZ_fmap_add.
    apply sumZ_fmap_ext. intros y _. by rewrite fmap_cons, sumZ_cons.
Qed.

Lemma sumZ_antisym {A} (f : A -> A -> Z) (l : list A) :
  (forall x y, x ∈ l -> y ∈ l -> f x y + f y x = 0) ->
  sumZ ((fun x => sumZ (f x <$> l)) <$> l) = 0.
Proof.
  induction l as [|a l IH]; [done|]. intros Hf.
  rewrite fmap_cons, sumZ_cons. cbv beta. rewrite fmap_cons, sumZ_cons.
  rewrite (sumZ_fmap_ext (fun x => sumZ (f x <$> a :: l))
             (fun x => f x a + sumZ (f x <$> l)))
    by (intros; cbv beta; by rewrite fmap_cons, sumZ_cons).
  rewrite sumZ_fmap_add, IH
    by (intros; apply Hf; by right).
  assert (f a a = 0) as ->.
  { pose proof (Hf a a (list_elem_of_here a l) (list_elem_of_here a l)).
    lia. }
  assert (sumZ (f a <$> l) + sumZ ((fun x => f x a) <$> l) = 0); [|lia].
  rewrite <- sumZ_fmap_add. apply sumZ_fmap_zero. intros y Hy.
  apply Hf; [by left|by right].
Qed.

Lemma toInt32_sumZ {A} (g : A -> Z) (l : list A) (a : Z) :
  toInt32 (a + sumZ ((fun x => toInt32 (g x)) <$> l))
  = toInt32 (a + sumZ (g <$> l)).
Proof.
  revert a. induction l as [|x l IH]; intros a; [done|].
  rewrite !fmap_cons, !sumZ_cons, !Z.add_assoc, IH.
  rewrite <- (toInt32_add_l (a + toInt32 (g x))), toInt32_add_r.
  by rewrite toInt32_add_l.
Qed.

(** The order of strings. *)
Lemma ltb_irrefl (s : string) : String.ltb s s = false.
Proof.
  unfold String.ltb. pose proof (String.compare_antisym s s) as Hs.
  by destruct (String.compare s s).
Qed.

Lemma ltb_antisym (s1 s2 : string) :
  String.ltb s1 s2 = true -> String.ltb s2 s1 = false.
Proof.
  unfold String.ltb. rewrite (String.compare_antisym s1 s2).
  by destruct (String.compare s2 s1).
Qed.

Lemma ltb_total (s1 s2 : string) :
  String.ltb s1 s2 = false -> String.ltb s2 s1 = false -> s1 = s2.
Proof.
  unfold String.ltb. intros H1 H2. apply String.compare_eq_iff.
  rewrite (String.compare_antisym s1 s2) in *.
  by destruct (String.compare s2 s1).
Qed.


(** Client and server states are compared field by field. *)
Ltac client_fields :=
  cbv [
    Client.id Client.secretValue Client.nbClients Client.threshold
    Client.isUp Client.tape Client.seedPrivateKey Client.seedPublicKey
    Client.encryptionPrivateKey Client.encryptionPublicKey Client.clientList
    Client.selfMaskSeed Client.secretKeyShamir Client.selfMaskSeedShamir
    Client.ownPrivateKeyShare Client.ownSelfMaskSeedShare Client.ownIndex
    Client.ciphertexts Client.clientListU2 Client.maskedGradient
    Client.clientIDsU2 Client.clientIDsU3 Client.IDsinU2NotInU3
    Client.splits Client.set_isUp Client.set_seedPrivateKey
    Client.set_seedPublicKey Client.set_encryptionPrivateKey
    Client.set_encryptionPublicKey Client.set_clientList
    Client.set_selfMaskSeed Client.set_secretKeyShamir
    Client.set_selfMaskSeedShamir Client.set_ownPrivateKeyShare
    Client.set_ownSelfMaskSeedShare Client.set_ownIndex
    Client.set_ciphertexts Client.set_clientListU2 Client.set_maskedGradient
    Client.set_clientIDsU2 Client.set_clientIDsU3 Client.set_IDsinU2NotInU3
    Client.set_splits Client.new Client.round0 Client.generateKeyPairs
    Client.generateSelfMaskSeed Client.putDown ].

Ltac server_fields :=
  cbv [
    Server.clients Server.nbClients Server.threshold Server.clientList
    Server.clientListU2 Server.clientCiphertextBuffer Server.clientIDsU2
    Server.clientIDsU3 Server.clientU2NotInU3 Server.agg Server.clientIDsU5
    Server.keyStocker Server.seedStocker Server.keysRetrieved
    Server.seedRecovered Server.set_clientList Server.set_clientListU2
    Server.set_clientCiphertextBuffer Server.set_clientIDsU2
    Server.set_clientIDsU3 Server.set_clientU2NotInU3 Server.set_agg
    Server.set_clientIDsU5 Server.set_keyStocker Server.set_seedStocker
    Server.set_keysRetrieved Server.set_seedRecovered Server.new ].

Ltac expected_states :=
  unfold Expected.client3, Expected.client2b, Expected.client2,
    Expected.client1c, Expected.client1b, Expected.client1, Expected.clientA,
    Expected.client0, Expected.server2, Expected.server1, Expected.serverA,
    Expected.server0.

Section EndToEnd.
Variable P : Primitives.
Variable inputs : list (Tape * PID * Q).
Variable threshold : Z.
Variable dropped : list nat.

Local Abbreviation nbClient := (length inputs).
Local Abbreviation inId := Run.inId.
Local Abbreviation ids := (Expected.ids inputs).
Local Abbreviation client0 := (Expected.client0 inputs threshold).
Local Abbreviation clientA := (Expected.clientA inputs threshold).
Local Abbreviation serverMap := (Expected.serverMap inputs).
Local Abbreviation serverEntry := Expected.serverEntry.
Local Abbreviation server0 := (Expected.server0 inputs threshold).
Local Abbreviation serverA := (Expected.serverA inputs threshold).

Hypothesis Hids : NoDup (Expected.ids inputs).

Lemma ids_lookup (i : nat) (x : Tape * PID * Q) :
  inputs !! i = Some x -> ids !! i = Some (inId x).
Proof. intros H. unfold Expected.ids. by rewrite list_lookup_fmap, H. Qed.

Lemma inId_inj (x y : Tape * PID * Q) :
  x ∈ inputs -> y ∈ inputs -> inId x = inId y -> x = y.
Proof.
  intros [i Hi]%list_elem_of_lookup [j Hj]%list_elem_of_lookup Heq.
  assert (i = j) as ->; [|congruence].
  eapply NoDup_lookup; [exact Hids|by apply ids_lookup|].
  rewrite Heq. by apply ids_lookup.
Qed.

Lemma akeys_serverMap : akeys serverMap = ids.
Proof. unfold Expected.serverMap. apply akeys_imap_entries. Qed.

Lemma aget_serverMap (i : nat) (x : Tape * PID * Q) :
  inputs !! i = Some x ->
  aget (inId x) serverMap = Some (snd (serverEntry i x)).
Proof.
  intros Hi. unfold Expected.serverMap, Expected.serverEntry.
  by apply (aget_imap_NoDup inId
    (fun i x => ClientForServer i (inId x) (Some (Expected.seedPub x))
                  (Some (Expected.encPub x)))).
Qed.

(** Round 0 of the clients. *)
Lemma clients_round0 :
  Run.forEachClient (fun c h => Ok (Client.round0 c, h)) nbClient
    (snd (Run.generation inputs threshold))
  = Ok (mkWorld (client0 <$> inputs) []).
Proof.
  pose (new := fun x : Tape * PID * Q =>
    Client.new (Run.inTape x) (inId x) (Run.inSecret x) nbClient threshold).
  pose (W := fun k =>
    mkWorld (upto k (fun _ => client0) (fun _ => new) inputs) []).
  pose proof (forEachClient_chain (fun c h => Ok (Client.round0 c, h))
                nbClient W) as Hchain.
  replace (W 0%nat) with (snd (Run.generation inputs threshold)) in Hchain.
  2: { unfold W. by rewrite upto_0, imap_const_fmap. }
  replace (W nbClient) with (mkWorld (client0 <$> inputs) []) in Hchain.
  2: { unfold W. by rewrite upto_all, imap_const_fmap. }
  apply Hchain. clear Hchain. intros k Hk.
  destruct (lookup_lt_is_Some_2 inputs k Hk) as [x Hx].
  exists (new x), (client0 x), []. split_and!.
  - simpl. rewrite upto_lookup, Hx. simpl.
    destruct (decide (k < k)%nat); [lia|done].
  - done.
  - unfold W. simpl. f_equal. symmetry.
    exact (upto_step (fun _ => client0) (fun _ => new) inputs k x Hx).
Qed.

(** [receivePublicKeys] builds the server's map. *)
Lemma receivePublicKeys_spec :
  Server.receivePublicKeys server0 (mkWorld (client0 <$> inputs) [])
  = Ok (serverA, mkWorld (client0 <$> inputs) [serverMap]).
Proof.
  unfold Server.receivePublicKeys.
  change (Server.clients server0) with (seq 0 nbClient).
  assert (foldM (Server.addClientForServer (mkWorld (client0 <$> inputs) []))
            (seq 0 nbClient) [] = Ok serverMap) as ->; [|done].
  pose (W := fun k => take k serverMap).
  pose proof (foldM_chain
    (Server.addClientForServer (mkWorld (client0 <$> inputs) []))
    (seq 0 nbClient) W) as Hchain.
  replace (W (length (seq 0 nbClient))) with serverMap in Hchain.
  2: { unfold W. symmetry. apply take_ge.
       unfold Expected.serverMap. by rewrite length_imap, length_seq. }
  apply Hchain. clear Hchain.
  intros k a Hk. apply lookup_seq in Hk as [-> Hlt].
  simpl in *. destruct (lookup_lt_is_Some_2 inputs k Hlt) as [x Hx].
  unfold Server.addClientForServer. simpl.
  rewrite list_lookup_fmap, Hx. simpl. unfold W.
  assert (serverMap !! k = Some (serverEntry k x)) as Hk.
  { unfold Expected.serverMap. by rewrite list_lookup_imap, Hx. }
  rewrite (take_S_r _ _ _ Hk). rewrite aset_fresh; [done|].
  unfold akeys. rewrite fmap_take.
  fold (akeys serverMap). rewrite akeys_serverMap.
  intros Hin. apply list_elem_of_lookup in Hin as [j Hj].
  apply lookup_take_Some in Hj as [Hj Hjk].
  assert (j = k); [|lia].
  eapply NoDup_lookup; [exact Hids|exact Hj|by apply ids_lookup].
Qed.

(** [broadcastClients] hands the server's map to every client. *)
Lemma broadcastClients_spec :
  Server.broadcastClients serverA (mkWorld (client0 <$> inputs) [serverMap])
  = Ok (mkWorld (clientA <$> inputs) [serverMap]).
Proof.
  unfold Server.broadcastClients. simpl.
  pose (W := fun k =>
    mkWorld (upto k (fun _ => clientA) (fun _ => client0) inputs) [serverMap]).
  pose proof (foldM_chain (Server.broadcastTo serverA) (akeys serverMap) W)
    as Hchain.
  replace (W 0%nat) with (mkWorld (client0 <$> inputs) [serverMap]) in Hchain.
  2: { unfold W. by rewrite upto_0, imap_const_fmap. }
  replace (W (length (akeys serverMap)))
    with (mkWorld (clientA <$> inputs) [serverMap]) in Hchain.
  2: { unfold W. rewrite upto_all, imap_const_fmap; [done|].
       rewrite akeys_serverMap. unfold Expected.ids. by rewrite length_fmap. }
  apply Hchain. clear Hchain.
  intros k a Hk. rewrite akeys_serverMap in Hk.
  unfold Expected.ids in Hk. rewrite list_lookup_fmap in Hk.
  destruct (inputs !! k) as [x|] eqn:Hx; [|done]. simpl in Hk.
  injection Hk as <-.
  unfold Server.broadcastTo. simpl.
  rewrite (aget_serverMap k x Hx). simpl.
  unfold Server.callClient. simpl.
  rewrite upto_lookup, Hx. simpl.
  destruct (decide (k < k)%nat); [lia|]. simpl.
  rewrite (receiveClients_records 0 _ _ serverMap) by done. simpl.
  unfold W. do 2 f_equal.
  exact (upto_step (fun _ => clientA) (fun _ => client0) inputs k x Hx).
Qed.

(** Round 0. *)
Lemma run_round0 :
  Run.round0 nbClient (Run.generation inputs threshold)
  = Ok (serverA, mkWorld (clientA <$> inputs) [serverMap]).
Proof.
  unfold Run.round0. rewrite clients_round0, bind_Ok.
  change (fst (Run.generation inputs threshold)) with server0.
  unfold Server.round0. rewrite receivePublicKeys_spec, bind_Ok.
  cbn beta iota. by rewrite broadcastClients_spec.
Qed.


(** *** Round 1 of the clients *)

Local Abbreviation peers := (Expected.peers inputs).
Local Abbreviation peerIDs := (Expected.peerIDs inputs).
Local Abbreviation peerMap := (Expected.peerMap P inputs).
Local Abbreviation peerEntry := (Expected.peerEntry P).
Local Abbreviation seed16 := (Expected.seed16 P).
Local Abbreviation pairKey := (Expected.pairKey P).
Local Abbreviation keyShares := (Expected.keyShares P inputs threshold).
Local Abbreviation seedShares := (Expected.seedShares P inputs threshold).
Local Abbreviation sent := (Expected.sent P inputs threshold).
Local Abbreviation message := (Expected.message P inputs threshold).
Local Abbreviation ownIdx := (Expected.ownIdx inputs).
Local Abbreviation client1 := (Expected.client1 P inputs threshold).

(** [deriveBits] is asked for 128 bits. *)
Hypothesis Hbits : forall a b, (3 <= length (deriveBits P a b))%nat.

(** [split] returns, with the shares number 1 to [nbClient]. *)
Hypothesis Hshares :
  forall coins secret,
    exists shares,
      split P coins nbClient threshold secret = Some shares /\
      length shares = nbClient.

Lemma split_sharesOf (coins : Z) (secret : Bytes) :
  split P coins nbClient threshold secret
  = Some (sharesOf P coins nbClient threshold secret).
Proof.
  unfold sharesOf. destruct (Hshares coins secret) as (shares & -> & _).
  done.
Qed.

Lemma length_sharesOf (coins : Z) (secret : Bytes) :
  length (sharesOf P coins nbClient threshold secret) = nbClient.
Proof.
  unfold sharesOf. destruct (Hshares coins secret) as (shares & -> & Hl).
  done.
Qed.

Lemma NoDup_ids_filter (Q : Tape * PID * Q -> Prop)
    `{forall y, Decision (Q y)} :
  NoDup (inId <$> filter Q inputs).
Proof. apply NoDup_fmap_filter, Hids. Qed.

Lemma elem_of_peers (x y : Tape * PID * Q) :
  y ∈ peers x <-> y ∈ inputs /\ inId y <> inId x.
Proof. unfold Expected.peers. rewrite list_elem_of_filter. tauto. Qed.

Lemma getInt16_seed16 (x y : Tape * PID * Q) :
  getInt16 (deriveBits P (Expected.seedPriv x) (Expected.seedPub y)) 1
  = Some (seed16 x y).
Proof.
  unfold Expected.seed16.
  pose proof (Hbits (Expected.seedPriv x) (Expected.seedPub y)) as Hl.
  destruct (deriveBits P _ _) as [|a [|b [|c l]]]; simpl in Hl; try lia.
  done.
Qed.

Lemma aget_peerMap (x y : Tape * PID * Q) :
  y ∈ peers x -> aget (inId y) (peerMap x) = Some (snd (peerEntry x y)).
Proof.
  intros Hy. unfold Expected.peerMap, Expected.peerEntry.
  apply (aget_fmap_NoDup inId
    (fun y => ClientForClient (inId y) (Some (Expected.seedPub y))
                (seed16 x y) (pairKey x y) (mkPRNG (Some (seed16 x y)) 0)));
    [apply NoDup_ids_filter|exact Hy].
Qed.

Lemma computePairwiseEncryption_loop (c : Client.state) (x : Tape * PID * Q) :
  Client.id c = inId x ->
  Client.seedPrivateKey c = Some (Expected.seedPriv x) ->
  Client.encryptionPrivateKey c = Some (Expected.encPriv x) ->
  foldM (Client.addPairwiseEntry P c serverMap) (akeys serverMap) []
  = Ok (peerMap x).
Proof.
  intros Hid Hsk Hek. rewrite akeys_serverMap. unfold Expected.ids.
  rewrite foldM_fmap.
  apply (foldM_build (fun y => Client.addPairwiseEntry P c serverMap (inId y))
           (fun y => inId y <> inId x) (peerEntry x) inputs []).
  - simpl. unfold Expected.peerEntry. rewrite akeys_fmap_entries.
    apply NoDup_ids_filter.
  - intros y acc Hy. unfold Client.addPairwiseEntry. rewrite Hid.
    destruct (decide (inId y <> inId x)) as [Hne|Heq]; [|done].
    apply list_elem_of_lookup in Hy as [j Hj].
    unfold Client.pairwiseEntry.
    rewrite (aget_serverMap j y Hj), Hsk, Hek. simpl.
    rewrite getInt16_seed16. done.
Qed.

Lemma sent_lookup (x y : Tape * PID * Q) (k : nat) :
  peers x !! k = Some y ->
  sent x !! k = Some (inId x, inId y, message x k y).
Proof. intros Hk. unfold Expected.sent. by rewrite list_lookup_imap, Hk. Qed.

Lemma akeys_sent (x : Tape * PID * Q) :
  akeys (sent x) = (fun y => (inId x, inId y)) <$> peers x.
Proof.
  unfold Expected.sent.
  apply (akeys_imap_entries (fun y => (inId x, inId y))
           (fun k y => message x k y)).
Qed.

Lemma generateCiphertexts_loop (c : Client.state) (x : Tape * PID * Q) :
  Client.id c = inId x -> Client.tape c = Run.inTape x ->
  Client.secretKeyShamir c = Some (keyShares x) ->
  Client.selfMaskSeedShamir c = Some (seedShares x) ->
  foldM (Client.addCiphertext c (peerMap x)) (akeys (peerMap x)) ([], 1%nat)
  = Ok (sent x, ownIdx x).
Proof.
  intros Hid Htape Hsk Hsm.
  unfold Expected.peerMap at 2, Expected.peerEntry.
  rewrite akeys_fmap_entries, foldM_fmap.
  pose (W := fun k => (take k (sent x), S k)).
  pose proof (foldM_chain
    (fun y => Client.addCiphertext c (peerMap x) (inId y)) (peers x) W)
    as Hchain.
  replace (W (length (peers x))) with (sent x, ownIdx x) in Hchain.
  2: { unfold W, Expected.ownIdx. f_equal. symmetry. apply take_ge.
       unfold Expected.sent. by rewrite length_imap. }
  apply Hchain. clear Hchain. intros k y Hk.
  assert (y ∈ peers x) as Hy by (eapply list_elem_of_lookup_2; exact Hk).
  unfold W, Client.addCiphertext. rewrite Hid.
  destruct (decide (inId y <> inId x)) as [Hne|Heq].
  2: { apply elem_of_peers in Hy. tauto. }
  rewrite Hsk, Hsm. simpl. rewrite (aget_peerMap x y Hy). simpl.
  rewrite Htape. f_equal. f_equal.
  rewrite (take_S_r _ _ _ (sent_lookup x y k Hk)).
  apply aset_fresh. unfold akeys. rewrite fmap_take. fold (akeys (sent x)).
  rewrite akeys_sent. intros Hin.
  apply list_elem_of_lookup in Hin as [j Hj].
  apply lookup_take_Some in Hj as [Hj Hjk].
  rewrite list_lookup_fmap in Hj.
  destruct (peers x !! j) as [z|] eqn:Hz; [|done]. simpl in Hj.
  assert (j = k); [|lia].
  eapply NoDup_lookup; [exact (NoDup_ids_filter (fun y => inId y <> inId x))|..].
  - rewrite list_lookup_fmap. fold (peers x). rewrite Hz. simpl. reflexivity.
  - rewrite list_lookup_fmap. fold (peers x). rewrite Hk. simpl. congruence.
Qed.

Lemma client_round1_gen (c : Client.state) (i : nat) (x : Tape * PID * Q)
    (h : Heap) :
  Client.isUp c = true -> Client.id c = inId x ->
  Client.tape c = Run.inTape x ->
  Client.nbClients c = nbClient -> Client.threshold c = threshold ->
  Client.seedPrivateKey c = Some (Expected.seedPriv x) ->
  Client.encryptionPrivateKey c = Some (Expected.encPriv x) ->
  Client.clientList c = Some 0%nat ->
  h !! 0%nat = Some serverMap -> length h = S i ->
  Client.round1 P c h
  = Ok (Client.set_ciphertexts (Some (sent x))
         (Client.set_ownIndex (Some (ownIdx x))
           (Client.set_ownSelfMaskSeedShare (shareAt (seedShares x) (ownIdx x))
             (Client.set_ownPrivateKeyShare (shareAt (keyShares x) (ownIdx x))
               (Client.set_clientList (Some (S i))
                 (Client.set_selfMaskSeedShamir (Some (seedShares x))
                   (Client.set_secretKeyShamir (Some (keyShares x))
                     (Client.generateSelfMaskSeed c))))))),
        h ++ [peerMap x]).
Proof.
  intros Hup Hid Htape Hn Ht Hsk Hek Hcl Hh Hlen.
  unfold Client.round1. rewrite Hup.
  unfold Client.generateSecretKeyShares.
  change (Client.seedPrivateKey (Client.generateSelfMaskSeed c))
    with (Client.seedPrivateKey c).
  rewrite Hsk, orThrow_Some, bind_Ok.
  change (Client.tape (Client.generateSelfMaskSeed c)) with (Client.tape c).
  change (Client.nbClients (Client.generateSelfMaskSeed c))
    with (Client.nbClients c).
  change (Client.threshold (Client.generateSelfMaskSeed c))
    with (Client.threshold c).
  rewrite Htape, Hn, Ht, split_sharesOf, orThrow_Some, bind_Ok.
  fold (keyShares x).
  set (c1 := Client.set_secretKeyShamir _ _). rewrite bind_Ok.
  assert (Client.generateSelfMaskSeedShares P c1
          = Ok (Client.set_selfMaskSeedShamir (Some (seedShares x)) c1)) as ->.
  { unfold Client.generateSelfMaskSeedShares.
    change (Client.selfMaskSeed c1)
      with (Some (t_selfMaskSeed (Client.tape c) mod 2 ^ 32)).
    change (Client.tape c1) with (Client.tape c).
    change (Client.nbClients c1) with (Client.nbClients c).
    change (Client.threshold c1) with (Client.threshold c).
    by rewrite Htape, Hn, Ht, split_sharesOf. }
  rewrite bind_Ok.
  set (c2 := Client.set_selfMaskSeedShamir _ _).
  unfold Client.computePairwiseEncryption.
  change (Client.clientList c2) with (Client.clientList c).
  rewrite Hcl. cbv zeta. rewrite !(objAt_Some h 0 serverMap Hh).
  rewrite (computePairwiseEncryption_loop c2 x) by (subst c2 c1; by simpl).
  rewrite bind_Ok. cbv beta iota. rewrite bind_Ok. cbv beta iota.
  set (c3 := Client.set_clientList _ _).
  unfold Client.generateCiphertexts.
  change (Client.clientList c3) with (Some (length h)). cbv zeta.
  rewrite !(objAt_Some (h ++ [peerMap x]) (length h) (peerMap x))
    by (rewrite lookup_app_r by lia; by rewrite Nat.sub_diag).
  rewrite (generateCiphertexts_loop c3 x) by (subst c3 c2 c1; by simpl).
  rewrite bind_Ok. cbv beta iota.
  change (Client.secretKeyShamir c3) with (Some (keyShares x)).
  change (Client.selfMaskSeedShamir c3) with (Some (seedShares x)).
  unfold orThrow. rewrite !bind_Ok. subst c3. rewrite Hlen. reflexivity.
Qed.

Lemma client_round1_spec (i : nat) (x : Tape * PID * Q) (h : Heap) :
  h !! 0%nat = Some serverMap -> length h = S i ->
  Client.round1 P (clientA x) h = Ok (client1 i x, h ++ [peerMap x]).
Proof.
  intros Hh Hlen. by apply client_round1_gen.
Qed.

Local Abbreviation heap1 := (Expected.heap1 P inputs).

Lemma clients_round1 :
  Run.forEachClient (Client.round1 P) nbClient
    (mkWorld (clientA <$> inputs) [serverMap])
  = Ok (mkWorld (imap client1 inputs) heap1).
Proof.
  pose (W := fun k =>
    mkWorld (upto k client1 (fun _ => clientA) inputs)
      (serverMap :: (peerMap <$> take k inputs))).
  pose proof (forEachClient_chain (Client.round1 P) nbClient W) as Hchain.
  replace (W 0%nat) with (mkWorld (clientA <$> inputs) [serverMap]) in Hchain.
  2: { unfold W. by rewrite upto_0, imap_const_fmap. }
  replace (W nbClient) with (mkWorld (imap client1 inputs) heap1) in Hchain.
  2: { unfold W. rewrite upto_all by done. by rewrite firstn_all. }
  apply Hchain. clear Hchain. intros k Hk.
  destruct (lookup_lt_is_Some_2 inputs k Hk) as [x Hx].
  exists (clientA x), (client1 k x),
    ((serverMap :: (peerMap <$> take k inputs)) ++ [peerMap x]).
  split_and!.
  - simpl. rewrite upto_lookup, Hx. simpl.
    destruct (decide (k < k)%nat); [lia|done].
  - apply client_round1_spec; [done|]. simpl.
    rewrite length_fmap, length_take. lia.
  - unfold W. simpl. f_equal.
    + symmetry. exact (upto_step client1 (fun _ => clientA) inputs k x Hx).
    + rewrite (take_S_r _ _ _ Hx), fmap_app. done.
Qed.

(** *** Round 1 of the server *)

Local Abbreviation client1b := (Expected.client1b P inputs threshold).
Local Abbreviation bundle := (Expected.bundle P inputs threshold).
Local Abbreviation received := (Expected.received P inputs threshold).
Local Abbreviation buffer := (Expected.buffer P inputs threshold).
Local Abbreviation server1 := (Expected.server1 P inputs threshold).
Local Abbreviation heap1b := (Expected.heap1b P inputs threshold).
Local Abbreviation peerMap1 := (Expected.peerMap1 P inputs threshold).
Local Abbreviation peerEntry1 := (Expected.peerEntry1 P inputs threshold).

Lemma aget_serverMap_elem (x : Tape * PID * Q) :
  x ∈ inputs ->
  exists i, inputs !! i = Some x /\
    aget (inId x) serverMap = Some (snd (serverEntry i x)).
Proof.
  intros [i Hi]%list_elem_of_lookup. exists i. split; [done|].
  by apply aget_serverMap.
Qed.

Lemma computeU2_spec (cs : nat -> Tape * PID * Q -> Client.state)
    (h : Heap) :
  (forall i x, Client.isUp (cs i x) = true) ->
  Server.computeU2 serverA (mkWorld (imap cs inputs) (serverMap :: h))
  = Ok (Server.set_clientListU2 (Some 0%nat) serverA,
        mkWorld (imap cs inputs) (serverMap :: h)).
Proof.
  intros Hup. unfold Server.computeU2. cbv zeta.
  change (Server.clientList serverA) with (Some 0%nat).
  set (s := Server.set_clientListU2 _ _).
  change (Server.clientList s) with (Some 0%nat).
  change (Server.clientListU2 s) with (Some 0%nat).
  change (Server.threshold s) with threshold.
  set (w := mkWorld _ _).
  change (Server.objAt (heap w) (Some 0%nat)) with serverMap.
  rewrite akeys_serverMap.
  rewrite (foldM_const (Server.deleteIfDown s) _ w).
  - rewrite bind_Ok. unfold orThrow. rewrite bind_Ok.
    by rewrite jsLt_propLength.
  - intros k Hk.
    apply list_elem_of_fmap in Hk as [x [-> Hx]].
    apply list_elem_of_lookup in Hx as [i Hi].
    unfold Server.deleteIfDown.
    change (Server.clientList s) with (Some 0%nat).
    change (Server.objAt (heap w) (Some 0%nat)) with serverMap.
    rewrite (aget_serverMap i x Hi). unfold orThrow at 1. rewrite bind_Ok.
    rewrite (clientOf_at _ w i (cs i x)); [|done|].
    2: { unfold w. simpl. by rewrite list_lookup_imap, Hi. }
    rewrite bind_Ok. by rewrite Hup.
Qed.

Lemma akeys_bundle (x : Tape * PID * Q) :
  akeys (bundle x) = (fun y => (inId y, inId x)) <$> peers x.
Proof.
  unfold Expected.bundle.
  apply (akeys_fmap_entries (fun y => (inId y, inId x)) (received x)).
Qed.

Lemma sortInner_loop (x : Tape * PID * Q) :
  x ∈ inputs ->
  foldM (Server.sortInner
           ((fun y => (inId y, Some (sent y))) <$> inputs) (inId x)) ids []
  = Ok (bundle x).
Proof.
  intros Hx. unfold Expected.ids. rewrite foldM_fmap.
  rewrite (foldM_build _ (fun y => inId x <> inId y)
             (fun y => (inId y, inId x, received x y)) inputs []).
  - simpl. unfold Expected.bundle, Expected.peers. do 2 f_equal.
    apply list_filter_iff. intros y. split; congruence.
  - simpl.
    rewrite (akeys_fmap_entries (fun y => (inId y, inId x)) (received x)).
    rewrite (list_fmap_compose inId (fun a => (a, inId x))).
    apply NoDup_fmap_pair_r, NoDup_ids_filter.
  - intros y acc Hy. unfold Server.sortInner.
    destruct (decide (inId x <> inId y)); [|done].
    rewrite (aget_fmap_NoDup inId (fun y => Some (sent y)) inputs y Hids Hy).
    done.
Qed.

Lemma collectCiphertexts_spec (h : Heap) :
  Server.collectCiphertexts (Server.set_clientListU2 (Some 0%nat) serverA)
    (mkWorld (imap client1 inputs) (serverMap :: h))
  = Ok server1.
Proof.
  unfold Server.collectCiphertexts. cbv zeta.
  set (s := Server.set_clientListU2 _ _). set (w := mkWorld _ _).
  change (Server.objAt (heap w) (Server.clientListU2 s)) with serverMap.
  rewrite akeys_serverMap.
  assert (foldM (Server.fetchCiphertexts s w) ids []
          = Ok ((fun y => (inId y, Some (sent y))) <$> inputs)) as ->.
  { unfold Expected.ids. rewrite foldM_fmap.
    rewrite (foldM_build _ (fun _ => True)
               (fun y => (inId y, Some (sent y))) inputs []).
    - simpl. by rewrite filter_all.
    - simpl. rewrite filter_all by done.
      by rewrite (akeys_fmap_entries inId (fun y => Some (sent y))).
    - intros y acc [i Hi]%list_elem_of_lookup. unfold Server.fetchCiphertexts.
      change (Server.objAt (heap w) (Server.clientListU2 s)) with serverMap.
      rewrite (aget_serverMap i y Hi). unfold orThrow. rewrite bind_Ok.
      rewrite (clientOf_at _ w i (client1 i y)); [|done|].
      2: { unfold w. simpl. by rewrite list_lookup_imap, Hi. }
      rewrite bind_Ok. done. }
  rewrite bind_Ok.
  assert (foldM (Server.sortOuter
                   ((fun y => (inId y, Some (sent y))) <$> inputs) ids) ids []
          = Ok buffer) as ->; [|done].
  unfold Expected.ids at 2. rewrite foldM_fmap.
  rewrite (foldM_build _ (fun _ => True)
             (fun y => (inId y, bundle y)) inputs []).
  - simpl. by rewrite filter_all.
  - simpl. rewrite filter_all by done.
    by rewrite (akeys_fmap_entries inId bundle).
  - intros y acc Hy. unfold Server.sortOuter.
    rewrite (sortInner_loop y Hy). by rewrite bind_Ok.
Qed.

(** Every client must be able to reach the threshold. *)
Hypothesis Hthreshold : threshold <= Z.of_nat nbClient.

Lemma length_peers (x : Tape * PID * Q) :
  x ∈ inputs -> S (length (peers x)) = nbClient.
Proof. intros Hx. by apply (length_filter_others inId). Qed.

Lemma NoDup_peerIDs (x : Tape * PID * Q) : NoDup (inId <$> peers x).
Proof. apply NoDup_ids_filter. Qed.

Lemma akeys_peerMap1 (x : Tape * PID * Q) : akeys (peerMap1 x) = peerIDs x.
Proof.
  unfold Expected.peerMap1, Expected.peerEntry1.
  apply (akeys_fmap_entries inId
    (fun y => Peer.set_ciphertext (received x y) (snd (peerEntry x y)))).
Qed.

Lemma akeys_peerMap (x : Tape * PID * Q) : akeys (peerMap x) = peerIDs x.
Proof.
  unfold Expected.peerMap, Expected.peerEntry.
  apply (akeys_fmap_entries inId
    (fun y => ClientForClient (inId y) (Some (Expected.seedPub y))
                (seed16 x y) (pairKey x y) (mkPRNG (Some (seed16 x y)) 0))).
Qed.

Lemma storeCiphertext_closed (c : Client.state) (l : loc)
    (x : Tape * PID * Q) (h : Heap) :
  Client.clientList c = Some l -> h !! l = Some (peerMap x) ->
  foldM (Client.storeCiphertext c) (bundle x) (h, 0)
  = Ok (<[l := peerMap1 x]> h, Z.of_nat (length (peers x))).
Proof.
  intros Hcl Hh. unfold Expected.bundle. rewrite foldM_fmap.
  pose (W := fun k =>
    (<[l := (peerEntry1 x <$> take k (peers x))
            ++ (peerEntry x <$> drop k (peers x))]> h, Z.of_nat k)).
  pose proof (foldM_chain
    (fun y => Client.storeCiphertext c (inId y, inId x, received x y))
    (peers x) W) as Hchain.
  replace (W 0%nat) with (h, 0) in Hchain.
  2: { unfold W. rewrite take_0, drop_0. simpl.
       fold (peerMap x). by rewrite list_insert_id. }
  replace (W (length (peers x)))
    with (<[l := peerMap1 x]> h, Z.of_nat (length (peers x))) in Hchain.
  2: { unfold W. rewrite firstn_all, drop_all. simpl.
       by rewrite app_nil_r. }
  apply Hchain. clear Hchain. intros k y Hk. unfold W.
  assert (l < length h)%nat as Hl by (eapply lookup_lt_Some; exact Hh).
  rewrite (storeCiphertext_step c l _ _ _ _ _ _ Hcl
             (list_lookup_insert_eq h l _ Hl)).
  rewrite (drop_S _ _ _ Hk), fmap_cons.
  assert (inId y ∉ akeys (peerEntry1 x <$> take k (peers x))) as Hnotin.
  { unfold Expected.peerEntry1.
    rewrite (akeys_fmap_entries inId
      (fun y => Peer.set_ciphertext (received x y) (snd (peerEntry x y)))).
    apply notin_fmap_take; [apply NoDup_peerIDs|done]. }
  change (peerEntry x y) with (inId y, snd (peerEntry x y)).
  rewrite aget_middle by done. rewrite aset_middle by done.
  rewrite list_insert_insert_eq.
  rewrite (take_S_r _ _ _ Hk), fmap_app, <- app_assoc.
  replace (Z.of_nat k + 1) with (Z.of_nat (S k)) by lia. done.
Qed.

Lemma receiveCiphertexts_spec (c : Client.state) (i : nat)
    (x : Tape * PID * Q) (h : Heap) :
  x ∈ inputs ->
  Client.clientList c = Some (S i) -> Client.threshold c = threshold ->
  h !! S i = Some (peerMap x) ->
  Client.receiveCiphertexts (bundle x) c h
  = Ok (Client.set_clientListU2 (Some (S i)) c, <[S i := peerMap1 x]> h).
Proof.
  intros Hx Hcl Ht Hh. unfold Client.receiveCiphertexts.
  rewrite (storeCiphertext_closed c (S i) x h Hcl Hh), bind_Ok.
  cbv beta iota zeta. rewrite Hcl.
  set (c' := Client.set_clientListU2 _ _). set (h' := <[S i := _]> h).
  assert (S i < length h)%nat as Hl by (eapply lookup_lt_Some; exact Hh).
  assert (h' !! S i = Some (peerMap1 x)) as Hh'
    by apply (list_lookup_insert_eq h (S i) _ Hl).
  change (Client.clientList c') with (Client.clientList c). rewrite Hcl.
  rewrite (objAt_Some h' (S i) _ Hh').
  rewrite (deleteWithoutCiphertext_loop c' (S i) Hcl eq_refl
             (peerMap1 x) [] h' Hh').
  2: { simpl. rewrite akeys_peerMap1. apply NoDup_peerIDs. }
  rewrite bind_Ok. simpl app. rewrite filter_all.
  2: { intros [k e] [y [[= -> ->] Hy]]%list_elem_of_fmap.
       unfold hasCiphertext. simpl. by eexists. }
  rewrite list_insert_id by done.
  change (Client.threshold c') with (Client.threshold c). rewrite Ht.
  pose proof (length_peers x Hx).
  destruct (Z.ltb_spec (Z.of_nat (length (peers x))) (threshold - 1)); [lia|].
  done.
Qed.

Lemma akeys_buffer : akeys buffer = ids.
Proof.
  unfold Expected.buffer. apply (akeys_fmap_entries inId bundle).
Qed.

Lemma aget_buffer (x : Tape * PID * Q) :
  x ∈ inputs -> aget (inId x) buffer = Some (bundle x).
Proof.
  intros Hx. unfold Expected.buffer.
  by apply (aget_fmap_NoDup inId bundle).
Qed.

Lemma sendCiphertexts_spec :
  Server.sendCiphertexts server1 (mkWorld (imap client1 inputs) heap1)
  = Ok (mkWorld (imap client1b inputs) heap1b).
Proof.
  unfold Server.sendCiphertexts. cbv zeta.
  change (default [] (Server.clientCiphertextBuffer server1)) with buffer.
  rewrite akeys_buffer.
  pose (W := fun k =>
    mkWorld (upto k client1b client1 inputs)
      (serverMap :: upto k (fun _ => peerMap1) (fun _ => peerMap) inputs)).
  pose proof (foldM_chain (Server.sendCiphertextsTo server1 buffer) ids W)
    as Hchain.
  replace (W 0%nat) with (mkWorld (imap client1 inputs) heap1) in Hchain.
  2: { unfold W. by rewrite !upto_0, imap_const_fmap. }
  replace (W (length ids)) with (mkWorld (imap client1b inputs) heap1b)
    in Hchain.
  2: { unfold W, Expected.ids. rewrite length_fmap.
       by rewrite !upto_all, imap_const_fmap. }
  apply Hchain. clear Hchain. intros k a Hk.
  unfold Expected.ids in Hk. rewrite list_lookup_fmap in Hk.
  destruct (inputs !! k) as [x|] eqn:Hx; [|done]. simpl in Hk.
  injection Hk as <-.
  assert (x ∈ inputs) as Hin by (eapply list_elem_of_lookup_2; exact Hx).
  unfold Server.sendCiphertextsTo.
  change (Server.clientListU2 server1) with (Some 0%nat).
  rewrite orThrow_Some, bind_Ok.
  change (Server.objAt (heap (W k)) (Some 0%nat)) with serverMap.
  rewrite (aget_serverMap k x Hx), orThrow_Some, bind_Ok.
  rewrite (aget_buffer x Hin).
  change (default [] (Some (bundle x))) with (bundle x).
  rewrite (callClient_at _ _ (W k) k (client1 k x) (client1b k x)
             (<[S k := peerMap1 x]> (heap (W k)))); [|done|..].
  - unfold W. simpl. do 2 f_equal.
    + exact (upto_step client1b client1 inputs k x Hx).
    + f_equal.
      exact (upto_step (fun _ => peerMap1) (fun _ => peerMap) inputs k x Hx).
  - unfold W. simpl. rewrite upto_lookup, Hx. simpl.
    destruct (decide (k < k)%nat); [lia|done].
  - apply (receiveCiphertexts_spec (client1 k x) k x); [done..|].
    unfold W. simpl. rewrite upto_lookup, Hx. simpl.
    destruct (decide (k < k)%nat); [lia|done].
Qed.

Lemma server_round1 :
  Server.round1 serverA (mkWorld (imap client1 inputs) heap1)
  = Ok (server1, mkWorld (imap client1b inputs) heap1b).
Proof.
  unfold Server.round1, Expected.heap1.
  rewrite (computeU2_spec client1) by done. rewrite bind_Ok.
  cbv beta iota. rewrite collectCiphertexts_spec, bind_Ok.
  fold heap1. by rewrite sendCiphertexts_spec.
Qed.

Lemma run_round1 :
  Run.round1 P nbClient [] []
    (serverA, mkWorld (clientA <$> inputs) [serverMap])
  = Ok (server1, mkWorld (imap client1b inputs) heap1b).
Proof.
  unfold Run.round1. rewrite clientsRound_no_dropout. simpl fst. simpl snd.
  rewrite clients_round1, !bind_Ok. apply server_round1.
Qed.

(** *** The clients that are put down between round 1 and round 2 *)

Local Abbreviation dead := (Expected.dead inputs dropped).
Local Abbreviation survivors := (Expected.survivors inputs dropped).
Local Abbreviation casualties := (Expected.casualties inputs dropped).
Local Abbreviation survivorIDs := (Expected.survivorIDs inputs dropped).
Local Abbreviation client1c := (Expected.client1c P inputs threshold dropped).
Local Abbreviation client2 := (Expected.client2 P inputs threshold dropped).
Local Abbreviation client2b := (Expected.client2b P inputs threshold dropped).
Local Abbreviation heap2 := (Expected.heap2 P inputs threshold dropped).
Local Abbreviation maskedValue := (Expected.maskedValue P inputs).
Local Abbreviation pairTerm := (Expected.pairTerm P).
Local Abbreviation peerMap2 := (Expected.peerMap2 P inputs threshold).
Local Abbreviation peerEntry2 := (Expected.peerEntry2 P inputs threshold).

(** The positions of the clients put down are positions of the array. *)
Hypothesis Hdropped : forall d, d ∈ dropped -> (d < nbClient)%nat.

Lemma dead_cons (d : nat) (ds : list nat) (x y : Tape * PID * Q) :
  inputs !! d = Some x ->
  Expected.dead inputs (d :: ds) y <->
  inId y = inId x \/ Expected.dead inputs ds y.
Proof.
  intros Hd. unfold Expected.dead, Expected.droppedIDs. simpl.
  rewrite Hd. simpl. by rewrite elem_of_cons.
Qed.

Lemma putDownAll_spec (ds : list nat) (h : Heap) :
  (forall d, d ∈ ds -> (d < nbClient)%nat) ->
  forall cs : nat -> Tape * PID * Q -> Client.state,
  Run.putDownAll ds (mkWorld (imap cs inputs) h)
  = Ok (mkWorld
          (imap (fun i x => if decide (Expected.dead inputs ds x)
                            then Client.putDown (cs i x) else cs i x) inputs)
          h).
Proof.
  induction ds as [|d ds IH]; intros Hds cs.
  - done.
  - assert (d < nbClient)%nat as Hd by (apply Hds; left).
    destruct (lookup_lt_is_Some_2 inputs d Hd) as [x Hx].
    unfold Run.putDownAll. rewrite foldM_cons. simpl clientObjs.
    rewrite list_lookup_imap, Hx. simpl fmap.
    rewrite orThrow_Some, !bind_Ok. simpl heap.
    assert (<[d := Client.putDown (cs d x)]> (imap cs inputs)
            = imap (fun i y => if decide (inId y = inId x)
                               then Client.putDown (cs i y) else cs i y)
                inputs) as ->.
    { apply list_eq. intros j. rewrite list_lookup_imap.
      destruct (decide (j = d)) as [->|Hne].
      - rewrite list_lookup_insert_eq by (by rewrite length_imap).
        rewrite Hx. simpl. by destruct (decide (inId x = inId x)).
      - rewrite list_lookup_insert_ne by done. rewrite list_lookup_imap.
        destruct (inputs !! j) as [y|] eqn:Hy; [|done]. simpl.
        destruct (decide (inId y = inId x)) as [Heq|]; [|done].
        exfalso. apply Hne.
        eapply NoDup_lookup; [exact Hids|by apply ids_lookup|].
        rewrite Heq. by apply ids_lookup. }
    fold (Run.putDownAll ds). rewrite IH by (intros; apply Hds; by right).
    do 2 f_equal. apply imap_ext. intros i y Hy. simpl.
    destruct (decide (Expected.dead inputs (d :: ds) y)) as [Hdd|Hdd];
      rewrite (dead_cons d ds x y Hx) in Hdd;
      destruct (decide (Expected.dead inputs ds y));
      destruct (decide (inId y = inId x)); try done; tauto.
Qed.

Lemma putDown_dropped :
  Run.putDownAll dropped (mkWorld (imap client1b inputs) heap1b)
  = Ok (mkWorld (imap client1c inputs) heap1b).
Proof. by rewrite putDownAll_spec. Qed.

(** *** Round 2 of the clients *)

Lemma akeys_peerMap2 (x : Tape * PID * Q) : akeys (peerMap2 x) = peerIDs x.
Proof.
  unfold Expected.peerMap2, Expected.peerEntry2.
  apply (akeys_fmap_entries inId
    (fun y => Peer.set_PRNG (mkPRNG (Some (seed16 x y)) 1)
                (snd (peerEntry1 x y)))).
Qed.

Lemma addPairwiseMask_loop (c : Client.state) (l : loc)
    (x : Tape * PID * Q) (h : Heap) :
  Client.clientList c = Some l -> Client.id c = inId x ->
  h !! l = Some (peerMap1 x) ->
  foldM (Client.addPairwiseMask P c) (peerIDs x) (0, h)
  = Ok (toInt32 (sumZ (pairTerm x <$> peers x)), <[l := peerMap2 x]> h).
Proof.
  intros Hcl Hid Hh. unfold Expected.peerIDs. rewrite foldM_fmap.
  pose (W := fun k =>
    (toInt32 (sumZ (pairTerm x <$> take k (peers x))),
     <[l := (peerEntry2 x <$> take k (peers x))
            ++ (peerEntry1 x <$> drop k (peers x))]> h)).
  pose proof (foldM_chain
    (fun y => Client.addPairwiseMask P c (inId y)) (peers x) W) as Hchain.
  replace (W 0%nat) with (0, h) in Hchain.
  2: { unfold W. rewrite take_0, drop_0. simpl.
       fold (peerMap1 x). by rewrite list_insert_id. }
  replace (W (length (peers x)))
    with (toInt32 (sumZ (pairTerm x <$> peers x)), <[l := peerMap2 x]> h)
    in Hchain.
  2: { unfold W. rewrite firstn_all, drop_all. simpl.
       by rewrite app_nil_r. }
  apply Hchain. clear Hchain. intros k y Hk. unfold W.
  assert (l < length h)%nat as Hl by (eapply lookup_lt_Some; exact Hh).
  unfold Client.addPairwiseMask. rewrite Hcl, orThrow_Some, bind_Ok.
  rewrite (list_lookup_insert_eq h l _ Hl), orThrow_Some, bind_Ok.
  rewrite (drop_S _ _ _ Hk), fmap_cons.
  assert (inId y ∉ akeys (peerEntry2 x <$> take k (peers x))) as Hnotin.
  { unfold Expected.peerEntry2.
    rewrite (akeys_fmap_entries inId
      (fun y => Peer.set_PRNG (mkPRNG (Some (seed16 x y)) 1)
                  (snd (peerEntry1 x y)))).
    apply notin_fmap_take; [apply NoDup_peerIDs|done]. }
  change (peerEntry1 x y) with (inId y, snd (peerEntry1 x y)).
  rewrite aget_middle by done. rewrite orThrow_Some, bind_Ok.
  change (Peer.PRNG (snd (peerEntry1 x y)))
    with (Some (mkPRNG (Some (seed16 x y)) 0)).
  rewrite orThrow_Some, bind_Ok.
  change (draw P (mkPRNG (Some (seed16 x y)) 0))
    with (Expected.mask P x y, mkPRNG (Some (seed16 x y)) 1).
  cbv beta iota zeta.
  rewrite aset_middle by done. rewrite list_insert_insert_eq.
  rewrite (take_S_r _ _ _ Hk), !fmap_app, <- app_assoc, sumZ_app.
  change (sumZ (pairTerm x <$> [y])) with (pairTerm x y + 0).
  rewrite Z.add_0_r, Hid.
  assert (pairTerm x y
          = if String.ltb (inId y) (inId x) then Expected.mask P x y
            else if String.ltb (inId x) (inId y) then - Expected.mask P x y
            else 0) as -> by reflexivity.
  change (peerEntry2 x <$> [y])
    with [(inId y, Peer.set_PRNG (mkPRNG (Some (seed16 x y)) 1)
                     (snd (peerEntry1 x y)))].
  destruct (String.ltb (inId y) (inId x)).
  - by rewrite toInt32_add_l.
  - destruct (String.ltb (inId x) (inId y)).
    + by rewrite toInt32_sub_l.
    + by rewrite Z.add_0_r.
Qed.

(** The secrets of the clients that stay up are in the range in which
    the embedding follows [parseInt]. *)
Hypothesis Hsecrets :
  forall x, x ∈ inputs -> ~ dead x ->
    is_Some (secretValueRounded (Run.inSecret x)).

Lemma computeMaskedInputVector_spec (c : Client.state) (l : loc)
    (x : Tape * PID * Q) (h : Heap) :
  x ∈ inputs -> ~ dead x ->
  Client.clientList c = Some l -> Client.clientListU2 c = Some l ->
  Client.id c = inId x -> Client.secretValue c = Run.inSecret x ->
  Client.selfMaskSeed c = Some (Expected.selfSeed x) ->
  h !! l = Some (peerMap1 x) ->
  Client.computeMaskedInputVector P c h
  = Ok (Client.set_maskedGradient (Some (maskedValue x)) c,
        <[l := peerMap2 x]> h).
Proof.
  intros Hx Hlive Hcl Hcl2 Hid Hsec Hseed Hh.
  unfold Client.computeMaskedInputVector.
  rewrite Hcl2, (objAt_Some h l _ Hh), akeys_peerMap1.
  rewrite (addPairwiseMask_loop c l x h Hcl Hid Hh), bind_Ok.
  cbv beta iota. rewrite Hsec, Hseed.
  destruct (Hsecrets x Hx Hlive) as [r Hr].
  rewrite Hr, orThrow_Some, bind_Ok. cbv zeta.
  change (default (t_autoSeed (Client.tape c)) (Some (Expected.selfSeed x)))
    with (Expected.selfSeed x).
  change (draw P (mkPRNG (Some (Expected.selfSeed x)) 0)).1
    with (Expected.selfMask P x).
  rewrite toInt32_add_l, <- Z.add_assoc, toInt32_add_l, Z.add_assoc.
  unfold Expected.maskedValue, Expected.fixedPoint. rewrite Hr. done.
Qed.

Lemma client1c_dead (i : nat) (x : Tape * PID * Q) :
  dead x -> client1c i x = Client.putDown (client1b i x).
Proof. intros Hd. unfold Expected.client1c. by rewrite decide_True. Qed.

Lemma client1c_alive (i : nat) (x : Tape * PID * Q) :
  ~ dead x -> client1c i x = client1b i x.
Proof. intros Hd. unfold Expected.client1c. by rewrite decide_False. Qed.

Lemma client2_dead (i : nat) (x : Tape * PID * Q) :
  dead x -> client2 i x = Client.putDown (client1b i x).
Proof.
  intros Hd. unfold Expected.client2. rewrite decide_True by done.
  by apply client1c_dead.
Qed.

Lemma client2_alive (i : nat) (x : Tape * PID * Q) :
  ~ dead x ->
  client2 i x = Client.set_maskedGradient (Some (maskedValue x)) (client1b i x).
Proof.
  intros Hd. unfold Expected.client2. rewrite decide_False by done.
  by rewrite client1c_alive.
Qed.

Lemma client1b_fields (i : nat) (x : Tape * PID * Q) :
  Client.id (client1b i x) = inId x /\
  Client.isUp (client1b i x) = true /\
  Client.clientList (client1b i x) = Some (S i) /\
  Client.clientListU2 (client1b i x) = Some (S i) /\
  Client.secretValue (client1b i x) = Run.inSecret x /\
  Client.selfMaskSeed (client1b i x) = Some (Expected.selfSeed x) /\
  Client.threshold (client1b i x) = threshold.
Proof. repeat apply conj; reflexivity. Qed.

Lemma clients_round2 :
  Run.forEachClient (Client.round2 P) nbClient
    (mkWorld (imap client1c inputs) heap1b)
  = Ok (mkWorld (imap client2 inputs) heap2).
Proof.
  pose (m2 := fun (_ : nat) x => if decide (dead x) then peerMap1 x
                                 else peerMap2 x).
  pose (W := fun k =>
    mkWorld (upto k client2 client1c inputs)
      (serverMap :: upto k m2 (fun _ => peerMap1) inputs)).
  pose proof (forEachClient_chain (Client.round2 P) nbClient W) as Hchain.
  replace (W 0%nat) with (mkWorld (imap client1c inputs) heap1b) in Hchain.
  2: { unfold W. by rewrite !upto_0, imap_const_fmap. }
  replace (W nbClient) with (mkWorld (imap client2 inputs) heap2) in Hchain.
  2: { unfold W. rewrite !upto_all by done. unfold m2.
       by rewrite imap_const_fmap. }
  apply Hchain. clear Hchain. intros k Hk.
  destruct (lookup_lt_is_Some_2 inputs k Hk) as [x Hx].
  assert (x ∈ inputs) as Hin by (eapply list_elem_of_lookup_2; exact Hx).
  assert (clientObjs (W k) !! k = Some (client1c k x)) as Hc.
  { unfold W. simpl. rewrite upto_lookup, Hx. simpl.
    destruct (decide (k < k)%nat); [lia|done]. }
  assert (heap (W k) !! S k = Some (peerMap1 x)) as Hh.
  { unfold W. simpl. rewrite upto_lookup, Hx. simpl.
    destruct (decide (k < k)%nat); [lia|done]. }
  exists (client1c k x), (client2 k x), (<[S k := m2 k x]> (heap (W k))).
  split_and!; [done|..].
  - unfold m2. destruct (decide (dead x)) as [Hd|Hd].
    + rewrite client2_dead, client1c_dead by done.
      rewrite list_insert_id by done.
      apply rounds_skip_when_down. reflexivity.
    + rewrite client2_alive, client1c_alive by done.
      destruct (client1b_fields k x) as (Hid & Hup & Hcl & Hcl2 & Hs & Hm & _).
      unfold Client.round2. rewrite Hup.
      by apply (computeMaskedInputVector_spec (client1b k x) (S k) x).
  - unfold W. simpl. f_equal.
    + symmetry. exact (upto_step client2 client1c inputs k x Hx).
    + f_equal. symmetry.
      exact (upto_step m2 (fun _ => peerMap1) inputs k x Hx).
Qed.

Lemma clients_round2_dropping :
  Run.clientsRound (Client.round2 P) nbClient dropped []
    (mkWorld (imap client1b inputs) heap1b)
  = Ok (mkWorld (imap client2 inputs) heap2).
Proof.
  unfold Run.clientsRound. rewrite putDown_dropped, bind_Ok.
  rewrite clients_round2, bind_Ok. apply putDownAll_nil.
Qed.

(** *** Round 2 of the server *)

Local Abbreviation server2 := (Expected.server2 P inputs threshold dropped).
Local Abbreviation partialSum := (Expected.partialSum P inputs dropped).

(** Enough clients stay up. *)
Hypothesis Hsurvivors : threshold <= Z.of_nat (length survivors).

Lemma dead_inId (x y : Tape * PID * Q) : inId x = inId y -> dead x -> dead y.
Proof. unfold Expected.dead. by intros <-. Qed.

Lemma elem_of_survivors (x : Tape * PID * Q) :
  x ∈ survivors <-> x ∈ inputs /\ ~ dead x.
Proof. unfold Expected.survivors. rewrite list_elem_of_filter. tauto. Qed.

Lemma elem_of_casualties (x : Tape * PID * Q) :
  x ∈ casualties <-> x ∈ inputs /\ dead x.
Proof. unfold Expected.casualties. rewrite list_elem_of_filter. tauto. Qed.

Lemma elem_of_survivorIDs (x : Tape * PID * Q) :
  x ∈ inputs -> inId x ∈ survivorIDs <-> ~ dead x.
Proof.
  intros Hx. unfold Expected.survivorIDs. rewrite list_elem_of_fmap. split.
  - intros [y [Heq [Hy Hlive]%elem_of_survivors]] Hd. apply Hlive.
    by apply (dead_inId x y).
  - intros Hlive. exists x. split; [done|]. by apply elem_of_survivors.
Qed.

Lemma client2_fields (i : nat) (x : Tape * PID * Q) :
  Client.id (client2 i x) = inId x /\
  Client.isUp (client2 i x) = bool_decide (~ dead x) /\
  Client.clientList (client2 i x) = Some (S i) /\
  Client.clientListU2 (client2 i x) = Some (S i) /\
  Client.threshold (client2 i x) = threshold /\
  Client.secretValue (client2 i x) = Run.inSecret x /\
  (~ dead x -> Client.maskedGradient (client2 i x) = Some (maskedValue x)).
Proof.
  destruct (decide (dead x)) as [Hd|Hd].
  - rewrite client2_dead by done. rewrite bool_decide_false by tauto.
    repeat apply conj; try reflexivity. tauto.
  - rewrite client2_alive by done. rewrite bool_decide_true by tauto.
    repeat apply conj; reflexivity.
Qed.

Lemma lookup_world (cs : nat -> Tape * PID * Q -> Client.state) (h : Heap)
    (i : nat) (x : Tape * PID * Q) :
  inputs !! i = Some x ->
  clientObjs (mkWorld (imap cs inputs) h) !! i = Some (cs i x).
Proof. intros Hx. simpl. by rewrite list_lookup_imap, Hx. Qed.

Lemma upIDs_spec (s : Server.state)
    (cs : nat -> Tape * PID * Q -> Client.state) (h : Heap) :
  Server.clientListU2 s = Some 0%nat ->
  (forall i x, Client.isUp (cs i x) = bool_decide (~ dead x)) ->
  Server.upIDs s (mkWorld (imap cs inputs) (serverMap :: h)) = Ok survivorIDs.
Proof.
  intros Hl2 Hup. unfold Server.upIDs. rewrite Hl2.
  set (w := mkWorld _ _).
  change (Server.objAt (heap w) (Some 0%nat)) with serverMap.
  rewrite akeys_serverMap. unfold Expected.ids. rewrite foldM_fmap.
  rewrite (foldM_push _ (fun x => ~ dead x) inId inputs []); [done|].
  intros x acc [i Hi]%list_elem_of_lookup. unfold Server.pushIfUp.
  rewrite Hl2.
  change (Server.objAt (heap w) (Some 0%nat)) with serverMap.
  rewrite (aget_serverMap i x Hi), orThrow_Some, bind_Ok.
  rewrite (clientOf_at (snd (serverEntry i x)) w i (cs i x) eq_refl
             (lookup_world cs _ i x Hi)).
  rewrite bind_Ok, Hup.
  destruct (decide (~ dead x)).
  - by rewrite bool_decide_true.
  - by rewrite bool_decide_false.
Qed.

Lemma computeU3_spec (h : Heap) :
  Server.computeU3 server1 (mkWorld (imap client2 inputs) (serverMap :: h))
  = Ok (Server.set_clientU2NotInU3
          (Some (filter (fun key => key ∉ survivorIDs) ids))
          (Server.set_clientIDsU3 (Some survivorIDs)
             (Server.set_clientIDsU2 (Some ids) server1))).
Proof.
  unfold Server.computeU3.
  change (Server.clientListU2 server1) with (Some 0%nat).
  rewrite orThrow_Some, bind_Ok. cbv zeta.
  set (w := mkWorld _ _).
  change (Server.objAt (heap w) (Some 0%nat)) with serverMap.
  rewrite akeys_serverMap. unfold w.
  set (s1 := Server.set_clientIDsU2 _ _).
  rewrite (upIDs_spec s1 client2 h eq_refl)
    by (intros; apply client2_fields).
  rewrite bind_Ok.
  set (s := Server.set_clientU2NotInU3 _ _).
  change (Server.threshold s) with threshold.
  unfold Expected.survivorIDs at 1. rewrite length_fmap.
  destruct (Z.ltb_spec (Z.of_nat (length survivors)) threshold); [lia|].
  done.
Qed.

Lemma includes_survivorIDs (x : Tape * PID * Q) :
  x ∈ inputs -> includes survivorIDs (inId x) = bool_decide (~ dead x).
Proof.
  intros Hx. unfold includes. apply bool_decide_ext.
  by apply elem_of_survivorIDs.
Qed.

Lemma collectMaskedGradient_spec (s : Server.state) (h : Heap) :
  Server.clientList s = Some 0%nat -> Server.clientListU2 s = Some 0%nat ->
  Server.clientIDsU3 s = Some survivorIDs ->
  Server.collectMaskedGradient s
    (mkWorld (imap client2 inputs) (serverMap :: h))
  = Ok (Server.set_agg (Some partialSum) s).
Proof.
  intros Hl Hl2 HU3. unfold Server.collectMaskedGradient. rewrite Hl2.
  set (w := mkWorld _ _).
  change (Server.objAt (heap w) (Some 0%nat)) with serverMap.
  rewrite akeys_serverMap. unfold Expected.ids. rewrite foldM_fmap.
  pose proof (foldM_sum (fun x => Server.addMaskedGradient s w (inId x))
                (fun x => ~ dead x) maskedValue inputs 0) as Hsum.
  rewrite toInt32_0, Z.add_0_l in Hsum. rewrite Hsum; [done|].
  clear Hsum. intros x v Hx.
  destruct (proj1 (list_elem_of_lookup _ _) Hx) as [i Hi].
  unfold Server.addMaskedGradient. rewrite HU3, orThrow_Some, bind_Ok.
  rewrite (includes_survivorIDs x Hx).
  destruct (decide (~ dead x)) as [Hlive|Hd].
  - rewrite bool_decide_true by done. rewrite Hl.
    change (Server.objAt (heap w) (Some 0%nat)) with serverMap.
    rewrite (aget_serverMap i x Hi), orThrow_Some, bind_Ok.
    rewrite (clientOf_at (snd (serverEntry i x)) w i (client2 i x) eq_refl
               (lookup_world client2 _ i x Hi)).
    rewrite bind_Ok.
    destruct (client2_fields i x) as (_ & _ & _ & _ & _ & _ & Hm).
    by rewrite Hm.
  - by rewrite bool_decide_false.
Qed.

Lemma client2b_dead (i : nat) (x : Tape * PID * Q) :
  dead x -> client2b i x = client2 i x.
Proof. intros Hd. unfold Expected.client2b. by rewrite decide_True. Qed.

Lemma client2b_alive (i : nat) (x : Tape * PID * Q) :
  ~ dead x ->
  client2b i x
  = Client.set_IDsinU2NotInU3
      (Some (filter (fun key => key ∉ survivorIDs) (peerIDs x)))
      (Client.set_clientIDsU3 (Some survivorIDs)
         (Client.set_clientIDsU2 (Some (peerIDs x)) (client2 i x))).
Proof. intros Hd. unfold Expected.client2b. by rewrite decide_False. Qed.

Lemma NoDup_survivorIDs : NoDup survivorIDs.
Proof. apply NoDup_ids_filter. Qed.

Lemma receiveclientIDsU3_spec (c : Client.state) (l : loc)
    (x : Tape * PID * Q) (h : Heap) (o : Obj) :
  x ∈ inputs ->
  Client.threshold c = threshold -> Client.clientListU2 c = Some l ->
  h !! l = Some o -> akeys o = peerIDs x ->
  Client.receiveclientIDsU3 survivorIDs c h
  = Ok (Client.set_IDsinU2NotInU3
          (Some (filter (fun key => key ∉ survivorIDs) (peerIDs x)))
          (Client.set_clientIDsU3 (Some survivorIDs)
             (Client.set_clientIDsU2 (Some (peerIDs x)) c))).
Proof.
  intros Hx Ht Hl2 Hh Hkeys. unfold Client.receiveclientIDsU3.
  rewrite Ht. unfold Expected.survivorIDs at 1. rewrite length_fmap.
  destruct (Z.ltb_spec (Z.of_nat (length survivors)) threshold); [lia|].
  rewrite Hl2, orThrow_Some, bind_Ok. cbv zeta.
  rewrite (objAt_Some h l o Hh), Hkeys.
  assert (length (filter (fun key => key ∉ peerIDs x) survivorIDs) <= 1)%nat
    as Hlen.
  { apply (NoDup_all_eq_length _ (inId x)).
    - apply NoDup_filter, NoDup_survivorIDs.
    - intros key [Hnot Hkey]%list_elem_of_filter.
      apply list_elem_of_fmap in Hkey as [y [-> Hy%elem_of_survivors]].
      destruct (decide (inId y = inId x)) as [|Hne]; [done|].
      exfalso. apply Hnot. apply list_elem_of_fmap_2.
      apply elem_of_peers. tauto. }
  destruct (Z.ltb_spec 1
    (Z.of_nat (length (filter (fun key => key ∉ peerIDs x) survivorIDs))));
    [lia|done].
Qed.

Lemma heap2_lookup (i : nat) (x : Tape * PID * Q) :
  inputs !! i = Some x ->
  exists o, heap2 !! S i = Some o /\ akeys o = peerIDs x /\
    (~ dead x -> o = peerMap2 x).
Proof.
  intros Hx. unfold Expected.heap2. simpl. rewrite list_lookup_fmap, Hx.
  simpl. destruct (decide (dead x)).
  - exists (peerMap1 x). split_and!; [done|apply akeys_peerMap1|tauto].
  - exists (peerMap2 x). split_and!; [done|apply akeys_peerMap2|done].
Qed.

Lemma sendClientIDsU3_spec (s : Server.state) :
  Server.clientList s = Some 0%nat -> Server.clientListU2 s = Some 0%nat ->
  Server.clientIDsU3 s = Some survivorIDs ->
  Server.sendClientIDsU3 s (mkWorld (imap client2 inputs) heap2)
  = Ok (mkWorld (imap client2b inputs) heap2).
Proof.
  intros Hl Hl2 HU3. unfold Server.sendClientIDsU3. rewrite Hl2.
  change (Server.objAt (heap (mkWorld (imap client2 inputs) heap2))
            (Some 0%nat)) with serverMap.
  rewrite akeys_serverMap.
  pose (W := fun k => mkWorld (upto k client2b client2 inputs) heap2).
  pose proof (foldM_chain (Server.sendClientIDsU3To s) ids W) as Hchain.
  replace (W 0%nat) with (mkWorld (imap client2 inputs) heap2) in Hchain.
  2: { unfold W. by rewrite upto_0. }
  replace (W (length ids)) with (mkWorld (imap client2b inputs) heap2)
    in Hchain.
  2: { unfold W, Expected.ids. rewrite length_fmap. by rewrite upto_all. }
  apply Hchain. clear Hchain. intros k a Hk.
  unfold Expected.ids in Hk. rewrite list_lookup_fmap in Hk.
  destruct (inputs !! k) as [x|] eqn:Hx; [|done]. simpl in Hk.
  injection Hk as <-.
  assert (x ∈ inputs) as Hin by (eapply list_elem_of_lookup_2; exact Hx).
  assert (clientObjs (W k) !! k = Some (client2 k x)) as Hc.
  { unfold W. simpl. rewrite upto_lookup, Hx. simpl.
    destruct (decide (k < k)%nat); [lia|done]. }
  unfold Server.sendClientIDsU3To. rewrite HU3, orThrow_Some, bind_Ok.
  rewrite (includes_survivorIDs x Hin).
  destruct (decide (dead x)) as [Hd|Hlive].
  - rewrite bool_decide_false by tauto. unfold W. do 2 f_equal.
    rewrite <- (upto_step client2b client2 inputs k x Hx).
    rewrite client2b_dead by done. symmetry. by apply list_insert_id.
  - rewrite bool_decide_true by done. rewrite Hl.
    change (Server.objAt (heap (W k)) (Some 0%nat)) with serverMap.
    rewrite (aget_serverMap k x Hx), orThrow_Some, bind_Ok.
    destruct (heap2_lookup k x Hx) as (o & Ho & Hkeys & _).
    destruct (client2_fields k x) as (_ & _ & _ & Hcl2 & Ht & _).
    rewrite (callClient_at (snd (serverEntry k x)) _ (W k) k (client2 k x)
               (client2b k x) heap2 eq_refl Hc).
    + unfold W. simpl. do 2 f_equal.
      exact (upto_step client2b client2 inputs k x Hx).
    + change (heap (W k)) with heap2. cbv beta.
      rewrite (receiveclientIDsU3_spec (client2 k x) (S k) x _ o Hin Ht Hcl2
                 Ho Hkeys).
      rewrite bind_Ok. by rewrite client2b_alive.
Qed.

Lemma server_round2 :
  Server.round2 server1 (mkWorld (imap client2 inputs) heap2)
  = Ok (server2, mkWorld (imap client2b inputs) heap2).
Proof.
  unfold Server.round2, Expected.heap2. rewrite computeU3_spec, bind_Ok.
  rewrite collectMaskedGradient_spec by done. rewrite bind_Ok.
  fold heap2. rewrite sendClientIDsU3_spec by done. done.
Qed.

Lemma run_round2 :
  Run.round2 P nbClient dropped []
    (server1, mkWorld (imap client1b inputs) heap1b)
  = Ok (server2, mkWorld (imap client2b inputs) heap2).
Proof.
  unfold Run.round2. simpl fst. simpl snd.
  rewrite clients_round2_dropping, bind_Ok. apply server_round2.
Qed.

(** *** Round 3 of the clients *)

Local Abbreviation client3 := (Expected.client3 P inputs threshold dropped).
Local Abbreviation splitsOf := (Expected.splitsOf P inputs threshold dropped).
Local Abbreviation splitOf := (Expected.splitOf P inputs threshold dropped).
Local Abbreviation ownSplit := (Expected.ownSplit P inputs threshold).
Local Abbreviation rank := (Expected.rank inputs).

(** The two ends of a pair derive the same AES key. *)
Hypothesis HsymKey :
  forall x y, x ∈ inputs -> y ∈ inputs -> pairKey x y = pairKey y x.

Lemma rank_lookup (x y : Tape * PID * Q) :
  x ∈ peers y -> peers y !! rank x y = Some x.
Proof.
  intros Hx. unfold Expected.rank.
  assert (peerIDs y !! indexOf (inId x) (peerIDs y) = Some (inId x)) as Hr.
  { apply indexOf_lookup. by apply list_elem_of_fmap_2. }
  unfold Expected.peerIDs in *. rewrite list_lookup_fmap in Hr.
  destruct (peers y !! _) as [z|] eqn:Hz; [|done]. simpl in Hr.
  injection Hr as Hr. f_equal.
  apply list_elem_of_lookup_2 in Hz. apply elem_of_peers in Hz as [Hz _].
  apply elem_of_peers in Hx as [Hx _]. by apply inId_inj.
Qed.

Lemma rank_lt (x y : Tape * PID * Q) :
  x ∈ peers y -> (rank x y < length (peers y))%nat.
Proof. intros Hx. eapply lookup_lt_Some. by apply rank_lookup. Qed.

Lemma received_message (x y : Tape * PID * Q) :
  x ∈ peers y -> received x y = Some (message y (rank x y) x).
Proof.
  intros Hx. unfold Expected.received, Expected.sent.
  apply (aget_imap_NoDup (fun z => (inId y, inId z))
           (fun k z => message y k z) (peers y) (rank x y) x).
  - rewrite (list_fmap_compose inId (fun a => (inId y, a))).
    apply NoDup_fmap_pair_l, NoDup_peerIDs.
  - by apply rank_lookup.
Qed.

Lemma aget_peerMap2 (x y : Tape * PID * Q) :
  y ∈ peers x -> aget (inId y) (peerMap2 x) = Some (snd (peerEntry2 x y)).
Proof.
  intros Hy. unfold Expected.peerMap2, Expected.peerEntry2.
  apply (aget_fmap_NoDup inId
    (fun y => Peer.set_PRNG (mkPRNG (Some (seed16 x y)) 1)
                (snd (peerEntry1 x y))));
    [apply NoDup_peerIDs|exact Hy].
Qed.

Lemma peers_sym (x y : Tape * PID * Q) :
  x ∈ inputs -> y ∈ peers x -> x ∈ peers y.
Proof. rewrite !elem_of_peers. intros Hx [Hy Hne]. split; [done|congruence]. Qed.

Lemma addSplit_loop (c : Client.state) (l : loc) (x : Tape * PID * Q)
    (h : Heap) :
  x ∈ inputs -> Client.id c = inId x ->
  Client.clientList c = Some l -> h !! l = Some (peerMap2 x) ->
  Client.clientIDsU3 c = Some survivorIDs ->
  foldM (Client.addSplit c h) (peerIDs x) [] = Ok (splitOf x <$> peers x).
Proof.
  intros Hx Hid Hcl Hh HU3. unfold Expected.peerIDs. rewrite foldM_fmap.
  rewrite (foldM_build _ (fun _ => True) (splitOf x) (peers x) []).
  - simpl. by rewrite filter_all.
  - simpl. rewrite filter_all by done. unfold Expected.splitOf.
    rewrite (akeys_fmap_entries inId
      (fun y => if decide (dead y)
                then KeySplit (shareAt (keyShares y) (S (rank x y)))
                       (S (rank x y))
                else SeedSplit (shareAt (seedShares y) (S (rank x y)))
                       (S (rank x y)))).
    apply NoDup_peerIDs.
  - intros y acc Hy. unfold Client.addSplit. rewrite Hid.
    pose proof (proj1 (elem_of_peers x y) Hy) as [Hyin Hne].
    rewrite decide_True by done.
    rewrite Hcl, (objAt_Some h l _ Hh), (aget_peerMap2 x y Hy).
    rewrite orThrow_Some, bind_Ok.
    change (Peer.ciphertext_ (snd (peerEntry2 x y)))
      with (Some (received x y)).
    rewrite (received_message x y (peers_sym x y Hx Hy)).
    change (mjoin (Some (Some (message y (rank x y) x))))
      with (Some (message y (rank x y) x)).
    rewrite orThrow_Some, bind_Ok.
    change (Peer.AESKey_ (snd (peerEntry2 x y))) with (Some (pairKey x y)).
    rewrite orThrow_Some, bind_Ok.
    unfold Expected.message, AESGCMEncrypt, AESGCMDecrypt. simpl.
    rewrite (HsymKey x y Hx Hyin). rewrite decide_True by done.
    rewrite orThrow_Some, bind_Ok. simpl.
    rewrite decide_False by (intros H; by apply H).
    rewrite decide_False by (intros H; by apply H).
    rewrite HU3, orThrow_Some, bind_Ok.
    rewrite (includes_survivorIDs y Hyin).
    unfold Expected.splitOf. simpl.
    destruct (decide (dead y)).
    + by rewrite bool_decide_false by tauto.
    + by rewrite bool_decide_true by done.
Qed.

Lemma ownShare_Some (x : Tape * PID * Q) :
  x ∈ inputs -> is_Some (shareAt (seedShares x) (ownIdx x)).
Proof.
  intros Hx. unfold Expected.ownIdx, shareAt. apply lookup_lt_is_Some_2.
  unfold Expected.seedShares. rewrite length_sharesOf.
  pose proof (length_peers x Hx). lia.
Qed.

Lemma decryptCiphertext_spec (c : Client.state) (l : loc)
    (x : Tape * PID * Q) (h : Heap) :
  x ∈ inputs -> Client.id c = inId x ->
  Client.clientList c = Some l -> Client.clientListU2 c = Some l ->
  h !! l = Some (peerMap2 x) ->
  Client.clientIDsU3 c = Some survivorIDs ->
  Client.ownSelfMaskSeedShare c = shareAt (seedShares x) (ownIdx x) ->
  Client.ownIndex c = Some (ownIdx x) ->
  Client.decryptCiphertext c h = Ok (Client.set_splits (Some (splitsOf x)) c).
Proof.
  intros Hx Hid Hcl Hcl2 Hh HU3 Hown Hidx. unfold Client.decryptCiphertext.
  rewrite Hcl2, (objAt_Some h l _ Hh), akeys_peerMap2.
  rewrite (addSplit_loop c l x h Hx Hid Hcl Hh HU3), bind_Ok.
  rewrite Hown, Hidx. destruct (ownShare_Some x Hx) as [own Hsh].
  unfold Expected.splitsOf, Expected.ownSplit. rewrite Hsh.
  rewrite !orThrow_Some, !bind_Ok, Hid. rewrite aset_fresh; [done|].
  unfold Expected.splitOf.
  rewrite (akeys_fmap_entries inId
    (fun y => if decide (dead y)
              then KeySplit (shareAt (keyShares y) (S (rank x y)))
                     (S (rank x y))
              else SeedSplit (shareAt (seedShares y) (S (rank x y)))
                     (S (rank x y)))).
  intros [y [Heq Hy%elem_of_peers]]%list_elem_of_fmap. by destruct Hy.
Qed.

Lemma client2b_fields (i : nat) (x : Tape * PID * Q) :
  Client.id (client2b i x) = inId x /\
  Client.isUp (client2b i x) = bool_decide (~ dead x) /\
  Client.clientList (client2b i x) = Some (S i) /\
  Client.clientListU2 (client2b i x) = Some (S i) /\
  Client.ownSelfMaskSeedShare (client2b i x)
    = shareAt (seedShares x) (ownIdx x) /\
  Client.ownIndex (client2b i x) = Some (ownIdx x) /\
  Client.secretValue (client2b i x) = Run.inSecret x /\
  (~ dead x -> Client.clientIDsU3 (client2b i x) = Some survivorIDs).
Proof.
  destruct (decide (dead x)) as [Hd|Hd].
  - rewrite client2b_dead, client2_dead by done.
    rewrite bool_decide_false by tauto.
    repeat apply conj; try reflexivity. tauto.
  - rewrite client2b_alive, client2_alive by done.
    rewrite bool_decide_true by tauto.
    repeat apply conj; reflexivity.
Qed.

Lemma client3_dead (i : nat) (x : Tape * PID * Q) :
  dead x -> client3 i x = client2b i x.
Proof. intros Hd. unfold Expected.client3. by rewrite decide_True. Qed.

Lemma client3_alive (i : nat) (x : Tape * PID * Q) :
  ~ dead x ->
  client3 i x = Client.set_splits (Some (splitsOf x)) (client2b i x).
Proof. intros Hd. unfold Expected.client3. by rewrite decide_False. Qed.

Lemma clients_round3 :
  Run.forEachClient (fun c h => c ← Client.round3 c h; Ok (c, h)) nbClient
    (mkWorld (imap client2b inputs) heap2)
  = Ok (mkWorld (imap client3 inputs) heap2).
Proof.
  pose (W := fun k => mkWorld (upto k client3 client2b inputs) heap2).
  pose proof (forEachClient_chain
    (fun c h => c ← Client.round3 c h; Ok (c, h)) nbClient W) as Hchain.
  replace (W 0%nat) with (mkWorld (imap client2b inputs) heap2) in Hchain.
  2: { unfold W. by rewrite upto_0. }
  replace (W nbClient) with (mkWorld (imap client3 inputs) heap2) in Hchain.
  2: { unfold W. by rewrite upto_all. }
  apply Hchain. clear Hchain. intros k Hk.
  destruct (lookup_lt_is_Some_2 inputs k Hk) as [x Hx].
  assert (x ∈ inputs) as Hin by (eapply list_elem_of_lookup_2; exact Hx).
  exists (client2b k x), (client3 k x), heap2. split_and!.
  - unfold W. simpl. rewrite upto_lookup, Hx. simpl.
    destruct (decide (k < k)%nat); [lia|done].
  - change (heap (W k)) with heap2.
    destruct (client2b_fields k x)
      as (Hid & Hup & Hcl & Hcl2 & Hown & Hidx & _ & HU3).
    unfold Client.round3. rewrite Hup.
    destruct (decide (dead x)) as [Hd|Hlive].
    + rewrite bool_decide_false by tauto. by rewrite client3_dead.
    + rewrite bool_decide_true by done.
      destruct (heap2_lookup k x Hx) as (o & Ho & _ & Ho2).
      rewrite (Ho2 Hlive) in Ho.
      rewrite (decryptCiphertext_spec (client2b k x) (S k) x heap2 Hin Hid
                 Hcl Hcl2 Ho (HU3 Hlive) Hown Hidx).
      by rewrite bind_Ok, client3_alive.
  - unfold W. simpl. f_equal. symmetry.
    exact (upto_step client3 client2b inputs k x Hx).
Qed.

(** *** Round 3 of the server: the responses *)

Local Abbreviation held := (Expected.held P inputs threshold dropped).
Local Abbreviation shareIdx := (Expected.shareIdx inputs).
Local Abbreviation keyRow := (Expected.keyRow P inputs threshold dropped).
Local Abbreviation seedRow := (Expected.seedRow P inputs threshold dropped).
Local Abbreviation keyStocker :=
  (Expected.keyStocker P inputs threshold dropped).
Local Abbreviation seedStocker :=
  (Expected.seedStocker P inputs threshold dropped).
Local Abbreviation world3 := (mkWorld (imap client3 inputs) heap2).

Lemma client3_fields (i : nat) (x : Tape * PID * Q) :
  Client.isUp (client3 i x) = bool_decide (~ dead x) /\
  Client.secretValue (client3 i x) = Run.inSecret x /\
  (~ dead x -> Client.splits (client3 i x) = Some (splitsOf x)).
Proof.
  destruct (client2b_fields i x) as (_ & Hup & _ & _ & _ & _ & Hsec & _).
  destruct (decide (dead x)) as [Hd|Hd].
  - rewrite client3_dead by done. split_and!; [done|done|tauto].
  - rewrite client3_alive by done. split_and!; [exact Hup|exact Hsec|done].
Qed.

Lemma droppedIDs_casualties :
  filter (fun key => key ∉ survivorIDs) ids = inId <$> casualties.
Proof.
  unfold Expected.ids, Expected.casualties.
  apply (filter_fmap_iff inId (fun key => key ∉ survivorIDs) dead).
  intros x Hx. rewrite (elem_of_survivorIDs x Hx). split; [|tauto].
  apply dec_stable.
Qed.

Lemma includes_dropped (y : Tape * PID * Q) :
  y ∈ inputs ->
  includes (filter (fun key => key ∉ survivorIDs) ids) (inId y)
  = bool_decide (dead y).
Proof.
  intros Hy. unfold includes. apply bool_decide_ext.
  rewrite list_elem_of_filter, (elem_of_survivorIDs y Hy). split.
  - intros [Hd _]. by apply dec_stable.
  - intros Hd. split; [tauto|]. by apply list_elem_of_fmap_2.
Qed.

Lemma stockSplit_loop (s : Server.state) (x : Tape * PID * Q)
    (ks ss : list (PID * list (PID * option Split))) :
  x ∈ inputs -> ~ dead x ->
  Server.clientListU2 s = Some 0%nat ->
  Server.clientU2NotInU3 s
    = Some (filter (fun key => key ∉ survivorIDs) ids) ->
  inId x ∉ akeys ks -> inId x ∉ akeys ss ->
  Server.stockResponses s world3 (inId x) (ks, ss)
  = Ok (ks ++ [(inId x, keyRow x)], ss ++ [(inId x, seedRow x)]).
Proof.
  intros Hx Hlive Hl2 Hdr Hks Hss. unfold Server.stockResponses.
  rewrite Hl2.
  change (Server.objAt (heap world3) (Some 0%nat)) with serverMap.
  rewrite akeys_serverMap. unfold Expected.ids. rewrite foldM_fmap.
  rewrite !aset_fresh by done.
  pose (rowK := fun k => (fun y => (inId y, held x y))
                           <$> filter dead (take k inputs)).
  pose (rowS := fun k => (fun y => (inId y, held x y))
                           <$> filter (fun y => ~ dead y) (take k inputs)).
  pose (W := fun k => (ks ++ [(inId x, rowK k)], ss ++ [(inId x, rowS k)])).
  pose proof (foldM_chain
    (fun y => Server.stockSplit s world3 (inId x) (inId y)) inputs W)
    as Hchain.
  replace (W (length inputs))
    with (ks ++ [(inId x, keyRow x)], ss ++ [(inId x, seedRow x)]) in Hchain.
  2: { unfold W, rowK, rowS. by rewrite firstn_all. }
  apply Hchain. clear Hchain. intros k y Hk.
  assert (y ∈ inputs) as Hy by (eapply list_elem_of_lookup_2; exact Hk).
  destruct (proj1 (list_elem_of_lookup _ _) Hx) as [j Hj].
  unfold W, Server.stockSplit. rewrite Hdr, orThrow_Some, bind_Ok, Hl2.
  change (Server.objAt (heap world3) (Some 0%nat)) with serverMap.
  rewrite (aget_serverMap j x Hj), orThrow_Some, bind_Ok.
  rewrite (clientOf_at (snd (serverEntry j x)) world3 j (client3 j x) eq_refl
             (lookup_world client3 _ j x Hj)).
  rewrite bind_Ok.
  destruct (client3_fields j x) as (_ & _ & Hsp). rewrite (Hsp Hlive).
  rewrite orThrow_Some, bind_Ok. cbv zeta.
  rewrite (includes_dropped y Hy).
  fold (held x y). unfold rowK, rowS.
  rewrite !(filter_take_S _ inputs k y Hk), !fmap_app.
  fold (rowK k). fold (rowS k).
  destruct (decide (dead y)) as [Hd|Hd].
  - rewrite bool_decide_true by done.
    rewrite (decide_False (P := ~ dead y)) by tauto.
    rewrite aget_middle by done. rewrite orThrow_Some, bind_Ok.
    rewrite aset_middle by done. rewrite aset_fresh.
    + simpl. by rewrite app_nil_r.
    + unfold rowK.
      rewrite (akeys_fmap_entries inId (held x)).
      by apply notin_fmap_filter_take.
  - rewrite bool_decide_false by done.
    rewrite (decide_True (P := ~ dead y)) by tauto.
    rewrite aget_middle by done. rewrite orThrow_Some, bind_Ok.
    rewrite aset_middle by done. rewrite aset_fresh.
    + simpl. by rewrite app_nil_r.
    + unfold rowS.
      rewrite (akeys_fmap_entries inId (held x)).
      by apply notin_fmap_filter_take.
Qed.

Lemma collectResponses_spec (s : Server.state) :
  Server.clientListU2 s = Some 0%nat ->
  Server.clientU2NotInU3 s
    = Some (filter (fun key => key ∉ survivorIDs) ids) ->
  Server.clientIDsU5 s = Some survivorIDs ->
  Server.collectResponses s world3
  = Ok (Server.set_seedStocker (Some seedStocker)
          (Server.set_keyStocker (Some keyStocker) s)).
Proof.
  intros Hl2 Hdr HU5. unfold Server.collectResponses.
  rewrite HU5, orThrow_Some, bind_Ok.
  unfold Expected.survivorIDs. rewrite foldM_fmap.
  pose (W := fun k =>
    ((fun x => (inId x, keyRow x)) <$> take k survivors,
     (fun x => (inId x, seedRow x)) <$> take k survivors)).
  pose proof (foldM_chain
    (fun x => Server.stockResponses s world3 (inId x)) survivors W)
    as Hchain.
  replace (W (length survivors)) with (keyStocker, seedStocker) in Hchain.
  2: { unfold W. by rewrite firstn_all. }
  change (W 0%nat)
    with (@nil (PID * list (PID * option Split)),
          @nil (PID * list (PID * option Split))) in Hchain.
  rewrite Hchain; [done|]. clear Hchain. intros k x Hk.
  assert (x ∈ survivors) as Hx by (eapply list_elem_of_lookup_2; exact Hk).
  apply elem_of_survivors in Hx as [Hx Hlive].
  unfold W. rewrite (stockSplit_loop s x _ _ Hx Hlive Hl2 Hdr).
  - by rewrite (take_S_r _ _ _ Hk), !fmap_app.
  - rewrite (akeys_fmap_entries inId keyRow).
    apply notin_fmap_take; [apply NoDup_survivorIDs|done].
  - rewrite (akeys_fmap_entries inId seedRow).
    apply notin_fmap_take; [apply NoDup_survivorIDs|done].
Qed.

(** *** Round 3 of the server: the reconstructions *)

Local Abbreviation keysRetrieved :=
  (Expected.keysRetrieved inputs dropped).
Local Abbreviation seedRecovered :=
  (Expected.seedRecovered P inputs dropped).

(** [join] recovers a secret from [threshold] or more of its shares. *)
Hypothesis HShamir :
  forall coins secret shares (holders : list nat),
    split P coins nbClient threshold secret = Some shares ->
    NoDup holders -> threshold <= Z.of_nat (length holders) ->
    (forall i, i ∈ holders -> (1 <= i <= nbClient)%nat) ->
    join P ((fun i => (i, shareAt shares i)) <$> holders) = secret.

Lemma NoDup_survivors : NoDup survivors.
Proof. apply (NoDup_fmap_1 inId), NoDup_survivorIDs. Qed.

Lemma NoDup_casualtyIDs : NoDup (inId <$> casualties).
Proof. apply NoDup_ids_filter. Qed.

Lemma akeys_splitsOf (x : Tape * PID * Q) :
  akeys (splitsOf x) = peerIDs x ++ [inId x].
Proof.
  unfold Expected.splitsOf. rewrite akeys_app. f_equal.
  unfold Expected.splitOf.
  apply (akeys_fmap_entries inId
    (fun y => if decide (dead y)
              then KeySplit (shareAt (keyShares y) (S (rank x y)))
                     (S (rank x y))
              else SeedSplit (shareAt (seedShares y) (S (rank x y)))
                     (S (rank x y)))).
Qed.

Lemma notin_own_peers (x : Tape * PID * Q) : inId x ∉ peerIDs x.
Proof.
  intros [y [Heq Hy%elem_of_peers]]%list_elem_of_fmap. by destruct Hy.
Qed.

Lemma held_peer (x y : Tape * PID * Q) :
  y ∈ peers x -> held x y = Some (snd (splitOf x y)).
Proof.
  intros Hy. unfold Expected.held, Expected.splitsOf.
  rewrite aget_app_in.
  - unfold Expected.splitOf.
    apply (aget_fmap_NoDup inId
      (fun y => if decide (dead y)
                then KeySplit (shareAt (keyShares y) (S (rank x y)))
                       (S (rank x y))
                else SeedSplit (shareAt (seedShares y) (S (rank x y)))
                       (S (rank x y))));
      [apply NoDup_peerIDs|done].
  - pose proof (akeys_splitsOf x) as Hk. unfold Expected.splitsOf in Hk.
    rewrite akeys_app in Hk. apply app_inv_tail in Hk. rewrite Hk.
    by apply list_elem_of_fmap_2.
Qed.

Lemma held_own (x : Tape * PID * Q) : held x x = Some (snd (ownSplit x)).
Proof.
  unfold Expected.held, Expected.splitsOf. rewrite aget_app_notin.
  - unfold Expected.ownSplit. apply aget_head.
  - pose proof (akeys_splitsOf x) as Hk. unfold Expected.splitsOf in Hk.
    rewrite akeys_app in Hk. apply app_inv_tail in Hk. rewrite Hk.
    apply notin_own_peers.
Qed.

Lemma shareIdx_peer (x y : Tape * PID * Q) :
  inId x <> inId y -> shareIdx x y = S (rank x y).
Proof. intros Hne. unfold Expected.shareIdx. by rewrite decide_False. Qed.

Lemma shareIdx_own (x : Tape * PID * Q) : shareIdx x x = ownIdx x.
Proof. unfold Expected.shareIdx. by rewrite decide_True. Qed.

Lemma held_key (x d : Tape * PID * Q) :
  x ∈ inputs -> ~ dead x -> d ∈ inputs -> dead d ->
  held x d
  = Some (KeySplit (shareAt (keyShares d) (shareIdx x d)) (shareIdx x d)).
Proof.
  intros Hx Hlive Hd Hdead.
  assert (inId x <> inId d) as Hne.
  { intros Heq. apply Hlive. by apply (dead_inId d x). }
  rewrite held_peer by (apply elem_of_peers; split; [done|congruence]).
  rewrite shareIdx_peer by done. unfold Expected.splitOf. simpl.
  by rewrite decide_True.
Qed.

Lemma held_seed (x y : Tape * PID * Q) :
  x ∈ inputs -> y ∈ inputs -> ~ dead y ->
  held x y
  = Some (SeedSplit (shareAt (seedShares y) (shareIdx x y)) (shareIdx x y)).
Proof.
  intros Hx Hy Hlive. destruct (decide (inId x = inId y)) as [Heq|Hne].
  - apply (inId_inj x y Hx Hy) in Heq as ->.
    by rewrite held_own, shareIdx_own.
  - rewrite held_peer by (apply elem_of_peers; split; [done|congruence]).
    rewrite shareIdx_peer by done. unfold Expected.splitOf. simpl.
    by rewrite decide_False.
Qed.

Lemma shareIdx_range (x y : Tape * PID * Q) :
  x ∈ inputs -> y ∈ inputs -> (1 <= shareIdx x y <= nbClient)%nat.
Proof.
  intros Hx Hy. pose proof (length_peers y Hy) as Hlen.
  unfold Expected.shareIdx. destruct (decide (inId x = inId y)) as [Heq|Hne].
  - unfold Expected.ownIdx. lia.
  - assert (x ∈ peers y) as Hp by (by apply elem_of_peers).
    pose proof (rank_lt x y Hp). lia.
Qed.

Lemma shareIdx_inj (x x' y : Tape * PID * Q) :
  x ∈ inputs -> x' ∈ inputs -> y ∈ inputs ->
  shareIdx x y = shareIdx x' y -> x = x'.
Proof.
  intros Hx Hx' Hy. unfold Expected.shareIdx, Expected.ownIdx.
  destruct (decide (inId x = inId y)) as [Heq|Hne];
    destruct (decide (inId x' = inId y)) as [Heq'|Hne'].
  - intros _. apply inId_inj; [done..|congruence].
  - assert (x' ∈ peers y) as Hp by (by apply elem_of_peers).
    pose proof (rank_lt x' y Hp). lia.
  - assert (x ∈ peers y) as Hp by (by apply elem_of_peers).
    pose proof (rank_lt x y Hp). lia.
  - intros [= Hr].
    assert (x ∈ peers y) as Hp by (by apply elem_of_peers).
    assert (x' ∈ peers y) as Hp' by (by apply elem_of_peers).
    pose proof (rank_lookup x y Hp) as H1.
    pose proof (rank_lookup x' y Hp') as H2. rewrite Hr in H1. congruence.
Qed.

Lemma NoDup_shareIdx (y : Tape * PID * Q) :
  y ∈ inputs -> NoDup ((fun x => shareIdx x y) <$> survivors).
Proof.
  intros Hy. apply NoDup_fmap_2_strong; [|apply NoDup_survivors].
  intros x x' [Hx _]%elem_of_survivors [Hx' _]%elem_of_survivors.
  by apply shareIdx_inj.
Qed.

(** The shares of [y] that the survivors hold recover its secret. *)
Lemma join_survivors (y : Tape * PID * Q) coins secret :
  y ∈ inputs ->
  join P ((fun x => (shareIdx x y,
                     shareAt (sharesOf P coins nbClient threshold secret)
                       (shareIdx x y))) <$> survivors)
  = secret.
Proof.
  intros Hy.
  rewrite (list_fmap_compose (fun x => shareIdx x y)
             (fun i => (i, shareAt (sharesOf P coins nbClient threshold
                                      secret) i))).
  apply (HShamir coins secret); [apply split_sharesOf|..].
  - by apply NoDup_shareIdx.
  - by rewrite length_fmap.
  - intros i [x [-> [Hx _]%elem_of_survivors]]%list_elem_of_fmap.
    by apply shareIdx_range.
Qed.

Lemma gatherShare_loop (wantKey : bool)
    (rowf : Tape * PID * Q -> list (PID * option Split))
    (y : Tape * PID * Q) (shares : list Share) :
  y ∈ inputs ->
  (forall x, x ∈ survivors ->
     mjoin (aget (inId y) (rowf x))
     = Some (if wantKey
             then KeySplit (shareAt shares (shareIdx x y)) (shareIdx x y)
             else SeedSplit (shareAt shares (shareIdx x y)) (shareIdx x y))) ->
  foldM (Server.gatherShare wantKey
           ((fun x => (inId x, rowf x)) <$> survivors) (inId y))
    survivorIDs []
  = Ok ((fun x => (shareIdx x y, shareAt shares (shareIdx x y)))
          <$> survivors).
Proof.
  intros Hy Hrow. unfold Expected.survivorIDs. rewrite foldM_fmap.
  rewrite (foldM_build _ (fun _ => True)
             (fun x => (shareIdx x y, shareAt shares (shareIdx x y)))
             survivors []).
  - simpl. by rewrite filter_all.
  - simpl. rewrite filter_all by done.
    rewrite (akeys_fmap_entries (fun x => shareIdx x y)
               (fun x => shareAt shares (shareIdx x y))).
    by apply NoDup_shareIdx.
  - intros x acc Hx. unfold Server.gatherShare, Server.stockedShare.
    rewrite (aget_fmap_NoDup inId rowf survivors x NoDup_survivorIDs Hx).
    rewrite orThrow_Some, bind_Ok, (Hrow x Hx), orThrow_Some, bind_Ok.
    by destruct wantKey.
Qed.

(** The recovered bytes are those of the key that was exported, and of
    the seed that was encoded. *)
Hypothesis Himport :
  forall d, d ∈ inputs -> dead d ->
    importKey P (exportKey P (Expected.seedPriv d))
    = Some (Expected.seedPriv d).
Hypothesis Hparse :
  forall y, y ∈ inputs -> ~ dead y ->
    parseIntBytes P (encodeNumber P (Expected.selfSeed y))
    = Some (Expected.selfSeed y).

Lemma akeys_keyStocker : akeys keyStocker = survivorIDs.
Proof.
  unfold Expected.keyStocker. apply (akeys_fmap_entries inId keyRow).
Qed.

Lemma akeys_seedStocker : akeys seedStocker = survivorIDs.
Proof.
  unfold Expected.seedStocker. apply (akeys_fmap_entries inId seedRow).
Qed.

Lemma reconstructDroppedClientsKeys_spec (s : Server.state) :
  Server.clientU2NotInU3 s
    = Some (filter (fun key => key ∉ survivorIDs) ids) ->
  Server.keyStocker s = Some keyStocker ->
  Server.reconstructDroppedClientsKeys P s
  = Ok (Server.set_keysRetrieved (Some keysRetrieved) s).
Proof.
  intros Hdr Hks. unfold Server.reconstructDroppedClientsKeys.
  rewrite Hdr, orThrow_Some, bind_Ok, droppedIDs_casualties, foldM_fmap.
  rewrite (foldM_build _ (fun _ => True)
             (fun d => (inId d, Expected.seedPriv d)) casualties []).
  - simpl. by rewrite filter_all.
  - simpl. rewrite filter_all by done.
    rewrite (akeys_fmap_entries inId Expected.seedPriv).
    apply NoDup_casualtyIDs.
  - intros d acc [Hd Hdead]%elem_of_casualties. unfold Server.recoverKey.
    rewrite Hks. cbv zeta.
    change (default [] (Some keyStocker)) with keyStocker.
    rewrite akeys_keyStocker. unfold Expected.keyStocker.
    rewrite (gatherShare_loop true keyRow d (keyShares d) Hd).
    + rewrite bind_Ok. unfold Expected.keyShares, Expected.nbClient.
      rewrite (join_survivors d _ _ Hd), (Himport d Hd Hdead).
      by rewrite orThrow_Some, bind_Ok.
    + intros x [Hx Hlive]%elem_of_survivors. unfold Expected.keyRow.
      rewrite (aget_fmap_NoDup inId (held x) casualties d NoDup_casualtyIDs)
        by (by apply elem_of_casualties).
      simpl. by apply held_key.
Qed.

Lemma reconstructAliveClientsSeed_spec (s : Server.state) :
  Server.clientIDsU3 s = Some survivorIDs ->
  Server.seedStocker s = Some seedStocker ->
  Server.reconstructAliveClientsSeed P s
  = Ok (Server.set_seedRecovered (Some seedRecovered) s).
Proof.
  intros HU3 Hss. unfold Server.reconstructAliveClientsSeed.
  rewrite HU3, orThrow_Some, bind_Ok.
  unfold Expected.survivorIDs at 1. rewrite foldM_fmap.
  rewrite (foldM_build _ (fun _ => True)
             (fun y => (inId y, encodeNumber P (Expected.selfSeed y)))
             survivors []).
  - simpl. by rewrite filter_all.
  - simpl. rewrite filter_all by done.
    rewrite (akeys_fmap_entries inId
               (fun y => encodeNumber P (Expected.selfSeed y))).
    apply NoDup_survivorIDs.
  - intros y acc [Hy Hlive]%elem_of_survivors. unfold Server.recoverSeed.
    rewrite Hss. cbv zeta.
    change (default [] (Some seedStocker)) with seedStocker.
    rewrite akeys_seedStocker. unfold Expected.seedStocker.
    rewrite (gatherShare_loop false seedRow y (seedShares y) Hy).
    + rewrite bind_Ok. unfold Expected.seedShares, Expected.nbClient.
      by rewrite (join_survivors y _ _ Hy).
    + intros x [Hx Hxlive]%elem_of_survivors. unfold Expected.seedRow.
      rewrite (aget_fmap_NoDup inId (held x) survivors y NoDup_survivorIDs)
        by (by apply elem_of_survivors).
      simpl. by apply held_seed.
Qed.

Lemma addDroppedMask_loop (s : Server.state) (h : Heap) (d : Tape * PID * Q)
    (v : Z) :
  Server.clientListU2 s = Some 0%nat ->
  Server.clientIDsU3 s = Some survivorIDs -> int32 v ->
  foldM (Server.addDroppedMask P s (mkWorld (imap client3 inputs)
                                      (serverMap :: h))
           (Expected.seedPriv d) (inId d)) ids v
  = Ok (toInt32 (v + sumZ (Expected.droppedTerm P d <$> survivors))).
Proof.
  intros Hl2 HU3 Hv. unfold Expected.ids. rewrite foldM_fmap.
  apply (foldM_sum_int32 _ (fun k => ~ dead k) (Expected.droppedTerm P d)
           inputs v); [|done].
  intros k v' Hk _.
  destruct (proj1 (list_elem_of_lookup _ _) Hk) as [j Hj].
  unfold Server.addDroppedMask. rewrite HU3, orThrow_Some, bind_Ok.
  rewrite (includes_survivorIDs k Hk).
  destruct (decide (~ dead k)) as [Hlive|Hdead].
  - rewrite bool_decide_true by done. rewrite Hl2.
    change (Server.objAt (heap (mkWorld (imap client3 inputs)
                                  (serverMap :: h))) (Some 0%nat))
      with serverMap.
    rewrite (aget_serverMap j k Hj), orThrow_Some, bind_Ok.
    change (Peer.seedPublicKey (snd (serverEntry j k)))
      with (Some (Expected.seedPub k)).
    rewrite orThrow_Some, bind_Ok, getInt16_seed16, orThrow_Some, bind_Ok.
    change (Peer.id (snd (serverEntry j k))) with (inId k).
    change (fst (draw P (mkPRNG (Some (seed16 d k)) 0)))
      with (Expected.mask P d k).
    cbv zeta. unfold Expected.droppedTerm.
    destruct (String.ltb (inId k) (inId d)); [done|].
    do 2 f_equal.
  - by rewrite bool_decide_false.
Qed.

Lemma reconstructDroppedClientsMask_spec (s : Server.state) (h : Heap) :
  Server.clientListU2 s = Some 0%nat ->
  Server.clientIDsU3 s = Some survivorIDs ->
  Server.keysRetrieved s = Some keysRetrieved ->
  Server.agg s = Some partialSum ->
  Server.reconstructDroppedClientsMask P s
    (mkWorld (imap client3 inputs) (serverMap :: h))
  = Ok (Server.set_agg
          (Some (toInt32 (Expected.droppedView P inputs dropped + partialSum)))
          s).
Proof.
  intros Hl2 HU3 Hkeys Hagg. unfold Server.reconstructDroppedClientsMask.
  rewrite Hkeys, Hagg. cbv zeta.
  change (default [] (Some keysRetrieved)) with keysRetrieved.
  unfold Expected.keysRetrieved at 2.
  rewrite (akeys_fmap_entries inId Expected.seedPriv), foldM_fmap.
  rewrite (foldM_sum_int32 _ (fun _ => True)
             (fun d => sumZ (Expected.droppedTerm P d <$> survivors))
             casualties 0).
  - rewrite bind_Ok, filter_all, Z.add_0_l by done. done.
  - intros d v Hd Hv. rewrite decide_True by done.
    unfold Server.addDroppedMasks, Expected.keysRetrieved.
    rewrite (aget_fmap_NoDup inId Expected.seedPriv casualties d
               NoDup_casualtyIDs Hd).
    rewrite orThrow_Some, bind_Ok, Hl2.
    change (Server.objAt (heap (mkWorld (imap client3 inputs)
                                  (serverMap :: h))) (Some 0%nat))
      with serverMap.
    rewrite akeys_serverMap. by apply addDroppedMask_loop.
  - apply int32_0.
Qed.

Lemma addSelfMask_loop (l : list (Tape * PID * Q)) (v : Z) :
  (forall y, y ∈ l -> y ∈ inputs /\ ~ dead y) -> int32 v ->
  fold_left (Server.addSelfMask P)
    ((fun y => (inId y, encodeNumber P (Expected.selfSeed y))) <$> l) v
  = toInt32 (v + sumZ (Expected.selfMask P <$> l)).
Proof.
  revert v. induction l as [|y l IH]; intros v Hl Hv.
  - simpl. by rewrite Z.add_0_r, toInt32_id.
  - simpl. rewrite IH.
    + unfold Server.addSelfMask at 1. simpl.
      destruct (Hl y) as [Hy Hlive]; [left|]. rewrite (Hparse y Hy Hlive).
      change (fst (draw P (mkPRNG (Some (Expected.selfSeed y)) 0)))
        with (Expected.selfMask P y).
      rewrite toInt32_add_l. f_equal.
      change (foldr Z.add 0 (Expected.selfMask P <$> l))
        with (sumZ (Expected.selfMask P <$> l)).
      change (gen P (Some (Expected.selfSeed y)) 0 mod 2 ^ 32)
        with (Expected.selfMask P y).
      change (list_fmap _ _ (Expected.selfMask P) l)
        with (Expected.selfMask P <$> l).
      lia.
    + intros z Hz. apply Hl. by right.
    + apply addSelfMask_int32.
Qed.

Lemma reconstructAliveClientsMask_spec (s : Server.state) (a : Z) :
  Server.seedRecovered s = Some seedRecovered -> Server.agg s = Some a ->
  Server.reconstructAliveClientsMask P s
  = Server.set_agg
      (Some (toInt32 (a - Expected.selfMaskView P inputs dropped))) s.
Proof.
  intros Hsr Hagg. unfold Server.reconstructAliveClientsMask.
  rewrite Hsr, Hagg. cbv zeta.
  change (default [] (Some seedRecovered)) with seedRecovered.
  unfold Expected.seedRecovered.
  rewrite (addSelfMask_loop survivors 0); [..|apply int32_0].
  - by rewrite Z.add_0_l.
  - intros y Hy. by apply elem_of_survivors.
Qed.

(** *** Round 3 of the server, and the run *)

Local Abbreviation server3 := (Expected.server3 P inputs threshold dropped).
Local Abbreviation droppedView := (Expected.droppedView P inputs dropped).
Local Abbreviation selfMaskView := (Expected.selfMaskView P inputs dropped).

Lemma computeU5_spec (s : Server.state) (h : Heap) :
  Server.clientListU2 s = Some 0%nat -> Server.threshold s = threshold ->
  Server.computeU5 s (mkWorld (imap client3 inputs) (serverMap :: h))
  = Ok (Server.set_clientIDsU5 (Some survivorIDs) s).
Proof.
  intros Hl2 Ht. unfold Server.computeU5.
  rewrite (upIDs_spec s client3 h Hl2) by (intros; apply client3_fields).
  rewrite bind_Ok. cbv zeta.
  change (Server.threshold (Server.set_clientIDsU5 (Some survivorIDs) s))
    with (Server.threshold s).
  rewrite Ht. unfold Expected.survivorIDs at 1. rewrite length_fmap.
  destruct (Z.ltb_spec (Z.of_nat (length survivors)) threshold); [lia|].
  done.
Qed.

Lemma server2_fields :
  Server.clientList server2 = Some 0%nat /\
  Server.clientListU2 server2 = Some 0%nat /\
  Server.threshold server2 = threshold /\
  Server.clientIDsU3 server2 = Some survivorIDs /\
  Server.clientU2NotInU3 server2
    = Some (filter (fun key => key ∉ survivorIDs) ids) /\
  Server.agg server2 = Some partialSum.
Proof. repeat apply conj; reflexivity. Qed.

Lemma server_round3 :
  Server.round3 P server2 world3
  = Ok (numDiv
          (numDiv
             (Finite (inject_Z (toInt32 (toInt32 (droppedView + partialSum)
                                         - selfMaskView)))) 10000)
          (inject_Z (Z.of_nat (length survivors))),
        server3).
Proof.
  destruct server2_fields as (Hl & Hl2 & Ht & HU3 & Hdr & Hagg).
  unfold Expected.server3. generalize dependent server2. intros s2 **.
  unfold Server.round3, Expected.heap2.
  rewrite (computeU5_spec s2 _ Hl2 Ht), bind_Ok.
  set (s5 := Server.set_clientIDsU5 _ _). fold heap2.
  rewrite (collectResponses_spec s5 Hl2 Hdr eq_refl), bind_Ok.
  set (s6 := Server.set_seedStocker _ _).
  rewrite (reconstructDroppedClientsKeys_spec s6 Hdr eq_refl), bind_Ok.
  set (s7 := Server.set_keysRetrieved _ _). unfold Expected.heap2.
  rewrite (reconstructDroppedClientsMask_spec s7 _ Hl2 HU3 eq_refl Hagg),
    bind_Ok.
  set (s8 := Server.set_agg _ _).
  rewrite (reconstructAliveClientsSeed_spec s8 HU3 eq_refl), bind_Ok.
  set (s9 := Server.set_seedRecovered _ _). cbv zeta.
  rewrite (reconstructAliveClientsMask_spec s9
             (toInt32 (droppedView + partialSum)) eq_refl eq_refl).
  set (s10 := Server.set_agg _ _).
  change (Server.agg s10)
    with (Some (toInt32 (toInt32 (droppedView + partialSum) - selfMaskView))).
  change (Server.clientIDsU3 s10) with (Server.clientIDsU3 s2).
  rewrite HU3, !orThrow_Some, !bind_Ok.
  unfold Expected.survivorIDs. by rewrite length_fmap.
Qed.

Lemma addSecret_loop (s : Server.state) (h : Heap) :
  Server.clientList s = Some 0%nat ->
  Server.clientIDsU3 s = Some survivorIDs ->
  Server.aggregateWithoutSecrecy s
    (mkWorld (imap client3 inputs) (serverMap :: h))
  = Ok (Expected.plainMean inputs dropped).
Proof.
  intros Hl HU3. unfold Server.aggregateWithoutSecrecy. rewrite Hl.
  set (w := mkWorld _ _).
  change (Server.objAt (heap w) (Some 0%nat)) with serverMap.
  rewrite akeys_serverMap. unfold Expected.ids. rewrite foldM_fmap.
  pose (W := fun k =>
    (fold_left (fun sum x => numAdd sum (Run.inSecret x))
       (filter (fun y => ~ dead y) (take k inputs)) (Finite 0),
     Z.of_nat (length (filter (fun y => ~ dead y) (take k inputs))))).
  pose proof (foldM_chain (fun x => Server.addSecret s w (inId x)) inputs W)
    as Hchain.
  change (W 0%nat) with (Finite 0, 0) in Hchain.
  rewrite Hchain.
  - rewrite bind_Ok. unfold W. by rewrite firstn_all.
  - clear Hchain. intros k x Hk.
    assert (x ∈ inputs) as Hx by (eapply list_elem_of_lookup_2; exact Hk).
    unfold W, Server.addSecret. rewrite HU3, orThrow_Some, bind_Ok.
    rewrite (includes_survivorIDs x Hx).
    rewrite (filter_take_S _ inputs k x Hk).
    destruct (decide (~ dead x)) as [Hlive|Hdead].
    + rewrite bool_decide_true by done. rewrite Hl.
      change (Server.objAt (heap w) (Some 0%nat)) with serverMap.
      rewrite (aget_serverMap k x Hk), orThrow_Some, bind_Ok.
      rewrite (clientOf_at (snd (serverEntry k x)) w k (client3 k x) eq_refl
                 (lookup_world client3 _ k x Hk)).
      rewrite bind_Ok.
      destruct (client3_fields k x) as (_ & -> & _).
      rewrite fold_left_app, length_app. simpl. do 2 f_equal. lia.
    + rewrite bool_decide_false by done. by rewrite !app_nil_r.
Qed.

Lemma run_round3 :
  Run.round3 P nbClient [] [] (server2, mkWorld (imap client2b inputs) heap2)
  = Ok (Run.mkOutcome
          (numDiv
             (numDiv
                (Finite (inject_Z (toInt32 (toInt32 (droppedView + partialSum)
                                            - selfMaskView)))) 10000)
             (inject_Z (Z.of_nat (length survivors))))
          (Expected.plainMean inputs dropped) server3 world3).
Proof.
  unfold Run.round3. rewrite clientsRound_no_dropout. simpl fst. simpl snd.
  rewrite clients_round3, !bind_Ok, server_round3, bind_Ok.
  unfold Expected.heap2.
  rewrite (addSecret_loop server3 _ eq_refl eq_refl). by rewrite bind_Ok.
Qed.

Lemma run_closed_form :
  Run.runPersonalized P inputs threshold [[]; []; dropped; []; []; []]
  = Ok (Run.mkOutcome
          (numDiv
             (numDiv
                (Finite (inject_Z (toInt32 (toInt32 (droppedView + partialSum)
                                            - selfMaskView)))) 10000)
             (inject_Z (Z.of_nat (length survivors))))
          (Expected.plainMean inputs dropped) server3 world3).
Proof.
  unfold Run.runPersonalized. cbv zeta.
  rewrite run_round0, bind_Ok.
  change (default [] ([[]; []; dropped; []; []; []] !! 0%nat)) with (@nil nat).
  change (default [] ([[]; []; dropped; []; []; []] !! 1%nat)) with (@nil nat).
  change (default [] ([[]; []; dropped; []; []; []] !! 2%nat)) with dropped.
  change (default [] ([[]; []; dropped; []; []; []] !! 3%nat)) with (@nil nat).
  change (default [] ([[]; []; dropped; []; []; []] !! 4%nat)) with (@nil nat).
  change (default [] ([[]; []; dropped; []; []; []] !! 5%nat)) with (@nil nat).
  rewrite run_round1, bind_Ok, run_round2, bind_Ok. apply run_round3.
Qed.

(** *** The masks cancel *)

Local Abbreviation fixedPointSum := (Expected.fixedPointSum inputs dropped).

(** The two ends of a pair derive the same bits. *)
Hypothesis HsymBits :
  forall x y, x ∈ inputs -> y ∈ inputs ->
    deriveBits P (Expected.seedPriv x) (Expected.seedPub y)
    = deriveBits P (Expected.seedPriv y) (Expected.seedPub x).

Lemma mask_sym (x y : Tape * PID * Q) :
  x ∈ inputs -> y ∈ inputs -> Expected.mask P x y = Expected.mask P y x.
Proof.
  intros Hx Hy. unfold Expected.mask, Expected.seed16.
  by rewrite (HsymBits x y Hx Hy).
Qed.

Lemma pairTerm_antisym (x y : Tape * PID * Q) :
  x ∈ inputs -> y ∈ inputs -> pairTerm x y + pairTerm y x = 0.
Proof.
  intros Hx Hy. unfold Expected.pairTerm. rewrite (mask_sym y x Hy Hx).
  destruct (String.ltb (inId y) (inId x)) eqn:Hyx.
  - rewrite (ltb_antisym _ _ Hyx). lia.
  - destruct (String.ltb (inId x) (inId y)); lia.
Qed.

Lemma pairTerm_self (x y : Tape * PID * Q) :
  inId y = inId x -> pairTerm x y = 0.
Proof.
  intros Heq. unfold Expected.pairTerm. by rewrite Heq, ltb_irrefl.
Qed.

Lemma droppedTerm_pairTerm (d k : Tape * PID * Q) :
  inId k <> inId d -> Expected.droppedTerm P d k = pairTerm d k.
Proof.
  intros Hne. unfold Expected.droppedTerm, Expected.pairTerm.
  destruct (String.ltb (inId k) (inId d)) eqn:Hkd; [done|].
  destruct (String.ltb (inId d) (inId k)) eqn:Hdk; [done|].
  exfalso. apply Hne. by apply ltb_total.
Qed.

(** The pairwise masks of the survivors, with those that the server
    recomputes for the dead, add up to nothing. *)
Lemma pairwise_masks_cancel :
  sumZ ((fun d => sumZ (Expected.droppedTerm P d <$> survivors))
          <$> casualties)
  + sumZ ((fun x => sumZ (pairTerm x <$> peers x)) <$> survivors)
  = 0.
Proof.
  rewrite (sumZ_fmap_ext _ (fun d => sumZ (pairTerm d <$> survivors))
             casualties).
  2: { intros d [Hd Hdead]%elem_of_casualties. apply sumZ_fmap_ext.
       intros k [Hk Hlive]%elem_of_survivors. apply droppedTerm_pairTerm.
       intros Heq. apply Hlive. by apply (dead_inId d k). }
  rewrite (sumZ_fmap_ext (fun x => sumZ (pairTerm x <$> peers x))
             (fun x => sumZ (pairTerm x <$> casualties)
                       + sumZ (pairTerm x <$> survivors)) survivors).
  2: { intros x [Hx Hlive]%elem_of_survivors. unfold Expected.peers.
       rewrite (sumZ_filter_zero (fun y => inId y <> inId x) (pairTerm x)).
       - apply (sumZ_filter_split dead).
       - intros y _ Heq%dec_stable. by apply pairTerm_self. }
  rewrite sumZ_fmap_add.
  rewrite (sumZ_antisym pairTerm survivors).
  2: { intros x y [Hx _]%elem_of_survivors [Hy _]%elem_of_survivors.
       by apply pairTerm_antisym. }
  rewrite (sumZ_swap pairTerm casualties survivors), Z.add_0_r.
  rewrite <- sumZ_fmap_add. apply sumZ_fmap_zero.
  intros x [Hx _]%elem_of_survivors. cbv beta.
  rewrite <- sumZ_fmap_add. apply sumZ_fmap_zero.
  intros d [Hd _]%elem_of_casualties. by apply pairTerm_antisym.
Qed.

Lemma aggregate_is_fixedPointSum :
  toInt32 (toInt32 (droppedView + partialSum) - selfMaskView)
  = toInt32 fixedPointSum.
Proof.
  unfold Expected.droppedView, Expected.partialSum, Expected.selfMaskView.
  set (D := sumZ ((fun d => sumZ (Expected.droppedTerm P d <$> survivors))
                    <$> casualties)).
  set (SM := sumZ (Expected.selfMask P <$> survivors)).
  rewrite toInt32_add_l, toInt32_add_r, toInt32_sub_l, toInt32_sub_r.
  rewrite <- (toInt32_sub_l (D + _) SM).
  unfold Expected.maskedValue.
  rewrite (toInt32_sumZ
    (fun x => sumZ (pairTerm x <$> peers x) + Expected.fixedPoint x
              + Expected.selfMask P x) survivors D).
  rewrite toInt32_sub_l. f_equal.
  rewrite !sumZ_fmap_add. fold SM.
  pose proof pairwise_masks_cancel as Hc. fold D in Hc.
  unfold Expected.fixedPointSum. lia.
Qed.

(** The run returns the mean of the sum of the survivors' fixed-point
    secrets, wrapped to an Int32. *)
Lemma run_wrapped_mean :
  Run.runPersonalized P inputs threshold [[]; []; dropped; []; []; []]
  = Ok (Run.mkOutcome (Expected.wrappedMean inputs dropped)
          (Expected.plainMean inputs dropped) server3 world3).
Proof.
  rewrite run_closed_form, aggregate_is_fixedPointSum. done.
Qed.

(** The state after round 2. *)
Lemma run_until_round2 :
  (sw ← Run.round0 nbClient (Run.generation inputs threshold);
   sw ← Run.round1 P nbClient [] [] sw;
   Run.round2 P nbClient dropped [] sw)
  = Ok (server2, mkWorld (imap client2b inputs) heap2).
Proof.
  rewrite run_round0, bind_Ok, run_round1, bind_Ok. apply run_round2.
Qed.

(** The pairs of survivors contribute nothing to the sum of the masked
    values: what is left of the pairwise masks are those shared with the
    dead. *)
Lemma survivor_pairs_cancel :
  sumZ ((fun x => sumZ (pairTerm x <$> peers x)) <$> survivors)
  = sumZ ((fun x => sumZ (pairTerm x <$> casualties)) <$> survivors).
Proof.
  rewrite (sumZ_fmap_ext (fun x => sumZ (pairTerm x <$> peers x))
             (fun x => sumZ (pairTerm x <$> casualties)
                       + sumZ (pairTerm x <$> survivors)) survivors).
  2: { intros x [Hx Hlive]%elem_of_survivors. unfold Expected.peers.
       rewrite (sumZ_filter_zero (fun y => inId y <> inId x) (pairTerm x)).
       - apply (sumZ_filter_split dead).
       - intros y _ Heq%dec_stable. by apply pairTerm_self. }
  rewrite sumZ_fmap_add, (sumZ_antisym pairTerm survivors); [lia|].
  intros x y [Hx _]%elem_of_survivors [Hy _]%elem_of_survivors.
  by apply pairTerm_antisym.
Qed.

Lemma partialSum_without_pairs :
  partialSum
  = toInt32 (sumZ ((fun x => sumZ (pairTerm x <$> casualties)
                             + Expected.fixedPoint x
                             + Expected.selfMask P x) <$> survivors)).
Proof.
  unfold Expected.partialSum, Expected.maskedValue.
  rewrite <- (Z.add_0_l (sumZ _)).
  rewrite (toInt32_sumZ
    (fun x => sumZ (pairTerm x <$> peers x) + Expected.fixedPoint x
              + Expected.selfMask P x) survivors 0).
  rewrite Z.add_0_l. f_equal. rewrite !sumZ_fmap_add.
  by rewrite survivor_pairs_cancel.
Qed.

Lemma pairTerm_signs (x y : Tape * PID * Q) :
  x ∈ inputs -> y ∈ inputs -> String.ltb (inId y) (inId x) = true ->
  pairTerm x y = Expected.mask P x y /\
  pairTerm y x = - Expected.mask P x y.
Proof.
  intros Hx Hy Hlt. unfold Expected.pairTerm.
  rewrite Hlt, (ltb_antisym _ _ Hlt), (mask_sym y x Hy Hx). done.
Qed.

(** *** What each client sends in round 1 *)

Lemma client1_fields (i : nat) (x : Tape * PID * Q) :
  Client.clientList (client1 i x) = Some (S i) /\
  Client.ciphertexts (client1 i x) = Some (sent x) /\
  Client.ownIndex (client1 i x) = Some (ownIdx x) /\
  Client.secretKeyShamir (client1 i x) = Some (keyShares x) /\
  Client.selfMaskSeedShamir (client1 i x) = Some (seedShares x) /\
  Client.ownPrivateKeyShare (client1 i x)
    = shareAt (keyShares x) (ownIdx x) /\
  Client.ownSelfMaskSeedShare (client1 i x)
    = shareAt (seedShares x) (ownIdx x).
Proof. repeat apply conj; reflexivity. Qed.

Lemma aget_sent (x y : Tape * PID * Q) (k : nat) :
  peers x !! k = Some y ->
  aget (inId x, inId y) (sent x) = Some (message x k y).
Proof.
  intros Hk. unfold Expected.sent.
  apply (aget_imap_NoDup (fun z => (inId x, inId z))
           (fun k z => message x k z) (peers x) k y); [|done].
  rewrite (list_fmap_compose inId (fun a => (inId x, a))).
  apply NoDup_fmap_pair_l, NoDup_peerIDs.
Qed.

Lemma run_until_clients_round1 :
  (sw ← Run.round0 nbClient (Run.generation inputs threshold);
   Run.forEachClient (Client.round1 P) nbClient (snd sw))
  = Ok (mkWorld (imap client1 inputs) heap1).
Proof. rewrite run_round0, bind_Ok. apply clients_round1. Qed.

Lemma heap1_lookup (i : nat) (x : Tape * PID * Q) :
  inputs !! i = Some x -> heap1 !! S i = Some (peerMap x).
Proof.
  intros Hx. unfold Expected.heap1. simpl.
  by rewrite list_lookup_fmap, Hx.
Qed.

End EndToEnd.

(** ** The toy libraries meet the assumptions *)

Lemma toy_bits : bitsLongEnough Example.toy.
Proof. intros [a] [b]. simpl. unfold Example.toyBits. simpl. lia. Qed.

Lemma toySplit_accepts (coins : Z) (n : nat) (t : Z) (secret : Bytes) :
  2 <= t <= Z.of_nat n -> (n <= 255)%nat ->
  Example.toySplit coins n t secret
  = Some (Example.toyShares coins n secret).
Proof.
  intros Ht Hn. unfold Example.toySplit.
  rewrite (proj2 (Z.leb_gt t 1)), (proj2 (Z.ltb_ge (Z.of_nat n) t)),
    (proj2 (Z.ltb_ge 255 (Z.of_nat n))) by lia.
  done.
Qed.

Lemma toy_numbered (n : nat) (t : Z) :
  2 <= t <= Z.of_nat n -> (n <= 255)%nat -> sharesNumbered Example.toy n t.
Proof.
  intros Ht Hn coins secret. exists (Example.toyShares coins n secret).
  split; [by apply toySplit_accepts|].
  unfold Example.toyShares. by rewrite length_map, length_seq.
Qed.

Lemma toyShares_shareAt (coins : Z) (n : nat) (secret : Bytes) (i : nat) :
  (1 <= i <= n)%nat ->
  shareAt (Example.toyShares coins n secret) i
  = Some (map (fun b => b + coins * Z.of_nat i) secret).
Proof.
  intros Hi. destruct i as [|k]; [lia|]. unfold shareAt, Example.toyShares.
  change (map ?f ?l) with (f <$> l). rewrite list_lookup_fmap.
  rewrite lookup_seq_lt by lia. done.
Qed.

Lemma toyJoin_two (coins : Z) (k1 k2 : nat) (secret : Bytes) :
  k1 <> k2 ->
  zip_with (fun a b =>
      a - Z.of_nat k1 * ((b - a) / (Z.of_nat k2 - Z.of_nat k1)))
    (map (fun b => b + coins * Z.of_nat k1) secret)
    (map (fun b => b + coins * Z.of_nat k2) secret)
  = secret.
Proof.
  intros Hne. induction secret as [|b secret IH]; [done|]. simpl.
  rewrite IH. f_equal.
  replace (b + coins * Z.of_nat k2 - (b + coins * Z.of_nat k1))
    with (coins * (Z.of_nat k2 - Z.of_nat k1)) by lia.
  rewrite Z.div_mul by lia. lia.
Qed.

Lemma toy_shamir (n : nat) : shamirRecovers Example.toy n 2.
Proof.
  intros coins secret shares holders Hsplit Hnd Hlen Hrange.
  simpl in Hsplit. unfold Example.toySplit in Hsplit.
  destruct (_ || _) in Hsplit; [done|]. injection Hsplit as <-.
  destruct holders as [|k1 [|k2 rest]]; simpl in Hlen; try lia.
  rewrite !fmap_cons.
  rewrite (toyShares_shareAt coins n secret k1)
    by (apply Hrange; left).
  rewrite (toyShares_shareAt coins n secret k2)
    by (apply Hrange; right; left).
  simpl. apply toyJoin_two.
  apply NoDup_cons in Hnd as [Hk1 _]. intros ->. apply Hk1. left.
Qed.

(** ** The result of a run *)

Lemma Forall2_lookup_in {A} (R : A -> A -> Prop) (l : list A) (x y : A) :
  Forall (fun x => Forall (R x) l) l -> x ∈ l -> y ∈ l -> R x y.
Proof.
  intros Hall Hx Hy. rewrite Forall_forall in Hall.
  specialize (Hall x Hx). rewrite Forall_forall in Hall. by apply Hall.
Qed.

Lemma length_survivors (inputs : list (Tape * PID * Q)) (dropped : list nat) :
  (length (Expected.survivors inputs dropped) <= length inputs)%nat.
Proof. unfold Expected.survivors. apply length_filter. Qed.

Lemma survivors_nil (inputs : list (Tape * PID * Q)) :
  Expected.survivors inputs [] = inputs.
Proof.
  unfold Expected.survivors. apply filter_all. intros x _.
  unfold Expected.dead, Expected.droppedIDs. simpl. apply not_elem_of_nil.
Qed.

Lemma casualties_nil (inputs : list (Tape * PID * Q)) :
  Expected.casualties inputs [] = [].
Proof.
  unfold Expected.casualties. induction inputs as [|x l IH]; [done|].
  rewrite filter_cons_False; [done|].
  unfold Expected.dead, Expected.droppedIDs. simpl. apply not_elem_of_nil.
Qed.

(** A run in which the clients at the positions [dropped] are put down
    between round 1 and round 2 returns the sum of the survivors'
    fixed-point secrets, wrapped to an Int32, divided by [10^4] and by
    their number. *)
Lemma run_outcome (P : Primitives) (inputs : list (Tape * PID * Q))
    (threshold : Z) (dropped : list nat) :
  NoDup (Expected.ids inputs) ->
  Forall (fun d => (d < length inputs)%nat) dropped ->
  threshold <= Z.of_nat (length (Expected.survivors inputs dropped)) ->
  bitsLongEnough P -> symmetricBits P inputs -> symmetricKeys P inputs ->
  sharesNumbered P (length inputs) threshold ->
  shamirRecovers P (length inputs) threshold ->
  keysRecoverable P inputs dropped -> seedsRecoverable P inputs dropped ->
  secretsInRange inputs dropped ->
  Run.runPersonalized P inputs threshold [[]; []; dropped; []; []; []]
  = Ok (Run.mkOutcome (Expected.wrappedMean inputs dropped)
          (Expected.plainMean inputs dropped)
          (Expected.server3 P inputs threshold dropped)
          (mkWorld (imap (Expected.client3 P inputs threshold dropped) inputs)
             (Expected.heap2 P inputs threshold dropped))).
Proof.
  intros Hids Hdr Hsurv Hbits Hsb Hsk Hnum Hsh Hkeys Hseeds Hsec.
  apply run_wrapped_mean; try done.
  - pose proof (length_survivors inputs dropped). lia.
  - by apply Forall_forall.
  - intros x Hx Hlive. unfold secretsInRange in Hsec.
    rewrite Forall_forall in Hsec. apply Hsec.
    unfold Expected.survivors. by apply list_elem_of_filter.
  - intros x y Hx Hy.
    exact (Forall2_lookup_in
             (fun x y => Expected.pairKey P x y = Expected.pairKey P y x)
             inputs x y Hsk Hx Hy).
  - intros d Hd Hdead. unfold keysRecoverable in Hkeys.
    rewrite Forall_forall in Hkeys. apply Hkeys.
    unfold Expected.casualties. by apply list_elem_of_filter.
  - intros y Hy Hlive. unfold seedsRecoverable in Hseeds.
    rewrite Forall_forall in Hseeds. apply Hseeds.
    unfold Expected.survivors. by apply list_elem_of_filter.
  - intros x y Hx Hy.
    exact (Forall2_lookup_in
             (fun x y =>
                deriveBits P (Expected.seedPriv x) (Expected.seedPub y)
                = deriveBits P (Expected.seedPriv y) (Expected.seedPub x))
             inputs x y Hsb Hx Hy).
Qed.

Lemma wrappedMean_in_range (inputs : list (Tape * PID * Q))
    (dropped : list nat) :
  int32 (Expected.fixedPointSum inputs dropped) ->
  Expected.wrappedMean inputs dropped = Expected.mean inputs dropped.
Proof.
  intros Hr. unfold Expected.wrappedMean, Expected.mean.
  by rewrite toInt32_id.
Qed.

Ltac by_decision :=
  match goal with |- ?G => refine (@bool_decide_unpack G _ _) end;
  vm_compute; exact I.

(** ** Binary64 and the fixed-point encoding *)

(** [fl] keeps the integers below [2^53] and is within [2^-53],
    relatively, of every rational; the integer that a client masks is
    within [3/2] of its secret times [10^4]. *)

Lemma Qred_integer (q : Q) (m : Z) :
  (q == inject_Z m)%Q -> Qred q = inject_Z m.
Proof.
  intros H. rewrite (Qred_complete _ _ H).
  pose proof (Qred_correct (inject_Z m)) as Hc.
  pose proof (gcd_Qred (inject_Z m)) as Hg.
  destruct (Qred (inject_Z m)) as [a b].
  unfold Qeq, inject_Z in *. simpl in *.
  assert (a = m * Zpos b) as -> by lia.
  rewrite Z.gcd_comm, Z.mul_comm, Z.gcd_mul_diag_l in Hg by lia.
  assert (b = 1%positive) as -> by lia.
  f_equal. lia.
Qed.

Lemma pow2_nonneg_exp (e : Z) : 0 <= e -> pow2 e = inject_Z (2 ^ e).
Proof. intros H. unfold pow2. by rewrite (proj2 (Z.leb_le 0 e) H). Qed.

Lemma pow2_neg_exp (e : Z) :
  e < 0 -> (pow2 e * inject_Z (2 ^ (- e)) == 1)%Q.
Proof.
  intros H. unfold pow2. rewrite (proj2 (Z.leb_gt 0 e) H).
  assert (0 < 2 ^ (- e)) by (apply Z.pow_pos_nonneg; lia).
  destruct (2 ^ (- e)) as [|k|k]; try lia.
  unfold Qeq, Qmult, inject_Z. simpl. lia.
Qed.

Lemma pow2_pos (e : Z) : (0 < pow2 e)%Q.
Proof.
  unfold pow2. destruct (0 <=? e) eqn:He.
  - apply Z.leb_le in He. rewrite <- (Zlt_Qlt 0). apply Z.pow_pos_nonneg; lia.
  - reflexivity.
Qed.

(** [pow2 (floorLog2 a)] is below [a]. *)
Lemma floorLog2_le (a : Q) : (0 < a)%Q -> (pow2 (floorLog2 a) <= a)%Q.
Proof.
  intros Ha. unfold floorLog2.
  destruct (Qle_bool _ a) eqn:Hle; [by apply Qle_bool_iff|]. clear Hle.
  destruct a as [n d]. cbn [Qnum Qden] in *.
  assert (0 < n) as Hn by (unfold Qlt in Ha; simpl in Ha; lia).
  pose proof (Z.log2_spec n Hn) as [Hn1 _].
  pose proof (Z.log2_spec (Zpos d) eq_refl) as [_ Hd2].
  pose proof (Z.log2_nonneg n) as Hn0.
  pose proof (Z.log2_nonneg (Zpos d)) as Hd0.
  set (p := Z.log2 n) in *. set (r := Z.log2 (Z.pos d)) in *.
  rewrite <- Z.add_1_r in Hd2.
  unfold pow2. destruct (0 <=? p - r - 1) eqn:He.
  - apply Z.leb_le in He. unfold Qle, inject_Z. simpl.
    assert (2 ^ p = 2 ^ (p - r - 1) * 2 ^ (r + 1)) as Hp
      by (rewrite <- Z.pow_add_r by lia; f_equal; lia).
    assert (0 < 2 ^ (p - r - 1)) by (apply Z.pow_pos_nonneg; lia).
    assert (2 ^ (p - r - 1) * Z.pos d <= 2 ^ (p - r - 1) * 2 ^ (r + 1))
      by (apply Z.mul_le_mono_nonneg_l; lia).
    lia.
  - apply Z.leb_gt in He.
    assert (0 < 2 ^ (- (p - r - 1))) as Hq by (apply Z.pow_pos_nonneg; lia).
    assert (2 ^ (r + 1) = 2 ^ p * 2 ^ (- (p - r - 1))) as Hp
      by (rewrite <- Z.pow_add_r by lia; f_equal; lia).
    assert (0 < 2 ^ p) by (apply Z.pow_pos_nonneg; lia).
    destruct (2 ^ (- (p - r - 1))) as [|k|k]; try lia.
    unfold Qle. simpl.
    assert (2 ^ p * Z.pos d <= 2 ^ p * 2 ^ (r + 1))
      by (apply Z.mul_le_mono_nonneg_l; lia).
    assert (2 ^ p * Z.pos k <= n * Z.pos k)
      by (apply Z.mul_le_mono_nonneg_r; lia).
    nia.
Qed.

Lemma floorLog2_integer (a : Q) (m : Z) :
  (a == inject_Z m)%Q -> 0 < m < 2 ^ 53 -> floorLog2 a <= 52.
Proof.
  intros Ha Hm.
  assert (0 < a)%Q as Hpos by (rewrite Ha, <- (Zlt_Qlt 0); lia).
  pose proof (floorLog2_le a Hpos) as Hle.
  destruct (Z.le_gt_cases (floorLog2 a) 52) as [|Hgt]; [done|exfalso].
  assert (pow2 (floorLog2 a) <= inject_Z m)%Q as Hm' by (by rewrite <- Ha).
  rewrite pow2_nonneg_exp in Hm' by lia. rewrite <- Zle_Qle in Hm'.
  assert (2 ^ 53 <= 2 ^ floorLog2 a) by (apply Z.pow_le_mono_r; lia).
  lia.
Qed.

Lemma roundHalfEven_integer (q : Q) (k : Z) :
  (q == inject_Z k)%Q -> roundHalfEven q = k.
Proof.
  intros H. unfold roundHalfEven.
  rewrite (Qfloor_comp _ _ H), Qfloor_Z.
  assert (q - inject_Z k == 0)%Q as H0 by (rewrite H; ring).
  by rewrite (Qcompare_comp _ _ H0 _ _ (Qeq_refl (1 # 2))).
Qed.

Lemma pow2_nonpos_exp (e : Z) :
  e <= 0 -> (pow2 e * inject_Z (2 ^ (- e)) == 1)%Q.
Proof.
  intros H. destruct (decide (e = 0)) as [->|]; [reflexivity|].
  apply pow2_neg_exp. lia.
Qed.

(** The significand of an integer below [2^53] is kept whole. *)
Lemma significand_integer (a : Q) (k : Z) :
  (a == inject_Z k)%Q -> 0 < k < 2 ^ 53 ->
  let e := floorLog2 a - 52 in
  (inject_Z (roundHalfEven (a / pow2 e)) * pow2 e == inject_Z k)%Q.
Proof.
  intros Ha Hk e.
  pose proof (floorLog2_integer a k Ha Hk) as Hf.
  pose proof (pow2_nonpos_exp e ltac:(lia)) as Hpw.
  pose proof (pow2_pos e) as Hpos.
  set (p := pow2 e) in *. set (w := 2 ^ (- e)) in *.
  assert (~ p == 0)%Q as Hne
    by (intros H0; rewrite H0 in Hpos; by inversion Hpos).
  assert (a / p == inject_Z (k * w))%Q as Hdiv.
  { apply (Qmult_inj_r _ _ p Hne).
    rewrite Qmult_comm, Qmult_div_r by done.
    rewrite inject_Z_mult, <- Qmult_assoc, (Qmult_comm (inject_Z w)), Hpw, Ha.
    ring. }
  rewrite (roundHalfEven_integer _ _ Hdiv).
  rewrite inject_Z_mult, <- Qmult_assoc, (Qmult_comm (inject_Z w)), Hpw.
  ring.
Qed.

(** An integer below [2^53] in magnitude is a binary64. *)
Lemma fl_integer (q : Q) (m : Z) :
  (q == inject_Z m)%Q -> Z.abs m < 2 ^ 53 -> fl q = inject_Z m.
Proof.
  intros Hq Hm. unfold fl.
  destruct (Qcompare_spec q 0) as [H0|Hlt|Hgt].
  - rewrite Hq in H0. unfold Qeq, inject_Z in H0. simpl in H0.
    assert (m = 0) as -> by lia. reflexivity.
  - assert (m < 0) as Hneg
      by (rewrite Hq in Hlt; unfold Qlt in Hlt; simpl in Hlt; lia).
    assert (Qabs q == inject_Z (- m))%Q as Ha
      by (rewrite Hq, Qabs_neg, inject_Z_opp;
          [reflexivity | unfold Qle; simpl; lia]).
    apply Qred_integer.
    rewrite (significand_integer _ _ Ha) by lia.
    rewrite inject_Z_opp. ring.
  - assert (0 < m) as Hp
      by (rewrite Hq in Hgt; unfold Qlt in Hgt; simpl in Hgt; lia).
    assert (Qabs q == inject_Z m)%Q as Ha
      by (rewrite Hq, Qabs_pos;
          [reflexivity | unfold Qle; simpl; lia]).
    apply Qred_integer.
    by rewrite (significand_integer _ _ Ha) by lia.
Qed.

Lemma toFixed4_integer (n : Z) : toFixed4 (inject_Z n) = n * 10000.
Proof.
  unfold toFixed4.
  assert (Qfloor (Qabs (inject_Z n) * 10000 + (1 # 2)) = Z.abs n * 10000)
    as ->.
  { unfold Qfloor, Qabs, inject_Z, Qmult, Qplus. cbn [Qnum Qden].
    symmetry. apply (Z.div_unique _ _ _ 1); [lia|].
    change (Z.pos (1 * 1 * 2)) with 2. lia. }
  destruct (Qcompare_spec (inject_Z n) 0) as [H|H|H];
    unfold Qeq, Qlt, inject_Z in H; simpl in H; lia.
Qed.

(** A secret that is an integer [n] with [|n| * 10^4 < 2^52] is encoded
    as [n * 10^4]. *)
Lemma secretValueRounded_integer (n : Z) :
  Z.abs n * 10000 < 2 ^ 52 ->
  secretValueRounded (inject_Z n) = Some (n * 10000).
Proof.
  intros Hn. unfold secretValueRounded.
  rewrite toFixed4_integer.
  assert (Qle_bool (inject_Z (10 ^ 21)) (Qabs (inject_Z n)) = false) as ->.
  { apply not_true_is_false. rewrite Qle_bool_iff.
    unfold Qle, Qabs, inject_Z. cbn [Qnum Qden]. lia. }
  rewrite (fl_integer (inject_Z (n * 10000) / 10000) n).
  2: { rewrite inject_Z_mult. change 10000%Q with (inject_Z 10000). field. }
  2: lia.
  rewrite (fl_integer (inject_Z n * 10000) (n * 10000)).
  2: { by rewrite inject_Z_mult. }
  2: lia.
  assert (Qle_bool (inject_Z (2 ^ 52)) (Qabs (inject_Z (n * 10000))) = false)
    as ->.
  { apply not_true_is_false. rewrite Qle_bool_iff.
    unfold Qle, Qabs, inject_Z. cbn [Qnum Qden]. lia. }
  destruct (Qeq_bool _ 0) eqn:H0.
  - apply Qeq_bool_eq in H0. unfold Qeq, inject_Z in H0. simpl in H0.
    f_equal. lia.
  - assert (n <> 0) by (intros ->; discriminate).
    assert (Qle_bool (1 # 1000000) (Qabs (inject_Z (n * 10000))) = true) as ->.
    { rewrite Qle_bool_iff. unfold Qle, Qabs, inject_Z. cbn [Qnum Qden]. lia. }
    unfold Qtrunc, inject_Z. cbn [Qnum Qden]. by rewrite Z.quot_1_r.
Qed.

Lemma roundHalfEven_error (t : Q) :
  (Qabs (inject_Z (roundHalfEven t) - t) <= 1 # 2)%Q.
Proof.
  unfold roundHalfEven.
  pose proof (Qfloor_le t) as Hlo. pose proof (Qlt_floor t) as Hhi.
  rewrite inject_Z_plus in Hhi. change (inject_Z 1) with 1%Q in Hhi.
  apply Qabs_Qle_condition.
  destruct (Qcompare_spec (t - inject_Z (Qfloor t)) (1 # 2)) as [H|H|H].
  - destruct (Z.even (Qfloor t)).
    + split; lra.
    + rewrite inject_Z_plus. change (inject_Z 1) with 1%Q. split; lra.
  - split; lra.
  - rewrite inject_Z_plus. change (inject_Z 1) with 1%Q. split; lra.
Qed.

Lemma pow2_shift (f : Z) :
  (pow2 (f - 52) * inject_Z (2 ^ 52) == pow2 f)%Q.
Proof.
  unfold pow2.
  destruct (Z.leb_spec 0 (f - 52)) as [H1|H1];
    destruct (Z.leb_spec 0 f) as [H2|H2]; try lia.
  - rewrite <- inject_Z_mult, <- Z.pow_add_r by lia.
    by replace (f - 52 + 52) with f by lia.
  - assert (2 ^ 52 = 2 ^ f * 2 ^ (- (f - 52))) as Hp
      by (rewrite <- Z.pow_add_r by lia; f_equal; lia).
    assert (0 < 2 ^ (- (f - 52))) as Hq by (apply Z.pow_pos_nonneg; lia).
    destruct (2 ^ (- (f - 52))) as [|k|k]; try lia.
    unfold Qeq, Qmult, inject_Z. cbn [Qnum Qden]. simpl Z.to_pos. lia.
  - assert (2 ^ (- (f - 52)) = 2 ^ 52 * 2 ^ (- f)) as Hp
      by (rewrite <- Z.pow_add_r by lia; f_equal; lia).
    assert (0 < 2 ^ (- (f - 52))) as Hq by (apply Z.pow_pos_nonneg; lia).
    assert (0 < 2 ^ (- f)) as Hq' by (apply Z.pow_pos_nonneg; lia).
    destruct (2 ^ (- (f - 52))) as [|k|k]; try lia.
    destruct (2 ^ (- f)) as [|k'|k']; try lia.
    unfold Qeq, Qmult, inject_Z. cbn [Qnum Qden]. simpl Z.to_pos. lia.
Qed.

(** The distance of a positive rational to its significand at the scale
    of its exponent is half a unit in the last place at most. *)
Lemma significand_error (a : Q) :
  (0 < a)%Q ->
  let p := pow2 (floorLog2 a - 52) in
  (Qabs (inject_Z (roundHalfEven (a / p)) * p - a)
   <= a * (1 # 9007199254740992))%Q.
Proof.
  intros Ha p.
  pose proof (pow2_pos (floorLog2 a - 52)) as Hp. fold p in Hp.
  pose proof (floorLog2_le a Ha) as Hle.
  rewrite <- (pow2_shift (floorLog2 a)) in Hle. fold p in Hle.
  change (inject_Z (2 ^ 52)) with 4503599627370496%Q in Hle.
  pose proof (roundHalfEven_error (a / p)) as Hr.
  apply Qabs_Qle_condition in Hr as [Hr1 Hr2].
  assert (a / p * p == a)%Q as Hap
    by (rewrite Qmult_comm; apply Qmult_div_r; lra).
  set (n := inject_Z (roundHalfEven (a / p))) in *.
  set (t := (a / p)%Q) in *.
  apply Qabs_Qle_condition. split.
  - assert (- (1 # 2) * p <= (n - t) * p)%Q
      by (apply Qmult_le_compat_r; lra).
    lra.
  - assert ((n - t) * p <= (1 # 2) * p)%Q
      by (apply Qmult_le_compat_r; lra).
    lra.
Qed.

(** [fl] is within [2^-53] of its argument, relatively. *)
Lemma fl_error (q : Q) :
  (Qabs (fl q - q) <= Qabs q * (1 # 9007199254740992))%Q.
Proof.
  unfold fl. destruct (Qcompare_spec q 0) as [H0|Hlt|Hgt].
  - rewrite H0. vm_compute. discriminate.
  - cbv zeta. rewrite Qred_correct.
    assert (Qabs q == - q)%Q as Ha by (apply Qabs_neg; lra).
    assert (0 < Qabs q)%Q as Hpos by lra.
    pose proof (significand_error (Qabs q) Hpos) as He. cbv zeta in He.
    set (v := (inject_Z _ * _)%Q) in *.
    apply Qabs_Qle_condition in He as [He1 He2].
    apply Qabs_Qle_condition. split; lra.
  - cbv zeta. rewrite Qred_correct.
    assert (Qabs q == q)%Q as Ha by (apply Qabs_pos; lra).
    assert (0 < Qabs q)%Q as Hpos by lra.
    pose proof (significand_error (Qabs q) Hpos) as He. cbv zeta in He.
    set (v := (inject_Z _ * _)%Q) in *.
    apply Qabs_Qle_condition in He as [He1 He2].
    apply Qabs_Qle_condition. split; lra.
Qed.

Lemma fl_bounds_pos (q : Q) :
  (0 <= q)%Q ->
  (q * (1 - (1 # 9007199254740992)) <= fl q
   /\ fl q <= q * (1 + (1 # 9007199254740992)))%Q.
Proof.
  intros Hq. pose proof (fl_error q) as He.
  rewrite (Qabs_pos q Hq) in He.
  apply Qabs_Qle_condition in He as [He1 He2]. split; lra.
Qed.

Lemma fl_bounds_neg (q : Q) :
  (q <= 0)%Q ->
  (q * (1 + (1 # 9007199254740992)) <= fl q
   /\ fl q <= q * (1 - (1 # 9007199254740992)))%Q.
Proof.
  intros Hq. pose proof (fl_error q) as He.
  rewrite (Qabs_neg q Hq) in He.
  apply Qabs_Qle_condition in He as [He1 He2]. split; lra.
Qed.

Lemma fl_zero (q : Q) : (q == 0)%Q -> fl q = 0%Q.
Proof.
  intros H. unfold fl.
  by rewrite (Qcompare_comp _ _ H _ _ (Qeq_refl 0)).
Qed.

(** [toFixed(4)] rounds to the nearest multiple of [10^-4]. *)
Lemma toFixed4_error (x : Q) :
  (Qabs (inject_Z (toFixed4 x) - x * 10000) <= 1 # 2)%Q.
Proof.
  unfold toFixed4.
  pose proof (Qfloor_le (Qabs x * 10000 + (1 # 2))) as Hlo.
  pose proof (Qlt_floor (Qabs x * 10000 + (1 # 2))) as Hhi.
  rewrite inject_Z_plus in Hhi. change (inject_Z 1) with 1%Q in Hhi.
  set (n := inject_Z (Qfloor _)) in *.
  apply Qabs_Qle_condition.
  destruct (Qcompare_spec x 0) as [H|H|H].
  - rewrite (Qabs_pos x) in Hlo, Hhi by lra. fold n. split; lra.
  - rewrite (Qabs_neg x) in Hlo, Hhi by lra. rewrite inject_Z_opp. fold n.
    split; lra.
  - rewrite (Qabs_pos x) in Hlo, Hhi by lra. fold n. split; lra.
Qed.

Lemma toFixed4_sign (x : Q) :
  ((0 <= x)%Q -> 0 <= toFixed4 x) /\ ((x <= 0)%Q -> toFixed4 x <= 0).
Proof.
  unfold toFixed4.
  pose proof (Qabs_nonneg x) as Hx.
  assert (0 <= Qfloor (Qabs x * 10000 + (1 # 2))) as Hn.
  { change 0 with (Qfloor 0). apply Qfloor_resp_le. lra. }
  assert ((x == 0)%Q -> Qfloor (Qabs x * 10000 + (1 # 2)) = 0) as H0.
  { intros H. rewrite (Qfloor_comp _ (1 # 2)); [done|]. rewrite H. done. }
  destruct (Qcompare_spec x 0) as [H|H|H]; split; intros; try lia; try lra.
  rewrite H0; [lia|lra].
Qed.

Lemma Qtrunc_opp (z : Q) : Qtrunc (- z) = - Qtrunc z.
Proof.
  unfold Qtrunc. destruct z as [n d]. cbn [Qopp Qnum Qden].
  by rewrite Z.quot_opp_l.
Qed.

Lemma Qtrunc_floor (z : Q) : (0 <= z)%Q -> Qtrunc z = Qfloor z.
Proof.
  unfold Qtrunc, Qfloor, Qle. destruct z as [n d]. cbn [Qnum Qden].
  intros H. apply Z.quot_div_nonneg; lia.
Qed.

(** Truncating a number that is less than one away from the integer [k]
    gives [k] or its neighbour towards zero. *)
Lemma Qtrunc_near_pos (z : Q) (k : Z) :
  0 < k -> (inject_Z k - 1 < z)%Q -> (z < inject_Z k + 1)%Q ->
  Qtrunc z = k - 1 \/ Qtrunc z = k.
Proof.
  intros Hk Hlo Hhi.
  assert (1 <= inject_Z k)%Q as Hk1
    by (change 1%Q with (inject_Z 1); rewrite <- Zle_Qle; lia).
  rewrite Qtrunc_floor by lra.
  pose proof (Qfloor_le z) as Hf1. pose proof (Qlt_floor z) as Hf2.
  rewrite inject_Z_plus in Hf2. change (inject_Z 1) with 1%Q in Hf2.
  assert (Qfloor z < k + 1) as H1
    by (rewrite Zlt_Qlt, inject_Z_plus; change (inject_Z 1) with 1%Q; lra).
  assert (k - 1 < Qfloor z + 1) as H2
    by (rewrite Zlt_Qlt; unfold Z.sub; rewrite !inject_Z_plus;
        change (inject_Z (- (1))) with (-1)%Q;
        change (inject_Z 1) with 1%Q; lra).
  lia.
Qed.

Lemma Qtrunc_near_neg (z : Q) (k : Z) :
  k < 0 -> (inject_Z k - 1 < z)%Q -> (z < inject_Z k + 1)%Q ->
  Qtrunc z = k \/ Qtrunc z = k + 1.
Proof.
  intros Hk Hlo Hhi.
  destruct (Qtrunc_near_pos (- z) (- k)) as [H|H]; try lia.
  - rewrite inject_Z_opp. lra.
  - rewrite inject_Z_opp. lra.
  - rewrite Qtrunc_opp in H. lia.
  - rewrite Qtrunc_opp in H. lia.
Qed.

Lemma Qle_bool_false (a b : Q) : (b < a)%Q -> Qle_bool a b = false.
Proof.
  intros H. apply not_true_is_false. rewrite Qle_bool_iff. lra.
Qed.

Lemma Qle_bool_true (a b : Q) : (a <= b)%Q -> Qle_bool a b = true.
Proof. intros H. by apply Qle_bool_iff. Qed.

Lemma Qeq_bool_false (a b : Q) : ~ (a == b)%Q -> Qeq_bool a b = false.
Proof.
  intros H. destruct (Qeq_bool a b) eqn:E; [|done].
  by apply Qeq_bool_eq in E.
Qed.

(** What [Number.parseInt(x.toFixed(4) * (10**4))] gives is the integer of
    [toFixed], or its neighbour towards zero where the product falls just
    short of it. *)
Lemma secretValueRounded_near (x : Q) :
  (Qabs x * 10000 <= 4294967296)%Q ->
  exists r,
    secretValueRounded x = Some r /\
    Z.abs (r - toFixed4 x) <= 1 /\ Z.abs r <= Z.abs (toFixed4 x).
Proof.
  intros Hx. pose proof (toFixed4_error x) as Hk.
  apply Qabs_Qle_condition in Hk as [Hk1 Hk2].
  pose proof (Qabs_nonneg x) as Hx0.
  assert (- Qabs x <= x /\ x <= Qabs x)%Q as [Hx1 Hx2].
  { split; [|apply Qle_Qabs]. pose proof (Qle_Qabs (- x)) as H.
    rewrite Qabs_opp in H. lra. }
  unfold secretValueRounded.
  rewrite (Qle_bool_false (inject_Z (10 ^ 21)) (Qabs x))
    by (change (inject_Z (10 ^ 21)) with 1000000000000000000000%Q; lra).
  cbv zeta. set (k := toFixed4 x) in *.
  set (q1 := (inject_Z k / 10000)%Q).
  assert (q1 * 10000 == inject_Z k)%Q as Hq1 by (unfold q1; field).
  destruct (Z.lt_trichotomy k 0) as [Hneg|[Hzero|Hpos]].
  - assert (inject_Z k <= -1)%Q as HK
      by (change (-1)%Q with (inject_Z (-1)); rewrite <- Zle_Qle; lia).
    destruct (fl_bounds_neg q1 ltac:(lra)) as [Hy1 Hy2].
    set (y := fl q1) in *.
    destruct (fl_bounds_neg (y * 10000) ltac:(lra)) as [Hz1 Hz2].
    set (z := fl (y * 10000)) in *.
    assert (inject_Z k - 1 < z /\ z < inject_Z k + 1)%Q as [Hlo Hhi]
      by (split; lra).
    rewrite (Qle_bool_false (inject_Z (2 ^ 52)) (Qabs z))
      by (change (inject_Z (2 ^ 52)) with 4503599627370496%Q;
          rewrite (Qabs_neg z) by lra; lra).
    rewrite (Qeq_bool_false z 0) by lra.
    rewrite (Qle_bool_true (1 # 1000000) (Qabs z))
      by (rewrite (Qabs_neg z) by lra; lra).
    eexists. split; [reflexivity|].
    destruct (Qtrunc_near_neg z k Hneg Hlo Hhi) as [-> | ->]; lia.
  - rewrite Hzero in *. change (inject_Z 0) with 0%Q in Hq1.
    assert (fl q1 = 0%Q) as -> by (apply fl_zero; lra).
    assert (fl (0 * 10000) = 0%Q) as -> by (by apply fl_zero).
    exists 0. split; [reflexivity|lia].
  - assert (1 <= inject_Z k)%Q as HK
      by (change 1%Q with (inject_Z 1); rewrite <- Zle_Qle; lia).
    destruct (fl_bounds_pos q1 ltac:(lra)) as [Hy1 Hy2].
    set (y := fl q1) in *.
    destruct (fl_bounds_pos (y * 10000) ltac:(lra)) as [Hz1 Hz2].
    set (z := fl (y * 10000)) in *.
    assert (inject_Z k - 1 < z /\ z < inject_Z k + 1)%Q as [Hlo Hhi]
      by (split; lra).
    rewrite (Qle_bool_false (inject_Z (2 ^ 52)) (Qabs z))
      by (change (inject_Z (2 ^ 52)) with 4503599627370496%Q;
          rewrite (Qabs_pos z) by lra; lra).
    rewrite (Qeq_bool_false z 0) by lra.
    rewrite (Qle_bool_true (1 # 1000000) (Qabs z))
      by (rewrite (Qabs_pos z) by lra; lra).
    eexists. split; [reflexivity|].
    destruct (Qtrunc_near_pos z k Hpos Hlo Hhi) as [-> | ->]; lia.
Qed.

Lemma sumQ_cons (a : Q) (l : list Q) : sumQ (a :: l) = (a + sumQ l)%Q.
Proof. done. Qed.

Lemma inject_Z_abs_le (a b : Z) :
  Z.abs a <= b -> (- inject_Z b <= inject_Z a /\ inject_Z a <= inject_Z b)%Q.
Proof.
  intros H. rewrite <- inject_Z_opp, <- !Zle_Qle. lia.
Qed.

Lemma Qabs_bounds (q : Q) : (- Qabs q <= q /\ q <= Qabs q)%Q.
Proof.
  split; [|apply Qle_Qabs]. pose proof (Qle_Qabs (- q)) as H.
  rewrite Qabs_opp in H. lra.
Qed.

(** The integer that a client masks is within [3/2] of its secret times
    [10^4], and not larger in magnitude than the integer of [toFixed]. *)
Lemma fixedPoint_close (x : Tape * PID * Q) :
  (Qabs (Run.inSecret x) * 10000 <= 4294967296)%Q ->
  is_Some (secretValueRounded (Run.inSecret x)) /\
  (- (3 # 2) <= inject_Z (Expected.fixedPoint x) - Run.inSecret x * 10000)%Q /\
  (inject_Z (Expected.fixedPoint x) - Run.inSecret x * 10000 <= 3 # 2)%Q /\
  (- (Qabs (Run.inSecret x) * 10000 + (1 # 2))
   <= inject_Z (Expected.fixedPoint x))%Q /\
  (inject_Z (Expected.fixedPoint x)
   <= Qabs (Run.inSecret x) * 10000 + (1 # 2))%Q.
Proof.
  intros Hx. unfold Expected.fixedPoint.
  destruct (secretValueRounded_near _ Hx) as (r & -> & Hr1 & Hr2).
  pose proof (toFixed4_error (Run.inSecret x)) as Hk.
  apply Qabs_Qle_condition in Hk as [Hk1 Hk2].
  destruct (Qabs_bounds (Run.inSecret x)) as [Hs1 Hs2].
  set (s := Run.inSecret x) in *. set (k := toFixed4 s) in *. simpl.
  assert (- 1 <= inject_Z r - inject_Z k /\ inject_Z r - inject_Z k <= 1)%Q
    as [Hd1 Hd2].
  { destruct (inject_Z_abs_le (r - k) 1 Hr1) as [H1 H2].
    unfold Z.sub in H1, H2. rewrite inject_Z_plus, inject_Z_opp in H1, H2.
    change (inject_Z 1) with 1%Q in *. split; lra. }
  assert (- inject_Z (Z.abs k) <= inject_Z r
          /\ inject_Z r <= inject_Z (Z.abs k))%Q as [Hm1 Hm2]
    by (by apply inject_Z_abs_le).
  assert (inject_Z (Z.abs k) <= Qabs s * 10000 + (1 # 2))%Q as Hak.
  { destruct (Z.abs_spec k) as [[_ ->]|[_ ->]];
      [|rewrite inject_Z_opp]; lra. }
  split_and!; [by eexists|lra..].
Qed.

Lemma inject_Z_length_cons {A} (a : A) (l : list A) :
  (inject_Z (Z.of_nat (length (a :: l)))
   == inject_Z (Z.of_nat (length l)) + 1)%Q.
Proof.
  cbn [length]. rewrite Nat2Z.inj_succ, <- Z.add_1_r, inject_Z_plus. done.
Qed.

Lemma inject_Z_length_nonneg {A} (l : list A) :
  (0 <= inject_Z (Z.of_nat (length l)))%Q.
Proof. change 0%Q with (inject_Z 0). rewrite <- Zle_Qle. lia. Qed.

(** The sum of the masked integers is within [3/2] per client of the sum
    of the secrets times [10^4]. *)
Lemma fixedPoint_sum_close (l : list (Tape * PID * Q)) :
  (forall x, x ∈ l -> (Qabs (Run.inSecret x) * 10000 <= 4294967296)%Q) ->
  (- ((3 # 2) * inject_Z (Z.of_nat (length l)))
   <= inject_Z (sumZ (Expected.fixedPoint <$> l))
      - sumQ (Run.inSecret <$> l) * 10000)%Q /\
  (inject_Z (sumZ (Expected.fixedPoint <$> l))
   - sumQ (Run.inSecret <$> l) * 10000
   <= (3 # 2) * inject_Z (Z.of_nat (length l)))%Q /\
  (- (sumQ ((fun x => Qabs (Run.inSecret x)) <$> l) * 10000
      + (1 # 2) * inject_Z (Z.of_nat (length l)))
   <= inject_Z (sumZ (Expected.fixedPoint <$> l)))%Q /\
  (inject_Z (sumZ (Expected.fixedPoint <$> l))
   <= sumQ ((fun x => Qabs (Run.inSecret x)) <$> l) * 10000
      + (1 # 2) * inject_Z (Z.of_nat (length l)))%Q.
Proof.
  induction l as [|x l IH]; intros Hb.
  - split_and!; vm_compute; discriminate.
  - destruct IH as (I1 & I2 & I3 & I4);
      [intros; apply Hb; by right|].
    destruct (fixedPoint_close x) as (_ & H1 & H2 & H3 & H4);
      [apply Hb; by left|].
    rewrite !fmap_cons, sumZ_cons, !sumQ_cons, inject_Z_plus,
      inject_Z_length_cons.
    split_and!; lra.
Qed.

(** The binary64 sum of [aggregateWithoutSecrecy]: each addition is off by
    [2^-53] of its result at most, so the sum of at most a thousand
    secrets whose magnitudes add up to [2^31 / 10^4] at most is within
    [2 * 2^-53 * 2^31 / 10^4] per secret of the exact sum. *)
Lemma plain_sum_close (l : list (Tape * PID * Q)) (a e : Q) (c : nat) :
  (- (inject_Z (Z.of_nat c)
      * (2 * (1 # 9007199254740992) * (2147483648 # 10000))) <= a - e)%Q ->
  (a - e <= inject_Z (Z.of_nat c)
            * (2 * (1 # 9007199254740992) * (2147483648 # 10000)))%Q ->
  (Qabs e + sumQ ((fun x => Qabs (Run.inSecret x)) <$> l)
   <= 2147483648 # 10000)%Q ->
  (c + length l <= 1000)%nat ->
  exists r,
    fold_left (fun sum x => numAdd sum (Run.inSecret x)) l (Finite a)
    = Finite r /\
    (- (inject_Z (Z.of_nat (c + length l))
        * (2 * (1 # 9007199254740992) * (2147483648 # 10000)))
     <= r - (e + sumQ (Run.inSecret <$> l)))%Q /\
    (r - (e + sumQ (Run.inSecret <$> l))
     <= inject_Z (Z.of_nat (c + length l))
        * (2 * (1 # 9007199254740992) * (2147483648 # 10000)))%Q.
Proof.
  revert a e c. induction l as [|x l IH]; intros a e c Ha1 Ha2 Hb Hc.
  - exists a. rewrite Nat.add_0_r. cbn [fmap list_fmap sumQ foldr fold_left].
    split_and!; [done|lra..].
  - rewrite fmap_cons, sumQ_cons in Hb. cbn [length] in Hc.
    set (s := Run.inSecret x) in *.
    assert (0 <= inject_Z (Z.of_nat c) /\ inject_Z (Z.of_nat c) <= 1000)%Q
      as [Hc0 Hc1].
    { change 0%Q with (inject_Z 0). change 1000%Q with (inject_Z 1000).
      rewrite <- !Zle_Qle. lia. }
    pose proof (Qabs_triangle e s) as Htri.
    destruct (Qabs_bounds (e + s)) as [Hes1 Hes2].
    pose proof (Qabs_nonneg s) as Hs0. pose proof (Qabs_nonneg e) as He0.
    assert (0 <= sumQ ((fun x => Qabs (Run.inSecret x)) <$> l))%Q as Hl0.
    { clear. induction l as [|y l IH]; [done|].
      rewrite fmap_cons, sumQ_cons. pose proof (Qabs_nonneg (Run.inSecret y)).
      lra. }
    pose proof (fl_error (a + s)) as Hfl.
    assert (Qabs (a + s) <= 2 * (2147483648 # 10000))%Q as Habs
      by (apply Qabs_Qle_condition; split; lra).
    apply Qabs_Qle_condition in Hfl as [Hfl1 Hfl2].
    destruct (IH (fl (a + s)) (e + s)%Q (S c)) as (r & Hr & Hr1 & Hr2).
    + rewrite Nat2Z.inj_succ, <- Z.add_1_r, inject_Z_plus.
      change (inject_Z 1) with 1%Q. lra.
    + rewrite Nat2Z.inj_succ, <- Z.add_1_r, inject_Z_plus.
      change (inject_Z 1) with 1%Q. lra.
    + lra.
    + lia.
    + exists r. rewrite fmap_cons, sumQ_cons. fold s.
      replace (c + length (x :: l))%nat with (S c + length l)%nat
        by (cbn [length]; lia).
      split_and!; [exact Hr|lra..].
Qed.

(** Dividing by a count does not widen a bound. *)
Lemma Qdiv_bound (d n c1 c2 : Q) :
  (1 <= n)%Q -> (0 <= c1)%Q ->
  (- (c1 + c2 * n) <= d * n)%Q -> (d * n <= c1 + c2 * n)%Q ->
  (- (c1 + c2) <= d /\ d <= c1 + c2)%Q.
Proof. intros. split; nra. Qed.

Lemma sumQ_abs (l : list (Tape * PID * Q)) :
  (- sumQ ((fun x => Qabs (Run.inSecret x)) <$> l)
   <= sumQ (Run.inSecret <$> l)
   /\ sumQ (Run.inSecret <$> l)
      <= sumQ ((fun x => Qabs (Run.inSecret x)) <$> l))%Q.
Proof.
  induction l as [|x l [IH1 IH2]]; [split; vm_compute; discriminate|].
  rewrite !fmap_cons, !sumQ_cons.
  destruct (Qabs_bounds (Run.inSecret x)). split; lra.
Qed.

Lemma numDiv_Finite (a b : Q) :
  ~ (b == 0)%Q -> numDiv (Finite a) b = Finite (fl (a / b)).
Proof. intros Hb. unfold numDiv. by rewrite Qeq_bool_false. Qed.

(** The two means. For at most a thousand secrets whose magnitudes add up
    to [2^31 / 10^4] at most and whose masked integers add up to an
    Int32, what [round3] returns is within [2 / 10^4] of the mean of the
    secrets, and what [aggregateWithoutSecrecy] returns within [10^-6]. *)
Lemma means_close (l : list (Tape * PID * Q)) :
  l <> [] -> (length l <= 1000)%nat ->
  (forall x, x ∈ l -> (Qabs (Run.inSecret x) * 10000 <= 4294967296)%Q) ->
  (sumQ ((fun x => Qabs (Run.inSecret x)) <$> l) <= 2147483648 # 10000)%Q ->
  int32 (sumZ (Expected.fixedPoint <$> l)) ->
  exists m p,
    numDiv (numDiv (Finite (inject_Z (sumZ (Expected.fixedPoint <$> l))))
              10000)
      (inject_Z (Z.of_nat (length l))) = Finite m /\
    numDiv (fold_left (fun sum x => numAdd sum (Run.inSecret x)) l (Finite 0))
      (inject_Z (Z.of_nat (length l))) = Finite p /\
    (Qabs (m - sumQ (Run.inSecret <$> l) / inject_Z (Z.of_nat (length l)))
     <= 2 # 10000)%Q /\
    (Qabs (p - sumQ (Run.inSecret <$> l) / inject_Z (Z.of_nat (length l)))
     <= 1 # 1000000)%Q /\
    (Qabs (m - p) <= 2 # 10000)%Q.
Proof.
  intros Hne Hlen Hb HA [HR1 HR2].
  assert (1 <= inject_Z (Z.of_nat (length l)))%Q as Hn.
  { change 1%Q with (inject_Z 1). rewrite <- Zle_Qle.
    destruct l; [done|]. cbn [length]. lia. }
  assert (inject_Z (Z.of_nat (length l)) <= 1000)%Q as Hn'.
  { change 1000%Q with (inject_Z 1000). rewrite <- Zle_Qle. lia. }
  destruct (fixedPoint_sum_close l Hb) as (HS1 & HS2 & _ & _).
  destruct (sumQ_abs l) as [HSa1 HSa2].
  destruct (plain_sum_close l 0 0 0) as (r & Hr & Hr1 & Hr2).
  { vm_compute. discriminate. }
  { vm_compute. discriminate. }
  { change (Qabs 0) with 0%Q. lra. }
  { lia. }
  rewrite Nat.add_0_l in Hr1, Hr2.
  rewrite Zle_Qle in HR1. rewrite Zlt_Qlt in HR2.
  change (inject_Z (- 2 ^ 31)) with (-2147483648)%Q in HR1.
  change (inject_Z (2 ^ 31)) with 2147483648%Q in HR2.
  set (n := inject_Z (Z.of_nat (length l))) in *.
  set (R := inject_Z (sumZ (Expected.fixedPoint <$> l))) in *.
  set (S := sumQ (Run.inSecret <$> l)) in *.
  set (M := (S / n)%Q).
  assert (M * n == S)%Q as HM by (unfold M; field; lra).
  rewrite (numDiv_Finite R 10000) by (vm_compute; discriminate).
  rewrite (numDiv_Finite _ n) by lra.
  rewrite Hr, (numDiv_Finite r n) by lra.
  set (A := (R / 10000)%Q).
  assert (A * 10000 == R)%Q as HA' by (unfold A; field).
  destruct (Qabs_Qle_condition (fl A - A) (Qabs A * (1 # 9007199254740992)))
    as [HflA _].
  specialize (HflA (fl_error A)) as [HflA1 HflA2].
  assert (Qabs A <= 2147483648 # 10000)%Q as HabsA
    by (apply Qabs_Qle_condition; split; lra).
  pose proof (Qabs_nonneg A) as HA0.
  set (a1 := fl A) in *.
  set (b := (a1 / n)%Q).
  assert (b * n == a1)%Q as Hb' by (unfold b; field; lra).
  destruct (Qdiv_bound (b - M) n
              ((1 # 9007199254740992) * (2147483648 # 10000)) (15 # 100000)
              Hn ltac:(lra)) as [HbM1 HbM2]; [nra|nra|].
  destruct (Qdiv_bound b n
              ((2147483648 # 10000) * (1 + (1 # 9007199254740992))) 0
              Hn ltac:(lra)) as [Hb1 Hb2]; [nra|nra|].
  assert (Qabs b <= (2147483648 # 10000) * (1 + (1 # 9007199254740992)))%Q
    as Habsb by (apply Qabs_Qle_condition; split; lra).
  destruct (Qabs_Qle_condition (fl b - b) (Qabs b * (1 # 9007199254740992)))
    as [Hflb _].
  specialize (Hflb (fl_error b)) as [Hflb1 Hflb2].
  pose proof (Qabs_nonneg b) as Hb0.
  set (c := (r / n)%Q).
  assert (c * n == r)%Q as Hc' by (unfold c; field; lra).
  destruct (Qdiv_bound (c - M) n 0
              (2 * (1 # 9007199254740992) * (2147483648 # 10000))
              Hn ltac:(lra)) as [HcM1 HcM2]; [nra|nra|].
  destruct (Qdiv_bound M n (2147483648 # 10000) 0 Hn ltac:(lra))
    as [HM1 HM2]; [nra|nra|].
  assert (Qabs c <= 2 * (2147483648 # 10000))%Q
    as Habsc by (apply Qabs_Qle_condition; split; lra).
  destruct (Qabs_Qle_condition (fl c - c) (Qabs c * (1 # 9007199254740992)))
    as [Hflc _].
  specialize (Hflc (fl_error c)) as [Hflc1 Hflc2].
  pose proof (Qabs_nonneg c) as Hc0.
  exists (fl b), (fl c). split_and!; [done|done|..];
    apply Qabs_Qle_condition; split; lra.
Qed.

Lemma sumQ_abs_bound (l : list (Tape * PID * Q)) (c : Q) :
  (forall x, x ∈ l -> (Qabs (Run.inSecret x) <= c)%Q) ->
  (sumQ ((fun x => Qabs (Run.inSecret x)) <$> l)
   <= c * inject_Z (Z.of_nat (length l)))%Q.
Proof.
  induction l as [|x l IH]; intros Hc.
  { change (0 <= c * 0)%Q. lra. }
  rewrite fmap_cons, sumQ_cons, inject_Z_length_cons.
  specialize (Hc x ltac:(left)) as Hx.
  specialize (IH ltac:(intros; apply Hc; by right)). lra.
Qed.

(** What the bound of the claims gives for a part [l] of the clients:
    every secret times [10^4] is below [2^31], and the magnitudes add up
    to [2^31 / 10^4] at most. *)
Lemma bounded_part (inputs l : list (Tape * PID * Q)) :
  secretsBounded inputs -> (forall x, x ∈ l -> x ∈ inputs) ->
  (length l <= length inputs)%nat -> inputs <> [] ->
  let c := ((2147483648 # 10000) / inject_Z (Z.of_nat (length inputs)))%Q in
  (c * inject_Z (Z.of_nat (length inputs)) == 2147483648 # 10000)%Q /\
  (0 < c)%Q /\
  (forall x, x ∈ l -> (Qabs (Run.inSecret x) * 10000 <= 4294967296)%Q) /\
  (sumQ ((fun x => Qabs (Run.inSecret x)) <$> l)
   <= c * inject_Z (Z.of_nat (length l)))%Q /\
  (sumQ ((fun x => Qabs (Run.inSecret x)) <$> l) <= 2147483648 # 10000)%Q.
Proof.
  intros Hb Hsub Hlen Hne c.
  assert (1 <= inject_Z (Z.of_nat (length inputs)))%Q as Hn.
  { change 1%Q with (inject_Z 1). rewrite <- Zle_Qle.
    destruct inputs; [done|]. cbn [length]. lia. }
  assert (inject_Z (Z.of_nat (length l))
          <= inject_Z (Z.of_nat (length inputs)))%Q as Hl
    by (rewrite <- Zle_Qle; lia).
  pose proof (inject_Z_length_nonneg l) as Hl0.
  assert (c * inject_Z (Z.of_nat (length inputs)) == 2147483648 # 10000)%Q
    as Hc by (unfold c; field; lra).
  set (n := inject_Z (Z.of_nat (length inputs))) in *.
  assert (0 < c)%Q as Hc0 by nra.
  assert (c <= 2147483648 # 10000)%Q as Hc1 by nra.
  assert (forall x, x ∈ l -> (Qabs (Run.inSecret x) <= c)%Q) as Hx.
  { intros x Hx. apply Qlt_le_weak.
    exact (proj1 (Forall_forall _ _) Hb x (Hsub x Hx)). }
  pose proof (sumQ_abs_bound l c Hx) as Hsum.
  split_and!; [done|done| |done|nra].
  intros x Hx'. specialize (Hx x Hx'). lra.
Qed.

(** Inside the bound, the integers of fewer clients than there are cannot
    leave the Int32 range. *)
Lemma int32_part (inputs l : list (Tape * PID * Q)) :
  secretsBounded inputs -> (forall x, x ∈ l -> x ∈ inputs) ->
  (length l < length inputs)%nat -> (length inputs <= 255)%nat ->
  int32 (sumZ (Expected.fixedPoint <$> l)).
Proof.
  intros Hb Hsub Hlen Hmax.
  assert (inputs <> []) as Hne by (intros ->; simpl in Hlen; lia).
  destruct (bounded_part inputs l Hb Hsub ltac:(lia) Hne)
    as (Hc & Hc0 & Hx & Hsum & _).
  destruct (fixedPoint_sum_close l Hx) as (_ & _ & H1 & H2).
  assert (inject_Z (Z.of_nat (length l)) + 1
          <= inject_Z (Z.of_nat (length inputs)))%Q as Hl.
  { change 1%Q with (inject_Z 1). rewrite <- inject_Z_plus, <- Zle_Qle. lia. }
  assert (inject_Z (Z.of_nat (length inputs)) <= 255)%Q as Hn.
  { change 255%Q with (inject_Z 255). rewrite <- Zle_Qle. lia. }
  pose proof (inject_Z_length_nonneg l) as Hl0.
  set (c := ((2147483648 # 10000) / _)%Q) in *.
  set (n := inject_Z (Z.of_nat (length inputs))) in *.
  set (k := inject_Z (Z.of_nat (length l))) in *.
  set (R := sumZ _) in *.
  assert (c * k <= (2147483648 # 10000) - c)%Q as Hck by nra.
  assert ((2147483648 # 10000) <= c * 255)%Q as Hc255 by nra.
  unfold int32. rewrite Zle_Qle, Zlt_Qlt.
  change (inject_Z (- 2 ^ 31)) with (-2147483648)%Q.
  change (inject_Z (2 ^ 31)) with 2147483648%Q.
  split; lra.
Qed.

(** ** Correctness of the aggregate *)

(** A client that is put down is missing among the survivors. *)
Lemma some_client_dropped (inputs : list (Tape * PID * Q))
    (dropped : list nat) :
  dropped <> [] -> Forall (fun d => (d < length inputs)%nat) dropped ->
  (length (Expected.survivors inputs dropped) < length inputs)%nat.
Proof.
  intros Hne Hdr. destruct dropped as [|d dropped]; [done|].
  apply Forall_cons in Hdr as [Hd _].
  destruct (lookup_lt_is_Some_2 inputs d Hd) as [x Hx].
  unfold Expected.survivors.
  apply (length_filter_lt _ _ x); [by eapply list_elem_of_lookup_2|].
  intros Hlive. apply Hlive. unfold Expected.dead, Expected.droppedIDs.
  apply list_elem_of_omap. exists d. split; [left|]. by rewrite Hx.
Qed.

(** The outcome of a run inside the bound of the specification: what
    [round3] and [aggregateWithoutSecrecy] return, and how far they are
    from the mean of the survivors' secrets. *)
Lemma run_means (P : Primitives) (inputs : list (Tape * PID * Q))
    (threshold : Z) (dropped : list nat) :
  NoDup (Expected.ids inputs) ->
  Forall (fun d => (d < length inputs)%nat) dropped ->
  2 <= threshold <= Z.of_nat (length (Expected.survivors inputs dropped)) ->
  (length inputs <= 255)%nat ->
  bitsLongEnough P -> symmetricBits P inputs -> symmetricKeys P inputs ->
  sharesNumbered P (length inputs) threshold ->
  shamirRecovers P (length inputs) threshold ->
  keysRecoverable P inputs dropped -> seedsRecoverable P inputs dropped ->
  secretsBounded inputs ->
  int32 (Expected.fixedPointSum inputs dropped) ->
  exists m p,
    Run.runPersonalized P inputs threshold [[]; []; dropped; []; []; []]
    = Ok (Run.mkOutcome (Finite m) (Finite p)
            (Expected.server3 P inputs threshold dropped)
            (mkWorld (imap (Expected.client3 P inputs threshold dropped)
                        inputs)
               (Expected.heap2 P inputs threshold dropped))) /\
    Finite m = Expected.mean inputs dropped /\
    Forall (fun x =>
        (Qabs (inject_Z (Expected.fixedPoint x) - Run.inSecret x * 10000)
         <= 3 # 2)%Q)
      (Expected.survivors inputs dropped) /\
    (Qabs (m - exactMean (Expected.survivors inputs dropped))
     <= 2 # 10000)%Q /\
    (Qabs (p - exactMean (Expected.survivors inputs dropped))
     <= 1 # 1000000)%Q /\
    (Qabs (m - p) <= 2 # 10000)%Q.
Proof.
  intros Hids Hdr [Ht Hsurv] Hmax Hbits Hsb Hsk Hnum Hsh Hkeys Hseeds Hb Hr.
  pose proof (length_survivors inputs dropped) as Hlen.
  assert (Expected.survivors inputs dropped <> []) as Hne
    by (intros E; rewrite E in Hsurv; simpl in Hsurv; lia).
  assert (inputs <> []) as Hne' by (intros ->; by apply Hne).
  destruct (bounded_part inputs (Expected.survivors inputs dropped) Hb)
    as (_ & _ & Hx & _ & HA); try done.
  { intros x Hx. by apply elem_of_survivors in Hx as [Hx _]. }
  destruct (means_close (Expected.survivors inputs dropped) Hne
              ltac:(lia) Hx HA Hr) as (m & p & Hm & Hp & Hmm & Hpm & Hmp).
  exists m, p. split_and!; try done.
  - rewrite run_outcome; try done.
    + rewrite (wrappedMean_in_range inputs dropped Hr).
      unfold Expected.mean, Expected.plainMean, Expected.fixedPointSum.
      by rewrite Hm, Hp.
    + unfold secretsInRange. apply Forall_forall. intros x Hx'.
      by apply fixedPoint_close, Hx.
  - apply Forall_forall. intros x Hx'.
    destruct (fixedPoint_close x (Hx x Hx')) as (_ & H1 & H2 & _).
    by apply Qabs_Qle_condition.
Qed.

(** C1 (amended). In a run of [N <= 255] clients with distinct ids and a
    threshold [2 <= t <= N] in which no client is put down, when the
    libraries behave as assumed (symmetric derivation of the pairwise
    bits and keys, [t]-out-of-[N] sharing, seeds that are parsed back),
    every secret is inside the bound [|s_i| < 2^31 / 10^4 / N] and the
    sum of the integers that the clients mask is an Int32, the run
    returns; each masked integer is within [3/2] of [s_i * 10^4];
    [round3()] returns the sum of the masked integers divided by [10^4]
    and then by [N], both in binary64, which is within [2 / 10^4] of the
    mean of the secrets and of what [aggregateWithoutSecrecy()] returns,
    itself within [10^-6] of the mean. *)
Theorem round3_mean_without_dropouts (P : Primitives)
    (inputs : list (Tape * PID * Q)) (threshold : Z) :
  NoDup (Expected.ids inputs) ->
  2 <= threshold <= Z.of_nat (length inputs) ->
  (length inputs <= 255)%nat ->
  bitsLongEnough P -> symmetricBits P inputs -> symmetricKeys P inputs ->
  sharesNumbered P (length inputs) threshold ->
  shamirRecovers P (length inputs) threshold ->
  seedsRecoverable P inputs [] ->
  secretsBounded inputs ->
  int32 (sumZ (Expected.fixedPoint <$> inputs)) ->
  exists o m p,
    Run.runPersonalized P inputs threshold [[]; []; []; []; []; []] = Ok o /\
    Run.masked o = Finite m /\ Run.plain o = Finite p /\
    Forall (fun x =>
        (Qabs (inject_Z (Expected.fixedPoint x) - Run.inSecret x * 10000)
         <= 3 # 2)%Q) inputs /\
    Finite m
    = numDiv
        (numDiv (Finite (inject_Z (sumZ (Expected.fixedPoint <$> inputs))))
           10000)
        (inject_Z (Z.of_nat (length inputs))) /\
    (Qabs (m - exactMean inputs) <= 2 # 10000)%Q /\
    (Qabs (p - exactMean inputs) <= 1 # 1000000)%Q /\
    (Qabs (m - p) <= 2 # 10000)%Q.
Proof.
  intros Hids Ht Hmax Hbits Hsb Hsk Hnum Hsh Hseeds Hb Hr.
  destruct (run_means P inputs threshold [] Hids) as (m & p & Hrun & H);
    try done.
  - by rewrite survivors_nil.
  - unfold keysRecoverable. by rewrite casualties_nil.
  - unfold Expected.fixedPointSum. by rewrite survivors_nil.
  - unfold Expected.mean, Expected.fixedPointSum in H.
    rewrite survivors_nil in H.
    destruct H as (Hm & Hclose & Hmm & Hpm & Hmp).
    eexists _, m, p. split; [exact Hrun|]. by split_and!.
Qed.

Lemma round3_mean_without_dropouts_witness :
  exists o m p,
    Run.runPersonalized Example.toy Example.modest4 2 [[]; []; []; []; []; []]
    = Ok o /\
    Run.masked o = Finite m /\ Run.plain o = Finite p /\
    Forall (fun x =>
        (Qabs (inject_Z (Expected.fixedPoint x) - Run.inSecret x * 10000)
         <= 3 # 2)%Q) Example.modest4 /\
    Finite m
    = numDiv
        (numDiv
           (Finite (inject_Z (sumZ (Expected.fixedPoint <$> Example.modest4))))
           10000)
        (inject_Z (Z.of_nat (length Example.modest4))) /\
    (Qabs (m - exactMean Example.modest4) <= 2 # 10000)%Q /\
    (Qabs (p - exactMean Example.modest4) <= 1 # 1000000)%Q /\
    (Qabs (m - p) <= 2 # 10000)%Q.
Proof.
  apply (round3_mean_without_dropouts Example.toy Example.modest4 2).
  - by_decision.
  - by_decision.
  - by_decision.
  - exact toy_bits.
  - unfold symmetricBits. by_decision.
  - unfold symmetricKeys. by_decision.
  - apply toy_numbered; by_decision.
  - apply toy_shamir.
  - unfold seedsRecoverable. by_decision.
  - repeat constructor; vm_compute; reflexivity.
  - by_decision.
Defined.

(** C1, as stated, fails twice. At its bound: two clients whose secrets
    [107374.18239] are below [2^31 / 10^4 / 2] mask the integers [2^30],
    whose sum [2^31] wraps to [-2^31], and [round3()] returns
    [-107374.1824] where the claim promises [107374.1824]. And in its
    "exactly": of two clients with the secrets [1.005] and [0], well
    inside the bound, the first masks [10049], not [10050], because
    [1.0050 * 10^4] is [10049.999999999998] in binary64 and [parseInt]
    truncates; [round3()] returns [0.50245] where
    [round(sum s_i * 10^4) / 10^4 / N] is [0.5025]. *)
Lemma round3_wraps_at_the_claimed_bound :
  (secretsBounded Example.boundary2 /\
   Expected.fixedPoint <$> Example.boundary2 = [2 ^ 30; 2 ^ 30] /\
   numDiv (numDiv (Finite (inject_Z (2 ^ 30 + 2 ^ 30))) 10000) 2
   = Finite (Example.lit 107374.1824) /\
   exists o,
     Run.runPersonalized Example.toy Example.boundary2 2
       [[]; []; []; []; []; []] = Ok o /\
     Run.masked o = Finite (- Example.lit 107374.1824)) /\
  (secretsBounded Example.slip2 /\
   toFixed4 <$> (Run.inSecret <$> Example.slip2) = [10050; 0] /\
   Expected.fixedPoint <$> Example.slip2 = [10049; 0] /\
   Qfloor (sumQ (Run.inSecret <$> Example.slip2) * 10000 + (1 # 2)) = 10050 /\
   numDiv (numDiv (Finite (inject_Z 10050)) 10000) 2
   = Finite (Example.lit 0.5025) /\
   exists o,
     Run.runPersonalized Example.toy Example.slip2 2
       [[]; []; []; []; []; []] = Ok o /\
     Run.masked o = Finite (Example.lit 0.50245) /\
     Run.plain o = Finite (Example.lit 0.5025)).
Proof.
  split; split_and!.
  - repeat constructor; vm_compute; reflexivity.
  - by_evaluation.
  - by_evaluation.
  - exists (Example.returned Example.noOutcome
             (Run.runPersonalized Example.toy Example.boundary2 2
                [[]; []; []; []; []; []])).
    apply conj; by_evaluation.
  - repeat constructor; vm_compute; reflexivity.
  - by_evaluation.
  - by_evaluation.
  - by_evaluation.
  - by_evaluation.
  - exists (Example.returned Example.noOutcome
             (Run.runPersonalized Example.toy Example.slip2 2
                [[]; []; []; []; []; []])).
    repeat apply conj; by_evaluation.
Qed.

(** C2. In a run of [N <= 255] clients with distinct ids and secrets
    inside the bound [|s_i| < 2^31 / 10^4 / N] of the specification, in
    which the clients at the positions [dropped] are put down between
    round 1 and round 2 and at least [t >= 2] clients stay up, when the
    libraries behave as assumed (symmetric derivation, [t]-out-of-[N]
    sharing, seed keys of the dead that are imported back, seeds of the
    survivors that are parsed back), the run returns; U3 is the
    survivors; the aggregate is the wrapped sum [S] of the masked values,
    plus the recomputed pairwise masks of the dead (added when the
    survivor's id is the smaller, subtracted otherwise), minus the
    survivors' self masks, and equals the sum of the integers that the
    survivors masked, each within [3/2] of [s_i * 10^4]; [round3()]
    returns it divided by [10^4] and by the number of survivors, which is
    within [2 / 10^4] of the mean of the survivors' secrets and of what
    [aggregateWithoutSecrecy()] returns. With a client put down the sum
    cannot leave the Int32 range; in the run without a dropout, which is
    that of C1, it is asked to be an Int32. *)
Theorem round3_mean_of_survivors (P : Primitives)
    (inputs : list (Tape * PID * Q)) (threshold : Z) (dropped : list nat) :
  NoDup (Expected.ids inputs) ->
  Forall (fun d => (d < length inputs)%nat) dropped ->
  2 <= threshold <= Z.of_nat (length (Expected.survivors inputs dropped)) ->
  (length inputs <= 255)%nat ->
  bitsLongEnough P -> symmetricBits P inputs -> symmetricKeys P inputs ->
  sharesNumbered P (length inputs) threshold ->
  shamirRecovers P (length inputs) threshold ->
  keysRecoverable P inputs dropped -> seedsRecoverable P inputs dropped ->
  secretsBounded inputs ->
  (dropped = [] -> int32 (sumZ (Expected.fixedPoint <$> inputs))) ->
  exists o m p,
    Run.runPersonalized P inputs threshold [[]; []; dropped; []; []; []]
    = Ok o /\
    Run.masked o = Finite m /\ Run.plain o = Finite p /\
    Server.clientIDsU3 (Run.finalServer o)
    = Some (Expected.survivorIDs inputs dropped) /\
    Server.agg (Run.finalServer o)
    = Some (toInt32
              (toInt32 (Expected.droppedView P inputs dropped
                        + Expected.partialSum P inputs dropped)
               - Expected.selfMaskView P inputs dropped)) /\
    Server.agg (Run.finalServer o)
    = Some (sumZ (Expected.fixedPoint
                    <$> Expected.survivors inputs dropped)) /\
    Forall (fun x =>
        (Qabs (inject_Z (Expected.fixedPoint x) - Run.inSecret x * 10000)
         <= 3 # 2)%Q)
      (Expected.survivors inputs dropped) /\
    Finite m
    = numDiv
        (numDiv
           (Finite (inject_Z (sumZ (Expected.fixedPoint
                                      <$> Expected.survivors inputs dropped))))
           10000)
        (inject_Z (Z.of_nat (length (Expected.survivors inputs dropped)))) /\
    (Qabs (m - exactMean (Expected.survivors inputs dropped))
     <= 2 # 10000)%Q /\
    (Qabs (m - p) <= 2 # 10000)%Q.
Proof.
  intros Hids Hdr Ht Hmax Hbits Hsb Hsk Hnum Hsh Hkeys Hseeds Hb Hnone.
  assert (int32 (Expected.fixedPointSum inputs dropped)) as Hr.
  { unfold Expected.fixedPointSum.
    destruct (decide (dropped = [])) as [->|Hne].
    - rewrite survivors_nil. by apply Hnone.
    - apply (int32_part inputs); try done.
      + intros x Hx. by apply elem_of_survivors in Hx as [Hx _].
      + by apply some_client_dropped. }
  destruct (run_means P inputs threshold dropped Hids)
    as (m & p & Hrun & Hm & Hclose & Hmm & _ & Hmp); try done.
  eexists _, m, p. split; [exact Hrun|]. cbn [Run.masked Run.plain
    Run.finalServer].
  split_and!; try done.
  change (Server.agg (Expected.server3 P inputs threshold dropped))
    with (Some (toInt32
                  (toInt32 (Expected.droppedView P inputs dropped
                            + Expected.partialSum P inputs dropped)
                   - Expected.selfMaskView P inputs dropped))).
  f_equal. fold (Expected.fixedPointSum inputs dropped).
  rewrite <- (toInt32_id _ Hr).
  apply aggregate_is_fixedPointSum.
  intros x y Hx Hy.
  exact (Forall2_lookup_in
           (fun x y =>
              deriveBits P (Expected.seedPriv x) (Expected.seedPub y)
              = deriveBits P (Expected.seedPriv y) (Expected.seedPub x))
           inputs x y Hsb Hx Hy).
Qed.

Lemma round3_mean_of_survivors_witness :
  exists o m p,
    Run.runPersonalized Example.toy Example.modest4 2
      [[]; []; [0%nat]; []; []; []] = Ok o /\
    Run.masked o = Finite m /\ Run.plain o = Finite p /\
    Server.clientIDsU3 (Run.finalServer o)
    = Some (Expected.survivorIDs Example.modest4 [0%nat]) /\
    Server.agg (Run.finalServer o)
    = Some (toInt32
              (toInt32 (Expected.droppedView Example.toy Example.modest4
                          [0%nat]
                        + Expected.partialSum Example.toy Example.modest4
                            [0%nat])
               - Expected.selfMaskView Example.toy Example.modest4 [0%nat])) /\
    Server.agg (Run.finalServer o)
    = Some (sumZ (Expected.fixedPoint
                    <$> Expected.survivors Example.modest4 [0%nat])) /\
    Forall (fun x =>
        (Qabs (inject_Z (Expected.fixedPoint x) - Run.inSecret x * 10000)
         <= 3 # 2)%Q)
      (Expected.survivors Example.modest4 [0%nat]) /\
    Finite m
    = numDiv
        (numDiv
           (Finite (inject_Z (sumZ (Expected.fixedPoint
                                      <$> Expected.survivors Example.modest4
                                            [0%nat]))))
           10000)
        (inject_Z (Z.of_nat (length (Expected.survivors Example.modest4
                                       [0%nat])))) /\
    (Qabs (m - exactMean (Expected.survivors Example.modest4 [0%nat]))
     <= 2 # 10000)%Q /\
    (Qabs (m - p) <= 2 # 10000)%Q.
Proof.
  apply (round3_mean_of_survivors Example.toy Example.modest4 2 [0%nat]).
  - by_decision.
  - by_decision.
  - by_decision.
  - by_decision.
  - exact toy_bits.
  - unfold symmetricBits. by_decision.
  - unfold symmetricKeys. by_decision.
  - apply toy_numbered; by_decision.
  - apply toy_shamir.
  - unfold keysRecoverable. by_decision.
  - unfold seedsRecoverable. by_decision.
  - repeat constructor; vm_compute; reflexivity.
  - discriminate.
Defined.

(** ** Pairwise cancellation *)

Lemma symmetricBits_forall (P : Primitives) (inputs : list (Tape * PID * Q)) :
  symmetricBits P inputs ->
  forall x y, x ∈ inputs -> y ∈ inputs ->
    deriveBits P (Expected.seedPriv x) (Expected.seedPub y)
    = deriveBits P (Expected.seedPriv y) (Expected.seedPub x).
Proof.
  intros Hsb x y Hx Hy.
  exact (Forall2_lookup_in
           (fun x y =>
              deriveBits P (Expected.seedPriv x) (Expected.seedPub y)
              = deriveBits P (Expected.seedPriv y) (Expected.seedPub x))
           inputs x y Hsb Hx Hy).
Qed.

(** C3. In a run in which [split] returns its [N] shares and the
    clients at the positions [dropped] are put down between round 1 and
    round 2, rounds 0 to 2 return and the members of U3 are the survivors;
    each survivor [x] sends the Int32 of the sum, over its peers [y] (each
    once), of the first value [mask x y] of the generator of the pair,
    added when the id of [x] is the larger and subtracted when it is the
    smaller, plus its fixed-point secret and its self mask; when the two
    ends of every pair derive the same bits, the two ends draw the same
    value, so a pair of survivors enters the sum [S] of the server once
    with each sign, and [S] is, modulo [2^32], what is left without the
    pairs of survivors: the masks shared with the dead, the secrets and
    the self masks. *)
Theorem pairwise_masks_cancel_in_the_sum (P : Primitives)
    (inputs : list (Tape * PID * Q)) (threshold : Z) (dropped : list nat) :
  NoDup (Expected.ids inputs) ->
  Forall (fun d => (d < length inputs)%nat) dropped ->
  threshold <= Z.of_nat (length (Expected.survivors inputs dropped)) ->
  bitsLongEnough P -> symmetricBits P inputs ->
  sharesNumbered P (length inputs) threshold ->
  secretsInRange inputs dropped ->
  exists s w,
    (sw ← Run.round0 (length inputs) (Run.generation inputs threshold);
     sw ← Run.round1 P (length inputs) [] [] sw;
     Run.round2 P (length inputs) dropped [] sw) = Ok (s, w) /\
    Server.clientIDsU3 s = Some (Expected.survivorIDs inputs dropped) /\
    (forall i x, inputs !! i = Some x ->
       x ∈ Expected.survivors inputs dropped ->
       NoDup (Expected.peerIDs inputs x) /\
       exists c,
         clientObjs w !! i = Some c /\
         Client.maskedGradient c
         = Some (toInt32
                   (sumZ (Expected.pairTerm P x <$> Expected.peers inputs x)
                    + Expected.fixedPoint x + Expected.selfMask P x))) /\
    (forall x y,
       x ∈ Expected.survivors inputs dropped ->
       y ∈ Expected.survivors inputs dropped ->
       String.ltb (Run.inId y) (Run.inId x) = true ->
       y ∈ Expected.peers inputs x /\ x ∈ Expected.peers inputs y /\
       Expected.mask P x y = Expected.mask P y x /\
       Expected.pairTerm P x y = Expected.mask P x y /\
       Expected.pairTerm P y x = - Expected.mask P x y) /\
    Server.agg s
    = Some (toInt32
              (sumZ (Expected.maskedValue P inputs
                       <$> Expected.survivors inputs dropped))) /\
    Server.agg s
    = Some (toInt32
              (sumZ ((fun x =>
                        sumZ (Expected.pairTerm P x
                                <$> Expected.casualties inputs dropped)
                        + Expected.fixedPoint x + Expected.selfMask P x)
                       <$> Expected.survivors inputs dropped))).
Proof.
  intros Hids Hdr Hsurv Hbits Hsb Hnum Hsec.
  pose proof (symmetricBits_forall P inputs Hsb) as Hsym.
  exists (Expected.server2 P inputs threshold dropped),
    (mkWorld (imap (Expected.client2b P inputs threshold dropped) inputs)
       (Expected.heap2 P inputs threshold dropped)).
  split_and!.
  - apply run_until_round2; try done.
    + pose proof (length_survivors inputs dropped). lia.
    + by apply Forall_forall.
    + intros x Hx Hlive. unfold secretsInRange in Hsec.
      rewrite Forall_forall in Hsec. apply Hsec.
      by apply elem_of_survivors.
  - reflexivity.
  - intros i x Hi [Hx Hlive]%elem_of_survivors.
    split; [by apply NoDup_peerIDs|].
    exists (Expected.client2b P inputs threshold dropped i x). split.
    + simpl. by rewrite list_lookup_imap, Hi.
    + rewrite client2b_alive by done.
      destruct (client2_fields P inputs threshold dropped i x)
        as (_ & _ & _ & _ & _ & _ & Hm).
      exact (Hm Hlive).
  - intros x y [Hx _]%elem_of_survivors [Hy _]%elem_of_survivors Hlt.
    assert (Run.inId y <> Run.inId x) as Hne.
    { intros Heq. rewrite Heq, ltb_irrefl in Hlt. done. }
    split_and!.
    + by apply elem_of_peers.
    + apply elem_of_peers. split; [done|congruence].
    + by apply (mask_sym P inputs Hsym).
    + by apply (pairTerm_signs P inputs Hsym).
    + by apply (pairTerm_signs P inputs Hsym).
  - reflexivity.
  - change (Server.agg (Expected.server2 P inputs threshold dropped))
      with (Some (Expected.partialSum P inputs dropped)).
    f_equal. by apply partialSum_without_pairs.
Qed.

Lemma pairwise_masks_cancel_in_the_sum_witness :
  exists s w,
    (sw ← Run.round0 (length Example.inputs4)
            (Run.generation Example.inputs4 2);
     sw ← Run.round1 Example.toy (length Example.inputs4) [] [] sw;
     Run.round2 Example.toy (length Example.inputs4) [0%nat] [] sw)
    = Ok (s, w) /\
    Server.clientIDsU3 s = Some (Expected.survivorIDs Example.inputs4 [0%nat])
    /\
    (forall i x, Example.inputs4 !! i = Some x ->
       x ∈ Expected.survivors Example.inputs4 [0%nat] ->
       NoDup (Expected.peerIDs Example.inputs4 x) /\
       exists c,
         clientObjs w !! i = Some c /\
         Client.maskedGradient c
         = Some (toInt32
                   (sumZ (Expected.pairTerm Example.toy x
                            <$> Expected.peers Example.inputs4 x)
                    + Expected.fixedPoint x
                    + Expected.selfMask Example.toy x))) /\
    (forall x y,
       x ∈ Expected.survivors Example.inputs4 [0%nat] ->
       y ∈ Expected.survivors Example.inputs4 [0%nat] ->
       String.ltb (Run.inId y) (Run.inId x) = true ->
       y ∈ Expected.peers Example.inputs4 x /\
       x ∈ Expected.peers Example.inputs4 y /\
       Expected.mask Example.toy x y = Expected.mask Example.toy y x /\
       Expected.pairTerm Example.toy x y = Expected.mask Example.toy x y /\
       Expected.pairTerm Example.toy y x = - Expected.mask Example.toy x y) /\
    Server.agg s
    = Some (toInt32
              (sumZ (Expected.maskedValue Example.toy Example.inputs4
                       <$> Expected.survivors Example.inputs4 [0%nat]))) /\
    Server.agg s
    = Some (toInt32
              (sumZ ((fun x =>
                        sumZ (Expected.pairTerm Example.toy x
                                <$> Expected.casualties Example.inputs4
                                      [0%nat])
                        + Expected.fixedPoint x
                        + Expected.selfMask Example.toy x)
                       <$> Expected.survivors Example.inputs4 [0%nat]))).
Proof.
  apply (pairwise_masks_cancel_in_the_sum Example.toy Example.inputs4 2
           [0%nat]).
  - by_decision.
  - by_decision.
  - vm_compute. discriminate.
  - exact toy_bits.
  - unfold symmetricBits. by_decision.
  - apply toy_numbered; by_decision.
  - unfold secretsInRange. by_decision.
Defined.

(** ** The indices of the shares *)

(** C7 (amended). Where [split] returns its [N] shares, the clients'
    round 1 returns, and after it the list of a client holds the other
    clients in the order of the server's broadcast, the client itself
    left out; the ciphertext for the [k]-th client of this list (counted
    from 1) seals the shares number [k] of the seed key and of the self
    mask seed, with the index [k]; the client keeps for itself the shares
    of index [N], the number of its peers plus one, whatever its own
    place in the broadcast is. *)
Theorem shares_follow_the_own_peer_list (P : Primitives)
    (inputs : list (Tape * PID * Q)) (threshold : Z) :
  NoDup (Expected.ids inputs) -> bitsLongEnough P ->
  sharesNumbered P (length inputs) threshold ->
  exists w,
    (sw ← Run.round0 (length inputs) (Run.generation inputs threshold);
     Run.forEachClient (Client.round1 P) (length inputs) (snd sw)) = Ok w /\
    forall i x, inputs !! i = Some x ->
      exists c keyShares seedShares cts,
        clientObjs w !! i = Some c /\
        akeys (Client.objAt (heap w) (Client.clientList c))
        = Run.inId <$> filter (fun y => Run.inId y <> Run.inId x) inputs /\
        Client.secretKeyShamir c = Some keyShares /\
        Client.selfMaskSeedShamir c = Some seedShares /\
        Client.ciphertexts c = Some cts /\
        (forall k y,
           filter (fun y => Run.inId y <> Run.inId x) inputs !! k = Some y ->
           exists ct,
             aget (Run.inId x, Run.inId y) cts = Some ct /\
             AESGCMDecrypt (Expected.pairKey P x y) (ciphertext ct) (iv ct)
             = Some (mkPlaintext (Run.inId x) (Run.inId y)
                       (shareAt keyShares (S k)) (shareAt seedShares (S k))
                       (S k))) /\
        Client.ownIndex c = Some (length inputs) /\
        Client.ownPrivateKeyShare c = shareAt keyShares (length inputs) /\
        Client.ownSelfMaskSeedShare c = shareAt seedShares (length inputs).
Proof.
  intros Hids Hbits Hnum.
  exists (mkWorld (imap (Expected.client1 P inputs threshold) inputs)
            (Expected.heap1 P inputs)).
  split; [by apply run_until_clients_round1|].
  intros i x Hi.
  assert (x ∈ inputs) as Hx by (eapply list_elem_of_lookup_2; exact Hi).
  destruct (client1_fields P inputs threshold i x)
    as (Hcl & Hcts & Hidx & Hks & Hss & Hok & Hos).
  pose proof (length_peers inputs Hids x Hx) as Hlen.
  unfold Expected.ownIdx in *. rewrite Hlen in *.
  exists (Expected.client1 P inputs threshold i x),
    (Expected.keyShares P inputs threshold x),
    (Expected.seedShares P inputs threshold x),
    (Expected.sent P inputs threshold x).
  split_and!; try done.
  - simpl. by rewrite list_lookup_imap, Hi.
  - rewrite Hcl. simpl heap.
    rewrite (objAt_Some _ _ _ (heap1_lookup P inputs i x Hi)).
    apply akeys_peerMap.
  - intros k y Hk. exists (Expected.message P inputs threshold x k y).
    split; [by apply aget_sent|].
    unfold Expected.message, AESGCMEncrypt, AESGCMDecrypt. simpl.
    by rewrite decide_True.
Qed.

Lemma shares_follow_the_own_peer_list_witness :
  exists w,
    (sw ← Run.round0 (length Example.inputs3)
            (Run.generation Example.inputs3 2);
     Run.forEachClient (Client.round1 Example.toy) (length Example.inputs3)
       (snd sw)) = Ok w /\
    forall i x, Example.inputs3 !! i = Some x ->
      exists c keyShares seedShares cts,
        clientObjs w !! i = Some c /\
        akeys (Client.objAt (heap w) (Client.clientList c))
        = Run.inId
            <$> filter (fun y => Run.inId y <> Run.inId x) Example.inputs3 /\
        Client.secretKeyShamir c = Some keyShares /\
        Client.selfMaskSeedShamir c = Some seedShares /\
        Client.ciphertexts c = Some cts /\
        (forall k y,
           filter (fun y => Run.inId y <> Run.inId x) Example.inputs3 !! k
           = Some y ->
           exists ct,
             aget (Run.inId x, Run.inId y) cts = Some ct /\
             AESGCMDecrypt (Expected.pairKey Example.toy x y) (ciphertext ct)
               (iv ct)
             = Some (mkPlaintext (Run.inId x) (Run.inId y)
                       (shareAt keyShares (S k)) (shareAt seedShares (S k))
                       (S k))) /\
        Client.ownIndex c = Some (length Example.inputs3) /\
        Client.ownPrivateKeyShare c
        = shareAt keyShares (length Example.inputs3) /\
        Client.ownSelfMaskSeedShare c
        = shareAt seedShares (length Example.inputs3).
Proof.
  apply (shares_follow_the_own_peer_list Example.toy Example.inputs3 2).
  - by_decision.
  - exact toy_bits.
  - apply toy_numbered; by_decision.
Defined.

(** C7, as stated, fails for every fixed ordering of the clients: of
    three clients, the first and the second of the broadcast both keep the
    index [3] for themselves, and the share of index [1] goes to the
    second client from the first and to the first client from the
    third. *)
Lemma share_indices_are_not_ranks :
  exists w c0 c1 c2 ct01 ct20,
    (sw ← Run.round0 3 (Run.generation Example.inputs3 2);
     Run.forEachClient (Client.round1 Example.toy) 3 (snd sw)) = Ok w /\
    clientObjs w = [c0; c1; c2] /\
    Client.id c0 = "c-aaa"%string /\ Client.id c1 = "a-bbb"%string /\
    Client.id c2 = "d-ccc"%string /\
    Client.ownIndex c0 = Some 3%nat /\ Client.ownIndex c1 = Some 3%nat /\
    aget ("c-aaa"%string, "a-bbb"%string)
      (default [] (Client.ciphertexts c0)) = Some ct01 /\
    pt_index (sealed_msg (ciphertext ct01)) = 1%nat /\
    aget ("d-ccc"%string, "c-aaa"%string)
      (default [] (Client.ciphertexts c2)) = Some ct20 /\
    pt_index (sealed_msg (ciphertext ct20)) = 1%nat.
Proof.
  pose (w := Example.returned Example.noWorld
               (sw ← Run.round0 3 (Run.generation Example.inputs3 2);
                Run.forEachClient (Client.round1 Example.toy) 3 (snd sw))).
  pose (c := fun i => default Example.noClient (clientObjs w !! i)).
  pose (ct := fun i k =>
    default (AESGCMEncrypt (AESK 0) 0
               (mkPlaintext ""%string ""%string None None 0))
      (aget k (default [] (Client.ciphertexts (c i))))).
  exists w, (c 0%nat), (c 1%nat), (c 2%nat),
    (ct 0%nat ("c-aaa"%string, "a-bbb"%string)),
    (ct 2%nat ("d-ccc"%string, "c-aaa"%string)).
  repeat apply conj; by_evaluation.
Qed.

(** ** The accumulators *)













(** ** Further properties of the rounds *)

(** X1. For secrets in the range in which [secretValueRounded] follows
    the conversions ([|s| < 10^21], a product below [2^52] in magnitude),
    also when the sum of the integers that the survivors mask leaves the
    Int32 range, a run with dropouts between round 1 and round 2 returns
    that sum reduced into the Int32 range, divided by [10^4] and by the
    number of survivors; the aggregate itself is this reduced sum. *)
Theorem round3_returns_the_wrapped_mean (P : Primitives)
    (inputs : list (Tape * PID * Q)) (threshold : Z) (dropped : list nat) :
  NoDup (Expected.ids inputs) ->
  Forall (fun d => (d < length inputs)%nat) dropped ->
  threshold <= Z.of_nat (length (Expected.survivors inputs dropped)) ->
  bitsLongEnough P -> symmetricBits P inputs -> symmetricKeys P inputs ->
  sharesNumbered P (length inputs) threshold ->
  shamirRecovers P (length inputs) threshold ->
  keysRecoverable P inputs dropped -> seedsRecoverable P inputs dropped ->
  secretsInRange inputs dropped ->
  exists o,
    Run.runPersonalized P inputs threshold [[]; []; dropped; []; []; []]
    = Ok o /\
    Server.agg (Run.finalServer o)
    = Some (toInt32 (sumZ (Expected.fixedPoint
                             <$> Expected.survivors inputs dropped))) /\
    Run.masked o
    = numDiv
        (numDiv
           (Finite (inject_Z
                      (toInt32 (sumZ (Expected.fixedPoint
                                        <$> Expected.survivors inputs
                                              dropped)))))
           10000)
        (inject_Z (Z.of_nat (length (Expected.survivors inputs dropped)))).
Proof.
  intros Hids Hdr Hsurv Hbits Hsb Hsk Hnum Hsh Hkeys Hseeds Hsec.
  eexists. split; [by apply run_outcome|]. simpl. split; [|reflexivity].
  change (Server.agg (Expected.server3 P inputs threshold dropped))
    with (Some (toInt32
                  (toInt32 (Expected.droppedView P inputs dropped
                            + Expected.partialSum P inputs dropped)
                   - Expected.selfMaskView P inputs dropped))).
  f_equal. apply aggregate_is_fixedPointSum.
  by apply symmetricBits_forall.
Qed.

Lemma round3_returns_the_wrapped_mean_witness :
  exists o,
    Run.runPersonalized Example.toy Example.large3 2
      [[]; []; [2%nat]; []; []; []] = Ok o /\
    Server.agg (Run.finalServer o)
    = Some (toInt32 (sumZ (Expected.fixedPoint
                             <$> Expected.survivors Example.large3
                                   [2%nat]))) /\
    Run.masked o
    = numDiv
        (numDiv
           (Finite (inject_Z
                      (toInt32 (sumZ (Expected.fixedPoint
                                        <$> Expected.survivors Example.large3
                                              [2%nat])))))
           10000)
        (inject_Z (Z.of_nat (length (Expected.survivors Example.large3
                                       [2%nat])))).
Proof.
  apply (round3_returns_the_wrapped_mean Example.toy Example.large3 2
           [2%nat]).
  - by_decision.
  - by_decision.
  - vm_compute. discriminate.
  - exact toy_bits.
  - unfold symmetricBits. by_decision.
  - unfold symmetricKeys. by_decision.
  - apply toy_numbered; by_decision.
  - apply toy_shamir.
  - unfold keysRecoverable. by_decision.
  - unfold seedsRecoverable. by_decision.
  - unfold secretsInRange. by_decision.
Defined.

(** X2. Round 0 builds one list object, which holds the clients in the
    order of the array, each with its id, its two public keys and a
    reference to its object, and hands this very object to every client:
    after round 0 the [clientList] of each client is the reference that
    the server holds. *)
Theorem round0_hands_every_client_the_servers_list
    (inputs : list (Tape * PID * Q)) (threshold : Z) :
  NoDup (Expected.ids inputs) ->
  exists s w l o,
    Run.round0 (length inputs) (Run.generation inputs threshold) = Ok (s, w) /\
    Server.clientList s = Some l /\ heap w = [o] /\ heap w !! l = Some o /\
    akeys o = Run.inId <$> inputs /\
    forall i x, inputs !! i = Some x ->
      aget (Run.inId x) o
      = Some (ClientForServer i (Run.inId x) (Some (Expected.seedPub x))
                (Some (Expected.encPub x))) /\
      exists c,
        clientObjs w !! i = Some c /\
        Client.clientList c = Server.clientList s /\
        Client.id c = Run.inId x /\ Client.isUp c = true /\
        Client.seedPrivateKey c = Some (Expected.seedPriv x) /\
        Client.seedPublicKey c = Some (Expected.seedPub x) /\
        Client.encryptionPrivateKey c = Some (Expected.encPriv x) /\
        Client.encryptionPublicKey c = Some (Expected.encPub x).
Proof.
  intros Hids.
  exists (Expected.serverA inputs threshold),
    (mkWorld (Expected.clientA inputs threshold <$> inputs)
       [Expected.serverMap inputs]),
    0%nat, (Expected.serverMap inputs).
  split_and!; [by apply run_round0|done|done|done|apply akeys_serverMap|].
  intros i x Hi. split; [by apply aget_serverMap|].
  exists (Expected.clientA inputs threshold x).
  split; [simpl; by rewrite list_lookup_fmap, Hi|].
  repeat apply conj; reflexivity.
Qed.

Lemma round0_hands_every_client_the_servers_list_witness :
  exists s w l o,
    Run.round0 (length Example.inputs4) (Run.generation Example.inputs4 2)
    = Ok (s, w) /\
    Server.clientList s = Some l /\ heap w = [o] /\ heap w !! l = Some o /\
    akeys o = Run.inId <$> Example.inputs4 /\
    forall i x, Example.inputs4 !! i = Some x ->
      aget (Run.inId x) o
      = Some (ClientForServer i (Run.inId x) (Some (Expected.seedPub x))
                (Some (Expected.encPub x))) /\
      exists c,
        clientObjs w !! i = Some c /\
        Client.clientList c = Server.clientList s /\
        Client.id c = Run.inId x /\ Client.isUp c = true /\
        Client.seedPrivateKey c = Some (Expected.seedPriv x) /\
        Client.seedPublicKey c = Some (Expected.seedPub x) /\
        Client.encryptionPrivateKey c = Some (Expected.encPriv x) /\
        Client.encryptionPublicKey c = Some (Expected.encPub x).
Proof.
  apply (round0_hands_every_client_the_servers_list Example.inputs4 2).
  by_decision.
Defined.

Lemma getInt16_range (buffer : list Z) (off : nat) (z : Z) :
  getInt16 buffer off = Some z -> - 2 ^ 15 <= z < 2 ^ 15.
Proof.
  unfold getInt16. destruct (buffer !! off) as [hi|]; [|done].
  destruct (buffer !! S off) as [lo|]; [|done]. intros [= <-].
  pose proof (Z.mod_pos_bound hi 256 eq_refl).
  pose proof (Z.mod_pos_bound lo 256 eq_refl).
  destruct (Z.ltb_spec (hi mod 256 * 256 + lo mod 256) (2 ^ 15)); lia.
Qed.

(** X3. The entry that a client makes for a peer in
    [computePairwiseEncryption] carries as seed a signed 16-bit integer,
    read from the second and third bytes of the derived bits, and a
    generator made from this seed from which nothing was drawn yet; it
    carries no ciphertext, no [isUp] and no reference to a client. *)
Theorem pairwise_seed_is_sixteen_bits (P : Primitives) (c : Client.state)
    (o : Obj) (peer : PID) (e : Peer.t) :
  Client.pairwiseEntry P c o peer = Ok e ->
  exists priv pub z,
    Client.seedPrivateKey c = Some priv /\
    (Peer.seedPublicKey <$> aget peer o) = Some (Some pub) /\
    getInt16 (deriveBits P priv pub) 1 = Some z /\
    - 2 ^ 15 <= z < 2 ^ 15 /\
    Peer.id e = peer /\ Peer.seed e = Some z /\
    Peer.PRNG e = Some (mkPRNG (Some z) 0) /\
    Peer.seedPublicKey e = Some pub /\
    Peer.ciphertext_ e = None /\ Peer.isUp e = None /\ Peer.client e = None.
Proof.
  unfold Client.pairwiseEntry. intros Hrun.
  destruct (aget peer o) as [e0|]; [|done]. simpl in Hrun.
  destruct (Client.seedPrivateKey c) as [priv|]; [|done]. simpl in Hrun.
  destruct (Peer.seedPublicKey e0) as [pub|] eqn:Hpub; [|done].
  simpl in Hrun.
  destruct (getInt16 (deriveBits P priv pub) 1) as [z|] eqn:Hz; [|done].
  simpl in Hrun.
  destruct (Client.encryptionPrivateKey c) as [epriv|]; [|done].
  simpl in Hrun.
  destruct (Peer.encryptionPublicKey e0) as [epub|]; [|done].
  simpl in Hrun. injection Hrun as <-.
  exists priv, pub, z. simpl. rewrite Hpub.
  split_and!; try done; by apply (getInt16_range _ _ _ Hz).
Qed.

Lemma pairwise_seed_is_sixteen_bits_witness :
  exists priv pub z,
    Client.seedPrivateKey
      (Example.clientAt (Example.afterRound0 Example.inputs2 2) 0)
    = Some priv /\
    (Peer.seedPublicKey
       <$> aget "a-bbb"%string
             (Client.objAt (heap (snd (Example.afterRound0 Example.inputs2 2)))
                (Some 0%nat)))
    = Some (Some pub) /\
    getInt16 (deriveBits Example.toy priv pub) 1 = Some z /\
    - 2 ^ 15 <= z < 2 ^ 15 /\
    Peer.id Example.samplePairwiseEntry = "a-bbb"%string /\
    Peer.seed Example.samplePairwiseEntry = Some z /\
    Peer.PRNG Example.samplePairwiseEntry = Some (mkPRNG (Some z) 0) /\
    Peer.seedPublicKey Example.samplePairwiseEntry = Some pub /\
    Peer.ciphertext_ Example.samplePairwiseEntry = None /\
    Peer.isUp Example.samplePairwiseEntry = None /\
    Peer.client Example.samplePairwiseEntry = None.
Proof.
  apply (pairwise_seed_is_sixteen_bits Example.toy
           (Example.clientAt (Example.afterRound0 Example.inputs2 2) 0)
           (Client.objAt (heap (snd (Example.afterRound0 Example.inputs2 2)))
              (Some 0%nat))
           "a-bbb"%string Example.samplePairwiseEntry).
  vm_compute. reflexivity.
Defined.

(** X4. Where [split] returns its [N] shares, the clients' round 1
    returns, and after it [collectCiphertexts] sorts the ciphertexts by
    recipient: the buffer has one row for every client, in
    the order of the list, and the row of [x] holds, for every other
    client [y], under the key [y|x], the ciphertext that [y] made for
    [x], which opens under the key of the pair to a text from [y] to
    [x]; it holds nothing else. *)
Theorem collectCiphertexts_sorts_by_recipient (P : Primitives)
    (inputs : list (Tape * PID * Q)) (threshold : Z) :
  NoDup (Expected.ids inputs) -> bitsLongEnough P ->
  sharesNumbered P (length inputs) threshold ->
  exists s0 w s1 buf,
    (sw ← Run.round0 (length inputs) (Run.generation inputs threshold);
     w ← Run.forEachClient (Client.round1 P) (length inputs) (snd sw);
     Ok (fst sw, w)) = Ok (s0, w) /\
    ('(s, w1) ← Server.computeU2 s0 w; Server.collectCiphertexts s w1)
    = Ok s1 /\
    Server.clientCiphertextBuffer s1 = Some buf /\
    akeys buf = Run.inId <$> inputs /\
    forall x, x ∈ inputs ->
      exists row,
        aget (Run.inId x) buf = Some row /\
        akeys row
        = (fun y => (Run.inId y, Run.inId x))
            <$> filter (fun y => Run.inId y <> Run.inId x) inputs /\
        forall y, y ∈ inputs -> Run.inId y <> Run.inId x ->
          exists ct text,
            aget (Run.inId y, Run.inId x) row = Some (Some ct) /\
            AESGCMDecrypt (Expected.pairKey P y x) (ciphertext ct) (iv ct)
            = Some text /\
            pt_u text = Run.inId y /\ pt_v text = Run.inId x.
Proof.
  intros Hids Hbits Hnum.
  exists (Expected.serverA inputs threshold),
    (mkWorld (imap (Expected.client1 P inputs threshold) inputs)
       (Expected.heap1 P inputs)),
    (Expected.server1 P inputs threshold),
    (Expected.buffer P inputs threshold).
  split_and!.
  - rewrite run_round0 by done. rewrite bind_Ok. simpl fst. simpl snd.
    by rewrite clients_round1.
  - unfold Expected.heap1.
    rewrite (computeU2_spec inputs threshold Hids
               (Expected.client1 P inputs threshold)) by done.
    rewrite bind_Ok. by apply collectCiphertexts_spec.
  - reflexivity.
  - apply akeys_buffer.
  - intros x Hx. exists (Expected.bundle P inputs threshold x).
    split_and!; [by apply aget_buffer|apply akeys_bundle|].
    intros y Hy Hne.
    assert (y ∈ Expected.peers inputs x) as Hp by (by apply elem_of_peers).
    assert (x ∈ Expected.peers inputs y) as Hp'.
    { apply elem_of_peers. split; [done|congruence]. }
    exists (Expected.message P inputs threshold y
              (Expected.rank inputs x y) x).
    eexists. split_and!.
    + unfold Expected.bundle.
      rewrite (aget_fmap_NoDup (fun y => (Run.inId y, Run.inId x))
                 (Expected.received P inputs threshold x)
                 (Expected.peers inputs x) y); [|..|done].
      * f_equal. by apply received_message.
      * rewrite (list_fmap_compose Run.inId (fun a => (a, Run.inId x))).
        by apply NoDup_fmap_pair_r, NoDup_peerIDs.
    + unfold Expected.message, AESGCMEncrypt, AESGCMDecrypt. simpl.
      by rewrite decide_True.
    + done.
    + done.
Qed.

Lemma collectCiphertexts_sorts_by_recipient_witness :
  exists s0 w s1 buf,
    (sw ← Run.round0 (length Example.inputs3)
            (Run.generation Example.inputs3 2);
     w ← Run.forEachClient (Client.round1 Example.toy)
           (length Example.inputs3) (snd sw);
     Ok (fst sw, w)) = Ok (s0, w) /\
    ('(s, w1) ← Server.computeU2 s0 w; Server.collectCiphertexts s w1)
    = Ok s1 /\
    Server.clientCiphertextBuffer s1 = Some buf /\
    akeys buf = Run.inId <$> Example.inputs3 /\
    forall x, x ∈ Example.inputs3 ->
      exists row,
        aget (Run.inId x) buf = Some row /\
        akeys row
        = (fun y => (Run.inId y, Run.inId x))
            <$> filter (fun y => Run.inId y <> Run.inId x) Example.inputs3 /\
        forall y, y ∈ Example.inputs3 -> Run.inId y <> Run.inId x ->
          exists ct text,
            aget (Run.inId y, Run.inId x) row = Some (Some ct) /\
            AESGCMDecrypt (Expected.pairKey Example.toy y x) (ciphertext ct)
              (iv ct)
            = Some text /\
            pt_u text = Run.inId y /\ pt_v text = Run.inId x.
Proof.
  apply (collectCiphertexts_sorts_by_recipient Example.toy Example.inputs3 2).
  - by_decision.
  - exact toy_bits.
  - apply toy_numbered; by_decision.
Defined.

Lemma storeCiphertext_count (c : Client.state)
    (b : list (PID * PID * option CipherMsg)) (h h1 : Heap) (n n1 : Z) :
  foldM (Client.storeCiphertext c) b (h, n) = Ok (h1, n1) ->
  n1 = n + Z.of_nat (length b).
Proof.
  revert h n. induction b as [|[[u v] ct] b IH]; intros h n Hrun.
  - simpl in Hrun. injection Hrun as _ <-. simpl. lia.
  - rewrite foldM_cons in Hrun.
    destruct (Client.storeCiphertext c (u, v, ct) (h, n)) as [[h2 n2]|]
      eqn:Hstep; [|done].
    rewrite bind_Ok in Hrun. apply IH in Hrun.
    unfold Client.storeCiphertext in Hstep. simpl in Hstep.
    destruct (Client.clientList c) as [l|]; [|done]. simpl in Hstep.
    destruct (h !! l) as [o|]; [|done]. simpl in Hstep.
    destruct (aget u o) as [e|]; [|done]. simpl in Hstep.
    injection Hstep as _ <-. simpl length. lia.
Qed.

(** X5. [receiveCiphertexts] returns only when it was handed at least
    [threshold - 1] ciphertexts, whomever they come from: the client
    counts itself towards the threshold, and counts the entries of the
    message, not the peers that it knows. *)
Theorem receiveCiphertexts_counts_the_entries (c c' : Client.state)
    (h h' : Heap) (b : list (PID * PID * option CipherMsg)) :
  Client.receiveCiphertexts b c h = Ok (c', h') ->
  Client.threshold c - 1 <= Z.of_nat (length b) /\
  Client.clientListU2 c' = Client.clientList c /\
  Client.clientList c' = Client.clientList c /\
  length h' = length h.
Proof.
  unfold Client.receiveCiphertexts. intros Hrun.
  destruct (foldM (Client.storeCiphertext c) b (h, 0)) as [[h1 n1]|]
    eqn:Hstore; [|done].
  rewrite bind_Ok in Hrun. cbv beta iota zeta in Hrun.
  set (c1 := Client.set_clientListU2 (Client.clientList c) c) in *.
  destruct (foldM (Client.deleteWithoutCiphertext c1) _ h1) as [h2|]
    eqn:Hdel; [|done].
  rewrite bind_Ok in Hrun.
  apply storeCiphertext_count in Hstore as Hn. rewrite Hn in Hrun.
  change (Client.threshold c1) with (Client.threshold c) in Hrun.
  destruct (Z.ltb_spec (0 + Z.of_nat (length b)) (Client.threshold c - 1));
    [done|].
  injection Hrun as <- <-. split_and!; [lia|done|done|].
  transitivity (length h1).
  - apply (foldM_invariant (fun h0 => length h0 = length h1)
             (Client.deleteWithoutCiphertext c1)
             (akeys (Client.objAt h1 (Client.clientList c))) h1 h2);
      [|done|done].
    intros k h3 h4 Hlen Hstep. unfold Client.deleteWithoutCiphertext in Hstep.
    destruct (aget k _) as [e|]; [|done]. simpl in Hstep.
    repeat case_match; simplify_eq; rewrite ?length_insert; done.
  - apply (foldM_invariant (fun st => length (fst st) = length h)
             (Client.storeCiphertext c) b (h, 0) (h1, n1)); [|done|done].
    intros [[u v] ct] [h3 n3] [h4 n4] Hlen Hstep.
    unfold Client.storeCiphertext in Hstep. simpl in Hstep.
    destruct (Client.clientList c) as [l|]; [|done]. simpl in Hstep.
    destruct (h3 !! l) as [o|]; [|done]. simpl in Hstep.
    destruct (aget u o) as [e|]; [|done]. simpl in Hstep.
    injection Hstep as <- _. simpl in *. by rewrite length_insert.
Qed.

Lemma receiveCiphertexts_counts_the_entries_witness :
  Client.threshold (Example.clientAt Example.pruneAfterU2 0) - 1
  <= Z.of_nat (length Example.pruneBundle) /\
  Client.clientListU2 (fst Example.pruneReceived)
  = Client.clientList (Example.clientAt Example.pruneAfterU2 0) /\
  Client.clientList (fst Example.pruneReceived)
  = Client.clientList (Example.clientAt Example.pruneAfterU2 0) /\
  length (snd Example.pruneReceived)
  = length (heap (snd Example.pruneAfterU2)).
Proof.
  apply (receiveCiphertexts_counts_the_entries
           (Example.clientAt Example.pruneAfterU2 0)
           (fst Example.pruneReceived)
           (heap (snd Example.pruneAfterU2))
           (snd Example.pruneReceived) Example.pruneBundle).
  vm_compute. reflexivity.
Defined.

(** X6. The threshold is enforced in round 2: where [split] returns its
    [N] shares, when the clients at the positions [dropped] are put down
    between round 1 and round 2 and fewer than [threshold] clients stay
    up, the run ends in the server's
    [computeU3] with BelowThresholdU3, which compares the length of an
    array and, unlike [computeU2], does fire. *)
Theorem round2_refuses_below_threshold (P : Primitives)
    (inputs : list (Tape * PID * Q)) (threshold : Z) (dropped : list nat) :
  NoDup (Expected.ids inputs) ->
  Forall (fun d => (d < length inputs)%nat) dropped ->
  threshold <= Z.of_nat (length inputs) ->
  Z.of_nat (length (Expected.survivors inputs dropped)) < threshold ->
  bitsLongEnough P -> sharesNumbered P (length inputs) threshold ->
  secretsInRange inputs dropped ->
  Run.runPersonalized P inputs threshold [[]; []; dropped; []; []; []]
  = Throw BelowThresholdU3.
Proof.
  intros Hids Hdr Ht Hfew Hbits Hnum Hsec.
  unfold Run.runPersonalized. cbv zeta.
  rewrite run_round0, bind_Ok by done.
  change (default [] ([[]; []; dropped; []; []; []] !! 0%nat))
    with (@nil nat).
  change (default [] ([[]; []; dropped; []; []; []] !! 1%nat))
    with (@nil nat).
  change (default [] ([[]; []; dropped; []; []; []] !! 2%nat)) with dropped.
  change (default [] ([[]; []; dropped; []; []; []] !! 3%nat))
    with (@nil nat).
  rewrite run_round1, bind_Ok by done.
  unfold Run.round2. simpl fst. simpl snd.
  rewrite clients_round2_dropping; [|done|by apply Forall_forall|].
  2: { intros x Hx Hlive. unfold secretsInRange in Hsec.
       rewrite Forall_forall in Hsec. apply Hsec.
       by apply elem_of_survivors. }
  rewrite bind_Ok. unfold Server.round2, Server.computeU3.
  change (Server.clientListU2 (Expected.server1 P inputs threshold))
    with (Some 0%nat).
  rewrite orThrow_Some, bind_Ok. cbv zeta. unfold Expected.heap2.
  set (s1 := Server.set_clientIDsU2 _ _).
  rewrite (upIDs_spec inputs dropped Hids s1
             (Expected.client2 P inputs threshold dropped) _ eq_refl)
    by (intros; apply client2_fields).
  rewrite bind_Ok.
  set (s2 := Server.set_clientU2NotInU3 _ _).
  change (Server.threshold s2) with threshold.
  unfold Expected.survivorIDs at 1. rewrite length_fmap.
  destruct (Z.ltb_spec (Z.of_nat (length (Expected.survivors inputs dropped)))
              threshold); [done|lia].
Qed.

Lemma round2_refuses_below_threshold_witness :
  Run.runPersonalized Example.toy Example.inputs3 2
    [[]; []; [0%nat; 1%nat]; []; []; []]
  = Throw BelowThresholdU3.
Proof.
  apply (round2_refuses_below_threshold Example.toy Example.inputs3 2
           [0%nat; 1%nat]).
  - by_decision.
  - by_decision.
  - vm_compute. discriminate.
  - vm_compute. reflexivity.
  - exact toy_bits.
  - apply toy_numbered; by_decision.
  - unfold secretsInRange. by_decision.
Defined.




(** ** What the server learns in round 3 *)

Lemma run_outcome_assumed (P : Primitives) (inputs : list (Tape * PID * Q))
    (threshold : Z) (dropped : list nat) :
  assumptions P inputs threshold dropped ->
  Run.runPersonalized P inputs threshold [[]; []; dropped; []; []; []]
  = Ok (Run.mkOutcome (Expected.wrappedMean inputs dropped)
          (Expected.plainMean inputs dropped)
          (Expected.server3 P inputs threshold dropped)
          (mkWorld (imap (Expected.client3 P inputs threshold dropped) inputs)
             (Expected.heap2 P inputs threshold dropped))).
Proof.
  intros (? & ? & ? & ? & ? & ? & ? & ? & ? & ? & ?). by apply run_outcome.
Qed.

(** The run of [runSimple]: four clients, threshold two, the first put
    down after round 1, with the toy libraries. *)
Lemma toy_assumptions : assumptions Example.toy Example.inputs4 2 [0%nat].
Proof.
  unfold assumptions, symmetricBits, symmetricKeys, keysRecoverable,
    seedsRecoverable, secretsInRange.
  split_and!; try by_decision.
  - exact toy_bits.
  - apply toy_numbered; by_decision.
  - apply toy_shamir.
Qed.

Lemma rank_unique (inputs : list (Tape * PID * Q)) (x y : Tape * PID * Q)
    (k : nat) :
  NoDup (Expected.ids inputs) ->
  Expected.peers inputs y !! k = Some x -> Expected.rank inputs x y = k.
Proof.
  intros Hids Hk.
  assert (x ∈ Expected.peers inputs y) as Hx
    by (eapply list_elem_of_lookup_2; exact Hk).
  eapply NoDup_lookup; [|by apply rank_lookup|exact Hk].
  apply (NoDup_fmap_1 Run.inId). by apply NoDup_peerIDs.
Qed.

(** X8. In round 3 a surviving client [x] discloses one share of every
    other client [y] and one of its own: for a peer that is not in U3 the
    share of its seed key, for a peer in U3 the share of its self mask
    seed, never both; the share is the one that [y] sealed for [x] in
    round 1, of the index of [x] in the list of [y]; of itself it
    discloses the share of its self mask seed with its own index [N]. A
    client that is down discloses nothing. *)
Theorem survivors_disclose_one_share_of_each_client (P : Primitives)
    (inputs : list (Tape * PID * Q)) (threshold : Z) (dropped : list nat) :
  assumptions P inputs threshold dropped ->
  exists o,
    Run.runPersonalized P inputs threshold [[]; []; dropped; []; []; []]
    = Ok o /\
    forall i x, inputs !! i = Some x ->
      exists c,
        clientObjs (Run.finalWorld o) !! i = Some c /\
        (Expected.dead inputs dropped x -> Client.splits c = None) /\
        (~ Expected.dead inputs dropped x ->
         exists l,
           Client.splits c = Some l /\
           akeys l = (Run.inId <$> Expected.peers inputs x) ++ [Run.inId x] /\
           aget (Run.inId x) l
           = Some (SeedSplit
                     (shareAt (Expected.seedShares P inputs threshold x)
                        (length inputs)) (length inputs)) /\
           forall y k, y ∈ inputs -> Expected.peers inputs y !! k = Some x ->
             aget (Run.inId y) l
             = Some (if decide (Expected.dead inputs dropped y)
                     then KeySplit
                            (shareAt (Expected.keyShares P inputs threshold y)
                               (S k)) (S k)
                     else SeedSplit
                            (shareAt (Expected.seedShares P inputs threshold y)
                               (S k)) (S k))).
Proof.
  intros Hrun. pose proof Hrun as (Hids & _).
  eexists. split; [by apply run_outcome_assumed|]. simpl.
  intros i x Hi.
  assert (x ∈ inputs) as Hx by (eapply list_elem_of_lookup_2; exact Hi).
  exists (Expected.client3 P inputs threshold dropped i x).
  split_and!.
  - by rewrite list_lookup_imap, Hi.
  - intros Hd. rewrite client3_dead, client2b_dead, client2_dead by done.
    reflexivity.
  - intros Hlive. exists (Expected.splitsOf P inputs threshold dropped x).
    split_and!.
    + rewrite client3_alive by done. reflexivity.
    + apply akeys_splitsOf.
    + pose proof (held_own P inputs threshold dropped x) as Hown.
      unfold Expected.held in Hown. rewrite Hown.
      unfold Expected.ownSplit, Expected.ownIdx.
      by rewrite (length_peers inputs Hids x Hx).
    + intros y k Hy Hk.
      assert (x ∈ Expected.peers inputs y) as Hp
        by (eapply list_elem_of_lookup_2; exact Hk).
      pose proof (proj1 (elem_of_peers inputs y x) Hp) as [_ Hne].
      assert (y ∈ Expected.peers inputs x) as Hp'.
      { apply elem_of_peers. split; [done|congruence]. }
      pose proof (held_peer P inputs threshold dropped Hids x y Hp') as Hh.
      unfold Expected.held in Hh. rewrite Hh.
      unfold Expected.splitOf. simpl.
      by rewrite (rank_unique inputs x y k Hids Hk).
Qed.

Lemma survivors_disclose_one_share_of_each_client_witness :
  exists o,
    Run.runPersonalized Example.toy Example.inputs4 2
      [[]; []; [0%nat]; []; []; []] = Ok o /\
    forall i x, Example.inputs4 !! i = Some x ->
      exists c,
        clientObjs (Run.finalWorld o) !! i = Some c /\
        (Expected.dead Example.inputs4 [0%nat] x -> Client.splits c = None) /\
        (~ Expected.dead Example.inputs4 [0%nat] x ->
         exists l,
           Client.splits c = Some l /\
           akeys l
           = (Run.inId <$> Expected.peers Example.inputs4 x) ++ [Run.inId x] /\
           aget (Run.inId x) l
           = Some (SeedSplit
                     (shareAt (Expected.seedShares Example.toy Example.inputs4
                                 2 x)
                        (length Example.inputs4)) (length Example.inputs4)) /\
           forall y k, y ∈ Example.inputs4 ->
             Expected.peers Example.inputs4 y !! k = Some x ->
             aget (Run.inId y) l
             = Some (if decide (Expected.dead Example.inputs4 [0%nat] y)
                     then KeySplit
                            (shareAt (Expected.keyShares Example.toy
                                        Example.inputs4 2 y)
                               (S k)) (S k)
                     else SeedSplit
                            (shareAt (Expected.seedShares Example.toy
                                        Example.inputs4 2 y)
                               (S k)) (S k))).
Proof.
  apply (survivors_disclose_one_share_of_each_client Example.toy
           Example.inputs4 2 [0%nat]).
  exact toy_assumptions.
Defined.

Lemma aget_keyRow (P : Primitives) (inputs : list (Tape * PID * Q))
    (threshold : Z) (dropped : list nat) (x d : Tape * PID * Q) :
  NoDup (Expected.ids inputs) ->
  x ∈ Expected.survivors inputs dropped ->
  d ∈ Expected.casualties inputs dropped ->
  aget (Run.inId d) (Expected.keyRow P inputs threshold dropped x)
  = Some (Some (KeySplit
                  (shareAt (Expected.keyShares P inputs threshold d)
                     (Expected.shareIdx inputs x d))
                  (Expected.shareIdx inputs x d))).
Proof.
  intros Hids [Hx Hlive]%elem_of_survivors Hd. unfold Expected.keyRow.
  rewrite (aget_fmap_NoDup Run.inId
             (Expected.held P inputs threshold dropped x)
             (Expected.casualties inputs dropped) d); [|..|done].
  - apply elem_of_casualties in Hd as [Hd Hdead]. f_equal.
    by apply held_key.
  - by apply NoDup_casualtyIDs.
Qed.

Lemma aget_seedRow (P : Primitives) (inputs : list (Tape * PID * Q))
    (threshold : Z) (dropped : list nat) (x y : Tape * PID * Q) :
  NoDup (Expected.ids inputs) ->
  x ∈ Expected.survivors inputs dropped ->
  y ∈ Expected.survivors inputs dropped ->
  aget (Run.inId y) (Expected.seedRow P inputs threshold dropped x)
  = Some (Some (SeedSplit
                  (shareAt (Expected.seedShares P inputs threshold y)
                     (Expected.shareIdx inputs x y))
                  (Expected.shareIdx inputs x y))).
Proof.
  intros Hids [Hx Hlive]%elem_of_survivors Hy. unfold Expected.seedRow.
  rewrite (aget_fmap_NoDup Run.inId
             (Expected.held P inputs threshold dropped x)
             (Expected.survivors inputs dropped) y); [|..|done].
  - apply elem_of_survivors in Hy as [Hy Hylive]. f_equal.
    by apply held_seed.
  - by apply NoDup_survivorIDs.
Qed.

(** X9. [collectResponses] files what the clients of U5 disclose by
    holder and by owner: the key stocker has a row for every survivor,
    which holds exactly the shares of the seed keys of the clients of
    U2 that are not in U3; the seed stocker has a row for every survivor,
    which holds exactly the shares of the self mask seeds of the clients of
    U3; the shares that a row holds have the index of its holder in the
    owner's list, [N] for the owner itself, all different for one owner. *)
Theorem collectResponses_files_by_holder_and_owner (P : Primitives)
    (inputs : list (Tape * PID * Q)) (threshold : Z) (dropped : list nat) :
  assumptions P inputs threshold dropped ->
  exists o ks ss,
    Run.runPersonalized P inputs threshold [[]; []; dropped; []; []; []]
    = Ok o /\
    Server.keyStocker (Run.finalServer o) = Some ks /\
    Server.seedStocker (Run.finalServer o) = Some ss /\
    akeys ks = Run.inId <$> Expected.survivors inputs dropped /\
    akeys ss = Run.inId <$> Expected.survivors inputs dropped /\
    forall x, x ∈ Expected.survivors inputs dropped ->
      exists krow srow,
        aget (Run.inId x) ks = Some krow /\
        aget (Run.inId x) ss = Some srow /\
        akeys krow = Run.inId <$> Expected.casualties inputs dropped /\
        akeys srow = Run.inId <$> Expected.survivors inputs dropped /\
        (forall d, d ∈ Expected.casualties inputs dropped ->
           aget (Run.inId d) krow
           = Some (Some (KeySplit
                           (shareAt (Expected.keyShares P inputs threshold d)
                              (Expected.shareIdx inputs x d))
                           (Expected.shareIdx inputs x d)))) /\
        (forall y, y ∈ Expected.survivors inputs dropped ->
           aget (Run.inId y) srow
           = Some (Some (SeedSplit
                           (shareAt (Expected.seedShares P inputs threshold y)
                              (Expected.shareIdx inputs x y))
                           (Expected.shareIdx inputs x y)))) /\
        (forall y, y ∈ inputs ->
           (1 <= Expected.shareIdx inputs x y <= length inputs)%nat /\
           forall x', x' ∈ inputs ->
             Expected.shareIdx inputs x y = Expected.shareIdx inputs x' y ->
             x = x').
Proof.
  intros Hrun. pose proof Hrun as (Hids & _).
  exists (Run.mkOutcome (Expected.wrappedMean inputs dropped)
            (Expected.plainMean inputs dropped)
            (Expected.server3 P inputs threshold dropped)
            (mkWorld
               (imap (Expected.client3 P inputs threshold dropped) inputs)
               (Expected.heap2 P inputs threshold dropped))),
    (Expected.keyStocker P inputs threshold dropped),
    (Expected.seedStocker P inputs threshold dropped).
  split_and!; [by apply run_outcome_assumed|reflexivity|reflexivity|..].
  - apply akeys_keyStocker.
  - apply akeys_seedStocker.
  - intros x Hx.
    exists (Expected.keyRow P inputs threshold dropped x),
      (Expected.seedRow P inputs threshold dropped x).
    pose proof (proj1 (elem_of_survivors inputs dropped x) Hx) as [Hxin _].
    split_and!.
    + unfold Expected.keyStocker.
      apply (aget_fmap_NoDup Run.inId
               (Expected.keyRow P inputs threshold dropped));
        [by apply NoDup_survivorIDs|done].
    + unfold Expected.seedStocker.
      apply (aget_fmap_NoDup Run.inId
               (Expected.seedRow P inputs threshold dropped));
        [by apply NoDup_survivorIDs|done].
    + unfold Expected.keyRow.
      apply (akeys_fmap_entries Run.inId
               (Expected.held P inputs threshold dropped x)).
    + unfold Expected.seedRow.
      apply (akeys_fmap_entries Run.inId
               (Expected.held P inputs threshold dropped x)).
    + intros d Hd. by apply aget_keyRow.
    + intros y Hy. by apply aget_seedRow.
    + intros y Hy. split; [by apply shareIdx_range|].
      intros x' Hx'. by apply shareIdx_inj.
Qed.

Lemma collectResponses_files_by_holder_and_owner_witness :
  exists o ks ss,
    Run.runPersonalized Example.toy Example.inputs4 2
      [[]; []; [0%nat]; []; []; []] = Ok o /\
    Server.keyStocker (Run.finalServer o) = Some ks /\
    Server.seedStocker (Run.finalServer o) = Some ss /\
    akeys ks = Run.inId <$> Expected.survivors Example.inputs4 [0%nat] /\
    akeys ss = Run.inId <$> Expected.survivors Example.inputs4 [0%nat] /\
    forall x, x ∈ Expected.survivors Example.inputs4 [0%nat] ->
      exists krow srow,
        aget (Run.inId x) ks = Some krow /\
        aget (Run.inId x) ss = Some srow /\
        akeys krow = Run.inId <$> Expected.casualties Example.inputs4 [0%nat]
        /\
        akeys srow = Run.inId <$> Expected.survivors Example.inputs4 [0%nat]
        /\
        (forall d, d ∈ Expected.casualties Example.inputs4 [0%nat] ->
           aget (Run.inId d) krow
           = Some (Some (KeySplit
                           (shareAt (Expected.keyShares Example.toy
                                       Example.inputs4 2 d)
                              (Expected.shareIdx Example.inputs4 x d))
                           (Expected.shareIdx Example.inputs4 x d)))) /\
        (forall y, y ∈ Expected.survivors Example.inputs4 [0%nat] ->
           aget (Run.inId y) srow
           = Some (Some (SeedSplit
                           (shareAt (Expected.seedShares Example.toy
                                       Example.inputs4 2 y)
                              (Expected.shareIdx Example.inputs4 x y))
                           (Expected.shareIdx Example.inputs4 x y)))) /\
        (forall y, y ∈ Example.inputs4 ->
           (1 <= Expected.shareIdx Example.inputs4 x y
            <= length Example.inputs4)%nat /\
           forall x', x' ∈ Example.inputs4 ->
             Expected.shareIdx Example.inputs4 x y
             = Expected.shareIdx Example.inputs4 x' y ->
             x = x').
Proof.
  apply (collectResponses_files_by_holder_and_owner Example.toy
           Example.inputs4 2 [0%nat]).
  exact toy_assumptions.
Defined.

(** X10. In round 3 the server rebuilds the seed private key of every
    client of U2 that is not in U3, and of no other client, and the self
    mask seed of every client of U3, and of no other client: there is no
    client of which it rebuilds both. *)
Theorem server_rebuilds_one_secret_of_each_client (P : Primitives)
    (inputs : list (Tape * PID * Q)) (threshold : Z) (dropped : list nat) :
  assumptions P inputs threshold dropped ->
  exists o keys seeds,
    Run.runPersonalized P inputs threshold [[]; []; dropped; []; []; []]
    = Ok o /\
    Server.keysRetrieved (Run.finalServer o) = Some keys /\
    Server.seedRecovered (Run.finalServer o) = Some seeds /\
    keys = (fun d => (Run.inId d, Expected.seedPriv d))
             <$> Expected.casualties inputs dropped /\
    seeds = (fun y => (Run.inId y, encodeNumber P (Expected.selfSeed y)))
              <$> Expected.survivors inputs dropped /\
    (forall x, x ∈ inputs ->
       (Run.inId x ∈ akeys keys <-> Expected.dead inputs dropped x) /\
       (Run.inId x ∈ akeys seeds <-> ~ Expected.dead inputs dropped x)) /\
    forall id, ~ (id ∈ akeys keys /\ id ∈ akeys seeds).
Proof.
  intros Hrun. pose proof Hrun as (Hids & _).
  exists (Run.mkOutcome (Expected.wrappedMean inputs dropped)
            (Expected.plainMean inputs dropped)
            (Expected.server3 P inputs threshold dropped)
            (mkWorld
               (imap (Expected.client3 P inputs threshold dropped) inputs)
               (Expected.heap2 P inputs threshold dropped))),
    (Expected.keysRetrieved inputs dropped),
    (Expected.seedRecovered P inputs dropped).
  assert (akeys (Expected.keysRetrieved inputs dropped)
          = Run.inId <$> Expected.casualties inputs dropped) as Hk.
  { unfold Expected.keysRetrieved.
    apply (akeys_fmap_entries Run.inId Expected.seedPriv). }
  assert (akeys (Expected.seedRecovered P inputs dropped)
          = Expected.survivorIDs inputs dropped) as Hs.
  { unfold Expected.seedRecovered.
    apply (akeys_fmap_entries Run.inId
             (fun y => encodeNumber P (Expected.selfSeed y))). }
  split_and!; [by apply run_outcome_assumed|reflexivity..| |].
  - intros x Hx. rewrite Hk, Hs. split; [|by apply elem_of_survivorIDs].
    rewrite list_elem_of_fmap. split.
    + intros [d [Heq [Hd Hdead]%elem_of_casualties]].
      by apply (dead_inId inputs dropped d x).
    + intros Hdead. exists x. split; [done|]. by apply elem_of_casualties.
  - intros id [Hin1 Hin2]. rewrite Hk in Hin1. rewrite Hs in Hin2.
    apply list_elem_of_fmap in Hin1 as [d [-> [Hd Hdead]%elem_of_casualties]].
    by apply (elem_of_survivorIDs inputs dropped d Hd) in Hin2.
Qed.

Lemma server_rebuilds_one_secret_of_each_client_witness :
  exists o keys seeds,
    Run.runPersonalized Example.toy Example.inputs4 2
      [[]; []; [0%nat]; []; []; []] = Ok o /\
    Server.keysRetrieved (Run.finalServer o) = Some keys /\
    Server.seedRecovered (Run.finalServer o) = Some seeds /\
    keys = (fun d => (Run.inId d, Expected.seedPriv d))
             <$> Expected.casualties Example.inputs4 [0%nat] /\
    seeds = (fun y => (Run.inId y,
                       encodeNumber Example.toy (Expected.selfSeed y)))
              <$> Expected.survivors Example.inputs4 [0%nat] /\
    (forall x, x ∈ Example.inputs4 ->
       (Run.inId x ∈ akeys keys <-> Expected.dead Example.inputs4 [0%nat] x) /\
       (Run.inId x ∈ akeys seeds
        <-> ~ Expected.dead Example.inputs4 [0%nat] x)) /\
    forall id, ~ (id ∈ akeys keys /\ id ∈ akeys seeds).
Proof.
  apply (server_rebuilds_one_secret_of_each_client Example.toy
           Example.inputs4 2 [0%nat]).
  exact toy_assumptions.
Defined.

(** X11. [aggregateWithoutSecrecy] adds, in binary64 and in the order of
    the list, the secrets of the clients of U3 only, and divides by their
    number: a client that was put down after round 1 does not count. *)
Theorem aggregateWithoutSecrecy_averages_the_survivors (P : Primitives)
    (inputs : list (Tape * PID * Q)) (threshold : Z) (dropped : list nat) :
  assumptions P inputs threshold dropped ->
  exists o,
    Run.runPersonalized P inputs threshold [[]; []; dropped; []; []; []]
    = Ok o /\
    Server.aggregateWithoutSecrecy (Run.finalServer o) (Run.finalWorld o)
    = Ok (Run.plain o) /\
    Run.plain o
    = numDiv
        (fold_left numAdd
           (Run.inSecret
              <$> filter (fun x => ~ Expected.dead inputs dropped x) inputs)
           (Finite 0))
        (inject_Z
           (Z.of_nat
              (length (filter (fun x => ~ Expected.dead inputs dropped x)
                         inputs)))).
Proof.
  intros Hrun. pose proof Hrun as (Hids & _).
  eexists. split; [by apply run_outcome_assumed|]. simpl. split.
  - unfold Expected.heap2.
    apply (addSecret_loop P inputs threshold dropped Hids); reflexivity.
  - unfold Expected.plainMean. f_equal.
    fold (Expected.survivors inputs dropped).
    generalize (Finite 0). induction (Expected.survivors inputs dropped)
      as [|a l IH]; intros n; [done|]. simpl. apply IH.
Qed.

Lemma aggregateWithoutSecrecy_averages_the_survivors_witness :
  exists o,
    Run.runPersonalized Example.toy Example.inputs4 2
      [[]; []; [0%nat]; []; []; []] = Ok o /\
    Server.aggregateWithoutSecrecy (Run.finalServer o) (Run.finalWorld o)
    = Ok (Run.plain o) /\
    Run.plain o
    = numDiv
        (fold_left numAdd
           (Run.inSecret
              <$> filter (fun x => ~ Expected.dead Example.inputs4 [0%nat] x)
                    Example.inputs4)
           (Finite 0))
        (inject_Z
           (Z.of_nat
              (length (filter
                         (fun x => ~ Expected.dead Example.inputs4 [0%nat] x)
                         Example.inputs4)))).
Proof.
  apply (aggregateWithoutSecrecy_averages_the_survivors Example.toy
           Example.inputs4 2 [0%nat]).
  exact toy_assumptions.
Defined.

(** ** Dropouts, and what a round touches *)

Lemma putDown_idempotent (c : Client.state) :
  Client.putDown (Client.putDown c) = Client.putDown c.
Proof. reflexivity. Qed.

(** X12. The loops of [runPersonalized] that simulate dropouts put down
    the clients at the given positions and no other, leave the lists of
    peers alone, and do so whether a position is given once or more; they
    return when every position is one of the array. *)
Theorem putDownAll_marks_the_positions (indexes : list nat) (w : World) :
  Forall (fun d => (d < length (clientObjs w))%nat) indexes ->
  exists w',
    Run.putDownAll indexes w = Ok w' /\
    heap w' = heap w /\
    length (clientObjs w') = length (clientObjs w) /\
    forall i c, clientObjs w !! i = Some c ->
      clientObjs w' !! i
      = Some (if bool_decide (i ∈ indexes) then Client.putDown c else c).
Proof.
  revert w. induction indexes as [|d ds IH]; intros w Hds.
  - exists w. split_and!; done.
  - apply Forall_cons in Hds as [Hd Hds].
    destruct (lookup_lt_is_Some_2 _ _ Hd) as [c0 Hc0].
    unfold Run.putDownAll. rewrite foldM_cons, Hc0, orThrow_Some, !bind_Ok.
    set (w1 := mkWorld _ _). fold (Run.putDownAll ds w1).
    destruct (IH w1) as (w' & Hrun & Hheap & Hlen & Hall).
    { unfold w1. simpl. by rewrite length_insert. }
    exists w'. split_and!; [done|by rewrite Hheap|..].
    + rewrite Hlen. unfold w1. simpl. by rewrite length_insert.
    + intros i c Hc. destruct (decide (i = d)) as [->|Hne].
      * rewrite (Hall d (Client.putDown c0)).
        2: { unfold w1. simpl. by rewrite list_lookup_insert_eq. }
        rewrite (bool_decide_true (d ∈ d :: ds)) by left. f_equal.
        assert (c = c0) as -> by congruence.
        by destruct (bool_decide (d ∈ ds)).
      * rewrite (Hall i c).
        2: { unfold w1. simpl. by rewrite list_lookup_insert_ne. }
        f_equal. destruct (decide (i ∈ ds)) as [Hin|Hnin].
        -- rewrite (bool_decide_true (i ∈ ds)) by done.
           by rewrite (bool_decide_true (i ∈ d :: ds)) by (by right).
        -- rewrite (bool_decide_false (i ∈ ds)) by done.
           rewrite (bool_decide_false (i ∈ d :: ds)); [done|].
           intros [?|?]%elem_of_cons; done.
Qed.

Lemma putDownAll_marks_the_positions_witness :
  exists w',
    Run.putDownAll [2%nat; 0%nat; 2%nat]
      (snd (Example.afterRound0 Example.inputs3 2)) = Ok w' /\
    heap w' = heap (snd (Example.afterRound0 Example.inputs3 2)) /\
    length (clientObjs w')
    = length (clientObjs (snd (Example.afterRound0 Example.inputs3 2))) /\
    forall i c,
      clientObjs (snd (Example.afterRound0 Example.inputs3 2)) !! i = Some c ->
      clientObjs w' !! i
      = Some (if bool_decide (i ∈ [2%nat; 0%nat; 2%nat])
              then Client.putDown c else c).
Proof.
  apply (putDownAll_marks_the_positions [2%nat; 0%nat; 2%nat]
           (snd (Example.afterRound0 Example.inputs3 2))).
  by_decision.
Defined.

Lemma addPairwiseMask_frame (P : Primitives) (c : Client.state) (k : PID)
    (view view' : Z) (h h' : Heap) :
  Client.addPairwiseMask P c k (view, h) = Ok (view', h') ->
  exists l o o',
    Client.clientList c = Some l /\ h !! l = Some o /\
    h' = <[l := o']> h /\ akeys o' = akeys o.
Proof.
  unfold Client.addPairwiseMask. intros Hrun.
  destruct (Client.clientList c) as [l|]; [|done]. simpl in Hrun.
  destruct (h !! l) as [o|] eqn:Ho; [|done]. simpl in Hrun.
  destruct (aget k o) as [e|] eqn:He; [|done]. simpl in Hrun.
  destruct (Peer.PRNG e) as [g|]; [|done]. simpl in Hrun.
  exists l, o, (aset k (Peer.set_PRNG (mkPRNG (prng_seed g) (S (prng_drawn g)))
                          e) o).
  split_and!; [done|done| |].
  - repeat case_match; by simplify_eq.
  - apply akeys_aset_in. apply aget_is_Some. by eexists.
Qed.

(** X13. A client's round 2 writes to one object only, the client's own
    list of peers, in which it advances generators and neither adds nor
    removes a peer; the lists of the other clients and of the server, the
    number of objects, and the client's fields other than the masked
    value are as before. *)
Theorem round2_touches_the_own_list_only (P : Primitives)
    (c c' : Client.state) (h h' : Heap) :
  Client.round2 P c h = Ok (c', h') ->
  length h' = length h /\
  (forall l, Client.clientList c <> Some l -> h' !! l = h !! l) /\
  (forall l, akeys <$> h' !! l = akeys <$> h !! l) /\
  Client.set_maskedGradient None c' = Client.set_maskedGradient None c.
Proof.
  unfold Client.round2. destruct (Client.isUp c); [|by intros [= <- <-]].
  unfold Client.computeMaskedInputVector. intros Hrun.
  destruct (foldM (Client.addPairwiseMask P c) _ (0, h)) as [[view h1]|]
    eqn:Hloop; [|done].
  rewrite bind_Ok in Hrun. cbv beta iota in Hrun.
  destruct (secretValueRounded (Client.secretValue c)) as [r|]; [|done].
  rewrite orThrow_Some, bind_Ok in Hrun. injection Hrun as <- <-.
  assert (length h1 = length h /\
          (forall l, Client.clientList c <> Some l -> h1 !! l = h !! l) /\
          (forall l, akeys <$> h1 !! l = akeys <$> h !! l)) as Hinv.
  { apply (foldM_invariant
             (fun st : Z * Heap =>
                length (snd st) = length h /\
                (forall l, Client.clientList c <> Some l ->
                   snd st !! l = h !! l) /\
                (forall l, akeys <$> snd st !! l = akeys <$> h !! l))
             (Client.addPairwiseMask P c)
             (akeys (Client.objAt h (Client.clientListU2 c))) (0, h)
             (view, h1)); [|done|done].
    intros k [v2 h2] [v3 h3] (Hlen & Hframe & Hkeys) Hstep. simpl in *.
    apply addPairwiseMask_frame in Hstep
      as (l & o & o' & Hcl & Ho & -> & Hk).
    split_and!.
    - by rewrite length_insert.
    - intros l' Hne. rewrite list_lookup_insert_ne by congruence.
      by apply Hframe.
    - intros l'. destruct (decide (l' = l)) as [->|Hne].
      + rewrite list_lookup_insert_eq by (by eapply lookup_lt_Some).
        rewrite <- Hkeys, Ho. simpl. by rewrite Hk.
      + rewrite list_lookup_insert_ne by done. apply Hkeys. }
  destruct Hinv as (Hlen & Hframe & Hkeys). split_and!; done.
Qed.

Lemma round2_touches_the_own_list_only_witness :
  length (snd Example.round2Sample)
  = length (heap (snd (Example.afterRound1 Example.inputs3 2 [] []))) /\
  (forall l,
     Client.clientList
       (Example.clientAt (Example.afterRound1 Example.inputs3 2 [] []) 0)
     <> Some l ->
     snd Example.round2Sample !! l
     = heap (snd (Example.afterRound1 Example.inputs3 2 [] [])) !! l) /\
  (forall l,
     akeys <$> snd Example.round2Sample !! l
     = akeys <$> heap (snd (Example.afterRound1 Example.inputs3 2 [] [])) !! l)
  /\
  Client.set_maskedGradient None (fst Example.round2Sample)
  = Client.set_maskedGradient None
      (Example.clientAt (Example.afterRound1 Example.inputs3 2 [] []) 0).
Proof.
  apply (round2_touches_the_own_list_only Example.toy
           (Example.clientAt (Example.afterRound1 Example.inputs3 2 [] []) 0)
           (fst Example.round2Sample)
           (heap (snd (Example.afterRound1 Example.inputs3 2 [] [])))
           (snd Example.round2Sample)).
  vm_compute. reflexivity.
Defined.

(** ** Secrets that are integers *)

(** Binary64 arithmetic is exact on the integers below [2^53]: the
    conversions of [computeMaskedInputVector] and the additions of
    [aggregateWithoutSecrecy] then lose nothing. *)

Lemma sumZ_abs_nonneg {A} (g : A -> Z) (l : list A) :
  0 <= sumZ ((fun x => Z.abs (g x)) <$> l).
Proof.
  induction l as [|a l IH]; [done|]. rewrite fmap_cons, sumZ_cons. lia.
Qed.

Lemma sumZ_abs_elem {A} (g : A -> Z) (l : list A) (x : A) :
  x ∈ l -> Z.abs (g x) <= sumZ ((fun x => Z.abs (g x)) <$> l).
Proof.
  induction l as [|a l IH]; [by intros ?%elem_of_nil|].
  rewrite fmap_cons, sumZ_cons. pose proof (sumZ_abs_nonneg g l).
  intros [->|Hx]%elem_of_cons; [lia|]. specialize (IH Hx). lia.
Qed.

Lemma sumZ_abs_le {A} (g : A -> Z) (l : list A) :
  Z.abs (sumZ (g <$> l)) <= sumZ ((fun x => Z.abs (g x)) <$> l).
Proof.
  induction l as [|a l IH]; [done|]. rewrite !fmap_cons, !sumZ_cons. lia.
Qed.

Lemma sumZ_fmap_scale {A} (g : A -> Z) (k : Z) (l : list A) :
  sumZ ((fun x => g x * k) <$> l) = sumZ (g <$> l) * k.
Proof.
  induction l as [|a l IH]; [done|]. rewrite !fmap_cons, !sumZ_cons, IH. lia.
Qed.

Lemma integral_secret (x : Tape * PID * Q) :
  Qden (Run.inSecret x) = 1%positive ->
  Run.inSecret x = inject_Z (Qnum (Run.inSecret x)).
Proof. destruct (Run.inSecret x) as [n d]. simpl. by intros ->. Qed.

(** The binary64 sum of integers whose magnitudes add up to less than
    [2^53] is their sum. *)
Lemma plain_sum_integers (l : list (Tape * PID * Q)) (a : Z) :
  Forall (fun x => Qden (Run.inSecret x) = 1%positive) l ->
  Z.abs a + sumZ ((fun x => Z.abs (Qnum (Run.inSecret x))) <$> l) < 2 ^ 53 ->
  fold_left (fun sum x => numAdd sum (Run.inSecret x)) l
    (Finite (inject_Z a))
  = Finite (inject_Z (a + sumZ ((fun x => Qnum (Run.inSecret x)) <$> l))).
Proof.
  revert a. induction l as [|x l IH]; intros a Hint Hb.
  - simpl. do 2 f_equal. unfold sumZ. simpl. lia.
  - apply Forall_cons in Hint as [Hx Hl].
    rewrite fmap_cons, sumZ_cons in Hb. rewrite fmap_cons, sumZ_cons.
    pose proof (sumZ_abs_nonneg (fun x => Qnum (Run.inSecret x)) l).
    cbn [fold_left numAdd].
    rewrite (fl_integer _ (a + Qnum (Run.inSecret x))).
    + rewrite IH; [do 2 f_equal; lia | done | lia].
    + rewrite (integral_secret x Hx) at 1. by rewrite inject_Z_plus.
    + lia.
Qed.

Lemma fixedPoint_integer (x : Tape * PID * Q) :
  Qden (Run.inSecret x) = 1%positive ->
  Z.abs (Qnum (Run.inSecret x)) * 10000 < 2 ^ 52 ->
  secretValueRounded (Run.inSecret x) = Some (Qnum (Run.inSecret x) * 10000).
Proof.
  intros Hd Hb. rewrite (integral_secret x Hd) at 1.
  by apply secretValueRounded_integer.
Qed.

(** X14. In a run in which the clients at the positions [dropped] are put
    down between round 1 and round 2, at least [threshold] clients stay
    up and the libraries behave, when the secret of every client that
    stays up is an integer [n_i] and [(|n_1| + ... + |n_k|) * 10^4 < 2^31],
    the run returns and the value of [round3()] is the value of
    [aggregateWithoutSecrecy()]: the sum [n_1 + ... + n_k], exact, divided
    in binary64 by the number [k] of clients that stayed up. *)
Theorem integral_secrets_give_the_plain_mean (P : Primitives)
    (inputs : list (Tape * PID * Q)) (threshold : Z) (dropped : list nat) :
  NoDup (Expected.ids inputs) ->
  Forall (fun d => (d < length inputs)%nat) dropped ->
  threshold <= Z.of_nat (length (Expected.survivors inputs dropped)) ->
  bitsLongEnough P -> symmetricBits P inputs -> symmetricKeys P inputs ->
  sharesNumbered P (length inputs) threshold ->
  shamirRecovers P (length inputs) threshold ->
  keysRecoverable P inputs dropped -> seedsRecoverable P inputs dropped ->
  Forall (fun x => Qden (Run.inSecret x) = 1%positive)
    (Expected.survivors inputs dropped) ->
  sumZ ((fun x => Z.abs (Qnum (Run.inSecret x)))
          <$> Expected.survivors inputs dropped) * 10000 < 2 ^ 31 ->
  exists o,
    Run.runPersonalized P inputs threshold [[]; []; dropped; []; []; []]
    = Ok o /\
    Run.masked o = Run.plain o /\
    Run.plain o
    = numDiv
        (Finite (inject_Z (sumZ ((fun x => Qnum (Run.inSecret x))
                                   <$> Expected.survivors inputs dropped))))
        (inject_Z (Z.of_nat (length (Expected.survivors inputs dropped)))).
Proof.
  intros Hids Hdr Hsurv Hbits Hsb Hsk Hnum Hsh Hkeys Hseeds Hint Hb.
  set (l := Expected.survivors inputs dropped) in *.
  pose (num := fun x : Tape * PID * Q => Qnum (Run.inSecret x)).
  change (sumZ ((fun x => Z.abs (num x)) <$> l) * 10000 < 2 ^ 31) in Hb.
  change (Forall (fun x => Qden (Run.inSecret x) = 1%positive) l) in Hint.
  change (fun x : Tape * PID * Q => Qnum (Run.inSecret x)) with num.
  assert (forall x, x ∈ l ->
    secretValueRounded (Run.inSecret x) = Some (num x * 10000)) as Henc.
  { intros x Hx. apply fixedPoint_integer.
    - by apply (proj1 (Forall_forall _ l) Hint).
    - pose proof (sumZ_abs_elem num l x Hx). fold (num x). lia. }
  assert (Expected.fixedPointSum inputs dropped = sumZ (num <$> l) * 10000)
    as Hsum.
  { unfold Expected.fixedPointSum. fold l.
    rewrite <- sumZ_fmap_scale. apply sumZ_fmap_ext.
    intros x Hx. unfold Expected.fixedPoint. by rewrite (Henc x Hx). }
  pose proof (sumZ_abs_le num l) as Habs.
  assert (Run.runPersonalized P inputs threshold [[]; []; dropped; []; []; []]
          = Ok (Run.mkOutcome (Expected.wrappedMean inputs dropped)
                  (Expected.plainMean inputs dropped)
                  (Expected.server3 P inputs threshold dropped)
                  (mkWorld
                     (imap (Expected.client3 P inputs threshold dropped)
                        inputs)
                     (Expected.heap2 P inputs threshold dropped)))) as Hrun.
  { apply run_outcome; try done.
    unfold secretsInRange. fold l. apply Forall_forall.
    intros x Hx. rewrite (Henc x Hx). by eexists. }
  eexists. split; [exact Hrun|]. cbn [Run.masked Run.plain].
  assert (Expected.plainMean inputs dropped
          = numDiv (Finite (inject_Z (sumZ (num <$> l))))
              (inject_Z (Z.of_nat (length l)))) as Hplain.
  { unfold Expected.plainMean. fold l.
    change (Finite 0) with (Finite (inject_Z 0)).
    rewrite (plain_sum_integers l 0); [done|done|].
    change (Z.abs 0 + sumZ ((fun x => Z.abs (num x)) <$> l) < 2 ^ 53). lia. }
  split; [|exact Hplain].
  rewrite Hplain. unfold Expected.wrappedMean. fold l.
  rewrite Hsum, toInt32_id by (unfold int32; lia).
  f_equal. unfold numDiv at 1.
  change (Qeq_bool 10000 0) with false. cbv iota. f_equal.
  apply fl_integer; [|lia].
  rewrite inject_Z_mult. change 10000%Q with (inject_Z 10000). field.
Qed.

Lemma integral_secrets_give_the_plain_mean_witness :
  exists o,
    Run.runPersonalized Example.toy Example.inputs4 2
      [[]; []; [0%nat; 1%nat]; []; []; []] = Ok o /\
    Run.masked o = Run.plain o /\
    Run.plain o
    = numDiv
        (Finite (inject_Z
                   (sumZ ((fun x => Qnum (Run.inSecret x))
                            <$> Expected.survivors Example.inputs4
                                  [0%nat; 1%nat]))))
        (inject_Z (Z.of_nat (length (Expected.survivors Example.inputs4
                                       [0%nat; 1%nat])))).
Proof.
  apply (integral_secrets_give_the_plain_mean Example.toy Example.inputs4 2
           [0%nat; 1%nat]).
  - by_decision.
  - by_decision.
  - vm_compute. discriminate.
  - exact toy_bits.
  - unfold symmetricBits. by_decision.
  - unfold symmetricKeys. by_decision.
  - apply toy_numbered; by_decision.
  - apply toy_shamir.
  - unfold keysRecoverable. by_decision.
  - unfold seedsRecoverable. by_decision.
  - by_decision.
  - by_decision.
Defined.

(** ** Who is told what in round 2 *)

Lemma filter_none {A} (Q : A -> Prop) `{forall a, Decision (Q a)}
    (l : list A) :
  (forall a, a ∈ l -> ~ Q a) -> filter Q l = [].
Proof.
  induction l as [|a l IH]; [done|]. intros Hn.
  rewrite filter_cons_False by (apply Hn; by left).
  apply IH. intros b Hb. apply Hn. by right.
Qed.

Lemma filter_same_key {A B} `{EqDecision B} (f : A -> B) (l : list A) (x : A) :
  NoDup (f <$> l) -> x ∈ l -> filter (fun y => f y = f x) l = [x].
Proof.
  induction l as [|a l IH]; [by intros _ ?%elem_of_nil|].
  rewrite fmap_cons, NoDup_cons. intros [Ha Hl] [->|Hx]%elem_of_cons.
  - rewrite filter_cons_True by done. f_equal.
    apply filter_none. intros y Hy Heq.
    apply Ha. rewrite <- Heq. by apply list_elem_of_fmap_2.
  - rewrite filter_cons_False; [by apply IH|].
    intros Heq. apply Ha. rewrite Heq. by apply list_elem_of_fmap_2.
Qed.

(** Of the ids of U3, a survivor's own is the only one that its list
    does not hold. *)
Lemma strangers_of_a_survivor (inputs : list (Tape * PID * Q))
    (dropped : list nat) (x : Tape * PID * Q) :
  NoDup (Expected.ids inputs) ->
  x ∈ Expected.survivors inputs dropped ->
  filter (fun key => key ∉ Expected.peerIDs inputs x)
    (Expected.survivorIDs inputs dropped)
  = [Run.inId x].
Proof.
  intros Hids Hx. unfold Expected.survivorIDs.
  rewrite (filter_fmap_iff Run.inId
             (fun key => key ∉ Expected.peerIDs inputs x)
             (fun y => Run.inId y = Run.inId x)).
  - rewrite (filter_same_key Run.inId _ x); [done| |done].
    unfold Expected.survivors. by apply NoDup_fmap_filter.
  - intros y [Hy _]%elem_of_survivors. unfold Expected.peerIDs. split.
    + intros Hn. apply dec_stable. intros Hne. apply Hn.
      apply list_elem_of_fmap_2. by apply elem_of_peers.
    + intros Heq (z & Hz & [Hzin Hzne]%elem_of_peers)%list_elem_of_fmap.
      congruence.
Qed.

(** The ids of its list that a survivor does not find in U3 are those of
    the clients that dropped. *)
Lemma dropped_peers_of_a_survivor (inputs : list (Tape * PID * Q))
    (dropped : list nat) (x : Tape * PID * Q) :
  x ∈ Expected.survivors inputs dropped ->
  filter (fun key => key ∉ Expected.survivorIDs inputs dropped)
    (Expected.peerIDs inputs x)
  = Run.inId <$> Expected.casualties inputs dropped.
Proof.
  intros [Hx Hlive]%elem_of_survivors.
  unfold Expected.peerIDs, Expected.casualties, Expected.peers.
  rewrite (filter_fmap_iff Run.inId
             (fun key => key ∉ Expected.survivorIDs inputs dropped)
             (Expected.dead inputs dropped)).
  - f_equal. rewrite list_filter_filter. apply list_filter_iff.
    intros y. split; [tauto|]. intros Hd. split; [done|].
    intros Heq. apply Hlive. by apply (dead_inId inputs dropped y x).
  - intros y [_ Hy]%list_elem_of_filter.
    rewrite (elem_of_survivorIDs inputs dropped y Hy). split; [|tauto].
    apply dec_stable.
Qed.

(** X15. Where [split] returns its [N] shares, after round 2 of a run in
    which the clients at the positions [dropped] are put down between
    round 1 and round 2 and at least [threshold] clients stay up: the server's [clientIDsU2] holds every
    id and its [clientU2NotInU3] the ids of the clients that dropped, in
    list order; a client that stayed up has in [clientIDsU2] the ids of
    its peers, in [clientIDsU3] the server's U3, of which its own id is
    the single one that its U2 does not hold, and in [IDsinU2NotInU3] the
    ids of the clients that dropped; a client that dropped is told
    nothing: its [clientIDsU2], [clientIDsU3], [IDsinU2NotInU3] and
    [maskedGradient] are still undefined. *)
Theorem round2_records_who_dropped (P : Primitives)
    (inputs : list (Tape * PID * Q)) (threshold : Z) (dropped : list nat) :
  NoDup (Expected.ids inputs) ->
  Forall (fun d => (d < length inputs)%nat) dropped ->
  threshold <= Z.of_nat (length (Expected.survivors inputs dropped)) ->
  bitsLongEnough P ->
  sharesNumbered P (length inputs) threshold ->
  secretsInRange inputs dropped ->
  exists s w,
    (sw ← Run.round0 (length inputs) (Run.generation inputs threshold);
     sw ← Run.round1 P (length inputs) [] [] sw;
     Run.round2 P (length inputs) dropped [] sw) = Ok (s, w) /\
    Server.clientIDsU2 s = Some (Expected.ids inputs) /\
    Server.clientU2NotInU3 s
    = Some (Run.inId <$> Expected.casualties inputs dropped) /\
    forall i x, inputs !! i = Some x ->
      exists c,
        clientObjs w !! i = Some c /\
        (x ∈ Expected.survivors inputs dropped ->
           Client.clientIDsU2 c = Some (Expected.peerIDs inputs x) /\
           Client.clientIDsU3 c = Some (Expected.survivorIDs inputs dropped) /\
           filter (fun key => key ∉ Expected.peerIDs inputs x)
             (Expected.survivorIDs inputs dropped) = [Run.inId x] /\
           Client.IDsinU2NotInU3 c
           = Some (Run.inId <$> Expected.casualties inputs dropped)) /\
        (x ∈ Expected.casualties inputs dropped ->
           Client.isUp c = false /\
           Client.clientIDsU2 c = None /\
           Client.clientIDsU3 c = None /\
           Client.IDsinU2NotInU3 c = None /\
           Client.maskedGradient c = None).
Proof.
  intros Hids Hdr Hsurv Hbits Hnum Hsec.
  exists (Expected.server2 P inputs threshold dropped),
    (mkWorld (imap (Expected.client2b P inputs threshold dropped) inputs)
       (Expected.heap2 P inputs threshold dropped)).
  split_and!.
  - apply run_until_round2; try done.
    + pose proof (length_survivors inputs dropped). lia.
    + by apply Forall_forall.
    + intros x Hx Hlive. unfold secretsInRange in Hsec.
      rewrite Forall_forall in Hsec. apply Hsec.
      by apply elem_of_survivors.
  - reflexivity.
  - destruct (server2_fields P inputs threshold dropped)
      as (_ & _ & _ & _ & Hd & _).
    by rewrite Hd, droppedIDs_casualties.
  - intros i x Hi.
    exists (Expected.client2b P inputs threshold dropped i x). split_and!.
    + simpl. by rewrite list_lookup_imap, Hi.
    + intros Hx. pose proof Hx as [_ Hlive]%elem_of_survivors.
      rewrite client2b_alive by done. split_and!.
      * reflexivity.
      * reflexivity.
      * by apply strangers_of_a_survivor.
      * cbn [Client.IDsinU2NotInU3 Client.set_IDsinU2NotInU3].
        by rewrite dropped_peers_of_a_survivor.
    + intros [_ Hd]%elem_of_casualties.
      rewrite client2b_dead, client2_dead by done.
      repeat apply conj; reflexivity.
Qed.

Lemma round2_records_who_dropped_witness :
  exists s w,
    (sw ← Run.round0 (length Example.inputs4)
            (Run.generation Example.inputs4 2);
     sw ← Run.round1 Example.toy (length Example.inputs4) [] [] sw;
     Run.round2 Example.toy (length Example.inputs4) [0%nat] [] sw)
    = Ok (s, w) /\
    Server.clientIDsU2 s = Some (Expected.ids Example.inputs4) /\
    Server.clientU2NotInU3 s
    = Some (Run.inId <$> Expected.casualties Example.inputs4 [0%nat]) /\
    forall i x, Example.inputs4 !! i = Some x ->
      exists c,
        clientObjs w !! i = Some c /\
        (x ∈ Expected.survivors Example.inputs4 [0%nat] ->
           Client.clientIDsU2 c = Some (Expected.peerIDs Example.inputs4 x) /\
           Client.clientIDsU3 c
           = Some (Expected.survivorIDs Example.inputs4 [0%nat]) /\
           filter (fun key => key ∉ Expected.peerIDs Example.inputs4 x)
             (Expected.survivorIDs Example.inputs4 [0%nat]) = [Run.inId x] /\
           Client.IDsinU2NotInU3 c
           = Some (Run.inId <$> Expected.casualties Example.inputs4 [0%nat])) /\
        (x ∈ Expected.casualties Example.inputs4 [0%nat] ->
           Client.isUp c = false /\
           Client.clientIDsU2 c = None /\
           Client.clientIDsU3 c = None /\
           Client.IDsinU2NotInU3 c = None /\
           Client.maskedGradient c = None).
Proof.
  apply (round2_records_who_dropped Example.toy Example.inputs4 2 [0%nat]).
  - by_decision.
  - by_decision.
  - vm_compute. discriminate.
  - exact toy_bits.
  - apply toy_numbered; by_decision.
  - unfold secretsInRange. by_decision.
Defined.
